(* ===== verification/_CoqProject ===== *)
-Q . S2P
Prelude.v
Bytes.v
Crypto.v
Types.v
State.v
Consensus.v
Chain.v
Mempool.v
Wire.v
Admin.v
Mining.v
NodeState.v
NodeMining.v
Home.v
Peers.v
Client.v
Files.v
Wallet.v
Aliases.v
Peer.v
Session.v
Restart.v
TxIndex.v
Store.v
StoreProofs.v
StoreSave.v
HomeDir.v
HomeProofs.v
Runtime.v
Server.v
ServerLogic.v
ServerRelay.v
ServerStore.v
ServerReturns.v
ServerSync.v
Convergence.v
Shell.v
ShellProofs.v
AdminTask.v
Inbound.v
CliText.v
Cli.v
CliFrame.v
CliProofs.v
Process.v
ProcessProofs.v
EndToEnd.v
ServerDemo.v
ShellDemo.v
HomeDemo.v
CliDemo.v
