(* ===== verification/Prelude.v ===== *)
(** * wobble: a verified model of a small UTXO block chain node

    wobble (src/src) is a proof-of-work node: it validates transactions and
    blocks, keeps a block index and the coin set of the best chain, pools
    pending transactions, mines, talks to peers over newline-delimited JSON and
    persists its state in SQLite.  This library models its components as executable
    definitions translated from the source and proves what makes each of them
    correct; every definition keeps the name of the function it translates
    (methods of several types are told apart by a prefix, [Wallet_key] for
    [Wallet::key]).

    ** The parts, from the bottom up

    - Prelude.v, Bytes.v: [result] (a Rust [Result] that may also panic),
      machine integers as [Z] with their width, iterator adaptors, byte order
      and hexadecimal text; the tactics [inv_result], [vm_decide] and the hint
      database [wobble].
    - Crypto.v (crypto.rs), Types.v (types.rs): hashes and signatures over the
      class [Crypto]; transactions, blocks, canonical encodings, the Merkle root.
    - State.v (state.rs), Consensus.v (consensus.rs), Chain.v (chain.rs),
      Mempool.v (mempool.rs): the ledger rules, compact targets and block
      application, the block index with best-tip selection, the pool.
    - Mining.v (mining.rs): candidates, the nonce search, and the worker thread
      with its handle as an interleaving of atomic steps.
    - NodeState.v (node_state.rs): composes the five above into [accept_block],
      [submit_transaction], [mine_block], payments, and the rebuild at restart;
      NodeMining.v proves what [mine_block] does on every branch, Restart.v when
      that rebuild is exact.
    - Wire.v (wire.rs), Admin.v (admin.rs), Client.v (net.rs, client.rs): the
      messages, their framing, the one-shot clients over a stream.
    - Peer.v and Session.v (peer.rs): the protocol dispatcher over a node state;
      the duplex session task, its request deadlines and the caller's handle.
    - Home.v (home.rs), Peers.v (peers.rs), TxIndex.v (tx_index.rs):
      configuration, peer records, rows of the transaction index.
    - Files.v, Wallet.v (wallet.rs), Aliases.v (aliases.rs, the peer file of
      peers.rs): a disk whose operations may fail, the keyring, the alias book.
    - Store.v (sqlite_store.rs): every operation of the store over tables as
      finite maps, with transactions and rollback; StoreProofs.v and StoreSave.v
      relate the tables to a node state ([stores db s]).
    - Runtime.v and Server.v (server.rs): the server state, its outbound
      sessions, handlers, sync, relay, persistence policy and event loop, in
      the monad [server_op] over a [World].  ServerLogic.v, ServerRelay.v,
      ServerStore.v, ServerReturns.v and ServerSync.v prove its properties,
      Convergence.v what two nodes that sync from each other end up with;
      ServerDemo.v runs them in a concrete network.
    - Shell.v, ShellProofs.v, ShellDemo.v (server.rs, the threads around the
      loop): the main thread, the event loop, the session and listener tasks
      that send it events and the mining worker, as a step relation over one bounded
      channel; start, shutdown and the stop handle.  AdminTask.v: [run_admin], the
      task that serves the local admin socket.  Inbound.v: an accepted peer
      connection, the session and the event loop running against each other.
    - HomeDir.v, HomeProofs.v, HomeDemo.v (home.rs): the directory of a node,
      its default location, initialisation, and the config file.
    - CliText.v, Cli.v (main.rs): number and key arguments, and every command,
      as a program over the disk, the standard output and the connections it makes
      ([cli_op]).  CliFrame.v says which files a command may write, CliProofs.v
      what the commands compute, EndToEnd.v follows a payment from the command line
      through the admin socket into the node and its database.
    - Process.v, ProcessProofs.v ([main] of main.rs, logging.rs): the process around a
      command, with the set-up of its log, its standard error and its exit code.
      CliDemo.v applies the theorems about commands, processes and connections to a
      concrete home.

    ** Interfaces

    Code outside the repository is a class with its documented laws: [Crypto]
    (sha2, ed25519_dalek; no collision resistance is assumed), [SerdeJson],
    [PrettyJson] (serde_json), [Bincode], [FileCodec] (bincode), [Environment]
    (sockets, clock and miner, whose every answer may depend on all
    effects so far; [EnvironmentReturns] says that it fails with errors, not
    panics), [FileFormats] (the formats of all files of a home, the SQLite
    image included), [Surroundings] (what a command finds around it: environment
    variables, clock, fresh keys, sockets), [Tracing] (the log file appender).  Each has a concrete instance (the
    modules [Toy], [Demo...]) in which the witnesses evaluate.

    ** What is proved

    - Ledger: validation decides an independent notion of validity
      ([State.validate_transaction_correct]); application is exact, conserves
      value and admits no double spend; a block raises the supply by at most
      the subsidy ([Consensus.apply_block_supply]).
    - Chain and node: the tip has maximal work; the active coins are the
      specification fold of the best chain ([NodeState.active_view_is_best_chain]);
      pending transactions stay valid and conflict-free in every reachable
      state; no operation panics within its bounds.
    - Mining: the search ends within 2^32 attempts exactly when some nonce
      validates; the worker abandons stale candidates in every interleaving.
    - Encodings: injectivity, round trips, the Merkle loop against the textbook
      tree.
    - Protocol and session: each message's effect and reply; every request is
      answered exactly once, and at the latest at its deadline.
    - Persistence: save then load is the identity; the incremental saves agree
      with the full one; wallet files round trip.
    - Server: no event breaks the server invariant whatever the network does;
      only news is told to peers, and not to its origin; an announced
      block is in the database unless one of its own transactions stays pending; sync reaches the advertised tip of an honest
      peer and does not end with a peer that keeps inventing parents.
    - Convergence: a pushed tip brings a node to the heavier of its own and the
      peer's best chain, coins and database included; after both have synced, two
      nodes agree unless their chains tie ([Convergence.nodes_converge]).
    - Shell: every interleaving of the threads handles the events in the order
      they were sent, with the states [run_event_loop] computes
      ([ShellProofs.shell_refines_event_loop]); a stop request can always be
      completed, unless a handler does not return or the miner has solved a block
      while the channel is full, which hangs ([ShellProofs.shutdown_can_hang]).
    - Connections: the admin client and the one-shot peer client get, through their
      sockets, what the handlers of the event loop computed.
    - Home, commands and processes: initialisation creates what is missing and keeps what exists; a
      process writes only its command's files, SQLite's journal and the log (for [serve] up
      to the start of the server); [pay], [serve],
      [debug mine-pending], and the first run of a node ([ProcessProofs.first_run]) do
      what they say, errors included; a payment from the command line ends up pending
      in the node and its database ([EndToEnd.payment_reaches_node]).

    Theorems about behaviour that is probably not meant (a failed block that
    stays best tip, a mutated Merkle leaf list, an interrupted save that refuses
    restart, a late reply that completes the next request, ...) are stated
    positively beside the component they belong to.

    ** Bounds and fuel

    Integers are [Z] with their range in the [_wf] predicates; unchecked
    arithmetic panics on overflow, as in Cargo's dev and test profiles.  Loops
    that the source does not bound take fuel, and running out is a value of
    its own, never a result: [OutOfFuel] of the nonce search (2^32 units cover
    every nonce), [Err None] of a server operation or a command (nonce search, sync
    walk; the sync theorem gives the length of the missing chain as enough).  A walk over
    parents takes the size of the index, which is enough because heights
    decrease.  Where a theorem bounds a collection (fewer than 2^64 outputs, a supply
    below 2^64, heights below 2^63 for SQLite's integers) the bound is a
    hypothesis of that theorem.

    ** Abstractions

    - A [HashMap] is iterated in the order of [map_to_list].  Results that depend on the
      order, such as which of several peers with one node name is asked, are
      stated of that order.
    - The statements of a store transaction succeed; an [execute] or a commit that SQLite refuses
      (busy, full, I/O) is a failing disk operation of HomeDir.v, which rolls back and
      may leave the journal.  In the running server the database is held as its tables, and
      its saves do not fail for such reasons.  A journal left by an earlier failure is
      not removed by a later success.
    - [create_dir_all] fails only by a fault of the disk; a parent that is a
      file is such a fault.
    - The atomics of the mining worker are sequentially consistent steps, and the handling of one
      event is one step of the shell, at whose end the commands to the miner are delivered.
    - [main] of [serve] ends, in Process.v, where [server.start] begins; the server from there is
      the subject of Shell.v.

    ** Not modelled

    Argument parsing by clap (a command starts from its parsed record), the tokio
    runtime and the binding of sockets (what they deliver are the steps of
    [Shell] and the answers of [Environment]), the log events themselves (the tracing
    macros and the [log_*] helpers of server.rs, which only format them), the flag of
    [ServerControl] (nothing reads it), lib.rs (module declarations), the [Debug] renderings of error and response
    values (parameters where a command prints them).  SQL, bincode and
    JSON text formats, which belong to third-party crates.  Lines read from a
    socket are taken to be valid UTF-8; files are checked. *)

From Stdlib Require Export ZArith Lia.
From Stdlib Require Export Strings.Byte.
From stdpp Require Export sorting.
From stdpp Require Export base option numbers list gmap fin_maps strings.

#[global] Set Default Goal Selector "!".

(** ** Fallible computations

    A Rust function that returns [Result<A, E>] and may also panic is modelled
    by [result E A].  A function that can only panic is modelled by
    [may_panic A], with [None] for the panic. *)

Inductive result (E A : Type) : Type :=
| Ok (a : A)
| Err (e : E)
| Panic.
Arguments Ok {E A} a.
Arguments Err {E A} e.
Arguments Panic {E A}.

Notation may_panic := option (only parsing).

#[export] Instance result_ret {E} : MRet (result E) := λ A a, Ok a.

#[export] Instance result_bind {E} : MBind (result E) := λ A B f r,
  match r with
  | Ok a => f a
  | Err e => Err e
  | Panic => Panic
  end.

#[export] Instance result_fmap {E} : FMap (result E) := λ A B f r,
  match r with
  | Ok a => Ok (f a)
  | Err e => Err e
  | Panic => Panic
  end.

#[export] Instance result_eq_dec {E A} `{EqDecision E} `{EqDecision A} :
  EqDecision (result E A).
Proof. solve_decision. Defined.

(** [Result::map_err]. *)
Definition map_err {E F A} (f : E → F) (r : result E A) : result F A :=
  match r with
  | Ok a => Ok a
  | Err e => Err (f e)
  | Panic => Panic
  end.

(** [Option::ok_or]. *)
Definition ok_or {E A} (o : option A) (e : E) : result E A :=
  match o with
  | Some a => Ok a
  | None => Err e
  end.

(** [Option::expect], and a call to a function that can only panic. *)
Definition expect {E A} (o : may_panic A) : result E A :=
  match o with
  | Some a => Ok a
  | None => Panic
  end.

(** [Result::expect]. *)
Definition unwrap {E A} (r : result E A) : may_panic A :=
  match r with
  | Ok a => Some a
  | _ => None
  end.

(** [Result::is_ok] of a computation that returned (a panic has no result). *)
Definition is_ok {E A} (r : result E A) : bool :=
  match r with
  | Ok _ => true
  | _ => false
  end.

Definition no_panic {E A} (r : result E A) : Prop := r ≠ Panic.

Lemma result_bind_Ok {E A B} (r : result E A) (f : A → result E B) b :
  r ≫= f = Ok b ↔ ∃ a, r = Ok a ∧ f a = Ok b.
Proof. destruct r; simpl; split; naive_solver. Qed.

Lemma result_fmap_Ok {E A B} (r : result E A) (f : A → B) b :
  f <$> r = Ok b ↔ ∃ a, r = Ok a ∧ b = f a.
Proof. destruct r; simpl; split; naive_solver. Qed.

Lemma map_err_Ok {E F A} (f : E → F) (r : result E A) a :
  map_err f r = Ok a ↔ r = Ok a.
Proof. destruct r; simpl; split; naive_solver. Qed.

Lemma map_err_Err {E F A} (f : E → F) (r : result E A) e :
  map_err f r = Err e ↔ ∃ e', r = Err e' ∧ e = f e'.
Proof. destruct r; simpl; split; naive_solver. Qed.

Lemma ok_or_Ok {E A} (o : option A) (e : E) a :
  ok_or o e = Ok a ↔ o = Some a.
Proof. destruct o; simpl; split; naive_solver. Qed.

Lemma ok_or_Err {E A} (o : option A) (e e' : E) :
  ok_or o e = Err e' ↔ o = None ∧ e' = e.
Proof. destruct o; simpl; split; naive_solver. Qed.

Lemma expect_Ok {E A} (o : option A) (a : A) :
  expect (E:=E) o = Ok a ↔ o = Some a.
Proof. destruct o; simpl; split; naive_solver. Qed.

Lemma expect_Err {E A} (o : option A) (e : E) : expect o = Err e ↔ False.
Proof. destruct o; simpl; split; naive_solver. Qed.

Lemma is_ok_true {E A} (r : result E A) : is_ok r = true ↔ ∃ a, r = Ok a.
Proof. destruct r; simpl; split; naive_solver. Qed.

Lemma no_panic_bind {E A B} (r : result E A) (f : A → result E B) :
  no_panic r → (∀ a, r = Ok a → no_panic (f a)) → no_panic (r ≫= f).
Proof. destruct r; unfold no_panic; simpl; naive_solver. Qed.

Lemma no_panic_map_err {E F A} (f : E → F) (r : result E A) :
  no_panic r → no_panic (map_err f r).
Proof. destruct r; unfold no_panic; simpl; naive_solver. Qed.

Lemma no_panic_ok_or {E A} (o : option A) (e : E) : no_panic (ok_or o e).
Proof. by destruct o. Qed.

Lemma no_panic_expect {E A} (o : option A) :
  is_Some o → no_panic (expect (E:=E) o).
Proof. by intros [? ->]. Qed.

(** [inv_result] decomposes successful monadic runs in the context. *)
Ltac inv_result :=
  repeat match goal with
  | H : _ ≫= _ = Ok _ |- _ => apply result_bind_Ok in H as (? & ? & ?)
  | H : _ <$> _ = Ok _ |- _ => apply result_fmap_Ok in H as (? & ? & ?)
  | H : map_err _ _ = Ok _ |- _ => apply map_err_Ok in H
  | H : ok_or _ _ = Ok _ |- _ => apply ok_or_Ok in H
  | H : expect _ = Ok _ |- _ => apply expect_Ok in H
  | H : Ok _ = Ok _ |- _ => injection H as H
  | H : mret _ = Ok _ |- _ => injection H as H
  | H : Err _ = Ok _ |- _ => discriminate H
  | H : Panic = Ok _ |- _ => discriminate H
  | H : Some _ = Some _ |- _ => injection H as H
  | H : (_, _) = (_, _) |- _ => injection H as H
  | H : None = Some _ |- _ => discriminate H
  | H : Some _ = None |- _ => discriminate H
  end; simplify_eq/=.

(** Splits on every [if] and [match] of hypotheses that mention a run. *)
Ltac split_run H :=
  repeat (case_match || case_bool_decide); inv_result.

(** The database that discharges the routine panic-freedom goals. *)
Create HintDb wobble.
#[export] Hint Resolve no_panic_bind no_panic_map_err no_panic_ok_or
  no_panic_expect : wobble.

(** Decides a closed decidable goal by evaluation. *)
Ltac vm_decide :=
  lazymatch goal with
  | |- Z.lt _ _ => apply Z.ltb_lt
  | |- Z.le _ _ => apply Z.leb_le
  | |- _ => apply (bool_decide_eq_true_1 _)
  end; vm_compute; reflexivity.

(** [Iterator::try_fold], in any monad. *)
Fixpoint try_fold {M : Type → Type} `{MRet M, MBind M} {A S}
    (f : S → A → M S) (s : S) (l : list A) : M S :=
  match l with
  | [] => mret s
  | a :: l => s' ← f s a; try_fold f s' l
  end.

Lemma let_pair {A B C} (p : A * B) (f : A → B → C) :
  (let '(a, b) := p in f a b) = f p.1 p.2.
Proof. by destruct p. Qed.

Lemma and_iff_compat_l_dep (P Q R : Prop) : (P → (Q ↔ R)) → (P ∧ Q ↔ P ∧ R).
Proof. tauto. Qed.

(** ** Machine integers

    A [w]-bit unsigned integer is a [Z] in [[0, 2^w)]. *)

Open Scope Z_scope.

Definition uint (w : Z) (z : Z) : Prop := 0 ≤ z < 2 ^ w.

Notation u8 := (uint 8).
Notation u32 := (uint 32).
Notation u64 := (uint 64).
Notation u128 := (uint 128).

#[export] Instance uint_dec w z : Decision (uint w z).
Proof. unfold uint. apply _. Defined.

Definition max_uint (w : Z) : Z := 2 ^ w - 1.

(** [checked_add]: [None] on overflow. *)
Definition checked_add (w a b : Z) : option Z :=
  if bool_decide (a + b < 2 ^ w) then Some (a + b) else None.

(** Unchecked [+] with overflow checks enabled (the [dev] and [test] profiles
    of Cargo.toml, which sets no profile of its own): overflow panics. *)
Definition add_or_panic (w a b : Z) : may_panic Z := checked_add w a b.

Definition saturating_add (w a b : Z) : Z := Z.min (a + b) (max_uint w).
Definition saturating_sub (a b : Z) : Z := Z.max 0 (a - b).
Definition wrapping_add (w a b : Z) : Z := (a + b) mod 2 ^ w.

(** [u32::try_from(usize)] and friends. *)
Definition try_from (w z : Z) : option Z :=
  if bool_decide (z < 2 ^ w) then Some z else None.

Lemma checked_add_Some w a b c :
  checked_add w a b = Some c ↔ a + b < 2 ^ w ∧ c = a + b.
Proof. unfold checked_add. case_bool_decide; naive_solver. Qed.

Lemma checked_add_None w a b : checked_add w a b = None ↔ 2 ^ w ≤ a + b.
Proof.
  unfold checked_add. case_bool_decide as Hlt; split; intros H; try done; lia.
Qed.

Lemma try_from_Some w z z' : try_from w z = Some z' ↔ z < 2 ^ w ∧ z' = z.
Proof. unfold try_from. case_bool_decide; naive_solver. Qed.

Lemma uint_checked_add w a b c :
  uint w a → uint w b → checked_add w a b = Some c → uint w c.
Proof. intros Ha Hb [? ->]%checked_add_Some. unfold uint in *. lia. Qed.

Lemma uint_wrapping_add w a b : 0 ≤ w → uint w (wrapping_add w a b).
Proof. intros. apply Z.mod_pos_bound. lia. Qed.

(** ** Sums of machine integers *)

Definition Zsum (l : list Z) : Z := foldr Z.add 0 l.

Lemma Zsum_app l1 l2 : Zsum (l1 ++ l2) = Zsum l1 + Zsum l2.
Proof. induction l1 as [|z l1 IH]; cbn; [done|]. unfold Zsum in *. lia. Qed.

Lemma Zsum_cons z l : Zsum (z :: l) = z + Zsum l.
Proof. done. Qed.

Lemma Zsum_nonneg l : Forall (λ z, 0 ≤ z) l → 0 ≤ Zsum l.
Proof. induction 1; cbn; [done|]. unfold Zsum in *. lia. Qed.

#[export] Instance Zsum_perm : Proper ((≡ₚ) ==> (=)) Zsum.
Proof. induction 1; cbn; unfold Zsum in *; cbn; lia. Qed.

(** A loop of [checked_add]s succeeds exactly when the total fits. *)
Lemma checked_sum_Ok {E A} (w : Z) (e : E) (g : A → Z) (l : list A) (s r : Z) :
  Forall (λ a, 0 ≤ g a) l → s < 2 ^ w →
  try_fold (λ t a, ok_or (checked_add w t (g a)) e) s l = Ok r ↔
  s + Zsum (g <$> l) < 2 ^ w ∧ r = s + Zsum (g <$> l).
Proof.
  revert s. induction l as [|a l IH]; intros s Hl Hs; cbn [try_fold fmap list_fmap].
  - unfold Zsum; cbn. rewrite Z.add_0_r. split; [by intros [= <-]|by intros [_ ->]].
  - apply Forall_cons in Hl as [Ha Hl]. rewrite Zsum_cons, result_bind_Ok.
    pose proof (Zsum_nonneg (g <$> l)) as Hn.
    rewrite Forall_fmap in Hn. specialize (Hn Hl).
    setoid_rewrite ok_or_Ok. setoid_rewrite checked_add_Some. split.
    + intros (? & [? ->] & Hr). apply IH in Hr; [|done..]. unfold Zsum in *. lia.
    + intros [? ->]. eexists. split; [split; [|done]; unfold Zsum in *; lia|].
      apply IH; [done|unfold Zsum in *; lia|]. split; unfold Zsum in *; lia.
Qed.

Lemma try_fold_Err {E A S} (f : S → A → result E S) s l e :
  try_fold f s l = Err e →
  ∃ l1 a l2 s', l = l1 ++ a :: l2 ∧ try_fold f s l1 = Ok s' ∧ f s' a = Err e.
Proof.
  revert s. induction l as [|a l IH]; intros s; cbn; [done|].
  destruct (f s a) as [s'|e'|] eqn:Hf; cbn; [|intros [= ->]|done].
  - intros (l1 & b & l2 & s'' & -> & H1 & H2)%IH.
    exists (a :: l1), b, l2, s''. split; [done|]. cbn. by rewrite Hf.
  - by exists [], a, l, s.
Qed.

Lemma try_fold_no_panic {E A S} (f : S → A → result E S) s l :
  (∀ s a, a ∈ l → no_panic (f s a)) → no_panic (try_fold f s l).
Proof.
  revert s. induction l as [|a l IH]; intros s Hf; cbn; [done|].
  apply no_panic_bind; [apply Hf; by left|].
  intros s' _. apply IH. intros s'' b ?. apply Hf. by right.
Qed.

(** ** Iterator adaptors *)

(** [Iterator::all] with a closure that may panic; it stops at the first
    [false]. *)
Fixpoint try_all {A} (f : A → may_panic bool) (l : list A) : may_panic bool :=
  match l with
  | [] => Some true
  | a :: l => b ← f a; if (b : bool) then try_all f l else Some false
  end.

(** [Iterator::max] on integers. *)
Definition list_max (l : list Z) : option Z :=
  match l with
  | [] => None
  | z :: l => Some (foldl Z.max z l)
  end.

(** [Iterator::min_by_key], the order of keys given by [le]: the first of the
    least elements. *)
Definition min_by {A} (le : A → A → bool) (l : list A) : option A :=
  match l with
  | [] => None
  | a :: l => Some (foldl (λ m x, if le m x then m else x) a l)
  end.

Lemma try_all_true {A} (f : A → may_panic bool) l :
  try_all f l = Some true ↔ Forall (λ a, f a = Some true) l.
Proof.
  induction l as [|a l IH]; cbn; [by split|]. rewrite Forall_cons, <-IH.
  destruct (f a) as [[]|]; cbn; naive_solver.
Qed.

Lemma try_all_is_Some {A} (f : A → may_panic bool) l :
  Forall (λ a, is_Some (f a)) l → is_Some (try_all f l).
Proof.
  induction 1 as [|a l [b Hb] _ IH]; cbn; [by eexists|]. rewrite Hb. cbn.
  destruct b; [done|by eexists].
Qed.

Lemma try_all_false {A} (f : A → may_panic bool) l :
  try_all f l = Some false → ∃ a, a ∈ l ∧ f a = Some false.
Proof.
  induction l as [|a l IH]; cbn; [done|].
  destruct (f a) as [[]|] eqn:Hf; cbn; [|intros _|done].
  - intros (b & ? & ?)%IH. exists b. split; [by right|done].
  - exists a. split; [by left|done].
Qed.

Lemma list_max_Some l z :
  list_max l = Some z → z ∈ l ∧ Forall (λ y, y ≤ z) l.
Proof.
  destruct l as [|a l]; [done|]. intros [= <-]. revert a.
  induction l as [|b l IH]; intros a; cbn; [by split; [left|repeat constructor]|].
  destruct (IH (a `max` b)) as [Hin Hall]. apply Forall_cons in Hall as [Hle Hall].
  split; [|repeat constructor; lia || done].
  apply elem_of_cons in Hin as [->|Hin]; [|set_solver].
  destruct (Z.max_spec a b) as [[_ ->]|[_ ->]]; set_solver.
Qed.

Lemma min_by_Some {A} (le : A → A → bool) l m :
  (∀ x y, le x y = true ∨ le y x = true) →
  (∀ x y z, le x y = true → le y z = true → le x z = true) →
  min_by le l = Some m → m ∈ l ∧ Forall (λ y, le m y = true) l.
Proof.
  intros Htot Htr. assert (∀ x, le x x = true) as Hrefl by (intros x; by destruct (Htot x x)).
  destruct l as [|a l]; [done|]. intros [= <-]. revert a.
  induction l as [|b l IH]; intros a; cbn; [by split; [left|repeat constructor]|].
  destruct (IH (if le a b then a else b)) as [Hin Hall].
  apply Forall_cons in Hall as [Hle Hall]. split.
  - destruct (le a b); set_solver.
  - destruct (le a b) eqn:Hab; repeat constructor; try done; [by eapply Htr|].
    destruct (Htot a b); [congruence|]. by eapply Htr.
Qed.

(** Removing a list of keys one by one. *)
Lemma foldl_delete_lookup {K A} `{Countable K} (m : gmap K A) (ks : list K) (k : K) :
  foldl (λ m k, delete k m) m ks !! k = if bool_decide (k ∈ ks) then None else m !! k.
Proof.
  revert m. induction ks as [|i ks IH]; intros m; cbn.
  - by rewrite bool_decide_eq_false_2 by set_solver.
  - rewrite IH. destruct (decide (k = i)) as [->|Hne].
    + rewrite lookup_delete_eq, (bool_decide_eq_true_2 (i ∈ i :: ks)) by set_solver.
      by case_bool_decide.
    + rewrite lookup_delete_ne by done.
      by rewrite (bool_decide_ext (k ∈ i :: ks) (k ∈ ks)) by set_solver.
Qed.

Lemma StronglySorted_sub {A} (R : relation A) (l1 l2 : list A) :
  sublist l1 l2 → StronglySorted R l2 → StronglySorted R l1.
Proof.
  induction 1 as [|x l1 l2 Hs IH|x l1 l2 Hs IH]; intros Hl; [done| |];
    apply StronglySorted_inv in Hl as [Hl Hx]; [|by apply IH].
  constructor; [by apply IH|]. rewrite Forall_forall in *. intros y Hy.
  apply Hx. by eapply elem_of_sublist.
Qed.

Lemma Zsum_sublist_le {A} (g : A → Z) (l1 l2 : list A) :
  sublist l1 l2 → Forall (λ a, 0 ≤ g a) l2 → Zsum (g <$> l1) ≤ Zsum (g <$> l2).
Proof.
  induction 1; [done|..]; intros [Ha Hl]%Forall_cons; rewrite ?fmap_cons, ?Zsum_cons;
    specialize (IHsublist Hl); lia.
Qed.
