(* ===== verification/Bytes.v ===== *)
(** * Bytes, fixed-width encodings, byte order and hexadecimal text

    What the program uses of the Rust standard library on bytes:
    [to_le_bytes]/[to_be_bytes]/[from_be_bytes], the lexicographic [Ord] of
    [[u8; N]], the ["{byte:02x}"] rendering of hashes and
    [u8::from_str_radix(_, 16)]. *)

From Stdlib Require DecimalString DecimalN.
From S2P Require Import Prelude.

Abbreviation byte := Byte.byte.
Abbreviation bytes := (list Byte.byte).

#[export] Instance byte_eq_dec : EqDecision byte := Byte.byte_eq_dec.

#[export] Program Instance byte_countable : Countable byte :=
  inj_countable Byte.to_N Byte.of_N _.
Next Obligation. intros b. apply Byte.of_to_N. Qed.

#[export] Instance byte_inhabited : Inhabited byte := populate x00.

Definition byte_to_Z (b : byte) : Z := Z.of_N (Byte.to_N b).

(** [z as u8]. *)
Definition byte_of_Z (z : Z) : byte :=
  default x00 (Byte.of_N (Z.to_N (z mod 256))).

Lemma byte_to_Z_range b : 0 ≤ byte_to_Z b < 256.
Proof. unfold byte_to_Z. pose proof (Byte.to_N_bounded b). lia. Qed.

Lemma byte_of_to_Z b : byte_of_Z (byte_to_Z b) = b.
Proof.
  unfold byte_of_Z. rewrite Z.mod_small by apply byte_to_Z_range.
  unfold byte_to_Z. by rewrite N2Z.id, Byte.of_to_N.
Qed.

Lemma byte_to_of_Z z : byte_to_Z (byte_of_Z z) = z mod 256.
Proof.
  unfold byte_of_Z, byte_to_Z.
  pose proof (Z.mod_pos_bound z 256 ltac:(lia)) as Hz.
  destruct (Byte.of_N (Z.to_N (z mod 256))) as [b|] eqn:Hb; simpl.
  - apply Byte.to_of_N in Hb. rewrite Hb. lia.
  - apply Byte.of_N_None_iff in Hb. lia.
Qed.

#[export] Instance byte_to_Z_inj : Inj (=) (=) byte_to_Z.
Proof. intros b1 b2 H. by rewrite <-(byte_of_to_Z b1), H, byte_of_to_Z. Qed.

(** ** Little- and big-endian encodings *)

Fixpoint le_bytes (n : nat) (z : Z) : bytes :=
  match n with
  | O => []
  | S n => byte_of_Z z :: le_bytes n (z / 256)
  end.

Fixpoint of_le_bytes (bs : bytes) : Z :=
  match bs with
  | [] => 0
  | b :: bs => byte_to_Z b + 256 * of_le_bytes bs
  end.

Definition be_bytes (n : nat) (z : Z) : bytes := reverse (le_bytes n z).
Definition of_be_bytes (bs : bytes) : Z := of_le_bytes (reverse bs).

Lemma length_le_bytes n z : length (le_bytes n z) = n.
Proof. revert z. induction n; intros z; simpl; [done|]. by rewrite IHn. Qed.

Lemma length_be_bytes n z : length (be_bytes n z) = n.
Proof. unfold be_bytes. by rewrite length_reverse, length_le_bytes. Qed.

Lemma pow256_S n : 256 ^ Z.of_nat (S n) = 256 * 256 ^ Z.of_nat n.
Proof. rewrite Nat2Z.inj_succ, Z.pow_succ_r by lia. done. Qed.

Lemma of_le_le_bytes n z : of_le_bytes (le_bytes n z) = z mod 256 ^ Z.of_nat n.
Proof.
  revert z. induction n as [|n IH]; intros z; cbn [le_bytes of_le_bytes].
  - by rewrite Z.mod_1_r.
  - rewrite byte_to_of_Z, IH, pow256_S.
    rewrite Z.rem_mul_r by lia. done.
Qed.

Lemma of_le_bytes_range bs : 0 ≤ of_le_bytes bs < 256 ^ Z.of_nat (length bs).
Proof.
  induction bs as [|b bs IH]; cbn [of_le_bytes length]; [lia|].
  rewrite pow256_S. pose proof (byte_to_Z_range b). lia.
Qed.

Lemma le_bytes_of_le bs : le_bytes (length bs) (of_le_bytes bs) = bs.
Proof.
  induction bs as [|b bs IH]; cbn [of_le_bytes length le_bytes]; [done|].
  f_equal.
  - apply (inj byte_to_Z). rewrite byte_to_of_Z, Z.mul_comm, Z.mod_add by lia.
    apply Z.mod_small, byte_to_Z_range.
  - rewrite Z.mul_comm, Z.div_add by lia.
    by rewrite Z.div_small, Z.add_0_l by apply byte_to_Z_range.
Qed.

Lemma le_bytes_inj n z1 z2 :
  0 ≤ z1 < 256 ^ Z.of_nat n → 0 ≤ z2 < 256 ^ Z.of_nat n →
  le_bytes n z1 = le_bytes n z2 → z1 = z2.
Proof.
  intros H1 H2 H. apply (f_equal of_le_bytes) in H.
  rewrite !of_le_le_bytes in H. by rewrite !Z.mod_small in H.
Qed.

Lemma of_be_be_bytes n z : of_be_bytes (be_bytes n z) = z mod 256 ^ Z.of_nat n.
Proof. unfold of_be_bytes, be_bytes. by rewrite reverse_involutive, of_le_le_bytes. Qed.

Lemma of_be_bytes_range bs : 0 ≤ of_be_bytes bs < 256 ^ Z.of_nat (length bs).
Proof. unfold of_be_bytes. rewrite <-length_reverse. apply of_le_bytes_range. Qed.

Lemma be_bytes_of_be bs : be_bytes (length bs) (of_be_bytes bs) = bs.
Proof.
  unfold be_bytes, of_be_bytes. rewrite <-(length_reverse bs), le_bytes_of_le.
  apply reverse_involutive.
Qed.

Lemma of_le_bytes_app bs1 bs2 :
  of_le_bytes (bs1 ++ bs2)
  = of_le_bytes bs1 + 256 ^ Z.of_nat (length bs1) * of_le_bytes bs2.
Proof.
  induction bs1 as [|b bs1 IH]; cbn [of_le_bytes app length]; [lia|].
  rewrite IH, pow256_S. ring.
Qed.

Lemma of_be_bytes_app bs1 bs2 :
  of_be_bytes (bs1 ++ bs2)
  = of_be_bytes bs1 * 256 ^ Z.of_nat (length bs2) + of_be_bytes bs2.
Proof.
  unfold of_be_bytes. rewrite reverse_app, of_le_bytes_app, length_reverse. ring.
Qed.

Lemma of_be_bytes_nil : of_be_bytes [] = 0.
Proof. done. Qed.

Lemma of_be_bytes_cons b bs :
  of_be_bytes (b :: bs)
  = byte_to_Z b * 256 ^ Z.of_nat (length bs) + of_be_bytes bs.
Proof.
  change (b :: bs) with ([b] ++ bs). rewrite of_be_bytes_app. f_equal.
  unfold of_be_bytes. cbn. lia.
Qed.

Lemma of_be_bytes_replicate_0 n : of_be_bytes (replicate n x00) = 0.
Proof.
  induction n; simpl; [done|]. rewrite of_be_bytes_cons, IHn. done.
Qed.

Lemma of_be_bytes_inj bs1 bs2 :
  length bs1 = length bs2 → of_be_bytes bs1 = of_be_bytes bs2 → bs1 = bs2.
Proof.
  intros Hl H. rewrite <-(be_bytes_of_be bs1), <-(be_bytes_of_be bs2).
  by rewrite Hl, H.
Qed.

#[global] Arguments le_bytes : simpl never.
#[global] Arguments be_bytes : simpl never.
#[global] Arguments of_le_bytes : simpl never.
#[global] Arguments of_be_bytes : simpl never.
#[global] Arguments byte_of_Z : simpl never.
#[global] Arguments byte_to_Z : simpl never.

(** ** Lexicographic order: the derived [Ord] of byte arrays *)

Fixpoint bytes_leb (a b : bytes) : bool :=
  match a, b with
  | [], _ => true
  | _ :: _, [] => false
  | x :: a, y :: b =>
      if bool_decide (byte_to_Z x < byte_to_Z y) then true
      else if bool_decide (byte_to_Z x = byte_to_Z y) then bytes_leb a b
      else false
  end.

(** On arrays of one length the lexicographic order is the numeric order of
    the big-endian values. *)
Lemma bytes_leb_be a b :
  length a = length b →
  bytes_leb a b = bool_decide (of_be_bytes a ≤ of_be_bytes b).
Proof.
  revert b. induction a as [|x a IH]; intros [|y b] Hl; simplify_eq/=.
  { done. }
  rewrite !of_be_bytes_cons.
  pose proof (of_be_bytes_range a). pose proof (of_be_bytes_range b) as Hb.
  rewrite <-Hl in Hb |- *. set (p := 256 ^ Z.of_nat (length a)) in *.
  case_bool_decide as Hlt; [|case_bool_decide as Heq].
  - symmetry. apply bool_decide_eq_true. nia.
  - rewrite IH by done. rewrite Heq. apply bool_decide_ext. lia.
  - symmetry. apply bool_decide_eq_false. nia.
Qed.

(** ** Hexadecimal text *)

Definition hex_digit (z : Z) : Ascii.ascii :=
  Ascii.ascii_of_N (Z.to_N (if bool_decide (z < 10) then 48 + z else 87 + z)).

(** One [char::to_digit(16)]: digits in either case. *)
Definition hex_value (c : Ascii.ascii) : option Z :=
  let n := Z.of_N (Ascii.N_of_ascii c) in
  if bool_decide (48 ≤ n ≤ 57) then Some (n - 48)
  else if bool_decide (97 ≤ n ≤ 102) then Some (n - 87)
  else if bool_decide (65 ≤ n ≤ 70) then Some (n - 55)
  else None.

(** ["{byte:02x}"] for every byte. *)
Fixpoint to_hex (bs : bytes) : string :=
  match bs with
  | [] => EmptyString
  | b :: bs =>
      String (hex_digit (byte_to_Z b / 16))
        (String (hex_digit (byte_to_Z b mod 16)) (to_hex bs))
  end.

(** [u8::from_str_radix] of a two-byte chunk.  A leading ['+'] is accepted by
    the standard library, so ["+f"] is 15. *)
Definition u8_from_str_radix_16 (c1 c2 : Ascii.ascii) : option Z :=
  if bool_decide (c1 = Ascii.ascii_of_N 43) then hex_value c2
  else
    h ← hex_value c1;
    l ← hex_value c2;
    Some (16 * h + l).

Lemma hex_value_digit z : 0 ≤ z < 16 → hex_value (hex_digit z) = Some z.
Proof.
  intros H.
  assert (z = 0 ∨ z = 1 ∨ z = 2 ∨ z = 3 ∨ z = 4 ∨ z = 5 ∨ z = 6 ∨ z = 7 ∨
    z = 8 ∨ z = 9 ∨ z = 10 ∨ z = 11 ∨ z = 12 ∨ z = 13 ∨ z = 14 ∨ z = 15) as Hz
    by lia.
  destruct_or! Hz; subst; vm_compute; reflexivity.
Qed.

Lemma hex_digit_not_plus z : 0 ≤ z < 16 → hex_digit z ≠ Ascii.ascii_of_N 43.
Proof. intros Hz Heq. apply hex_value_digit in Hz. by rewrite Heq in Hz. Qed.

Lemma u8_from_str_radix_16_hex b :
  u8_from_str_radix_16 (hex_digit (byte_to_Z b / 16))
    (hex_digit (byte_to_Z b mod 16)) = Some (byte_to_Z b).
Proof.
  pose proof (byte_to_Z_range b) as Hb.
  assert (0 ≤ byte_to_Z b / 16 < 16).
  { split; [apply Z.div_pos|apply Z.div_lt_upper_bound]; lia. }
  assert (0 ≤ byte_to_Z b mod 16 < 16) by (apply Z.mod_pos_bound; lia).
  unfold u8_from_str_radix_16.
  rewrite bool_decide_eq_false_2 by by apply hex_digit_not_plus.
  rewrite !hex_value_digit by done. simpl. f_equal.
  pose proof (Z.div_mod (byte_to_Z b) 16). lia.
Qed.

#[export] Instance to_hex_inj : Inj (=) (=) to_hex.
Proof.
  intros bs1. induction bs1 as [|b1 bs1 IH]; intros [|b2 bs2] H; try done.
  cbn [to_hex] in H. injection H as H1 H2 H3.
  f_equal; [|by apply IH].
  apply (inj byte_to_Z). apply (inj Some).
  by rewrite <-!u8_from_str_radix_16_hex, H1, H2.
Qed.

(** ** Decimal text *)

(** ["{}"] of an unsigned integer. *)
Definition decimal (z : Z) : string :=
  DecimalString.NilZero.string_of_uint (N.to_uint (Z.to_N z)).

(** ** A computable binary code, for concrete instances of third-party codecs *)
Module Digits.

(** The binary digits of a value's code, a byte each. *)
Fixpoint print (p : positive) : bytes :=
  match p with
  | xH => []
  | xO p => x00 :: print p
  | xI p => x01 :: print p
  end.

Fixpoint parse (bs : bytes) : positive :=
  match bs with
  | [] => xH
  | b :: bs => if bool_decide (b = x01) then xI (parse bs) else xO (parse bs)
  end.

Lemma byte_parse_print p : parse (print p) = p.
Proof. induction p as [p IH|p IH|]; cbn; rewrite ?IH; done. Qed.

End Digits.
