(* ===== verification/Crypto.v ===== *)
(** * crypto.rs: hashing and signatures over the third-party primitives

    [sha2] and [ed25519_dalek] are not part of the repository: they are the
    fields of the class [Crypto], and what the program relies on of their
    documentation is the class [CryptoLaws].  No collision resistance is
    assumed anywhere. *)

From S2P Require Import Prelude Bytes.

Class Crypto := {
  SigningKey : Type;
  VerifyingKey : Type;
  Signature : Type;
  Sha256_digest : bytes → bytes;
  SigningKey_from_bytes : bytes → SigningKey;
  SigningKey_to_bytes : SigningKey → bytes;
  SigningKey_verifying_key : SigningKey → VerifyingKey;
  SigningKey_sign : SigningKey → bytes → Signature;
  VerifyingKey_from_bytes : bytes → option VerifyingKey;
  VerifyingKey_to_bytes : VerifyingKey → bytes;
  VerifyingKey_verify : VerifyingKey → bytes → Signature → bool;
  Signature_from_bytes : bytes → Signature;
  Signature_to_bytes : Signature → bytes
}.

Definition PUBLIC_KEY_LEN : nat := 32.
Definition SIGNATURE_LEN : nat := 64.

Class CryptoLaws (C : Crypto) : Prop := {
  Sha256_digest_length bs : length (Sha256_digest bs) = 32%nat;
  SigningKey_from_to_bytes sk : SigningKey_from_bytes (SigningKey_to_bytes sk) = sk;
  SigningKey_to_bytes_length sk : length (SigningKey_to_bytes sk) = 32%nat;
  VerifyingKey_to_bytes_length vk :
    length (VerifyingKey_to_bytes vk) = PUBLIC_KEY_LEN;
  VerifyingKey_from_to_bytes vk :
    VerifyingKey_from_bytes (VerifyingKey_to_bytes vk) = Some vk;
  Signature_to_bytes_length s : length (Signature_to_bytes s) = SIGNATURE_LEN;
  Signature_from_to_bytes s : Signature_from_bytes (Signature_to_bytes s) = s;
  sign_verifies sk m :
    VerifyingKey_verify (SigningKey_verifying_key sk) m (SigningKey_sign sk m) = true
}.

Section crypto.
Context `{C : Crypto}.

Definition sha256 (bs : bytes) : bytes := Sha256_digest bs.
Definition double_sha256 (bs : bytes) : bytes := sha256 (sha256 bs).

Definition signing_key_from_bytes (bs : bytes) : SigningKey :=
  SigningKey_from_bytes bs.

Definition verifying_key_bytes (key : VerifyingKey) : bytes :=
  VerifyingKey_to_bytes key.

(** [bytes.try_into().ok()?] fails unless the slice has the array's length. *)
Definition parse_verifying_key (bs : bytes) : option VerifyingKey :=
  if bool_decide (length bs = PUBLIC_KEY_LEN) then VerifyingKey_from_bytes bs
  else None.

Definition parse_signature (bs : bytes) : option Signature :=
  if bool_decide (length bs = SIGNATURE_LEN) then Some (Signature_from_bytes bs)
  else None.

Definition sign_message (signing_key : SigningKey) (message : bytes) : bytes :=
  Signature_to_bytes (SigningKey_sign signing_key message).

Definition verify_message
    (signature : Signature) (verifying_key : VerifyingKey) (message : bytes) : bool :=
  VerifyingKey_verify verifying_key message signature.

Context `{!CryptoLaws C}.

Lemma double_sha256_length bs : length (double_sha256 bs) = 32%nat.
Proof. apply Sha256_digest_length. Qed.

Lemma parse_verifying_key_bytes vk :
  parse_verifying_key (verifying_key_bytes vk) = Some vk.
Proof.
  unfold parse_verifying_key, verifying_key_bytes.
  rewrite bool_decide_eq_true_2 by apply VerifyingKey_to_bytes_length.
  apply VerifyingKey_from_to_bytes.
Qed.

Lemma parse_signature_sign sk m :
  parse_signature (sign_message sk m) = Some (SigningKey_sign sk m).
Proof.
  unfold parse_signature, sign_message.
  rewrite bool_decide_eq_true_2 by apply Signature_to_bytes_length.
  by rewrite Signature_from_to_bytes.
Qed.

Lemma verify_sign sk m :
  verify_message (SigningKey_sign sk m) (SigningKey_verifying_key sk) m = true.
Proof. apply sign_verifies. Qed.

End crypto.

#[export] Hint Rewrite @double_sha256_length @parse_verifying_key_bytes
  @parse_signature_sign @verify_sign using typeclasses eauto : wobble.

(** ** A computable instance

    A checksum hash and one-byte keys: enough structure to satisfy every law,
    so that witnesses evaluate on concrete blocks. *)
Module Toy.

Definition mix (acc : Z) (b : byte) : Z := Z.land (acc * 33 + byte_to_Z b) 0xffffff.
Definition digest (bs : bytes) : bytes := be_bytes 32 (foldl mix 5381 bs).

Definition checksum (m : bytes) : byte :=
  byte_of_Z (Z.land (foldl mix 7 m) 0xff).

#[export] Instance crypto : Crypto := {|
  SigningKey := byte;
  VerifyingKey := byte;
  Signature := byte * byte;
  Sha256_digest := digest;
  SigningKey_from_bytes := λ bs, default x00 (head bs);
  SigningKey_to_bytes := λ k, replicate 32 k;
  SigningKey_verifying_key := id;
  SigningKey_sign := λ k m, (k, checksum m);
  VerifyingKey_from_bytes := head;
  VerifyingKey_to_bytes := λ k, replicate 32 k;
  VerifyingKey_verify := λ k m s, bool_decide (s.1 = k ∧ s.2 = checksum m);
  Signature_from_bytes := λ bs, (default x00 (bs !! 0%nat), default x00 (bs !! 32%nat));
  Signature_to_bytes := λ s, replicate 32 s.1 ++ replicate 32 s.2
|}.

#[export] Instance laws : CryptoLaws crypto.
Proof.
  split; simpl; intros.
  - done.
  - done.
  - done.
  - done.
  - done.
  - done.
  - by destruct s.
  - by apply bool_decide_eq_true.
Qed.

End Toy.
