(* ===== verification/Types.v ===== *)
(** * types.rs: transactions, blocks and their canonical encodings

    Data as the source declares it; [u32]/[u64]/[u128] fields are [Z] with the
    ranges collected in the [_wf] predicates, [[u8; 32]] fields are byte lists
    whose length 32 is in the same predicates. *)

From S2P Require Import Prelude Bytes Crypto.

(** ** Data *)

Definition Amount : Type := Z.
Definition BlockHeight : Type := Z.

Record Txid := Txid_new { Txid_as_bytes : bytes }.
Record BlockHash := BlockHash_new { BlockHash_as_bytes : bytes }.

Record OutPoint := { txid : Txid; vout : Z }.

Record TxIn := { previous_output : OutPoint; unlocking_data : bytes }.

Record TxOut := { value : Z; locking_data : bytes }.

Record Transaction := {
  version : Z;
  inputs : list TxIn;
  outputs : list TxOut;
  lock_time : Z
}.

Record BlockHeader := {
  header_version : Z;
  prev_blockhash : BlockHash;
  header_merkle_root : bytes;
  time : Z;
  bits : Z;
  nonce : Z
}.

Record Block := { header : BlockHeader; transactions : list Transaction }.

Record ChainIndexEntry := {
  block_hash : BlockHash;
  height : Z;
  cumulative_work : Z;
  parent : option BlockHash
}.

Record Utxo := {
  outpoint : OutPoint;
  output : TxOut;
  created_at_height : Z;
  utxo_is_coinbase : bool
}.

(** ** Equality and countability (the derived [PartialEq] and [Hash]) *)

#[export] Instance Txid_eq_dec : EqDecision Txid.
Proof. solve_decision. Defined.
#[export] Instance BlockHash_eq_dec : EqDecision BlockHash.
Proof. solve_decision. Defined.
#[export] Instance OutPoint_eq_dec : EqDecision OutPoint.
Proof. solve_decision. Defined.
#[export] Instance TxIn_eq_dec : EqDecision TxIn.
Proof. solve_decision. Defined.
#[export] Instance TxOut_eq_dec : EqDecision TxOut.
Proof. solve_decision. Defined.
#[export] Instance Transaction_eq_dec : EqDecision Transaction.
Proof. solve_decision. Defined.
#[export] Instance BlockHeader_eq_dec : EqDecision BlockHeader.
Proof. solve_decision. Defined.
#[export] Instance Block_eq_dec : EqDecision Block.
Proof. solve_decision. Defined.
#[export] Instance ChainIndexEntry_eq_dec : EqDecision ChainIndexEntry.
Proof. solve_decision. Defined.
#[export] Instance Utxo_eq_dec : EqDecision Utxo.
Proof. solve_decision. Defined.

#[export] Program Instance Txid_countable : Countable Txid :=
  inj_countable' Txid_as_bytes Txid_new _.
Next Obligation. by intros []. Qed.
#[export] Program Instance BlockHash_countable : Countable BlockHash :=
  inj_countable' BlockHash_as_bytes BlockHash_new _.
Next Obligation. by intros []. Qed.
#[export] Program Instance OutPoint_countable : Countable OutPoint :=
  inj_countable' (λ o, (txid o, vout o)) (λ p, {| txid := p.1; vout := p.2 |}) _.
Next Obligation. by intros []. Qed.

#[export] Program Instance TxIn_countable : Countable TxIn :=
  inj_countable' (λ i, (previous_output i, unlocking_data i))
    (λ p, {| previous_output := p.1; unlocking_data := p.2 |}) _.
Next Obligation. by intros []. Qed.
#[export] Program Instance TxOut_countable : Countable TxOut :=
  inj_countable' (λ o, (value o, locking_data o)) (λ p, {| value := p.1; locking_data := p.2 |}) _.
Next Obligation. by intros []. Qed.
#[export] Program Instance Transaction_countable : Countable Transaction :=
  inj_countable' (λ t, (version t, inputs t, outputs t, lock_time t))
    (λ '(v, i, o, l), {| version := v; inputs := i; outputs := o; lock_time := l |}) _.
Next Obligation. by intros []. Qed.
#[export] Program Instance BlockHeader_countable : Countable BlockHeader :=
  inj_countable'
    (λ h, (header_version h, prev_blockhash h, header_merkle_root h, time h, bits h, nonce h))
    (λ '(v, p, m, t, b, n), {| header_version := v; prev_blockhash := p; header_merkle_root := m;
       time := t; bits := b; nonce := n |}) _.
Next Obligation. by intros []. Qed.
#[export] Program Instance Block_countable : Countable Block :=
  inj_countable' (λ b, (header b, transactions b)) (λ p, {| header := p.1; transactions := p.2 |}) _.
Next Obligation. by intros []. Qed.

(** [BlockHash::default()]: the derived default of [[u8; 32]]. *)
Definition BlockHash_default : BlockHash := BlockHash_new (replicate 32 x00).

(** [Display] for [Txid] and [BlockHash]. *)
Definition Txid_to_string (t : Txid) : string := to_hex (Txid_as_bytes t).
Definition BlockHash_to_string (h : BlockHash) : string :=
  to_hex (BlockHash_as_bytes h).

(** [Transaction::is_coinbase]. *)
Definition is_coinbase (tx : Transaction) : bool :=
  match inputs tx with
  | [] => true
  | _ :: _ => false
  end.

(** ** Encodings *)

Definition encode_len (len : nat) (bs : bytes) : may_panic bytes :=
  len ← try_from 32 (Z.of_nat len);
  Some (bs ++ le_bytes 4 len).

Definition encode_bytes (data : bytes) (bs : bytes) : may_panic bytes :=
  bs ← encode_len (length data) bs;
  Some (bs ++ data).

Definition encode_with_unlocking_data
    (include_unlocking_data : bool) (tx : Transaction) : may_panic bytes :=
  bs ← Some (le_bytes 4 (version tx));
  bs ← encode_len (length (inputs tx)) bs;
  bs ← try_fold (λ bs input,
         let bs := bs ++ Txid_as_bytes (txid (previous_output input)) in
         let bs := bs ++ le_bytes 4 (vout (previous_output input)) in
         if include_unlocking_data then encode_bytes (unlocking_data input) bs
         else encode_bytes [] bs) bs (inputs tx);
  bs ← encode_len (length (outputs tx)) bs;
  bs ← try_fold (λ bs output,
         let bs := bs ++ le_bytes 8 (value output) in
         encode_bytes (locking_data output) bs) bs (outputs tx);
  Some (bs ++ le_bytes 4 (lock_time tx)).

(** [Transaction::encode]. *)
Definition Transaction_encode (tx : Transaction) : may_panic bytes :=
  encode_with_unlocking_data true tx.

(** [BlockHeader::encode]. *)
Definition BlockHeader_encode (h : BlockHeader) : bytes :=
  le_bytes 4 (header_version h) ++ BlockHash_as_bytes (prev_blockhash h)
  ++ header_merkle_root h ++ le_bytes 8 (time h) ++ le_bytes 4 (bits h)
  ++ le_bytes 4 (nonce h).

Section hashes.
Context `{C : Crypto}.

Definition Txid_from_data (bs : bytes) : Txid := Txid_new (double_sha256 bs).
Definition BlockHash_from_data (bs : bytes) : BlockHash :=
  BlockHash_new (double_sha256 bs).

Definition signing_digest (tx : Transaction) : may_panic bytes :=
  double_sha256 <$> encode_with_unlocking_data false tx.

(** [Transaction::txid]. *)
Definition Transaction_txid (tx : Transaction) : may_panic Txid :=
  Txid_from_data <$> Transaction_encode tx.

(** [BlockHeader::block_hash]. *)
Definition header_hash (h : BlockHeader) : BlockHash :=
  BlockHash_from_data (BlockHeader_encode h).

(** [Transaction::txid_bytes]. *)
Definition txid_bytes (tx : Transaction) : may_panic bytes :=
  Txid_as_bytes <$> Transaction_txid tx.

(** The body of [level.chunks_exact(2).map(..)]: a trailing single element is
    dropped by [chunks_exact]. *)
Fixpoint hash_pairs (level : list bytes) : list bytes :=
  match level with
  | a :: b :: level => double_sha256 (a ++ b) :: hash_pairs level
  | _ => []
  end.

(** One iteration of the [while level.len() > 1] loop. *)
Definition merkle_step (level : list bytes) : list bytes :=
  let level :=
    if bool_decide (Z.of_nat (length level) mod 2 = 1)
    then match last level with Some l => level ++ [l] | None => level end
    else level in
  hash_pairs level.

Fixpoint merkle_loop (fuel : nat) (level : list bytes) : option (list bytes) :=
  if bool_decide (1 < length level)%nat then
    match fuel with
    | O => None
    | S fuel => merkle_loop fuel (merkle_step level)
    end
  else Some level.

(** [Block::merkle_root]; each iteration at least halves the level (rounded
    up), so the number of leaves bounds the iterations. *)
Definition merkle_root (b : Block) : may_panic bytes :=
  level ← mapM txid_bytes (transactions b);
  match level with
  | [] => Some (double_sha256 [])
  | _ :: _ =>
      level ← merkle_loop (length level) level;
      level !! 0%nat
  end.

End hashes.

#[global] Arguments encode_with_unlocking_data : simpl never.
#[global] Arguments Transaction_encode : simpl never.
#[global] Arguments BlockHeader_encode : simpl never.
#[global] Arguments Transaction_txid : simpl never.
#[global] Arguments signing_digest : simpl never.
#[global] Arguments header_hash : simpl never.
#[global] Arguments txid_bytes : simpl never.
#[global] Arguments merkle_root : simpl never.

(** ** Ranges *)

Definition Txid_wf (t : Txid) : Prop := length (Txid_as_bytes t) = 32%nat.
Definition BlockHash_wf (h : BlockHash) : Prop := length (BlockHash_as_bytes h) = 32%nat.
Definition OutPoint_wf (o : OutPoint) : Prop := Txid_wf (txid o) ∧ u32 (vout o).
Definition TxOut_wf (o : TxOut) : Prop := u64 (value o).
Definition Transaction_wf (tx : Transaction) : Prop :=
  u32 (version tx) ∧ u32 (lock_time tx)
  ∧ Forall (λ i, OutPoint_wf (previous_output i)) (inputs tx)
  ∧ Forall TxOut_wf (outputs tx).
Definition BlockHeader_wf (h : BlockHeader) : Prop :=
  u32 (header_version h) ∧ BlockHash_wf (prev_blockhash h)
  ∧ length (header_merkle_root h) = 32%nat
  ∧ u64 (time h) ∧ u32 (bits h) ∧ u32 (nonce h).

#[export] Instance OutPoint_wf_dec o : Decision (OutPoint_wf o).
Proof. unfold OutPoint_wf, Txid_wf. apply _. Defined.
#[export] Instance TxOut_wf_dec o : Decision (TxOut_wf o).
Proof. unfold TxOut_wf. apply _. Defined.
#[export] Instance Transaction_wf_dec tx : Decision (Transaction_wf tx).
Proof. unfold Transaction_wf. apply _. Defined.

(** Every length prefix of the encoding fits in a [u32]: exactly the
    transactions the program can hash without a panic. *)
Definition fits_u32 (n : nat) : Prop := Z.of_nat n < 2 ^ 32.

Definition encodable (include : bool) (tx : Transaction) : Prop :=
  fits_u32 (length (inputs tx)) ∧ fits_u32 (length (outputs tx))
  ∧ (include = true → Forall (λ i, fits_u32 (length (unlocking_data i))) (inputs tx))
  ∧ Forall (λ o, fits_u32 (length (locking_data o))) (outputs tx).

#[export] Instance fits_u32_dec n : Decision (fits_u32 n).
Proof. unfold fits_u32. apply _. Defined.
#[export] Instance encodable_dec inc tx : Decision (encodable inc tx).
Proof. unfold encodable. apply _. Defined.

(** ** The encoding against a reference

    [tx_ref] is the concatenation the loops of [encode_with_unlocking_data]
    build; it is what the injectivity arguments work on. *)

Definition bytes_ref (data : bytes) : bytes :=
  le_bytes 4 (Z.of_nat (length data)) ++ data.
Definition input_ref (i : TxIn) : bytes :=
  Txid_as_bytes (txid (previous_output i)) ++ le_bytes 4 (vout (previous_output i))
  ++ bytes_ref (unlocking_data i).
Definition output_ref (o : TxOut) : bytes :=
  le_bytes 8 (value o) ++ bytes_ref (locking_data o).
Definition tx_ref (tx : Transaction) : bytes :=
  le_bytes 4 (version tx)
  ++ le_bytes 4 (Z.of_nat (length (inputs tx))) ++ mjoin (input_ref <$> inputs tx)
  ++ le_bytes 4 (Z.of_nat (length (outputs tx))) ++ mjoin (output_ref <$> outputs tx)
  ++ le_bytes 4 (lock_time tx).

(** The transaction with its spend authorizations removed. *)
Definition strip (tx : Transaction) : Transaction := {|
  version := version tx;
  inputs := (λ i, {| previous_output := previous_output i; unlocking_data := [] |})
              <$> inputs tx;
  outputs := outputs tx;
  lock_time := lock_time tx
|}.

Lemma encode_len_Some n bs r :
  encode_len n bs = Some r ↔ fits_u32 n ∧ r = bs ++ le_bytes 4 (Z.of_nat n).
Proof.
  unfold encode_len, fits_u32. rewrite bind_Some. setoid_rewrite try_from_Some.
  naive_solver.
Qed.

Lemma encode_bytes_Some data bs r :
  encode_bytes data bs = Some r ↔
  fits_u32 (length data) ∧ r = bs ++ bytes_ref data.
Proof.
  unfold encode_bytes, bytes_ref. rewrite bind_Some.
  setoid_rewrite encode_len_Some. rewrite app_assoc. naive_solver.
Qed.

(** A loop that only appends computes a concatenation. *)
Lemma try_fold_append {A} (P : A → Prop) (g : A → bytes)
    (f : bytes → A → option bytes) l :
  (∀ s a r, f s a = Some r ↔ P a ∧ r = s ++ g a) →
  ∀ s r, try_fold f s l = Some r ↔ Forall P l ∧ r = s ++ mjoin (g <$> l).
Proof.
  intros Hf. induction l as [|a l IH]; intros s r; cbn [try_fold].
  - cbn. rewrite app_nil_r. split; [by intros [= <-]|by intros [_ ->]].
  - rewrite bind_Some. setoid_rewrite Hf. setoid_rewrite IH.
    rewrite Forall_cons. cbn. setoid_rewrite app_assoc. naive_solver.
Qed.

Lemma encode_inputs_Some bs l r :
  try_fold (λ bs input,
    let bs := bs ++ Txid_as_bytes (txid (previous_output input)) in
    let bs := bs ++ le_bytes 4 (vout (previous_output input)) in
    encode_bytes (unlocking_data input) bs) bs l = Some r ↔
  Forall (λ i, fits_u32 (length (unlocking_data i))) l
  ∧ r = bs ++ mjoin (input_ref <$> l).
Proof.
  apply try_fold_append. intros s i r'. cbv zeta. rewrite encode_bytes_Some.
  unfold input_ref. by rewrite <-!app_assoc.
Qed.

Lemma encode_outputs_Some bs l r :
  try_fold (λ bs output,
    let bs := bs ++ le_bytes 8 (value output) in
    encode_bytes (locking_data output) bs) bs l = Some r ↔
  Forall (λ o, fits_u32 (length (locking_data o))) l
  ∧ r = bs ++ mjoin (output_ref <$> l).
Proof.
  apply try_fold_append. intros s o r'. cbv zeta. rewrite encode_bytes_Some.
  unfold output_ref. by rewrite <-!app_assoc.
Qed.

Lemma encode_true_Some tx bs :
  Transaction_encode tx = Some bs ↔ encodable true tx ∧ bs = tx_ref tx.
Proof.
  unfold Transaction_encode, encode_with_unlocking_data, encodable, tx_ref.
  split.
  - intros (? & [= <-] & (? & [? ->]%encode_len_Some & (? & [? ->]%encode_inputs_Some
      & (? & [? ->]%encode_len_Some & (? & [? ->]%encode_outputs_Some
      & [= <-])%bind_Some)%bind_Some)%bind_Some)%bind_Some)%bind_Some.
    by rewrite <-!app_assoc.
  - intros ((? & ? & Hu & ?) & ->). specialize (Hu eq_refl).
    repeat (apply bind_Some; eexists; split;
      [first [ done | by apply encode_len_Some | by apply encode_inputs_Some
             | by apply encode_outputs_Some ]|]).
    by rewrite <-!app_assoc.
Qed.

Lemma encode_strip tx :
  encode_with_unlocking_data false tx = Transaction_encode (strip tx).
Proof.
  unfold Transaction_encode, encode_with_unlocking_data, strip.
  cbn [version inputs outputs lock_time]. rewrite length_fmap.
  cbn [mbind option_bind].
  destruct (encode_len (length (inputs tx)) (le_bytes 4 (version tx))) as [bs|]; [|done].
  cbv beta iota delta [mbind option_bind].
  match goal with |- context [try_fold ?f bs (inputs tx)] => set (f1 := f) end.
  match goal with |- context [try_fold ?f bs (_ <$> inputs tx)] => set (f2 := f) end.
  enough (∀ l s, try_fold f1 s l
    = try_fold f2 s ((λ i, {| previous_output := previous_output i;
                              unlocking_data := [] |}) <$> l)) as -> by done.
  intros l. induction l as [|i l IH]; intros s; [done|].
  change (f1 s i ≫= (λ s', try_fold f1 s' l)
    = f1 s i ≫= (λ s', try_fold f2 s' ((λ i, {| previous_output := previous_output i;
                              unlocking_data := [] |}) <$> l))).
  destruct (f1 s i); cbn; auto.
Qed.

Lemma encode_false_Some tx bs :
  encode_with_unlocking_data false tx = Some bs ↔
  encodable true (strip tx) ∧ bs = tx_ref (strip tx).
Proof. rewrite encode_strip. apply encode_true_Some. Qed.

Lemma encodable_strip tx : encodable true (strip tx) ↔ encodable false tx.
Proof.
  unfold encodable, strip; cbn. rewrite length_fmap, Forall_fmap.
  split; intros (? & ? & ? & ?); repeat split; auto; [done|].
  intros _. apply Forall_true. intros i. by vm_compute.
Qed.

(** *** Prefix-injective encoders *)

Definition prefix_inj {A} (P : A → Prop) (g : A → bytes) : Prop :=
  ∀ a b r1 r2, P a → P b → g a ++ r1 = g b ++ r2 → a = b ∧ r1 = r2.

Lemma le_bytes_prefix_inj n z1 z2 r1 r2 :
  0 ≤ z1 < 256 ^ Z.of_nat n → 0 ≤ z2 < 256 ^ Z.of_nat n →
  le_bytes n z1 ++ r1 = le_bytes n z2 ++ r2 → z1 = z2 ∧ r1 = r2.
Proof.
  intros H1 H2 [H ->]%app_inj_1; [|by rewrite !length_le_bytes].
  by apply le_bytes_inj in H.
Qed.

Lemma le4_prefix_inj z1 z2 r1 r2 :
  u32 z1 → u32 z2 → le_bytes 4 z1 ++ r1 = le_bytes 4 z2 ++ r2 → z1 = z2 ∧ r1 = r2.
Proof. apply (le_bytes_prefix_inj 4). Qed.

Lemma le8_prefix_inj z1 z2 r1 r2 :
  u64 z1 → u64 z2 → le_bytes 8 z1 ++ r1 = le_bytes 8 z2 ++ r2 → z1 = z2 ∧ r1 = r2.
Proof. apply (le_bytes_prefix_inj 8). Qed.

Lemma fits_u32_u32 n : fits_u32 n → u32 (Z.of_nat n).
Proof. unfold fits_u32, uint. lia. Qed.

Lemma bytes_ref_prefix_inj : prefix_inj (λ d, fits_u32 (length d)) bytes_ref.
Proof.
  intros d1 d2 r1 r2 H1%fits_u32_u32 H2%fits_u32_u32. unfold bytes_ref.
  rewrite <-!app_assoc. intros [Hl Hr]%le4_prefix_inj; [|done..].
  apply app_inj_1 in Hr; [done|lia].
Qed.

Lemma mjoin_prefix_inj {A} (P : A → Prop) (g : A → bytes) l1 l2 r1 r2 :
  prefix_inj P g → Forall P l1 → Forall P l2 → length l1 = length l2 →
  mjoin (g <$> l1) ++ r1 = mjoin (g <$> l2) ++ r2 → l1 = l2 ∧ r1 = r2.
Proof.
  intros Hg. revert l2. induction l1 as [|a l1 IH]; intros [|b l2] H1 H2 Hl; try done.
  apply Forall_cons in H1 as [? ?]. apply Forall_cons in H2 as [? ?]. cbn.
  rewrite <-!app_assoc. intros [-> Hr]%Hg; [|done..].
  apply IH in Hr as [-> ->]; auto.
Qed.

Lemma input_ref_prefix_inj :
  prefix_inj (λ i, OutPoint_wf (previous_output i) ∧ fits_u32 (length (unlocking_data i)))
    input_ref.
Proof.
  intros [[[t1] v1] u1] [[[t2] v2] u2] r1 r2 [[Ht1 Hv1] Hf1] [[Ht2 Hv2] Hf2].
  unfold input_ref, Txid_wf in *; cbn in *. rewrite <-!app_assoc.
  intros [-> Hr]%app_inj_1; [|congruence].
  apply le4_prefix_inj in Hr as [-> Hr]; [|done..].
  apply bytes_ref_prefix_inj in Hr as [-> ->]; done.
Qed.

Lemma output_ref_prefix_inj :
  prefix_inj (λ o, TxOut_wf o ∧ fits_u32 (length (locking_data o))) output_ref.
Proof.
  intros [v1 d1] [v2 d2] r1 r2 [Hv1 Hf1] [Hv2 Hf2].
  unfold output_ref, TxOut_wf in *; cbn in *. rewrite <-!app_assoc.
  intros [-> Hr]%le8_prefix_inj; [|done..].
  apply bytes_ref_prefix_inj in Hr as [-> ->]; done.
Qed.

Lemma tx_ref_prefix_inj :
  prefix_inj (λ tx, Transaction_wf tx ∧ encodable true tx) tx_ref.
Proof.
  intros [v1 i1 o1 l1] [v2 i2 o2 l2] r1 r2 [(?&?&?&?) (Hi1&Ho1&Hu1&?)]
    [(?&?&?&?) (Hi2&Ho2&Hu2&?)].
  unfold tx_ref; cbn in *. specialize (Hu1 eq_refl). specialize (Hu2 eq_refl).
  rewrite <-!app_assoc. intros [-> Hr]%le4_prefix_inj; [|done..].
  apply le4_prefix_inj in Hr as [Hl Hr]; [|by apply fits_u32_u32..].
  apply (mjoin_prefix_inj _ _ _ _ _ _ input_ref_prefix_inj) in Hr as [-> Hr];
    [|by apply Forall_and..|lia].
  apply le4_prefix_inj in Hr as [Hl' Hr]; [|by apply fits_u32_u32..].
  apply (mjoin_prefix_inj _ _ _ _ _ _ output_ref_prefix_inj) in Hr as [-> Hr];
    [|by apply Forall_and..|lia].
  by apply le4_prefix_inj in Hr as [-> ->].
Qed.

Lemma strip_wf tx : Transaction_wf tx → Transaction_wf (strip tx).
Proof.
  intros (? & ? & ? & ?). split_and!; cbn; [done..| |done]. by apply Forall_fmap.
Qed.

Lemma strip_eq t1 t2 :
  strip t1 = strip t2 ↔
  version t1 = version t2 ∧ previous_output <$> inputs t1 = previous_output <$> inputs t2
  ∧ outputs t1 = outputs t2 ∧ lock_time t1 = lock_time t2.
Proof.
  destruct t1 as [v1 i1 o1 l1], t2 as [v2 i2 o2 l2]; unfold strip; cbn. split.
  - intros [= -> Hi -> ->]. split_and!; try done.
    apply (f_equal (fmap previous_output)) in Hi. rewrite <-!list_fmap_compose in Hi. done.
  - intros (-> & Hi & -> & ->). f_equal.
    change (λ i, {| previous_output := previous_output i; unlocking_data := [] |}) with
      ((λ o, {| previous_output := o; unlocking_data := [] |}) ∘ previous_output).
    by rewrite !list_fmap_compose, Hi.
Qed.

(** ** Merkle trees

    The source hashes level by level, bottom up.  [merkle_spec d] is the
    textbook tree of depth [d], top down: a full left half, and a right half
    that is the left one repeated when the leaves do not reach it. *)

Section merkle.
Context `{C : Crypto}.

Fixpoint merkle_spec (d : nat) (leaves : list bytes) : bytes :=
  match d with
  | O => default [] (head leaves)
  | S d =>
      if bool_decide (length leaves ≤ 2 ^ d)%nat then
        let r := merkle_spec d leaves in double_sha256 (r ++ r)
      else
        double_sha256 (merkle_spec d (take (2 ^ d) leaves)
                       ++ merkle_spec d (drop (2 ^ d) leaves))
  end.

Lemma merkle_spec_S d l :
  merkle_spec (S d) l =
    if bool_decide (length l ≤ 2 ^ d)%nat then
      let r := merkle_spec d l in double_sha256 (r ++ r)
    else double_sha256 (merkle_spec d (take (2 ^ d) l) ++ merkle_spec d (drop (2 ^ d) l)).
Proof. done. Qed.

Lemma hash_pairs_app l1 l2 k :
  length l1 = (2 * k)%nat → hash_pairs (l1 ++ l2) = hash_pairs l1 ++ hash_pairs l2.
Proof.
  revert l1. induction k as [|k IH]; intros l1 Hl.
  - by destruct l1.
  - destruct l1 as [|a [|b l1]]; cbn in Hl; [lia..|]. cbn. by rewrite IH by lia.
Qed.

Lemma hash_pairs_length k l : length l = (2 * k)%nat → length (hash_pairs l) = k.
Proof.
  revert l. induction k as [|k IH]; intros l Hl; [by destruct l|].
  destruct l as [|a [|b l]]; cbn in Hl; [lia..|]. cbn. by rewrite IH by lia.
Qed.

(** The level after padding, and its half length. *)
Definition padded (level : list bytes) : list bytes :=
  if bool_decide (Z.of_nat (length level) mod 2 = 1)
  then match last level with Some l => level ++ [l] | None => level end
  else level.

Lemma merkle_step_padded level : merkle_step level = hash_pairs (padded level).
Proof. done. Qed.

Lemma padded_even k l : length l = (2 * k)%nat → padded l = l.
Proof.
  intros Hl. unfold padded. rewrite bool_decide_eq_false_2; [done|].
  rewrite Hl, Nat2Z.inj_mul, Z.mul_comm, Z.mod_mul by lia. lia.
Qed.

Lemma padded_odd k l x :
  length l = (2 * k + 1)%nat → last l = Some x → padded l = l ++ [x].
Proof.
  intros Hl Hx. unfold padded. rewrite bool_decide_eq_true_2, Hx; [done|].
  rewrite Hl, Nat2Z.inj_add, Nat2Z.inj_mul, Z.add_comm, Z.mul_comm, Z.mod_add by lia. done.
Qed.

Lemma half_cases (n : nat) : ∃ k, n = (2 * k)%nat ∨ n = (2 * k + 1)%nat.
Proof.
  exists (Nat.div2 n). pose proof (Nat.div2_odd n) as H.
  destruct (Nat.odd n); cbn [Nat.b2n] in H; lia.
Qed.

Lemma last_app_ne {A} (l1 l2 : list A) : l2 ≠ [] → last (l1 ++ l2) = last l2.
Proof.
  intros Hne. destruct (last l2) as [x|] eqn:Hl.
  - rewrite last_app. by rewrite Hl.
  - by apply last_None in Hl.
Qed.

Lemma last_is_Some_ne {A} (l : list A) : l ≠ [] → ∃ x, last l = Some x.
Proof. intros H. destruct (last l) eqn:E; [eauto|]. by apply last_None in E. Qed.

Lemma merkle_step_app k l1 l2 :
  length l1 = (2 * k)%nat → l2 ≠ [] →
  merkle_step (l1 ++ l2) = merkle_step l1 ++ merkle_step l2.
Proof.
  intros Hl Hne. rewrite !merkle_step_padded, (padded_even k l1) by done.
  destruct (half_cases (length l2)) as [j [Hj|Hj]].
  - rewrite (padded_even (k + j) (l1 ++ l2)) by (rewrite length_app; lia).
    rewrite (padded_even j l2) by done. by apply hash_pairs_app with k.
  - destruct (last_is_Some_ne l2 Hne) as [x Hx].
    rewrite (padded_odd (k + j) (l1 ++ l2) x);
      [|rewrite length_app; lia|by rewrite last_app_ne].
    rewrite (padded_odd j l2 x) by done.
    rewrite <-app_assoc. by apply hash_pairs_app with k.
Qed.

Lemma merkle_step_length l :
  (2 * length (merkle_step l) = length l ∨ 2 * length (merkle_step l) = length l + 1)%nat.
Proof.
  rewrite merkle_step_padded. destruct (half_cases (length l)) as [k [Hk|Hk]].
  - rewrite (padded_even k), (hash_pairs_length k) by done. lia.
  - destruct (last_is_Some_ne l) as [x Hx]; [by intros ->; cbn in Hk; lia|].
    rewrite (padded_odd k l x) by done.
    rewrite (hash_pairs_length (S k)) by (rewrite length_app; cbn; lia). lia.
Qed.

Lemma merkle_step_nonempty l : l ≠ [] → merkle_step l ≠ [].
Proof.
  intros Hl Hs. pose proof (merkle_step_length l) as H. rewrite Hs in H. cbn in H.
  destruct l; [done|]. cbn in H. lia.
Qed.

(** One more level of the tree is one more bottom-up step. *)
Lemma merkle_spec_step d l :
  l ≠ [] → (length l ≤ 2 ^ S d)%nat →
  merkle_spec (S d) l = merkle_spec d (merkle_step l).
Proof.
  revert l. induction d as [|d IH]; intros l Hne Hlen.
  { destruct l as [|a [|b [|c l]]]; [done| | |cbn in Hlen; lia]; cbn; done. }
  rewrite (merkle_spec_S (S d) l), (merkle_spec_S d (merkle_step l)).
  pose proof (merkle_step_length l) as Hs.
  assert (2 ^ S (S d) = 2 * 2 ^ S d)%nat as Hpow by apply Nat.pow_succ_r'.
  assert (2 ^ S d = 2 * 2 ^ d)%nat as Hpow' by apply Nat.pow_succ_r'.
  case_bool_decide as Hle.
  - rewrite bool_decide_eq_true_2 by lia. cbv zeta. by rewrite IH by done.
  - rewrite bool_decide_eq_false_2 by lia.
    assert (drop (2 ^ S d) l ≠ []) as Hd.
    { intros Hd. apply (f_equal length) in Hd. rewrite length_drop in Hd. cbn [length] in Hd. lia. }
    assert (0 < 2 ^ S d)%nat by (apply Nat.neq_0_lt_0, Nat.pow_nonzero; lia).
    assert (take (2 ^ S d) l ≠ []) as Ht.
    { intros Ht. apply (f_equal length) in Ht. rewrite length_take in Ht.
      cbn [length] in Ht. lia. }
    rewrite (IH (take (2 ^ S d) l)) by (done || rewrite length_take; lia).
    rewrite (IH (drop (2 ^ S d) l)) by (done || rewrite length_drop; lia).
    assert (length (take (2 ^ S d) l) = 2 * 2 ^ d)%nat as Hlt by (rewrite length_take; lia).
    assert (merkle_step l = merkle_step (take (2 ^ S d) l) ++ merkle_step (drop (2 ^ S d) l))
      as Happ.
    { rewrite <-(take_drop (2 ^ S d) l) at 1. by apply merkle_step_app with (2 ^ d)%nat. }
    assert (length (merkle_step (take (2 ^ S d) l)) = 2 ^ d)%nat as Hlt'.
    { pose proof (merkle_step_length (take (2 ^ S d) l)). lia. }
    rewrite Happ, take_app_length', drop_app_length' by done. done.
Qed.

Lemma merkle_loop_spec d fuel l :
  l ≠ [] → (length l ≤ 2 ^ d)%nat → (d = 0 ∨ 2 ^ (d - 1) < length l)%nat → (d ≤ fuel)%nat →
  merkle_loop fuel l = Some [merkle_spec d l].
Proof.
  revert fuel l. induction d as [|d IH]; intros fuel l Hne Hle Hgt Hf.
  - destruct l as [|a [|b l]]; [done| |cbn in Hle; lia]. by destruct fuel.
  - destruct fuel as [|fuel]; [lia|]. cbn [merkle_loop].
    destruct Hgt as [|Hgt]; [done|]. rewrite Nat.sub_succ, Nat.sub_0_r in Hgt.
    assert (2 ^ S d = 2 * 2 ^ d)%nat as Hpow by apply Nat.pow_succ_r'.
    assert (0 < 2 ^ d)%nat by (apply Nat.neq_0_lt_0, Nat.pow_nonzero; lia).
    rewrite bool_decide_eq_true_2 by lia.
    rewrite merkle_spec_step by done.
    pose proof (merkle_step_length l).
    apply IH; [by apply merkle_step_nonempty|lia| |lia].
    destruct d as [|d]; [by left|right]. rewrite Nat.sub_succ, Nat.sub_0_r.
    assert (2 ^ S d = 2 * 2 ^ d)%nat by apply Nat.pow_succ_r'. lia.
Qed.

Lemma merkle_loop_log2_up l :
  l ≠ [] →
  merkle_loop (length l) l = Some [merkle_spec (Nat.log2_up (length l)) l].
Proof.
  intros Hne. destruct l as [|a [|b l]]; [done|done|].
  set (l' := a :: b :: l). assert (1 < length l')%nat as H1 by (cbn; lia).
  destruct (Nat.log2_up_spec (length l') H1) as [Hlo Hhi].
  apply merkle_loop_spec; [done|done| |].
  - right. by rewrite Nat.sub_1_r.
  - apply Nat.log2_up_le_lin. lia.
Qed.

Lemma merkle_step_dup k l x :
  length l = (2 * k + 1)%nat → last l = Some x → merkle_step (l ++ [x]) = merkle_step l.
Proof.
  intros Hl Hx. rewrite !merkle_step_padded, (padded_odd k l x) by done.
  rewrite (padded_even (S k)); [done|]. rewrite length_app. cbn. lia.
Qed.

Lemma merkle_loop_mono f1 f2 l r :
  merkle_loop f1 l = Some r → (f1 ≤ f2)%nat → merkle_loop f2 l = Some r.
Proof.
  revert f2 l. induction f1 as [|f1 IH]; intros f2 l; cbn [merkle_loop]; intros H Hle.
  - destruct f2; cbn [merkle_loop]; by destruct (bool_decide _).
  - destruct f2 as [|f2]; [lia|]. cbn [merkle_loop].
    destruct (bool_decide _); [|done]. apply IH; [done|lia].
Qed.

(** Repeating the last leaf of an odd level of at least three is absorbed by the
    first padding step. *)
Lemma merkle_loop_dup k lv x :
  length lv = (2 * k)%nat → (2 ≤ length lv)%nat →
  merkle_loop (length (lv ++ [x; x])) (lv ++ [x; x])
  = merkle_loop (length (lv ++ [x])) (lv ++ [x]).
Proof.
  intros Hk H2.
  destruct (merkle_loop (length (lv ++ [x])) (lv ++ [x])) as [r|] eqn:E.
  - apply merkle_loop_mono with (f1 := length (lv ++ [x])); [|rewrite !length_app; cbn; lia].
    rewrite <-E. rewrite length_app, Nat.add_1_r. cbn [merkle_loop].
    rewrite !bool_decide_eq_true_2 by (rewrite length_app; cbn; lia).
    change [x; x] with ([x] ++ [x]). rewrite app_assoc.
    f_equal. apply (merkle_step_dup k); [rewrite length_app; cbn; lia|].
    apply last_snoc.
  - rewrite merkle_loop_log2_up in E; [done|]. by destruct lv.
Qed.

Lemma Transaction_txid_is_Some tx : encodable true tx → is_Some (Transaction_txid tx).
Proof.
  intros Henc. unfold Transaction_txid.
  rewrite (proj2 (encode_true_Some tx _) (conj Henc eq_refl)). cbn. eauto.
Qed.

Lemma txid_encodable tx id : Transaction_txid tx = Some id → encodable true tx.
Proof.
  unfold Transaction_txid. destruct (Transaction_encode tx) eqn:E; [|done].
  intros _. by apply encode_true_Some in E as [? _].
Qed.

Lemma signing_digest_is_Some tx : encodable false tx → is_Some (signing_digest tx).
Proof.
  intros Henc%encodable_strip. unfold signing_digest.
  rewrite (proj2 (encode_false_Some tx _) (conj Henc eq_refl)). cbn. eauto.
Qed.

Lemma txid_bytes_is_Some tx : encodable true tx → is_Some (txid_bytes tx).
Proof. intros [t Ht]%Transaction_txid_is_Some. unfold txid_bytes. rewrite Ht. cbn. eauto. Qed.

Lemma txid_bytes_total txs :
  Forall (encodable true) txs → is_Some (mapM txid_bytes txs).
Proof.
  intros H. apply mapM_is_Some. eapply Forall_impl; [done|]. apply txid_bytes_is_Some.
Qed.

Lemma merkle_root_total b :
  Forall (encodable true) (transactions b) → is_Some (merkle_root b).
Proof.
  intros [ls Hls]%txid_bytes_total. unfold merkle_root. rewrite Hls. cbn.
  destruct ls as [|l ls]; [by eexists|]. rewrite merkle_loop_log2_up by done. by eexists.
Qed.

Lemma hash_pairs_lengths `{!CryptoLaws C} l :
  Forall (λ x, length x = 32%nat) (hash_pairs l).
Proof.
  assert (∀ n l, (length l ≤ n)%nat → Forall (λ x, length x = 32%nat) (hash_pairs l)) as H.
  { induction n as [|n IH]; intros [|a [|b k]] Hn; cbn in *; try constructor; try lia.
    - apply double_sha256_length.
    - apply IH. lia. }
  by apply (H (length l)).
Qed.

Lemma merkle_loop_lengths `{!CryptoLaws C} fuel l r :
  Forall (λ x, length x = 32%nat) l → merkle_loop fuel l = Some r →
  Forall (λ x, length x = 32%nat) r.
Proof.
  revert l. induction fuel as [|fuel IH]; intros l Hl; cbn [merkle_loop];
    case_bool_decide; [done|by intros [= <-]| |by intros [= <-]].
  apply IH, hash_pairs_lengths.
Qed.

Lemma merkle_root_length `{!CryptoLaws C} b r : merkle_root b = Some r → length r = 32%nat.
Proof.
  unfold merkle_root. intros (level & Hl & Hr)%bind_Some.
  destruct level as [|l0 level]; [injection Hr as <-; apply double_sha256_length|].
  apply bind_Some in Hr as (out & Hout & Hr).
  assert (Forall (λ x, length x = 32%nat) (l0 :: level)) as Hall.
  { apply Forall_forall. intros x [i Hi]%list_elem_of_lookup. apply mapM_Some in Hl.
    eapply Forall2_lookup_r in Hl as (tx & _ & Hx); [|done].
    unfold txid_bytes, Transaction_txid in Hx.
    destruct (Transaction_encode tx); simplify_eq/=. apply double_sha256_length. }
  eapply merkle_loop_lengths in Hall; [|done].
  eapply Forall_lookup_1 in Hall; done.
Qed.

Lemma mapM_app_Some {A B} (f : A → option B) l1 l2 k1 :
  mapM f l1 = Some k1 → mapM f (l1 ++ l2) = (k2 ← mapM f l2; Some (k1 ++ k2)).
Proof.
  revert k1. induction l1 as [|a l1 IH]; intros k1; cbn.
  - intros [= <-]. by destruct (mapM f l2).
  - destruct (f a); cbn; [|done]. destruct (mapM f l1) eqn:E; cbn; [|done].
    intros [= <-]. rewrite (IH _ eq_refl). by destruct (mapM f l2).
Qed.

End merkle.

(** ** Theorems *)

(** C26: The canonical transaction encoding is injective, so [txid] commits to
    every field: two transactions within their machine ranges that encode to the same bytes
    are the same transaction.  The encoding is produced (no panic) exactly for
    the transactions whose lengths fit in a [u32]. *)
Theorem Transaction_encode_injective (t1 t2 : Transaction) :
  Transaction_wf t1 → Transaction_wf t2 →
  (is_Some (Transaction_encode t1) ↔ encodable true t1)
  ∧ (is_Some (Transaction_encode t1) →
     Transaction_encode t1 = Transaction_encode t2 → t1 = t2).
Proof.
  intros Hw1 Hw2. split.
  - split.
    + by intros [bs [? ->]%encode_true_Some].
    + intros He. eexists. by apply encode_true_Some.
  - intros [bs Hbs] Heq. rewrite Hbs in Heq. symmetry in Heq.
    apply encode_true_Some in Hbs as [He1 ->]. apply encode_true_Some in Heq as [He2 Heq].
    apply (f_equal (λ l, l ++ [])) in Heq.
    by apply tx_ref_prefix_inj in Heq as [-> _].
Qed.

(** The signing digest is taken over exactly the transaction without its
    unlocking data: two transactions within their machine ranges have the same signing preimage if and
    only if they agree on version, previous outputs, outputs and lock time, so a signature
    commits to all of these and filling in signatures does not change what is signed. *)
Theorem signing_preimage_commits (t1 t2 : Transaction) :
  Transaction_wf t1 → Transaction_wf t2 → encodable false t1 → encodable false t2 →
  encode_with_unlocking_data false t1 = encode_with_unlocking_data false t2 ↔
  version t1 = version t2 ∧ previous_output <$> inputs t1 = previous_output <$> inputs t2
  ∧ outputs t1 = outputs t2 ∧ lock_time t1 = lock_time t2.
Proof.
  intros Hw1 Hw2 He1 He2. rewrite <-strip_eq, !encode_strip. split; [|by intros ->].
  intros Heq.
  assert (Transaction_encode (strip t1) = Some (tx_ref (strip t1))) as H1
    by (apply encode_true_Some; by rewrite encodable_strip).
  assert (Transaction_encode (strip t2) = Some (tx_ref (strip t2))) as H2
    by (apply encode_true_Some; by rewrite encodable_strip).
  rewrite H1, H2 in Heq. apply (inj Some) in Heq.
  apply (f_equal (λ l, l ++ [])) in Heq.
  apply tx_ref_prefix_inj in Heq as [? _]; [done|..];
    (split; [by apply strip_wf|by rewrite encodable_strip]).
Qed.

(** The 84-byte header encoding is injective on headers within their machine ranges, so a
    block hash commits to every header field. *)
Theorem BlockHeader_encode_injective (h1 h2 : BlockHeader) :
  BlockHeader_wf h1 → BlockHeader_wf h2 →
  length (BlockHeader_encode h1) = 84%nat
  ∧ (BlockHeader_encode h1 = BlockHeader_encode h2 → h1 = h2).
Proof.
  destruct h1 as [v1 [p1] m1 t1 b1 n1], h2 as [v2 [p2] m2 t2 b2 n2].
  unfold BlockHeader_wf, BlockHash_wf, BlockHeader_encode; cbn.
  intros (?&Hp1&Hm1&?&?&?) (?&Hp2&Hm2&?&?&?). split.
  { rewrite !length_app, !length_le_bytes, Hp1, Hm1. done. }
  intros [-> Hr]%le4_prefix_inj; [|done..].
  apply app_inj_1 in Hr as [-> Hr]; [|congruence].
  apply app_inj_1 in Hr as [-> Hr]; [|congruence].
  apply le8_prefix_inj in Hr as [-> Hr]; [|done..].
  apply le4_prefix_inj in Hr as [-> Hr]; [|done..].
  apply (f_equal (λ l, l ++ [])) in Hr. by apply le4_prefix_inj in Hr as [-> _].
Qed.

Section merkle_claims.
Context `{C : Crypto}.

(** C27: [merkle_root] always returns for encodable transactions, and the level-by-level loop
    computes the textbook Merkle tree of depth [ceil (log2 n)] over the
    transaction ids, a missing right half being a copy of the left one; the root of an empty block
    is the hash of the empty string. *)
Theorem merkle_root_is_tree (b : Block) :
  Forall (encodable true) (transactions b) →
  ∃ leaves, mapM txid_bytes (transactions b) = Some leaves
  ∧ merkle_root b = Some (if bool_decide (leaves = []) then double_sha256 []
                          else merkle_spec (Nat.log2_up (length leaves)) leaves).
Proof.
  intros Henc. destruct (txid_bytes_total _ Henc) as [leaves Hl].
  exists leaves. split; [done|]. unfold merkle_root. rewrite Hl. cbn.
  destruct leaves as [|l ls]; [done|].
  by rewrite merkle_loop_log2_up.
Qed.

(** The root does not determine the transactions: a block with an odd number
    (at least 3) of transactions and the same block with its last
    transaction repeated have the same Merkle root, hence the same header
    commits to both. *)
Theorem merkle_root_duplicate_last (h : BlockHeader) (txs : list Transaction) (tx : Transaction) :
  (2 ≤ length txs)%nat → Nat.Even (length txs) →
  Forall (encodable true) (txs ++ [tx]) →
  merkle_root {| header := h; transactions := txs ++ [tx; tx] |}
  = merkle_root {| header := h; transactions := txs ++ [tx] |}.
Proof.
  intros H2 [k Hk] Henc. unfold merkle_root; cbn [transactions].
  apply Forall_app in Henc as [[ls Hls]%txid_bytes_total Henc].
  apply Forall_singleton, txid_bytes_is_Some in Henc as [x Hx].
  pose proof (length_mapM _ _ _ Hls) as Hlen.
  assert (mapM txid_bytes [tx] = Some [x]) as Hx1 by (unfold mapM; by rewrite Hx).
  assert (mapM txid_bytes [tx; tx] = Some [x; x]) as Hx2 by (unfold mapM; by rewrite Hx).
  rewrite !(mapM_app_Some _ _ _ ls), Hx1, Hx2 by done. cbn [mbind option_bind].
  destruct ls as [|l ls]; [cbn in *; lia|]. cbn [app].
  change (l :: ls ++ [x; x]) with ((l :: ls) ++ [x; x]).
  change (l :: ls ++ [x]) with ((l :: ls) ++ [x]).
  set (lv := l :: ls) in *.
  by rewrite (merkle_loop_dup k lv x) by (rewrite Hlen in *; lia).
Qed.

End merkle_claims.

(** ** Witnesses *)

Module TypesWitness.

Definition txid0 : Txid := Txid_new (replicate 32 x07).
Definition spend (tag : byte) (v : Z) : Transaction := {|
  version := 1;
  inputs := [{| previous_output := {| txid := txid0; vout := 0 |}; unlocking_data := [tag] |}];
  outputs := [{| value := v; locking_data := replicate 32 x02 |}];
  lock_time := 0
|}.
Definition hdr : BlockHeader := {|
  header_version := 1; prev_blockhash := BlockHash_default;
  header_merkle_root := replicate 32 x01; time := 5; bits := 545259519; nonce := 9
|}.

Lemma spend_wf tag v : u64 v → Transaction_wf (spend tag v).
Proof.
  intros Hv. split_and!; [done..| |]; repeat constructor; done || apply Hv.
Qed.

Lemma spend_encodable inc tag v : encodable inc (spend tag v).
Proof. split_and!; [done..|intros _; by repeat constructor|by repeat constructor]. Qed.

End TypesWitness.

Lemma Transaction_encode_injective_witness :
  is_Some (Transaction_encode (TypesWitness.spend x01 3))
  ∧ TypesWitness.spend x01 3 = TypesWitness.spend (byte_of_Z 257) 3.
Proof.
  destruct (Transaction_encode_injective (TypesWitness.spend x01 3)
    (TypesWitness.spend (byte_of_Z 257) 3)) as [Htot Hinj];
    [apply TypesWitness.spend_wf; done..|].
  assert (is_Some (Transaction_encode (TypesWitness.spend x01 3))) as Hs
    by apply Htot, TypesWitness.spend_encodable.
  split; [exact Hs|]. apply Hinj; [exact Hs|]. vm_compute. reflexivity.
Defined.

Lemma signing_preimage_commits_witness :
  encode_with_unlocking_data false (TypesWitness.spend x01 3)
  = encode_with_unlocking_data false (TypesWitness.spend x02 3).
Proof.
  apply (signing_preimage_commits (TypesWitness.spend x01 3) (TypesWitness.spend x02 3));
    [apply TypesWitness.spend_wf; done..| | |done]; apply TypesWitness.spend_encodable.
Defined.

Lemma BlockHeader_encode_injective_witness :
  length (BlockHeader_encode TypesWitness.hdr) = 84%nat.
Proof.
  apply (BlockHeader_encode_injective TypesWitness.hdr TypesWitness.hdr);
    repeat split; done.
Defined.

Lemma merkle_root_is_tree_witness :
  ∃ leaves, mapM (txid_bytes (C:=Toy.crypto)) [TypesWitness.spend x01 3] = Some leaves.
Proof.
  edestruct (merkle_root_is_tree (C:=Toy.crypto)
    {| header := TypesWitness.hdr; transactions := [TypesWitness.spend x01 3] |})
    as (leaves & H & _).
  - repeat constructor; done.
  - eauto.
Defined.

Lemma merkle_root_duplicate_last_witness :
  let t := TypesWitness.spend x01 in
  merkle_root (C:=Toy.crypto) {| header := TypesWitness.hdr; transactions := [t 1; t 2; t 3; t 3] |}
  = merkle_root (C:=Toy.crypto) {| header := TypesWitness.hdr; transactions := [t 1; t 2; t 3] |}.
Proof.
  apply (merkle_root_duplicate_last (C:=Toy.crypto) TypesWitness.hdr
    [TypesWitness.spend x01 1; TypesWitness.spend x01 2] (TypesWitness.spend x01 3)).
  - done.
  - by exists 1%nat.
  - repeat constructor; done.
Defined.
