(* ===== verification/State.v ===== *)
(** * state.rs: the unspent transaction outputs

    [UtxoSet] is its one field, the map [entries].  An error return of
    [apply_transaction] precedes its first mutation, so the new set is the
    payload of [Ok]. *)

From S2P Require Import Prelude Bytes Crypto Types.

Inductive ValidationError :=
| EmptyOutputs
| MissingInput (o : OutPoint)
| DuplicateInput (o : OutPoint)
| InvalidLockingData (o : OutPoint)
| InvalidUnlockingData (o : OutPoint)
| SignatureMismatch (o : OutPoint)
| OutputValueOverflow
| InputValueOverflow
| Overspend (input_value output_value : Amount).

#[export] Instance ValidationError_eq_dec : EqDecision ValidationError.
Proof. unfold Amount. solve_decision. Defined.

Notation UtxoSet := (gmap OutPoint Utxo).

Record ValidationResult := { spent_inputs : list OutPoint; fee : Amount }.

(** ** Operations *)

Definition UtxoSet_new : UtxoSet := ∅.
Definition UtxoSet_len (U : UtxoSet) : nat := size U.
Definition UtxoSet_is_empty (U : UtxoSet) : bool := bool_decide (U = ∅).
Definition UtxoSet_get (U : UtxoSet) (o : OutPoint) : option Utxo := U !! o.
Definition UtxoSet_iter (U : UtxoSet) : list (OutPoint * Utxo) := map_to_list U.
Definition UtxoSet_insert (U : UtxoSet) (u : Utxo) : UtxoSet * option Utxo :=
  (<[outpoint u := u]> U, U !! outpoint u).

Definition sum_outputs (outs : list TxOut) : result ValidationError Amount :=
  try_fold (λ total o, ok_or (checked_add 64 total (value o)) OutputValueOverflow) 0 outs.

Section state.
Context `{C : Crypto}.

(** The body of the loop over [tx.inputs], on [(seen_inputs, input_value)]. *)
Definition check_input (U : UtxoSet) (digest : bytes)
    (st : gset OutPoint * Z) (input : TxIn) : result ValidationError (gset OutPoint * Z) :=
  let '(seen_inputs, input_value) := st in
  let o := previous_output input in
  if bool_decide (o ∈ seen_inputs) then Err (DuplicateInput o)
  else
    utxo ← ok_or (U !! o) (MissingInput o);
    verifying_key ← ok_or (parse_verifying_key (locking_data (output utxo)))
                      (InvalidLockingData o);
    signature ← ok_or (parse_signature (unlocking_data input)) (InvalidUnlockingData o);
    if verify_message signature verifying_key digest then
      input_value ← ok_or (checked_add 64 input_value (value (output utxo)))
                      InputValueOverflow;
      Ok ({[ o ]} ∪ seen_inputs, input_value)
    else Err (SignatureMismatch o).

Definition validate_transaction_inner (U : UtxoSet) (tx : Transaction)
    : result ValidationError ValidationResult :=
  match outputs tx with
  | [] => Err EmptyOutputs
  | _ :: _ =>
      output_value ← sum_outputs (outputs tx);
      if is_coinbase tx then Ok {| spent_inputs := []; fee := 0 |}
      else
        digest ← expect (signing_digest tx);
        st ← try_fold (check_input U digest) (∅, 0) (inputs tx);
        let input_value := st.2 in
        if bool_decide (input_value < output_value)
        then Err (Overspend input_value output_value)
        else Ok {| spent_inputs := previous_output <$> inputs tx;
                   fee := input_value - output_value |}
  end.

Definition validate_transaction (U : UtxoSet) (tx : Transaction)
    : result ValidationError unit :=
  (λ _, ()) <$> validate_transaction_inner U tx.

Definition transaction_fee (U : UtxoSet) (tx : Transaction)
    : result ValidationError Amount :=
  validation ← validate_transaction_inner U tx;
  Ok (fee validation).

(** [for (vout, output) in tx.outputs.iter().cloned().enumerate()]. *)
Fixpoint insert_outputs (id : Txid) (h : BlockHeight) (coinbase : bool)
    (vout : nat) (outs : list TxOut) (U : UtxoSet) : may_panic UtxoSet :=
  match outs with
  | [] => Some U
  | out :: outs =>
      v ← try_from 32 (Z.of_nat vout);
      let utxo := {| outpoint := {| txid := id; Types.vout := v |}; output := out;
                     created_at_height := h; utxo_is_coinbase := coinbase |} in
      insert_outputs id h coinbase (S vout) outs (<[outpoint utxo := utxo]> U)
  end.

Definition apply_transaction (U : UtxoSet) (tx : Transaction) (h : BlockHeight)
    : result ValidationError UtxoSet :=
  validation ← validate_transaction_inner U tx;
  let U := if is_coinbase tx then U
           else foldl (λ U o, delete o U) U (spent_inputs validation) in
  id ← expect (Transaction_txid tx);
  expect (insert_outputs id h (is_coinbase tx) 0 (outputs tx) U).

End state.

(** ** Specification *)

Definition out_value (tx : Transaction) : Z := Zsum (value <$> outputs tx).

Definition coin_value (U : UtxoSet) (o : OutPoint) : Z :=
  match U !! o with Some u => value (output u) | None => 0 end.

Definition in_value (U : UtxoSet) (tx : Transaction) : Z :=
  Zsum (coin_value U ∘ previous_output <$> inputs tx).

(** The total value of a set of coins. *)
Definition total_value (U : UtxoSet) : Z :=
  Zsum ((λ p, value (output p.2)) <$> map_to_list U).

(** Every coin is stored under its own outpoint and holds a [u64] value. *)
Definition utxos_wf (U : UtxoSet) : Prop :=
  map_Forall (λ o u, outpoint u = o ∧ TxOut_wf (output u)) U.

#[export] Instance utxos_wf_dec U : Decision (utxos_wf U).
Proof. unfold utxos_wf. apply _. Defined.

Section spec.
Context `{C : Crypto}.

(** The holder of the coin's key signed [digest]. *)
Definition authorized (U : UtxoSet) (digest : bytes) (i : TxIn) : Prop :=
  ∃ u vk sg, U !! previous_output i = Some u
  ∧ parse_verifying_key (locking_data (output u)) = Some vk
  ∧ parse_signature (unlocking_data i) = Some sg
  ∧ verify_message sg vk digest = true.

(** The validity rules, independently of the order they are checked in. *)
Definition spend_valid (U : UtxoSet) (tx : Transaction) (f : Z) : Prop :=
  ∃ digest, signing_digest tx = Some digest
  ∧ NoDup (previous_output <$> inputs tx)
  ∧ Forall (authorized U digest) (inputs tx)
  ∧ in_value U tx < 2 ^ 64
  ∧ f = in_value U tx - out_value tx ∧ 0 ≤ f.

Definition tx_valid (U : UtxoSet) (tx : Transaction) (f : Z) : Prop :=
  outputs tx ≠ [] ∧ out_value tx < 2 ^ 64
  ∧ if is_coinbase tx then f = 0 else spend_valid U tx f.

(** What each error reports. *)
Definition rejects (U : UtxoSet) (tx : Transaction) (e : ValidationError) : Prop :=
  match e with
  | EmptyOutputs => outputs tx = []
  | OutputValueOverflow => 2 ^ 64 ≤ out_value tx
  | DuplicateInput o =>
      ∃ l1 i l2, inputs tx = l1 ++ i :: l2 ∧ previous_output i = o
                 ∧ o ∈ previous_output <$> l1
  | MissingInput o => o ∈ previous_output <$> inputs tx ∧ U !! o = None
  | InvalidLockingData o =>
      o ∈ previous_output <$> inputs tx
      ∧ ∃ u, U !! o = Some u ∧ parse_verifying_key (locking_data (output u)) = None
  | InvalidUnlockingData o =>
      ∃ i, i ∈ inputs tx ∧ previous_output i = o ∧ parse_signature (unlocking_data i) = None
  | SignatureMismatch o =>
      ∃ i u vk sg digest, i ∈ inputs tx ∧ previous_output i = o ∧ U !! o = Some u
        ∧ parse_verifying_key (locking_data (output u)) = Some vk
        ∧ parse_signature (unlocking_data i) = Some sg
        ∧ signing_digest tx = Some digest ∧ verify_message sg vk digest = false
  | InputValueOverflow => 2 ^ 64 ≤ in_value U tx
  | Overspend i o => i = in_value U tx ∧ o = out_value tx ∧ i < o
  end.

End spec.

(** ** Sums over a coin set *)

Lemma total_value_empty : total_value ∅ = 0.
Proof. unfold total_value. by rewrite map_to_list_empty. Qed.

Lemma total_value_insert U o u :
  U !! o = None → total_value (<[o := u]> U) = value (output u) + total_value U.
Proof.
  intros Ho. unfold total_value. by rewrite map_to_list_insert, fmap_cons, Zsum_cons.
Qed.

Lemma total_value_delete U o :
  total_value (delete o U) = total_value U - coin_value U o.
Proof.
  unfold coin_value. destruct (U !! o) as [u|] eqn:Ho.
  - rewrite <-(insert_delete_id U o u Ho) at 2.
    rewrite total_value_insert by apply lookup_delete_eq. lia.
  - rewrite delete_id by done. lia.
Qed.

Lemma total_value_insert_gen U o u :
  total_value (<[o := u]> U) = value (output u) + total_value U - coin_value U o.
Proof.
  rewrite <-insert_delete_eq, total_value_insert by apply lookup_delete_eq.
  rewrite total_value_delete. lia.
Qed.

Lemma coin_value_nonneg U o : utxos_wf U → 0 ≤ coin_value U o.
Proof.
  intros HU. unfold coin_value. destruct (U !! o) as [u|] eqn:Ho; [|done].
  apply HU in Ho as [_ Hv]. apply Hv.
Qed.

Lemma total_value_nonneg U : utxos_wf U → 0 ≤ total_value U.
Proof.
  intros HU. unfold total_value. apply Zsum_nonneg, Forall_fmap, Forall_forall.
  intros [o u] Hin%elem_of_map_to_list. apply HU in Hin as [_ Hv]. apply Hv.
Qed.

Lemma coin_value_delete_ne U o o' :
  o ≠ o' → coin_value (delete o U) o' = coin_value U o'.
Proof. intros. unfold coin_value. by rewrite lookup_delete_ne. Qed.

Lemma utxos_wf_delete U o : utxos_wf U → utxos_wf (delete o U).
Proof. apply map_Forall_delete. Qed.

Lemma utxos_wf_insert U u :
  utxos_wf U → TxOut_wf (output u) → utxos_wf (<[outpoint u := u]> U).
Proof. intros. by apply map_Forall_insert_2. Qed.

(** The coins left after removing the spent ones. *)
Definition without (U : UtxoSet) (os : list OutPoint) : UtxoSet :=
  foldl (λ U o, delete o U) U os.

Lemma without_lookup U os o :
  without U os !! o = if bool_decide (o ∈ os) then None else U !! o.
Proof. apply foldl_delete_lookup. Qed.

Lemma without_wf U os : utxos_wf U → utxos_wf (without U os).
Proof.
  revert U. induction os as [|o os IH]; intros U HU; cbn; [done|].
  by apply IH, utxos_wf_delete.
Qed.

Lemma total_value_without U os :
  NoDup os → total_value (without U os) = total_value U - Zsum (coin_value U <$> os).
Proof.
  revert U. induction os as [|o os IH]; intros U Hnd; cbn.
  - unfold Zsum; cbn. lia.
  - apply NoDup_cons in Hnd as [Ho Hnd]. fold (without (delete o U) os).
    rewrite IH, total_value_delete by done. unfold Zsum; cbn.
    fold (Zsum (coin_value (delete o U) <$> os)). fold (Zsum (coin_value U <$> os)).
    rewrite (list_fmap_ext (coin_value (delete o U)) (coin_value U) os); [lia|].
    intros i o' Hi. apply coin_value_delete_ne. intros ->.
    apply Ho. by eapply list_elem_of_lookup_2.
Qed.

(** ** Creating outputs *)

Section outputs.
Context (id : Txid) (h : BlockHeight) (cb : bool).

Definition new_utxo (v : nat) (out : TxOut) : Utxo :=
  {| outpoint := {| txid := id; vout := Z.of_nat v |}; output := out;
     created_at_height := h; utxo_is_coinbase := cb |}.

Lemma insert_outputs_cons v out outs U :
  fits_u32 v →
  insert_outputs id h cb v (out :: outs) U
  = insert_outputs id h cb (S v) outs
      (<[{| txid := id; vout := Z.of_nat v |} := new_utxo v out]> U).
Proof.
  intros Hv. cbn. unfold try_from. rewrite bool_decide_eq_true_2 by apply Hv. done.
Qed.

Lemma insert_outputs_total v outs U :
  fits_u32 (v + length outs) → is_Some (insert_outputs id h cb v outs U).
Proof.
  revert v U. induction outs as [|out outs IH]; intros v U Hv; [by eexists|].
  unfold fits_u32 in *. cbn [length] in Hv.
  rewrite insert_outputs_cons by (unfold fits_u32; lia).
  apply IH. by rewrite Nat.add_succ_comm.
Qed.

Lemma insert_outputs_inv v out outs U U' :
  insert_outputs id h cb v (out :: outs) U = Some U' →
  insert_outputs id h cb (S v) outs
      (<[{| txid := id; vout := Z.of_nat v |} := new_utxo v out]> U) = Some U'.
Proof. cbn. by intros (? & [_ ->]%try_from_Some & ?)%bind_Some. Qed.

Lemma insert_outputs_lookup v outs U U' o :
  insert_outputs id h cb v outs U = Some U' →
  U' !! o =
    if bool_decide (txid o = id ∧ Z.of_nat v ≤ vout o)
    then match outs !! (Z.to_nat (vout o) - v)%nat with
         | Some out => Some (new_utxo (Z.to_nat (vout o)) out)
         | None => U !! o
         end
    else U !! o.
Proof.
  revert v U. induction outs as [|out outs IH]; intros v U.
  { cbn. intros [= ->]. by case_bool_decide. }
  intros Hi%insert_outputs_inv. apply IH in Hi as ->. clear IH. destruct o as [t w]; cbn.
  destruct (decide (t = id)) as [->|Hne].
  2: { rewrite !bool_decide_eq_false_2 by naive_solver.
       rewrite lookup_insert_ne; [done|]. intros [=]; congruence. }
  destruct (Z.lt_trichotomy w (Z.of_nat v)) as [Hlt|[->|Hgt]].
  - rewrite !bool_decide_eq_false_2 by (intros [_ ?]; lia).
    rewrite lookup_insert_ne; [done|]. intros [=]; lia.
  - rewrite bool_decide_eq_false_2 by (intros [_ ?]; lia).
    rewrite bool_decide_eq_true_2 by (split; [done|lia]).
    rewrite lookup_insert_eq, Nat2Z.id, Nat.sub_diag. done.
  - rewrite !bool_decide_eq_true_2 by (split; [done|lia]).
    replace (Z.to_nat w - v)%nat with (S (Z.to_nat w - S v)) by lia. cbn.
    destruct (outs !! _); [done|]. rewrite lookup_insert_ne; [done|]. intros [=]; lia.
Qed.

Lemma insert_outputs_wf v outs U U' :
  insert_outputs id h cb v outs U = Some U' →
  Forall TxOut_wf outs → utxos_wf U → utxos_wf U'.
Proof.
  revert v U. induction outs as [|out outs IH]; intros v U.
  { by intros [= ->]. }
  intros Hi%insert_outputs_inv [Ho Hos]%Forall_cons HU.
  eapply IH; [done..|]. by apply (utxos_wf_insert U (new_utxo v out)).
Qed.

(** Creating outputs adds at most their value, and exactly their value when
    none of them replaces a coin. *)
Lemma total_value_insert_outputs v outs U U' :
  insert_outputs id h cb v outs U = Some U' →
  Forall TxOut_wf outs → utxos_wf U →
  total_value U' ≤ total_value U + Zsum (value <$> outs)
  ∧ ((∀ n, (v ≤ n)%nat → U !! {| txid := id; vout := Z.of_nat n |} = None) →
     total_value U' = total_value U + Zsum (value <$> outs)).
Proof.
  revert v U. induction outs as [|out outs IH]; intros v U.
  { intros [= ->] _ _. unfold Zsum; cbn. lia. }
  intros Hi%insert_outputs_inv [Ho Hos]%Forall_cons HU.
  assert (utxos_wf (<[{| txid := id; vout := Z.of_nat v |} := new_utxo v out]> U)) as HU'
    by by apply (utxos_wf_insert U (new_utxo v out)).
  destruct (IH _ _ Hi Hos HU') as [Hle Heq].
  rewrite fmap_cons, Zsum_cons. rewrite total_value_insert_gen in Hle, Heq.
  pose proof (coin_value_nonneg U {| txid := id; vout := Z.of_nat v |} HU). split.
  - cbn in *. lia.
  - intros Hfresh. rewrite Heq.
    + unfold coin_value. rewrite Hfresh by lia. cbn. lia.
    + intros n Hn. rewrite lookup_insert_ne; [by apply Hfresh; lia|]. intros [=]; lia.
Qed.

End outputs.

(** ** The validation loop *)

Section validate.
Context `{C : Crypto}.

Lemma check_input_Ok U digest seen v i st :
  check_input U digest (seen, v) i = Ok st ↔
  previous_output i ∉ seen ∧ authorized U digest i
  ∧ v + coin_value U (previous_output i) < 2 ^ 64
  ∧ st = ({[ previous_output i ]} ∪ seen, v + coin_value U (previous_output i)).
Proof.
  unfold check_input, authorized, coin_value. split.
  - case_bool_decide as Hs; [done|]. intros Hr. inv_result.
    match goal with H : (if ?b then _ else _) = _ |- _ => destruct b eqn:Hv end; [|done].
    inv_result. repeat match goal with H : checked_add _ _ _ = Some _ |- _ =>
      apply checked_add_Some in H as [? ->] end.
    match goal with H : U !! _ = Some _ |- _ => rewrite H end.
    split_and!; [done|naive_solver|done|done].
  - intros (Hs & (u & vk & sg & HU & Hvk & Hsg & Hv) & Hlt & ->).
    rewrite bool_decide_eq_false_2 by done. rewrite HU in *.
    rewrite (proj2 (ok_or_Ok _ _ u)) by done. cbn.
    rewrite Hvk, Hsg. cbn. rewrite Hv. unfold checked_add.
    by rewrite bool_decide_eq_true_2.
Qed.

Lemma check_inputs_Ok U digest l seen v st :
  utxos_wf U → v < 2 ^ 64 →
  try_fold (check_input U digest) (seen, v) l = Ok st ↔
  NoDup (previous_output <$> l) ∧ (∀ i, i ∈ l → previous_output i ∉ seen)
  ∧ Forall (authorized U digest) l
  ∧ v + Zsum (coin_value U ∘ previous_output <$> l) < 2 ^ 64
  ∧ st = (list_to_set (previous_output <$> l) ∪ seen,
          v + Zsum (coin_value U ∘ previous_output <$> l)).
Proof.
  intros HU. revert seen v. induction l as [|i l IH]; intros seen v Hv; cbn [try_fold].
  { cbn. rewrite Z.add_0_r, union_empty_l_L. split.
    - intros [= <-]. split_and!; [constructor|set_solver|constructor|done|done].
    - by intros (_ & _ & _ & _ & ->). }
  pose proof (coin_value_nonneg U (previous_output i) HU) as Hi.
  assert (0 ≤ Zsum (coin_value U ∘ previous_output <$> l)) as Hl.
  { apply Zsum_nonneg, Forall_fmap, Forall_true. intros j. by apply coin_value_nonneg. }
  rewrite !fmap_cons, Zsum_cons, NoDup_cons, Forall_cons, result_bind_Ok. cbn [list_to_set].
  unfold compose at 1 3. split.
  - intros (st' & (Hs & Ha & Hlt & ->)%check_input_Ok & Hr).
    apply IH in Hr as (Hnd & Hseen & Hau & Hlt' & ->); [|done].
    split_and!; [|done| | done | done| lia |f_equal; [set_solver|lia]].
    + intros (j & Hj & Hin)%list_elem_of_fmap. apply (Hseen j); set_solver.
    + intros j [->|Hj]%elem_of_cons; [done|]. specialize (Hseen j Hj). set_solver.
  - intros ((Hni & Hnd) & Hseen & (Ha & Hau) & Hlt & ->).
    eexists. split; [apply check_input_Ok; split_and!; [apply Hseen; by left|done|lia|done]|].
    apply IH; [lia|]. split_and!; [done| |done|lia|f_equal; [set_solver|lia]].
    intros j Hj [Heq%elem_of_singleton|Hin]%elem_of_union.
    + apply Hni. rewrite <-Heq. apply list_elem_of_fmap. by exists j.
    + apply (Hseen j); [by right|done].
Qed.

Lemma out_values_nonneg tx : Transaction_wf tx → Forall (λ o, 0 ≤ value o) (outputs tx).
Proof. intros (_ & _ & _ & H). eapply Forall_impl; [done|]. by intros o [? _]. Qed.

Lemma sum_outputs_Ok tx r :
  Transaction_wf tx →
  sum_outputs (outputs tx) = Ok r ↔ out_value tx < 2 ^ 64 ∧ r = out_value tx.
Proof.
  intros Hw. unfold sum_outputs, out_value.
  rewrite (checked_sum_Ok 64 _ value) by (done || by apply out_values_nonneg).
  by rewrite Z.add_0_l.
Qed.

Lemma validate_inner_Ok U tx r :
  utxos_wf U → Transaction_wf tx →
  validate_transaction_inner U tx = Ok r ↔
  tx_valid U tx (fee r)
  ∧ spent_inputs r = if is_coinbase tx then [] else previous_output <$> inputs tx.
Proof.
  intros HU Hw. unfold validate_transaction_inner, tx_valid.
  destruct (outputs tx) as [|o outs] eqn:Houts; [naive_solver|]. rewrite <-Houts.
  rewrite result_bind_Ok. setoid_rewrite sum_outputs_Ok; [|done]. split.
  - intros (? & [Hlt ->] & Hr). destruct (is_coinbase tx).
    + injection Hr as <-. rewrite Houts. naive_solver.
    + inv_result.
      match goal with H : try_fold _ _ _ = Ok _ |- _ =>
        apply check_inputs_Ok in H as (? & _ & ? & ? & ->); [|done..] end.
      case_bool_decide; [done|]. inv_result.
      split; [|done]. split; [by rewrite Houts|]. split; [done|].
      eexists. split_and!; [done..| |]; unfold in_value in *; lia.
  - intros ((_ & Hlt & Hv) & Hs). exists (out_value tx). split; [done|].
    destruct r as [sp f]; cbn [fee spent_inputs] in *.
    destruct (is_coinbase tx); [congruence|].
    destruct Hv as (digest & -> & Hnd & Hau & Hin & -> & Hf). cbn [expect].
    cbn [mbind result_bind].
    assert (try_fold (check_input U digest) (∅, 0) (inputs tx)
      = Ok (list_to_set (previous_output <$> inputs tx) ∪ ∅, 0 + in_value U tx)) as ->.
    { apply check_inputs_Ok; [done..|]. by split_and!; [|set_solver|..]. }
    cbn [snd mbind result_bind]. unfold in_value in *. rewrite bool_decide_eq_false_2 by lia. by rewrite Hs.
Qed.

Lemma validate_inner_no_panic U tx :
  encodable false tx → no_panic (validate_transaction_inner U tx).
Proof.
  intros He. unfold validate_transaction_inner. destruct (outputs tx); [done|].
  apply no_panic_bind.
  { apply try_fold_no_panic. intros ? ? _. apply no_panic_ok_or. }
  intros v _. destruct (is_coinbase tx); [done|]. apply no_panic_bind.
  { by apply no_panic_expect, signing_digest_is_Some. }
  intros digest _. apply no_panic_bind; [|intros ? _; by case_bool_decide].
  apply try_fold_no_panic. intros [seen w] i _. unfold check_input.
  case_bool_decide; [done|]. repeat (apply no_panic_bind; [apply no_panic_ok_or|]; intros ? _).
  case_match; [|done]. apply no_panic_bind; [apply no_panic_ok_or|done].
Qed.

Lemma check_input_Err U digest seen v i e :
  check_input U digest (seen, v) i = Err e →
  (e = DuplicateInput (previous_output i) ∧ previous_output i ∈ seen)
  ∨ (e = MissingInput (previous_output i) ∧ U !! previous_output i = None)
  ∨ (∃ u, U !! previous_output i = Some u
     ∧ ((e = InvalidLockingData (previous_output i)
         ∧ parse_verifying_key (locking_data (output u)) = None)
        ∨ (e = InvalidUnlockingData (previous_output i)
           ∧ parse_signature (unlocking_data i) = None)
        ∨ (∃ vk sg, e = SignatureMismatch (previous_output i)
           ∧ parse_verifying_key (locking_data (output u)) = Some vk
           ∧ parse_signature (unlocking_data i) = Some sg
           ∧ verify_message sg vk digest = false)
        ∨ (e = InputValueOverflow ∧ 2 ^ 64 ≤ v + value (output u)))).
Proof.
  unfold check_input. case_bool_decide; [by intros [= <-]; left|].
  destruct (U !! previous_output i) as [u|] eqn:HU; cbn; [|intros [= <-]; by right; left].
  destruct (parse_verifying_key _) as [vk|] eqn:Hvk; cbn; [|intros [= <-]; naive_solver].
  destruct (parse_signature _) as [sg|] eqn:Hsg; cbn; [|intros [= <-]; naive_solver].
  destruct (verify_message _ _ _) eqn:Hv; [|intros [= <-]; naive_solver].
  destruct (checked_add _ _ _) eqn:Ha; cbn; [done|]. intros [= <-].
  apply checked_add_None in Ha. naive_solver.
Qed.

Lemma in_value_split U tx l1 i l2 :
  utxos_wf U → inputs tx = l1 ++ i :: l2 →
  Zsum (coin_value U ∘ previous_output <$> l1) + coin_value U (previous_output i)
  ≤ in_value U tx.
Proof.
  intros HU Hi. unfold in_value. rewrite Hi, fmap_app, fmap_cons, Zsum_app, Zsum_cons.
  assert (0 ≤ Zsum (coin_value U ∘ previous_output <$> l2)).
  { apply Zsum_nonneg, Forall_fmap, Forall_true. intros j. by apply coin_value_nonneg. }
  unfold compose in *. lia.
Qed.

Lemma validate_inner_Err U tx e :
  utxos_wf U → Transaction_wf tx →
  validate_transaction_inner U tx = Err e → rejects U tx e.
Proof.
  intros HU Hw. unfold validate_transaction_inner.
  destruct (outputs tx) as [|o outs] eqn:Houts; [by intros [= <-]|]. rewrite <-Houts.
  destruct (sum_outputs (outputs tx)) as [ov|e'|] eqn:Hs; cbn [mbind result_bind]; [|intros [= ->]|done].
  2: { pose proof (try_fold_Err _ _ _ _ Hs) as (? & ? & ? & ? & _ & _ & He).
       apply ok_or_Err in He as [_ ->]. cbn. apply Z.nlt_ge. intros Hlt.
       rewrite (proj2 (sum_outputs_Ok tx _ Hw) (conj Hlt eq_refl)) in Hs. done. }
  apply sum_outputs_Ok in Hs as [_ ->]; [|done].
  destruct (is_coinbase tx); [done|].
  destruct (signing_digest tx) as [digest|] eqn:Hd; cbn [mbind result_bind expect]; [|done].
  destruct (try_fold _ _ _) as [[seen iv]|e'|] eqn:Hf; cbn [mbind result_bind snd]; [|intros [= ->]|done].
  - apply check_inputs_Ok in Hf as (_ & _ & _ & _ & [= _ ->]); [|done..].
    case_bool_decide as Hlt; [|done]. intros [= <-]. done.
  - apply try_fold_Err in Hf as (l1 & i & l2 & [seen v] & Hin & Hl1 & He).
    apply check_inputs_Ok in Hl1 as (_ & _ & _ & _ & [= -> ->]); [|done..].
    assert (i ∈ inputs tx) as Hi by (rewrite Hin; set_solver).
    assert (previous_output i ∈ previous_output <$> inputs tx) as Ho
      by (apply list_elem_of_fmap; eauto).
    pose proof (in_value_split U tx l1 i l2 HU Hin) as Hsum.
    apply check_input_Err in He as
      [[-> Hs]|[[-> Hs]|(u & Hu & [[-> Hs]|[[-> Hs]|[(vk & sg & -> & ? & ? & ?)|[-> Hs]]]])]];
      cbn; [|naive_solver..|].
    + exists l1, i, l2. split_and!; [done..|]. set_solver.
    + assert (coin_value U (previous_output i) = value (output u)) as Hcv
        by (unfold coin_value; by rewrite Hu). lia.
Qed.


Lemma tx_valid_fee_unique U tx f1 f2 : tx_valid U tx f1 → tx_valid U tx f2 → f1 = f2.
Proof.
  intros (_ & _ & H1) (_ & _ & H2). destruct (is_coinbase tx); [congruence|].
  destruct H1 as (? & ? & _ & _ & _ & -> & _), H2 as (? & ? & _ & _ & _ & -> & _). done.
Qed.

Lemma tx_valid_fee_nonneg U tx f : tx_valid U tx f → 0 ≤ f.
Proof.
  intros (_ & _ & H). destruct (is_coinbase tx); [lia|].
  by destruct H as (? & _ & _ & _ & _ & _ & ?).
Qed.

Lemma transaction_fee_Ok U tx f :
  utxos_wf U → Transaction_wf tx → transaction_fee U tx = Ok f ↔ tx_valid U tx f.
Proof.
  intros HU Hw. unfold transaction_fee. rewrite result_bind_Ok.
  setoid_rewrite validate_inner_Ok; [|done..]. split.
  - intros (r & [Hv _] & [= <-]). done.
  - intros Hv. eexists {| spent_inputs := _; fee := f |}. split; [split; [done|reflexivity]|done].
Qed.

Lemma validate_transaction_Ok U tx :
  utxos_wf U → Transaction_wf tx →
  validate_transaction U tx = Ok () ↔ ∃ f, tx_valid U tx f.
Proof.
  intros HU Hw. unfold validate_transaction. rewrite result_fmap_Ok.
  setoid_rewrite validate_inner_Ok; [|done..]. split; [naive_solver|].
  intros [f Hv]. eexists {| spent_inputs := _; fee := f |}.
  split; [split; [done|reflexivity]|done].
Qed.

(** Validity only looks at the coins the transaction spends. *)
Lemma tx_valid_local U1 U2 tx f :
  (∀ i, i ∈ inputs tx → U1 !! previous_output i = U2 !! previous_output i) →
  tx_valid U1 tx f → tx_valid U2 tx f.
Proof.
  intros Heq (Ho & Hov & Hv). split_and!; [done..|]. destruct (is_coinbase tx); [done|].
  destruct Hv as (digest & Hd & Hnd & Hau & Hin & -> & Hf).
  assert (in_value U1 tx = in_value U2 tx) as Hiv.
  { unfold in_value. f_equal. apply list_fmap_ext. intros n i Hi. unfold compose, coin_value.
    by rewrite Heq by (by eapply list_elem_of_lookup_2). }
  exists digest. rewrite <-Hiv. split_and!; try done.
  apply Forall_forall. intros i Hi. unfold authorized. rewrite <-Heq by done.
  by eapply Forall_forall in Hau.
Qed.

Lemma encodable_true_false tx : encodable true tx → encodable false tx.
Proof. by intros (? & ? & _ & ?). Qed.

Lemma apply_transaction_Ok U tx h U' :
  utxos_wf U → Transaction_wf tx →
  apply_transaction U tx h = Ok U' ↔
  ∃ f id, tx_valid U tx f ∧ Transaction_txid tx = Some id
    ∧ insert_outputs id h (is_coinbase tx) 0 (outputs tx)
        (without U (previous_output <$> inputs tx)) = Some U'.
Proof.
  intros HU Hw. unfold apply_transaction. rewrite result_bind_Ok.
  setoid_rewrite result_bind_Ok. setoid_rewrite expect_Ok.
  setoid_rewrite validate_inner_Ok; [|done..].
  assert (∀ r, spent_inputs r = (if is_coinbase tx then [] else previous_output <$> inputs tx) →
    (if is_coinbase tx then U else foldl (λ U o, delete o U) U (spent_inputs r))
    = without U (previous_output <$> inputs tx)) as Hspent.
  { intros r ->. unfold is_coinbase, without. by destruct (inputs tx). }
  split.
  - intros (r & [Hv Hr] & id & Hid & Hi). rewrite Hspent in Hi by done. eauto.
  - intros (f & id & Hv & Hid & Hi). eexists {| spent_inputs := _; fee := f |}.
    split; [split; [done|reflexivity]|]. exists id. split; [done|]. by rewrite Hspent.
Qed.

Lemma apply_transaction_no_panic U tx h :
  encodable true tx → no_panic (apply_transaction U tx h).
Proof.
  intros He. unfold apply_transaction. apply no_panic_bind.
  { by apply validate_inner_no_panic, encodable_true_false. }
  intros r _. apply no_panic_bind; [by apply no_panic_expect, Transaction_txid_is_Some|].
  intros id _. apply no_panic_expect, insert_outputs_total. apply He.
Qed.

Lemma apply_transaction_Err U tx h e :
  apply_transaction U tx h = Err e → validate_transaction_inner U tx = Err e.
Proof.
  unfold apply_transaction. destruct (validate_transaction_inner U tx); cbn; [|congruence|done].
  destruct (Transaction_txid tx); cbn; [|done]. by destruct (insert_outputs _ _ _ _ _ _).
Qed.

Lemma apply_transaction_wf U tx h U' :
  utxos_wf U → Transaction_wf tx → apply_transaction U tx h = Ok U' → utxos_wf U'.
Proof.
  intros HU Hw Ha. apply apply_transaction_Ok in Ha as (f & id & _ & _ & Hi); [|done..].
  eapply insert_outputs_wf; [done|apply Hw|by apply without_wf].
Qed.

Lemma total_value_spent U tx f :
  tx_valid U tx f →
  total_value (without U (previous_output <$> inputs tx)) = total_value U - in_value U tx.
Proof.
  intros (_ & _ & Hv). unfold is_coinbase in Hv. unfold in_value.
  destruct (inputs tx) as [|i l] eqn:Hi; [cbn; lia|]. rewrite <-Hi in *.
  destruct Hv as (_ & _ & Hnd & _). rewrite total_value_without by done.
  by rewrite <-list_fmap_compose.
Qed.

Lemma is_coinbase_in_value U tx : is_coinbase tx = true → in_value U tx = 0.
Proof. unfold is_coinbase, in_value. by destruct (inputs tx). Qed.

Lemma apply_transaction_total U tx h U' f :
  utxos_wf U → Transaction_wf tx → apply_transaction U tx h = Ok U' → tx_valid U tx f →
  total_value U' ≤ total_value U + (if is_coinbase tx then out_value tx else - f).
Proof.
  intros HU Hw Ha Hf.
  apply apply_transaction_Ok in Ha as (f' & id & Hv & _ & Hi); [|done..].
  rewrite <-(tx_valid_fee_unique _ _ _ _ Hf Hv) in Hv.
  apply total_value_insert_outputs in Hi as [Hle _]; [|apply Hw|by apply without_wf].
  rewrite (total_value_spent U tx f) in Hle by done.
  fold (out_value tx) in Hle. destruct (is_coinbase tx) eqn:Hcb.
  - rewrite is_coinbase_in_value in Hle by done. lia.
  - destruct Hf as (_ & _ & Hsp). rewrite Hcb in Hsp.
    destruct Hsp as (_ & _ & _ & _ & _ & -> & _). lia.
Qed.

(** ** Theorems *)

(** C6: [validate_transaction_inner] decides the validity rules: on a well-formed coin set and an encodable
    transaction it never panics; it returns [Ok] with the exact fee and
    spent inputs precisely for the valid transactions ([tx_valid]: outputs present and not overflowing, distinct
    existing inputs, every input signed by the coin's key, inputs cover
    outputs), and otherwise the error it returns names a real violation. *)
Theorem validate_transaction_correct U tx :
  utxos_wf U → Transaction_wf tx → encodable false tx →
  match validate_transaction_inner U tx with
  | Ok r => tx_valid U tx (fee r)
            ∧ spent_inputs r = if is_coinbase tx then [] else previous_output <$> inputs tx
  | Err e => rejects U tx e ∧ ∀ f, ¬ tx_valid U tx f
  | Panic => False
  end.
Proof.
  intros HU Hw He. destruct (validate_transaction_inner U tx) as [r|e|] eqn:Hv.
  - by apply validate_inner_Ok in Hv.
  - split; [by apply validate_inner_Err in Hv|]. intros f Hval.
    pose proof (proj2 (validate_inner_Ok U tx {| spent_inputs := _; fee := f |} HU Hw)
      (conj Hval eq_refl)). congruence.
  - by apply (validate_inner_no_panic U tx He).
Qed.

(** C7: [apply_transaction] on every branch: it succeeds exactly on valid
    transactions, and then the new coin set holds, at every outpoint, the
    transaction's own new coin if the outpoint is one of its outputs,
    nothing if the outpoint was spent, and the old coin otherwise; on an
    error the reported violation is real; it never panics. *)
Theorem apply_transaction_correct U tx h id :
  utxos_wf U → Transaction_wf tx → encodable true tx → Transaction_txid tx = Some id →
  match apply_transaction U tx h with
  | Ok U' =>
      (∃ f, tx_valid U tx f) ∧ utxos_wf U'
      ∧ ∀ o, U' !! o =
          match (if bool_decide (txid o = id ∧ 0 ≤ vout o)
                 then outputs tx !! Z.to_nat (vout o) else None) with
          | Some out => Some {| outpoint := o; output := out; created_at_height := h;
                                utxo_is_coinbase := is_coinbase tx |}
          | None => if bool_decide (o ∈ previous_output <$> inputs tx) then None else U !! o
          end
  | Err e => rejects U tx e ∧ ∀ f, ¬ tx_valid U tx f
  | Panic => False
  end.
Proof.
  intros HU Hw He Hid. destruct (apply_transaction U tx h) as [U'|e|] eqn:Ha.
  - pose proof (apply_transaction_wf _ _ _ _ HU Hw Ha) as HU'.
    apply apply_transaction_Ok in Ha as (f & id' & Hv & Hid' & Hi); [|done..].
    assert (id' = id) as -> by congruence. split_and!; [eauto|done|]. intros o.
    rewrite (insert_outputs_lookup _ _ _ _ _ _ _ o Hi), !without_lookup, Nat.sub_0_r.
    change (Z.of_nat 0) with 0. destruct o as [t v]; cbn [txid vout]. case_bool_decide as Hb; [|done].
    destruct Hb as [-> Hv0]. destruct (outputs tx !! Z.to_nat v); [|done].
    unfold new_utxo. by rewrite Z2Nat.id.
  - apply apply_transaction_Err in Ha as Hv. split; [by apply validate_inner_Err in Hv|].
    intros f Hval.
    pose proof (proj2 (validate_inner_Ok U tx {| spent_inputs := _; fee := f |} HU Hw)
      (conj Hval eq_refl)). congruence.
  - by apply (apply_transaction_no_panic U tx h He).
Qed.

(** C8: Value conservation.  A spending transaction that applies never creates value: the total value of the
    coin set drops by at least the fee, and by exactly the fee when the
    transaction's outputs do not replace coins already in the set; a
    coinbase adds at most its outputs. *)
Theorem apply_transaction_conserves_value U tx h U' id :
  utxos_wf U → Transaction_wf tx → Transaction_txid tx = Some id →
  apply_transaction U tx h = Ok U' →
  ∃ f, transaction_fee U tx = Ok f ∧ 0 ≤ f
  ∧ total_value U' ≤ total_value U + (if is_coinbase tx then out_value tx else - f)
  ∧ ((∀ n, U !! {| txid := id; vout := Z.of_nat n |} = None) →
     total_value U' = total_value U + (if is_coinbase tx then out_value tx else - f)).
Proof.
  intros HU Hw Hid Ha.
  pose proof (proj1 (apply_transaction_Ok _ _ _ _ HU Hw) Ha) as (f & id' & Hv & Hid' & Hi).
  assert (id' = id) as -> by congruence.
  exists f. split_and!.
  - by apply transaction_fee_Ok.
  - by eapply tx_valid_fee_nonneg.
  - by eapply apply_transaction_total.
  - intros Hfresh.
    apply total_value_insert_outputs in Hi as [_ Heq]; [|apply Hw|by apply without_wf].
    rewrite Heq; [|intros n _; rewrite without_lookup, Hfresh; by case_bool_decide].
    rewrite (total_value_spent U tx f) by done. fold (out_value tx).
    destruct (is_coinbase tx) eqn:Hcb; [rewrite is_coinbase_in_value by done; lia|].
    destruct Hv as (_ & _ & Hsp). rewrite Hcb in Hsp.
    destruct Hsp as (_ & _ & _ & _ & _ & -> & _). lia.
Qed.

(** C9: No double spend: once a transaction has been applied, no later
    transaction that spends one of the same coins validates, unless
    the spending transaction itself re-created that outpoint (which needs the
    outpoint to name its own transaction id). *)
Theorem no_double_spend U tx h U' id tx2 o f :
  utxos_wf U → Transaction_wf tx → Transaction_wf tx2 →
  Transaction_txid tx = Some id → apply_transaction U tx h = Ok U' →
  o ∈ previous_output <$> inputs tx → o ∈ previous_output <$> inputs tx2 → txid o ≠ id →
  transaction_fee U' tx2 ≠ Ok f.
Proof.
  intros HU Hw Hw2 Hid Ha Ho (i & -> & Hi)%list_elem_of_fmap Hne Hfee.
  pose proof (apply_transaction_wf _ _ _ _ HU Hw Ha) as HU'.
  apply transaction_fee_Ok in Hfee as (_ & _ & Hv); [|done..].
  unfold is_coinbase in Hv. destruct (inputs tx2) as [|j l] eqn:Hin; [set_solver|].
  destruct Hv as (digest & _ & _ & Hau & _). rewrite Hin in Hau.
  eapply Forall_forall in Hau as (u & _ & _ & Hu & _); [|done].
  apply apply_transaction_Ok in Ha as (f' & id' & _ & Hid' & Hins); [|done..].
  assert (id' = id) as -> by congruence.
  rewrite (insert_outputs_lookup _ _ _ _ _ _ _ _ Hins) in Hu.
  rewrite bool_decide_eq_false_2 in Hu by (by intros [? _]).
  rewrite without_lookup, bool_decide_eq_true_2 in Hu by done. done.
Qed.

End validate.

(** ** Witnesses

    A coin of 50 locked to key [x05], and a payment of 30 from it to key [x06]
    with change and a fee of 5. *)

Module Demo.
#[local] Existing Instance Toy.crypto.

Definition key : byte := x05.
Definition lock (k : byte) : bytes := replicate 32 k.

Definition coinbase : Transaction := {|
  version := 1; inputs := []; outputs := [{| value := 50; locking_data := lock key |}];
  lock_time := 0
|}.

Definition coinbase_id : Txid :=
  Eval vm_compute in default (Txid_new []) (Transaction_txid coinbase).

Definition coins : UtxoSet :=
  <[{| txid := coinbase_id; vout := 0 |} := {|
      outpoint := {| txid := coinbase_id; vout := 0 |};
      output := {| value := 50; locking_data := lock key |};
      created_at_height := 0; utxo_is_coinbase := true |}]> ∅.

Definition unsigned : Transaction := {|
  version := 1;
  inputs := [{| previous_output := {| txid := coinbase_id; vout := 0 |};
                unlocking_data := [] |}];
  outputs := [{| value := 30; locking_data := lock x06 |};
              {| value := 15; locking_data := lock key |}];
  lock_time := 0
|}.

Definition payment : Transaction := Eval vm_compute in {|
  version := 1;
  inputs := [{| previous_output := {| txid := coinbase_id; vout := 0 |};
                unlocking_data :=
                  sign_message (C:=Toy.crypto) key (default [] (signing_digest unsigned)) |}];
  outputs := outputs unsigned;
  lock_time := 0
|}.

Definition payment_id : Txid :=
  Eval vm_compute in default (Txid_new []) (Transaction_txid payment).

Definition coins_after : UtxoSet :=
  default ∅ (match apply_transaction coins payment 1 with Ok U => Some U | _ => None end).

Example payment_applies : apply_transaction coins payment 1 = Ok coins_after.
Proof. vm_decide. Qed.

End Demo.

Lemma validate_transaction_correct_witness :
  ∃ r, validate_transaction_inner (C:=Toy.crypto) Demo.coins Demo.payment = Ok r
       ∧ tx_valid (C:=Toy.crypto) Demo.coins Demo.payment (fee r).
Proof.
  pose proof (validate_transaction_correct (C:=Toy.crypto) Demo.coins Demo.payment
    ltac:(vm_decide) ltac:(vm_decide) ltac:(vm_decide)) as H.
  destruct (validate_transaction_inner Demo.coins Demo.payment) as [r|e|] eqn:Hv.
  - exists r. split; [reflexivity|]. apply H.
  - exfalso. vm_compute in Hv. discriminate.
  - destruct H.
Defined.

Lemma apply_transaction_correct_witness :
  Demo.coins_after !! {| txid := Demo.coinbase_id; vout := 0 |} = None.
Proof.
  pose proof (apply_transaction_correct (C:=Toy.crypto) Demo.coins Demo.payment 1
    Demo.payment_id ltac:(vm_decide) ltac:(vm_decide) ltac:(vm_decide) ltac:(vm_decide)) as H.
  rewrite Demo.payment_applies in H. destruct H as (_ & _ & H). rewrite H. vm_decide.
Defined.

Lemma apply_transaction_conserves_value_witness :
  ∃ f, transaction_fee (C:=Toy.crypto) Demo.coins Demo.payment = Ok f
       ∧ total_value Demo.coins_after ≤ total_value Demo.coins - f.
Proof.
  destruct (apply_transaction_conserves_value (C:=Toy.crypto) Demo.coins Demo.payment 1
    Demo.coins_after Demo.payment_id ltac:(vm_decide) ltac:(vm_decide) ltac:(vm_decide)
    Demo.payment_applies) as (f & Hf & _ & Hle & _).
  exists f. split; [done|]. exact Hle.
Defined.

Lemma no_double_spend_witness :
  transaction_fee (C:=Toy.crypto) Demo.coins_after Demo.payment ≠ Ok 5.
Proof.
  apply (no_double_spend (C:=Toy.crypto) Demo.coins Demo.payment 1 Demo.coins_after
    Demo.payment_id Demo.payment {| txid := Demo.coinbase_id; vout := 0 |});
    [vm_decide..|exact Demo.payment_applies|vm_decide|vm_decide|].
  vm_compute. discriminate.
Defined.
