(* ===== verification/Consensus.v ===== *)
(** * consensus.rs: proof of work, block rules and block application

    [apply_block] works on a clone of the coin set and assigns it back only on
    success, so the new set is the payload of [Ok] and an error leaves the
    caller's set untouched. *)

From S2P Require Import Prelude Bytes Crypto Types State.

Definition BLOCK_SUBSIDY : Amount := 50.

Record PowTarget := { target_bytes : bytes }.

Inductive ConsensusError :=
| EmptyBlock
| BadMerkleRoot
| FirstTransactionNotCoinbase
| MultipleCoinbaseTransactions
| CoinbaseRewardTooLarge (allowed actual : Amount)
| InvalidPowTarget
| InsufficientProofOfWork
| ConsensusTransaction (e : ValidationError).

#[export] Instance PowTarget_eq_dec : EqDecision PowTarget.
Proof. solve_decision. Defined.
#[export] Instance ConsensusError_eq_dec : EqDecision ConsensusError.
Proof. unfold Amount. solve_decision. Defined.

(** ** Proof of work *)

(** [target[off..off + src.len()].copy_from_slice(&src)]. *)
Definition copy_from_slice (target : bytes) (off : nat) (src : bytes) : bytes :=
  take off target ++ src ++ drop (off + length src) target.

Definition from_compact (bits : Z) : option PowTarget :=
  let exponent := Z.shiftr bits 24 in
  let mantissa := Z.land bits 0x7fffff in
  let is_negative := bool_decide (Z.land bits 0x800000 ≠ 0) in
  if is_negative || bool_decide (mantissa = 0) then None
  else
    let mantissa_bytes :=
      [byte_of_Z (Z.land (Z.shiftr mantissa 16) 0xff);
       byte_of_Z (Z.land (Z.shiftr mantissa 8) 0xff);
       byte_of_Z (Z.land mantissa 0xff)] in
    let target := replicate 32 x00 in
    if bool_decide (exponent ≤ 3) then
      let value := Z.shiftr mantissa (8 * (3 - exponent)) in
      Some {| target_bytes := copy_from_slice target 28 (be_bytes 4 value) |}
    else if bool_decide (32 < exponent) then None
    else
      let offset := 32 - exponent in
      if bool_decide (32 < offset + 3) then None
      else Some {| target_bytes :=
                     copy_from_slice target (Z.to_nat offset) mantissa_bytes |}.

Definition is_met_by (t : PowTarget) (hash : BlockHash) : bool :=
  bytes_leb (BlockHash_as_bytes hash) (target_bytes t).

(** [PowTarget::work]. *)
Definition work (t : PowTarget) : Z :=
  let leading := of_be_bytes (take 16 (target_bytes t)) in
  let trailing := of_be_bytes (drop 16 (target_bytes t)) in
  let denominator := if bool_decide (leading = 0) then 1 else saturating_add 128 leading 1 in
  let base_work := max_uint 128 / denominator in
  if bool_decide (leading = 0) && bool_decide (trailing ≠ max_uint 128)
  then saturating_sub base_work (trailing / 2)
  else base_work.

(** ** Block rules *)

Definition sum_transaction_outputs (tx : Transaction) : result ValidationError Amount :=
  try_fold (λ total o, ok_or (checked_add 64 total (value o)) OutputValueOverflow)
    0 (outputs tx).

Section consensus.
Context `{C : Crypto}.

Definition validate_header_pow (b : Block) : result ConsensusError unit :=
  target ← ok_or (from_compact (bits (header b))) InvalidPowTarget;
  let hash := header_hash (header b) in
  if is_met_by target hash then Ok () else Err InsufficientProofOfWork.

Definition validate_block (b : Block) : result ConsensusError unit :=
  _ ← validate_header_pow b;
  match transactions b with
  | [] => Err EmptyBlock
  | first :: rest =>
      if negb (is_coinbase first) then Err FirstTransactionNotCoinbase
      else if existsb is_coinbase rest then Err MultipleCoinbaseTransactions
      else
        root ← expect (merkle_root b);
        if bool_decide (header_merkle_root (header b) ≠ root) then Err BadMerkleRoot
        else Ok ()
  end.

(** The body of the loop over [block.transactions[1..]], on
    [(candidate, total_fees)]. *)
Definition apply_block_tx (h : BlockHeight) (st : UtxoSet * Z) (tx : Transaction)
    : result ConsensusError (UtxoSet * Z) :=
  let '(candidate, total_fees) := st in
  f ← map_err ConsensusTransaction (transaction_fee candidate tx);
  total_fees ← ok_or (checked_add 64 total_fees f)
                 (ConsensusTransaction InputValueOverflow);
  candidate ← map_err ConsensusTransaction (apply_transaction candidate tx h);
  Ok (candidate, total_fees).

Definition apply_block (utxos : UtxoSet) (b : Block) (h : BlockHeight)
    : result ConsensusError UtxoSet :=
  _ ← validate_block b;
  match transactions b with
  | [] => Panic
  | first :: rest =>
      st ← try_fold (apply_block_tx h) (utxos, 0) rest;
      let '(candidate, total_fees) := st in
      allowed_reward ← ok_or (checked_add 64 BLOCK_SUBSIDY total_fees)
                         (ConsensusTransaction InputValueOverflow);
      actual_reward ← map_err ConsensusTransaction (sum_transaction_outputs first);
      if bool_decide (allowed_reward < actual_reward)
      then Err (CoinbaseRewardTooLarge allowed_reward actual_reward)
      else map_err ConsensusTransaction (apply_transaction candidate first h)
  end.

End consensus.

(** ** Specification *)

(** The number a compact encoding stands for. *)
Definition compact_value (bits : Z) : Z :=
  let e := bits / 2 ^ 24 in
  let m := bits mod 2 ^ 23 in
  if bool_decide (e ≤ 3) then m / 256 ^ (3 - e) else m * 256 ^ (e - 3).

Definition Block_wf (b : Block) : Prop :=
  BlockHeader_wf (header b) ∧ Forall Transaction_wf (transactions b).

Definition Block_encodable (b : Block) : Prop :=
  Forall (encodable true) (transactions b).

#[export] Instance BlockHeader_wf_dec h : Decision (BlockHeader_wf h).
Proof. unfold BlockHeader_wf, BlockHash_wf. apply _. Defined.
#[export] Instance Block_wf_dec b : Decision (Block_wf b).
Proof. unfold Block_wf. apply _. Defined.
#[export] Instance Block_encodable_dec b : Decision (Block_encodable b).
Proof. unfold Block_encodable. apply _. Defined.

Section spec.
Context `{C : Crypto}.

Record block_valid (b : Block) : Prop := {
  bv_pow : ∃ t, from_compact (bits (header b)) = Some t
    ∧ of_be_bytes (BlockHash_as_bytes (header_hash (header b)))
      ≤ of_be_bytes (target_bytes t);
  bv_coinbase : ∃ first rest, transactions b = first :: rest
    ∧ is_coinbase first = true ∧ Forall (λ tx, is_coinbase tx = false) rest;
  bv_merkle : merkle_root b = Some (header_merkle_root (header b))
}.

(** Transactions applied one after the other, with the fees they pay. *)
Inductive apply_txs (h : BlockHeight) : UtxoSet → list Transaction → UtxoSet → Z → Prop :=
| apply_txs_nil U : apply_txs h U [] U 0
| apply_txs_cons U tx txs U1 U2 f fs :
    tx_valid U tx f → apply_transaction U tx h = Ok U1 →
    apply_txs h U1 txs U2 fs → apply_txs h U (tx :: txs) U2 (f + fs).

(** What a block must satisfy to take the coins [U] to [U']. *)
Definition block_applies (U : UtxoSet) (b : Block) (h : BlockHeight) (U' : UtxoSet) : Prop :=
  block_valid b ∧
  ∃ first rest U1 fees, transactions b = first :: rest
  ∧ apply_txs h U rest U1 fees
  ∧ BLOCK_SUBSIDY + fees < 2 ^ 64
  ∧ out_value first ≤ BLOCK_SUBSIDY + fees
  ∧ apply_transaction U1 first h = Ok U'.

End spec.

(** ** Lemmas: compact targets *)

Lemma byte_to_of_land z : byte_to_Z (byte_of_Z (Z.land z 255)) = z mod 256.
Proof.
  rewrite byte_to_of_Z. change 255 with (Z.ones 8). rewrite Z.land_ones by done.
  change (2 ^ 8) with 256. by rewrite Z.mod_mod.
Qed.

(** Three bytes [m >> 16, m >> 8, m] recombine to [m]. *)
Lemma three_bytes m :
  0 ≤ m < 2 ^ 24 → (m / 2 ^ 16 mod 256) * 256 ^ 2 + (m / 2 ^ 8 mod 256) * 256 + m mod 256 = m.
Proof.
  intros H. change (2 ^ 16) with (2 ^ 8 * 2 ^ 8). rewrite <-Z.div_div by done.
  change (2 ^ 8) with 256 in *. change (2 ^ 24) with 16777216 in *.
  change (256 ^ 2) with 65536. set (q := m / 256).
  assert (0 ≤ q < 65536) by (unfold q; Z.div_mod_to_equations; lia).
  assert (m = 256 * q + m mod 256) by (unfold q; apply Z.div_mod; lia).
  assert (q = 256 * (q / 256) + q mod 256) by (apply Z.div_mod; lia).
  rewrite (Z.mod_small (q / 256)); [lia|]. Z.div_mod_to_equations. lia.
Qed.

Lemma mantissa_bytes_value m :
  0 ≤ m < 2 ^ 24 →
  of_be_bytes [byte_of_Z (Z.land (Z.shiftr m 16) 255); byte_of_Z (Z.land (Z.shiftr m 8) 255);
               byte_of_Z (Z.land m 255)] = m.
Proof.
  intros Hm. rewrite !of_be_bytes_cons, of_be_bytes_nil, !byte_to_of_land.
  rewrite !Z.shiftr_div_pow2 by done. etransitivity; [|by apply three_bytes].
  cbn [length].
  change (256 ^ Z.of_nat 2) with (256 ^ 2). change (256 ^ Z.of_nat 1) with 256.
  change (256 ^ Z.of_nat 0) with 1. lia.
Qed.

Lemma copy_zeros_value off src :
  (off + length src ≤ 32)%nat →
  length (copy_from_slice (replicate 32 x00) off src) = 32%nat
  ∧ of_be_bytes (copy_from_slice (replicate 32 x00) off src)
    = of_be_bytes src * 256 ^ (32 - Z.of_nat off - Z.of_nat (length src)).
Proof.
  intros Hle. unfold copy_from_slice. rewrite take_replicate, drop_replicate. split.
  - rewrite !length_app, !length_replicate. lia.
  - rewrite !of_be_bytes_app, !of_be_bytes_replicate_0, length_replicate.
    rewrite Z.mul_0_l, Z.add_0_l, Z.add_0_r. f_equal. f_equal. lia.
Qed.

Lemma land_sign_bit bits :
  Z.land bits 0x800000 ≠ 0 ↔ Z.testbit bits 23 = true.
Proof.
  change 0x800000 with (2 ^ 23). rewrite <-(Z.shiftl_1_l 23). split.
  - intros H. destruct (Z.testbit bits 23) eqn:E; [done|]. exfalso. apply H.
    apply Z.bits_inj. intros n. rewrite Z.bits_0, Z.land_spec, Z.shiftl_1_l.
    destruct (decide (n = 23)) as [->|Hn]; [by rewrite E|].
    rewrite Z.pow2_bits_false by done. by rewrite andb_false_r.
  - intros E H. apply (f_equal (λ z, Z.testbit z 23)) in H.
    rewrite Z.land_spec, E in H. done.
Qed.

Lemma compact_ranges bits :
  u32 bits →
  Z.shiftr bits 24 = bits / 2 ^ 24 ∧ Z.land bits 0x7fffff = bits mod 2 ^ 23
  ∧ 0 ≤ bits / 2 ^ 24 < 256 ∧ 0 ≤ bits mod 2 ^ 23 < 2 ^ 23.
Proof.
  intros [H0 H1]. change 0x7fffff with (Z.ones 23).
  rewrite Z.shiftr_div_pow2, Z.land_ones by done. split_and!; try done.
  - apply Z.div_pos; lia.
  - apply Z.div_lt_upper_bound; lia.
  - by apply Z.mod_pos_bound.
  - by apply Z.mod_pos_bound.
Qed.

Lemma from_compact_cases bits :
  u32 bits →
  match from_compact bits with
  | Some t =>
      Z.testbit bits 23 = false ∧ bits mod 2 ^ 23 ≠ 0 ∧ bits / 2 ^ 24 ≤ 32
      ∧ length (target_bytes t) = 32%nat
      ∧ of_be_bytes (target_bytes t) = compact_value bits
  | None => Z.testbit bits 23 = true ∨ bits mod 2 ^ 23 = 0 ∨ 32 < bits / 2 ^ 24
  end.
Proof.
  intros Hb. destruct (compact_ranges bits Hb) as (He & Hm & Her & Hmr).
  unfold from_compact, compact_value. rewrite He, Hm.
  destruct (bool_decide (Z.land bits 8388608 ≠ 0)) eqn:Hs; cbn [orb].
  { apply bool_decide_eq_true in Hs. left. by apply land_sign_bit. }
  apply bool_decide_eq_false in Hs.
  rewrite land_sign_bit in Hs. apply not_true_is_false in Hs.
  case_bool_decide as Hz; [by right; left|].
  set (e := bits / 2 ^ 24) in *. set (m := bits mod 2 ^ 23) in *.
  case_bool_decide as H3.
  - destruct (copy_zeros_value 28 (be_bytes 4 (Z.shiftr m (8 * (3 - e))))) as [Hl Hv].
    { rewrite length_be_bytes. lia. }
    split_and!; [done|done|lia|done|]. cbn [target_bytes]. rewrite Hv.
    rewrite of_be_be_bytes, length_be_bytes, Z.shiftr_div_pow2 by lia.
    change (256 ^ _) with (2 ^ 32) at 1. change (32 - _ - _) with 0.
    rewrite Z.pow_0_r.
    rewrite Z.pow_mul_r by lia. change (2 ^ 8) with 256.
    assert (1 ≤ 256 ^ (3 - e)) by (apply (Z.pow_le_mono_r 256 0); lia).
    assert (m / 256 ^ (3 - e) ≤ m) by (apply Z.div_le_upper_bound; nia).
    rewrite Z.mod_small, Z.mul_1_r; [done|].
    split; [apply Z.div_pos; lia|lia].
  - case_bool_decide as H32; [by right; right|].
    rewrite bool_decide_eq_false_2 by lia.
    destruct (copy_zeros_value (Z.to_nat (32 - e))
      [byte_of_Z (Z.land (Z.shiftr m 16) 255); byte_of_Z (Z.land (Z.shiftr m 8) 255);
       byte_of_Z (Z.land m 255)]) as [Hl Hv]; [cbn [length]; lia|].
    split_and!; [done|done|lia|done|]. cbn [target_bytes]. rewrite Hv.
    rewrite mantissa_bytes_value by lia. cbn [length]. f_equal. f_equal. lia.
Qed.

(** The work of a target by its numeric value. *)
Definition work_of_value (v : Z) : Z :=
  if bool_decide (v < 2 ^ 128) then max_uint 128 - v / 2
  else max_uint 128 / Z.min (v / 2 ^ 128 + 1) (max_uint 128).

Lemma work_value t :
  length (target_bytes t) = 32%nat → of_be_bytes (target_bytes t) ≠ max_uint 128 →
  work t = work_of_value (of_be_bytes (target_bytes t)).
Proof.
  intros Hl Hne. unfold work, work_of_value.
  assert (of_be_bytes (target_bytes t)
    = of_be_bytes (take 16 (target_bytes t)) * 2 ^ 128
      + of_be_bytes (drop 16 (target_bytes t))) as Hv.
  { rewrite <-(take_drop 16 (target_bytes t)) at 1. rewrite of_be_bytes_app.
    by rewrite length_drop, Hl. }
  pose proof (of_be_bytes_range (take 16 (target_bytes t))) as Hhi.
  pose proof (of_be_bytes_range (drop 16 (target_bytes t))) as Hlo.
  rewrite length_take, Hl in Hhi. rewrite length_drop, Hl in Hlo.
  change (256 ^ Z.of_nat _) with (2 ^ 128) in Hhi, Hlo.
  set (hi := of_be_bytes (take 16 _)) in *. set (lo := of_be_bytes (drop 16 _)) in *.
  set (v := of_be_bytes (target_bytes t)) in *. clearbody hi lo v.
  destruct (decide (hi = 0)) as [->|Hhi0].
  - rewrite !(bool_decide_eq_true_2 (0 = 0)) by done.
    assert (v = lo) as -> by lia. rewrite (bool_decide_eq_true_2 (lo ≠ _)) by done.
    rewrite bool_decide_eq_true_2 by lia. cbn [andb]. rewrite Z.div_1_r.
    unfold saturating_sub. assert (lo / 2 ≤ lo) by (apply Z.div_le_upper_bound; lia).
    unfold max_uint in *. lia.
  - rewrite !(bool_decide_eq_false_2 (hi = 0)) by done.
    rewrite (bool_decide_eq_false_2 (v < _)) by lia. cbn [andb].
    assert (v / 2 ^ 128 = hi) as ->; [|done].
    rewrite Hv, Z.add_comm, Z.div_add by lia. rewrite Z.div_small by lia. lia.
Qed.

Lemma work_of_value_antitone v1 v2 :
  0 ≤ v1 ≤ v2 → 1 ≤ work_of_value v2 ≤ work_of_value v1 ∧ work_of_value v1 < 2 ^ 128.
Proof.
  intros [H0 Hle]. unfold work_of_value, max_uint.
  assert (v1 / 2 ≤ v2 / 2) by (apply Z.div_le_mono; lia).
  assert (0 ≤ v1 / 2) by (apply Z.div_pos; lia).
  set (M := 2 ^ 128 - 1). assert (0 < M) by done.
  assert (∀ v, 2 ^ 128 ≤ v → 2 ≤ Z.min (v / 2 ^ 128 + 1) M ≤ M) as Hd.
  { intros v Hv. assert (1 ≤ v / 2 ^ 128) by (apply Z.div_le_lower_bound; lia).
    assert (2 ≤ M) by done. lia. }
  assert (∀ d, 2 ≤ d ≤ M → 1 ≤ M / d ≤ 2 ^ 127 - 1) as Hq.
  { intros d Hdd. split; [apply Z.div_le_lower_bound; lia|].
    transitivity (M / 2); [apply Z.div_le_compat_l; lia|done]. }
  case_bool_decide as Hv2; case_bool_decide as Hv1; try lia.
  - assert (v2 / 2 < 2 ^ 127) by (apply Z.div_lt_upper_bound; lia).
    assert (2 ^ 128 = 2 * 2 ^ 127) by done. lia.
  - pose proof (Hq _ (Hd v2 ltac:(lia))).
    assert (v1 / 2 < 2 ^ 127) by (apply Z.div_lt_upper_bound; lia).
    assert (2 ^ 128 = 2 * 2 ^ 127) by done. lia.
  - pose proof (Hq _ (Hd v2 ltac:(lia))). pose proof (Hq _ (Hd v1 ltac:(lia))).
    assert (v1 / 2 ^ 128 ≤ v2 / 2 ^ 128) by (apply Z.div_le_mono; lia).
    split; [split; [lia|]|lia].
    apply Z.div_le_compat_l; [lia|]. pose proof (Hd v1 ltac:(lia)). lia.
Qed.

(** A compact target is never the one value whose work is out of line. *)
Lemma compact_value_not_max bits : u32 bits → compact_value bits ≠ max_uint 128.
Proof.
  intros Hb. destruct (compact_ranges bits Hb) as (_ & _ & He & Hm).
  unfold compact_value. set (e := bits / 2 ^ 24) in *. set (m := bits mod 2 ^ 23) in *.
  case_bool_decide as H3.
  - assert (1 ≤ 256 ^ (3 - e)) by (apply (Z.pow_le_mono_r 256 0); lia).
    assert (m / 256 ^ (3 - e) ≤ m) by (apply Z.div_le_upper_bound; nia).
    unfold max_uint. assert (2 ^ 23 < 2 ^ 128 - 1) by done. lia.
  - replace (e - 3) with (1 + (e - 4)) by lia. rewrite Z.pow_add_r by lia.
    intros H. apply (f_equal (λ z, z mod 2)) in H. change (max_uint 128 mod 2) with 1 in H.
    replace (m * (256 ^ 1 * 256 ^ (e - 4))) with ((m * 128 * 256 ^ (e - 4)) * 2) in H by lia.
    by rewrite Z.mod_mul in H.
Qed.

Lemma compact_value_nonneg bits : u32 bits → 0 ≤ compact_value bits.
Proof.
  intros Hb. destruct (compact_ranges bits Hb) as (_ & _ & He & Hm).
  unfold compact_value. case_bool_decide.
  - apply Z.div_pos; [lia|]. apply Z.pow_pos_nonneg; lia.
  - apply Z.mul_nonneg_nonneg; [lia|]. apply Z.pow_nonneg. lia.
Qed.

Lemma from_compact_work bits t :
  u32 bits → from_compact bits = Some t → work t = work_of_value (compact_value bits).
Proof.
  intros Hb Ht. pose proof (from_compact_cases bits Hb) as H. rewrite Ht in H.
  destruct H as (_ & _ & _ & Hl & Hv). rewrite work_value, Hv; [done|done|].
  rewrite Hv. by apply compact_value_not_max.
Qed.

Lemma from_compact_work_range bits t :
  u32 bits → from_compact bits = Some t → 1 ≤ work t < 2 ^ 128.
Proof.
  intros Hb Ht. rewrite (from_compact_work bits t) by done.
  pose proof (compact_value_nonneg bits Hb).
  destruct (work_of_value_antitone (compact_value bits) (compact_value bits)); lia.
Qed.

(** ** Lemmas: blocks *)

Section blocks.
Context `{C : Crypto} `{L : !CryptoLaws C}.

Lemma header_hash_length h : length (BlockHash_as_bytes (header_hash h)) = 32%nat.
Proof using L. apply double_sha256_length. Qed.

Lemma is_met_by_numeric t h :
  length (target_bytes t) = 32%nat →
  is_met_by t (header_hash h) = true ↔
  of_be_bytes (BlockHash_as_bytes (header_hash h)) ≤ of_be_bytes (target_bytes t).
Proof using L.
  intros Hl. unfold is_met_by. rewrite bytes_leb_be by (by rewrite header_hash_length).
  apply bool_decide_eq_true.
Qed.

Lemma from_compact_length bits t :
  u32 bits → from_compact bits = Some t → length (target_bytes t) = 32%nat.
Proof.
  intros Hb Ht. pose proof (from_compact_cases bits Hb) as H. rewrite Ht in H. apply H.
Qed.

Lemma validate_header_pow_Ok b :
  u32 (bits (header b)) →
  validate_header_pow b = Ok () ↔
  ∃ t, from_compact (bits (header b)) = Some t
    ∧ of_be_bytes (BlockHash_as_bytes (header_hash (header b)))
      ≤ of_be_bytes (target_bytes t).
Proof using L.
  intros Hb. unfold validate_header_pow. rewrite result_bind_Ok. setoid_rewrite ok_or_Ok.
  apply exist_proper. intros t. apply and_iff_compat_l_dep. intros Ht.
  rewrite <-is_met_by_numeric by (by eapply from_compact_length).
  by destruct (is_met_by _ _).
Qed.

Lemma existsb_coinbase_false txs :
  existsb is_coinbase txs = false ↔ Forall (λ tx, is_coinbase tx = false) txs.
Proof.
  induction txs as [|tx txs IH]; cbn; [by split|].
  by rewrite orb_false_iff, Forall_cons, IH.
Qed.

Lemma validate_block_Ok b :
  u32 (bits (header b)) → validate_block b = Ok () ↔ block_valid b.
Proof using L.
  intros Hb. unfold validate_block. rewrite result_bind_Ok. split.
  - intros ([] & Hpow%validate_header_pow_Ok & Hr); [|done].
    destruct (transactions b) as [|first rest] eqn:Htx; [done|].
    destruct (is_coinbase first) eqn:Hcb; [|done]. cbn in Hr.
    destruct (existsb is_coinbase rest) eqn:Hex; [done|]. inv_result.
    case_bool_decide as Hm; [done|].
    split; [done| |congruence]. exists first, rest. split_and!; [done..|].
    by apply existsb_coinbase_false.
  - intros [Hpow (first & rest & Htx & Hcb & Hrest) Hm].
    exists (). split; [by apply validate_header_pow_Ok|].
    rewrite Htx, Hcb, (proj2 (existsb_coinbase_false rest) Hrest), Hm. cbn.
    by rewrite bool_decide_eq_false_2 by (intros []; done).
Qed.

Lemma validate_block_no_panic b : Block_encodable b → no_panic (validate_block b).
Proof.
  intros He. unfold validate_block. apply no_panic_bind.
  - unfold validate_header_pow. apply no_panic_bind; [apply no_panic_ok_or|].
    intros t _. by case_match.
  - intros _ _. destruct (transactions b) as [|first rest] eqn:Htx; [done|].
    case_match; [done|]. case_match; [done|].
    apply no_panic_bind; [|intros r _; by case_bool_decide].
    apply no_panic_expect. by apply merkle_root_total.
Qed.

Lemma apply_txs_fees_nonneg h U txs U' fs : apply_txs h U txs U' fs → 0 ≤ fs.
Proof. induction 1 as [|? ? ? ? ? ? ? H%tx_valid_fee_nonneg]; lia. Qed.

Lemma apply_txs_wf h U txs U' fs :
  apply_txs h U txs U' fs → Forall Transaction_wf txs → utxos_wf U → utxos_wf U'.
Proof.
  induction 1 as [|U tx txs U1 U2 f fs Hv Ha Htxs IH]; [done|].
  intros [? ?]%Forall_cons ?. apply IH; [done|]. by eapply apply_transaction_wf.
Qed.

Lemma apply_txs_total h U txs U' fs :
  apply_txs h U txs U' fs → Forall Transaction_wf txs →
  Forall (λ tx, is_coinbase tx = false) txs → utxos_wf U →
  total_value U' + fs ≤ total_value U.
Proof.
  induction 1 as [|U tx txs U1 U2 f fs Hv Ha Htxs IH]; intros Hw Hcb HU; [lia|].
  apply Forall_cons in Hw as [Hw1 Hw]. apply Forall_cons in Hcb as [Hcb1 Hcb].
  specialize (IH Hw Hcb ltac:(by eapply apply_transaction_wf)).
  pose proof (apply_transaction_total _ _ _ _ _ HU Hw1 Ha Hv) as Hle.
  rewrite Hcb1 in Hle. lia.
Qed.

Lemma apply_block_txs_Ok h txs U s st :
  utxos_wf U → Forall Transaction_wf txs → s < 2 ^ 64 →
  try_fold (apply_block_tx h) (U, s) txs = Ok st ↔
  ∃ fs, apply_txs h U txs st.1 fs ∧ s + fs < 2 ^ 64 ∧ st.2 = s + fs.
Proof.
  revert U s. induction txs as [|tx txs IH]; intros U s HU Hw Hs; cbn [try_fold].
  { split.
    - intros [= <-]. exists 0. split_and!; [constructor|lia|cbn; lia].
    - intros (fs & Ha & Hlt & H2). inv Ha. destruct st; cbn in *. simplify_eq.
      by rewrite Z.add_0_r. }
  apply Forall_cons in Hw as [Hw1 Hw]. rewrite result_bind_Ok. split.
  - intros ([U1 s1] & H1 & Hr). unfold apply_block_tx in H1. inv_result.
    repeat match goal with
    | H : transaction_fee _ _ = Ok _ |- _ => apply transaction_fee_Ok in H; [|done..]
    | H : checked_add _ _ _ = Some _ |- _ => apply checked_add_Some in H as [? ->]
    end.
    apply IH in Hr as (fs & Ha & ? & ?); [|by eapply apply_transaction_wf|done..].
    eexists. split; [by econstructor|]. lia.
  - intros (fs & Ha & Hlt & H2). inv Ha.
    match goal with H : apply_txs _ _ txs _ _ |- _ =>
      pose proof (apply_txs_fees_nonneg _ _ _ _ _ H) end.
    eexists (_, _). split.
    + unfold apply_block_tx. rewrite (proj2 (transaction_fee_Ok U tx _ HU Hw1)) by done.
      cbn. unfold checked_add. rewrite bool_decide_eq_true_2 by lia. cbn.
      match goal with H : apply_transaction _ _ _ = Ok _ |- _ => rewrite H end. reflexivity.
    + apply IH; [by eapply apply_transaction_wf|done|lia|].
      eexists. split; [done|]. lia.
Qed.

Lemma sum_transaction_outputs_Ok tx r :
  Transaction_wf tx →
  sum_transaction_outputs tx = Ok r ↔ out_value tx < 2 ^ 64 ∧ r = out_value tx.
Proof. apply sum_outputs_Ok. Qed.

Lemma apply_block_Ok U b h U' :
  utxos_wf U → Block_wf b →
  apply_block U b h = Ok U' ↔ block_applies U b h U'.
Proof using L.
  intros HU [Hh Hw]. unfold apply_block, block_applies. rewrite result_bind_Ok. split.
  - intros ([] & Hv & Hr). apply validate_block_Ok in Hv; [|apply Hh]. split; [done|].
    destruct (transactions b) as [|first rest]; [done|].
    apply Forall_cons in Hw as [Hw1 Hw]. inv_result.
    match goal with H : try_fold _ _ _ = Ok _ |- _ =>
      apply apply_block_txs_Ok in H as (fs & Ha & ? & ?); [|done..] end.
    destruct x as [U1 fees]; cbn in *. inv_result.
    repeat match goal with
    | H : sum_transaction_outputs _ = Ok _ |- _ =>
        apply sum_transaction_outputs_Ok in H as [? ->]; [|done]
    | H : checked_add _ _ _ = Some _ |- _ => apply checked_add_Some in H as [? ->]
    end.
    case_bool_decide as Hlt; [done|]. inv_result.
    eexists first, rest, U1, fs. split_and!; [done|done|lia|lia|done].
  - intros (Hv & first & rest & U1 & fees & Htx & Ha & Hlt & Hle & Hcb).
    exists (). split; [apply validate_block_Ok; [apply Hh|done]|].
    rewrite Htx in *. apply Forall_cons in Hw as [Hw1 Hw].
    pose proof (apply_txs_fees_nonneg _ _ _ _ _ Ha).
    assert (try_fold (apply_block_tx h) (U, 0) rest = Ok (U1, fees)) as ->.
    { apply apply_block_txs_Ok; [done..|]. exists fees.
      unfold BLOCK_SUBSIDY in *. split_and!; [done|lia|done]. }
    cbn. unfold checked_add. rewrite bool_decide_eq_true_2 by done. cbn.
    rewrite (proj2 (sum_transaction_outputs_Ok first (out_value first) Hw1)) by lia. cbn.
    rewrite bool_decide_eq_false_2 by lia. by rewrite Hcb.
Qed.

Lemma apply_block_no_panic U b h : Block_encodable b → no_panic (apply_block U b h).
Proof.
  intros He. unfold apply_block.
  destruct (validate_block b) as [[]|e|] eqn:Hv; cbn;
    [|done|by destruct (validate_block_no_panic b He)].
  destruct (transactions b) as [|first rest] eqn:Htx.
  { unfold validate_block in Hv. rewrite Htx in Hv. by destruct (validate_header_pow b). }
  unfold Block_encodable in He. rewrite Htx in He. apply Forall_cons in He as [He1 He].
  apply no_panic_bind.
  - apply try_fold_no_panic. intros [U1 s] tx Htx'.
    eapply Forall_forall in He; [|done]. unfold apply_block_tx.
    apply no_panic_bind; [apply no_panic_map_err, no_panic_bind; [|done];
      by apply validate_inner_no_panic, encodable_true_false|]. intros f _.
    apply no_panic_bind; [apply no_panic_ok_or|]. intros s' _.
    apply no_panic_bind; [|done]. by apply no_panic_map_err, apply_transaction_no_panic.
  - intros [U1 s] _. apply no_panic_bind; [apply no_panic_ok_or|]. intros a _.
    apply no_panic_bind.
    { apply no_panic_map_err, try_fold_no_panic. intros ? ? _. apply no_panic_ok_or. }
    intros a' _. case_bool_decide; [done|].
    by apply no_panic_map_err, apply_transaction_no_panic.
Qed.

Lemma apply_block_wf U b h U' :
  utxos_wf U → Block_wf b → apply_block U b h = Ok U' → utxos_wf U'.
Proof using L.
  intros HU Hb (_ & first & rest & U1 & fees & Htx & Ha & _ & _ & Hcb)%apply_block_Ok; [|done..].
  destruct Hb as [_ Hw]. rewrite Htx in Hw. apply Forall_cons in Hw as [Hw1 Hw].
  eapply apply_transaction_wf; [|done..]. by eapply apply_txs_wf.
Qed.

Lemma apply_block_total U b h U' :
  utxos_wf U → Block_wf b → apply_block U b h = Ok U' →
  total_value U' ≤ total_value U + BLOCK_SUBSIDY.
Proof using L.
  intros HU Hb Hap. apply apply_block_Ok in Hap
    as (Hv & first & rest & U1 & fees & Htx & Ha & _ & Hle & Hcb); [|done..].
  destruct Hb as [_ Hw]. rewrite Htx in Hw. apply Forall_cons in Hw as [Hw1 Hw].
  destruct (bv_coinbase b Hv) as (first' & rest' & Htx' & Hc & Hrest).
  rewrite Htx in Htx'. injection Htx' as <- <-.
  pose proof (apply_txs_total _ _ _ _ _ Ha Hw Hrest HU).
  assert (utxos_wf U1) as HU1 by by eapply apply_txs_wf.
  pose proof (proj1 (apply_transaction_Ok _ _ _ _ HU1 Hw1) Hcb) as (f & _ & Hf & _).
  pose proof (apply_transaction_total _ _ _ _ _ HU1 Hw1 Hcb Hf) as Htot.
  rewrite Hc in Htot. lia.
Qed.

End blocks.

(** ** Theorems *)

(** [from_compact] decodes Bitcoin-style compact bits exactly as its documentation says: it
    returns the 32-byte big-endian form of [mantissa * 256^(exponent - 3)]
    (shifted down for exponents below 3), and refuses exactly the encodings with the sign
    bit, a zero mantissa or an exponent above 32. *)
Theorem from_compact_decodes (bits : Z) :
  u32 bits →
  match from_compact bits with
  | Some t =>
      Z.testbit bits 23 = false ∧ bits mod 2 ^ 23 ≠ 0 ∧ bits / 2 ^ 24 ≤ 32
      ∧ length (target_bytes t) = 32%nat
      ∧ of_be_bytes (target_bytes t) = compact_value bits
  | None => Z.testbit bits 23 = true ∨ bits mod 2 ^ 23 = 0 ∨ 32 < bits / 2 ^ 24
  end.
Proof. apply from_compact_cases. Qed.

(** C16: Chain-selection work is sound for fork choice on every target a header
    can carry: it is at least 1, fits in a [u128], and never increases
    when the target gets easier. *)
Theorem work_antitone (b1 b2 : Z) (t1 t2 : PowTarget) :
  u32 b1 → u32 b2 → from_compact b1 = Some t1 → from_compact b2 = Some t2 →
  of_be_bytes (target_bytes t1) ≤ of_be_bytes (target_bytes t2) →
  1 ≤ work t2 ≤ work t1 ∧ work t1 < 2 ^ 128.
Proof.
  intros Hb1 Hb2 H1 H2 Hle.
  rewrite (from_compact_work b1 t1 Hb1 H1), (from_compact_work b2 t2 Hb2 H2).
  apply work_of_value_antitone. split; [by apply compact_value_nonneg|].
  pose proof (from_compact_cases b1 Hb1) as Hc1. pose proof (from_compact_cases b2 Hb2) as Hc2.
  rewrite H1 in Hc1. rewrite H2 in Hc2.
  destruct Hc1 as (_ & _ & _ & _ & <-), Hc2 as (_ & _ & _ & _ & <-). done.
Qed.

Section claims.
Context `{C : Crypto} `{L : !CryptoLaws C}.

(** [validate_block] decides the context-free block rules and never panics on encodable blocks: it
    accepts a block exactly when the header hash, read as a number, is at most the target, the first
    transaction and only the first is a coinbase, and the header commits to the
    Merkle root of the transactions. *)
Theorem validate_block_correct (b : Block) :
  Block_wf b → Block_encodable b →
  no_panic (validate_block b) ∧ (validate_block b = Ok () ↔ block_valid b).
Proof using L.
  intros [Hh _] He. split; [by apply validate_block_no_panic|].
  apply validate_block_Ok, Hh.
Qed.

(** C10: [apply_block] applies exactly the blocks that satisfy the consensus
    rules: the block is valid in isolation, its transactions after the first are
    valid one after the other, the coinbase pays at most subsidy plus their fees,
    and the result is the coin set after all of them, coinbase last.  It
    never panics on encodable blocks, so every other block is refused with an error. *)
Theorem apply_block_correct (U : UtxoSet) (b : Block) (h : BlockHeight) :
  utxos_wf U → Block_wf b → Block_encodable b →
  no_panic (apply_block U b h)
  ∧ ∀ U', apply_block U b h = Ok U' ↔ block_applies U b h U'.
Proof using L.
  intros HU Hb He. split; [by apply apply_block_no_panic|]. intros U'. by apply apply_block_Ok.
Qed.

(** No inflation: a block that applies keeps the coin set well formed and
    raises the total value of all coins by at most the block subsidy. *)
Theorem apply_block_supply (U : UtxoSet) (b : Block) (h : BlockHeight) (U' : UtxoSet) :
  utxos_wf U → Block_wf b → apply_block U b h = Ok U' →
  utxos_wf U' ∧ 0 ≤ total_value U' ≤ total_value U + BLOCK_SUBSIDY.
Proof using L.
  intros HU Hb Ha. pose proof (apply_block_wf _ _ _ _ HU Hb Ha) as HU'.
  split; [done|]. split; [by apply total_value_nonneg|by eapply apply_block_total].
Qed.

End claims.

(** ** Witnesses *)

Module DemoBlocks.
#[local] Existing Instance Toy.crypto.

Definition easy_bits : Z := 0x207fffff.

Definition unsolved (prev : BlockHash) (t : Z) (txs : list Transaction) : Block := {|
  header := {| header_version := 1; prev_blockhash := prev;
    header_merkle_root := default [] (merkle_root {| header := TypesWitness.hdr;
                                                     transactions := txs |});
    time := t; bits := easy_bits; nonce := 0 |};
  transactions := txs
|}.

Fixpoint search (fuel : nat) (b : Block) : Block :=
  match fuel with
  | O => b
  | S fuel =>
      if is_ok (validate_header_pow b) then b
      else
        let hd := header b in
        search fuel {| header := {| header_version := header_version hd;
            prev_blockhash := prev_blockhash hd; header_merkle_root := header_merkle_root hd;
            time := time hd; bits := bits hd; nonce := nonce hd + 1 |};
          transactions := transactions b |}
  end.

Definition reward (v tag : Z) : Transaction := {|
  version := 1; inputs := []; outputs := [{| value := v; locking_data := Demo.lock Demo.key |}];
  lock_time := tag
|}.

Definition genesis : Block :=
  Eval vm_compute in search 64 (unsolved BlockHash_default 1 [Demo.coinbase]).
Definition block1 : Block :=
  Eval vm_compute in search 64
    (unsolved (header_hash (header genesis)) 2 [reward 55 1; Demo.payment]).

Definition coins1 : UtxoSet :=
  match apply_block Demo.coins block1 1 with Ok U => U | _ => ∅ end.

Example block1_applies : apply_block Demo.coins block1 1 = Ok coins1.
Proof. vm_decide. Qed.

End DemoBlocks.

Lemma from_compact_decodes_witness :
  match from_compact 0x1d00ffff with
  | Some t => of_be_bytes (target_bytes t) = 0xffff * 256 ^ 26
  | None => False
  end.
Proof.
  pose proof (from_compact_decodes 0x1d00ffff ltac:(vm_decide)) as H.
  destruct (from_compact 0x1d00ffff) as [t|].
  - destruct H as (_ & _ & _ & _ & H). rewrite H. reflexivity.
  - vm_compute in H. destruct H as [|[|]]; discriminate.
Defined.

Lemma work_antitone_witness :
  match from_compact 0x1d00ffff, from_compact 0x207fffff with
  | Some t1, Some t2 => 1 ≤ work t2 ≤ work t1
  | _, _ => False
  end.
Proof.
  destruct (from_compact 0x1d00ffff) as [t1|] eqn:H1; [|discriminate].
  destruct (from_compact 0x207fffff) as [t2|] eqn:H2; [|discriminate].
  apply (work_antitone 0x1d00ffff 0x207fffff t1 t2); [vm_decide..|exact H1|exact H2|].
  injection H1 as <-. injection H2 as <-. vm_compute. discriminate.
Defined.

Lemma validate_block_correct_witness :
  block_valid (C:=Toy.crypto) DemoBlocks.block1.
Proof.
  destruct (validate_block_correct (C:=Toy.crypto) (L:=Toy.laws) DemoBlocks.block1
    ltac:(vm_decide) ltac:(vm_decide)) as [_ H].
  apply H. vm_decide.
Defined.

Lemma apply_block_correct_witness :
  block_applies (C:=Toy.crypto) Demo.coins DemoBlocks.block1 1 DemoBlocks.coins1.
Proof.
  destruct (apply_block_correct (C:=Toy.crypto) (L:=Toy.laws) Demo.coins DemoBlocks.block1 1
    ltac:(vm_decide) ltac:(vm_decide) ltac:(vm_decide)) as [_ H].
  apply H. exact DemoBlocks.block1_applies.
Defined.

Lemma apply_block_supply_witness :
  total_value DemoBlocks.coins1 ≤ total_value Demo.coins + BLOCK_SUBSIDY.
Proof.
  apply (apply_block_supply (C:=Toy.crypto) (L:=Toy.laws) Demo.coins DemoBlocks.block1 1);
    [vm_decide..|exact DemoBlocks.block1_applies].
Defined.
