(* ===== verification/Chain.v ===== *)
(** * chain.rs: the block index and best-tip selection

    Every error return of [insert_block] precedes its first mutation, so the
    new index is part of the payload of [Ok]. *)

From S2P Require Import Prelude Bytes Crypto Types State Consensus.

Inductive ChainError :=
| InvalidBlock (e : ConsensusError)
| MissingParent (h : BlockHash)
| GenesisHasParent
| WorkOverflow.

#[export] Instance ChainError_eq_dec : EqDecision ChainError.
Proof. solve_decision. Defined.

Record ChainIndex := {
  entries : gmap BlockHash ChainIndexEntry;
  best_tip : option BlockHash
}.

#[export] Instance ChainIndex_eq_dec : EqDecision ChainIndex.
Proof. solve_decision. Defined.

Definition ChainIndex_new : ChainIndex := {| entries := ∅; best_tip := None |}.
Definition ChainIndex_len (ci : ChainIndex) : nat := size (entries ci).
Definition ChainIndex_is_empty (ci : ChainIndex) : bool := bool_decide (entries ci = ∅).
Definition ChainIndex_get (ci : ChainIndex) (h : BlockHash) : option ChainIndexEntry :=
  entries ci !! h.
Definition ChainIndex_iter (ci : ChainIndex) : list (BlockHash * ChainIndexEntry) :=
  map_to_list (entries ci).

(** [for entry in self.entries.values() { if let Some(parent) = entry.parent { .. } }] *)
Definition collect_parents (non_heads : gset BlockHash)
    (l : list (BlockHash * ChainIndexEntry)) : gset BlockHash :=
  foldl (λ (s : gset BlockHash) (p : BlockHash * ChainIndexEntry),
    match parent p.2 with Some q => {[ q ]} ∪ s | None => s end) non_heads l.

Definition branch_count (ci : ChainIndex) : nat :=
  let non_heads := collect_parents ∅ (map_to_list (entries ci)) in
  length (filter (λ h, h ∉ non_heads) (map_to_list (entries ci)).*1).

Definition block_work (b : Block) : result ChainError Z :=
  target ← ok_or (from_compact (bits (header b))) (InvalidBlock InvalidPowTarget);
  Ok (work target).

Definition update_best_tip (ci : ChainIndex) (candidate_hash : BlockHash)
    : may_panic ChainIndex :=
  candidate ← entries ci !! candidate_hash;
  should_replace ←
    match best_tip ci with
    | None => Some true
    | Some current_hash =>
        current ← entries ci !! current_hash;
        Some (bool_decide (cumulative_work current < cumulative_work candidate))
    end;
  Some (if (should_replace : bool)
        then {| entries := entries ci; best_tip := Some candidate_hash |} else ci).

Section chain.
Context `{C : Crypto}.

Definition insert_block (ci : ChainIndex) (b : Block)
    : result ChainError (ChainIndex * ChainIndexEntry) :=
  _ ← map_err InvalidBlock (validate_block b);
  let hash := header_hash (header b) in
  match entries ci !! hash with
  | Some entry => Ok (ci, entry)
  | None =>
      let parent_hash := prev_blockhash (header b) in
      w ← block_work b;
      link ←
        (if bool_decide (entries ci = ∅) then
           if bool_decide (parent_hash ≠ BlockHash_default) then Err GenesisHasParent
           else Ok (0, w, None)
         else
           par ← ok_or (entries ci !! parent_hash) (MissingParent parent_hash);
           h ← expect (add_or_panic 64 (height par) 1);
           cw ← ok_or (checked_add 128 (cumulative_work par) w) WorkOverflow;
           Ok (h, cw, Some parent_hash));
      let '(h, cw, par) := link in
      let entry := {| block_hash := hash; height := h; cumulative_work := cw;
                      parent := par |} in
      ci' ← expect (update_best_tip {| entries := <[hash := entry]> (entries ci);
                                       best_tip := best_tip ci |} hash);
      Ok (ci', entry)
  end.

End chain.

(** ** Invariant *)

Definition entry_ok (m : gmap BlockHash ChainIndexEntry) (h : BlockHash)
    (e : ChainIndexEntry) : Prop :=
  block_hash e = h ∧ 0 ≤ height e < Z.of_nat (size m)
  ∧ 1 ≤ cumulative_work e < 2 ^ 128
  ∧ match parent e with
    | None => height e = 0
    | Some p => ∃ pe, m !! p = Some pe ∧ height e = height pe + 1
                      ∧ cumulative_work pe < cumulative_work e
    end.

Record chain_wf (ci : ChainIndex) : Prop := {
  cw_entries : map_Forall (entry_ok (entries ci)) (entries ci);
  cw_one_genesis h1 h2 e1 e2 :
    entries ci !! h1 = Some e1 → entries ci !! h2 = Some e2 →
    parent e1 = None → parent e2 = None → h1 = h2;
  (** The best tip is an indexed block of maximal cumulative work. *)
  cw_best : match best_tip ci with
            | None => entries ci = ∅
            | Some t => ∃ te, entries ci !! t = Some te
                ∧ ∀ h e, entries ci !! h = Some e → cumulative_work e ≤ cumulative_work te
            end
}.

(** The blocks that have an indexed child. *)
Definition parents (m : gmap BlockHash ChainIndexEntry) : gset BlockHash :=
  collect_parents ∅ (map_to_list m).

Definition heads (ci : ChainIndex) : gset BlockHash :=
  dom (entries ci) ∖ parents (entries ci).

(** ** Lemmas *)

Lemma elem_of_collect_parents s l q :
  q ∈ collect_parents s l ↔ q ∈ s ∨ ∃ h e, (h, e) ∈ l ∧ parent e = Some q.
Proof.
  revert s. induction l as [|[h e] l IH]; intros s; cbn; [set_solver|].
  fold (collect_parents (match parent e with Some q => {[ q ]} ∪ s | None => s end) l).
  rewrite IH. destruct (parent e) eqn:He; set_solver.
Qed.

Lemma elem_of_parents m q :
  q ∈ parents m ↔ ∃ h e, m !! h = Some e ∧ parent e = Some q.
Proof.
  unfold parents. rewrite elem_of_collect_parents.
  setoid_rewrite elem_of_map_to_list. set_solver.
Qed.

Lemma branch_count_heads ci : branch_count ci = size (heads ci).
Proof.
  unfold branch_count. fold (parents (entries ci)).
  assert (NoDup (map_to_list (entries ci)).*1) as Hnd by apply NoDup_fst_map_to_list.
  rewrite <-(size_list_to_set (C := gset BlockHash)) by by apply NoDup_filter.
  f_equal. apply set_eq. intros h. unfold heads.
  rewrite elem_of_list_to_set, list_elem_of_filter, elem_of_difference.
  rewrite elem_of_dom. rewrite list_elem_of_fmap. split.
  - intros [? ([h' e] & -> & ?%elem_of_map_to_list)]. split; [by eexists|done].
  - intros [[e He] ?]. split; [done|]. exists (h, e). split; [done|].
    by apply elem_of_map_to_list.
Qed.

Lemma parents_insert m h e :
  m !! h = None →
  parents (<[h := e]> m)
  = match parent e with Some q => {[ q ]} | None => ∅ end ∪ parents m.
Proof.
  intros Hh. apply set_eq. intros q. rewrite elem_of_union, !elem_of_parents. split.
  - intros (h' & e' & [[-> ->]|[? ?]]%lookup_insert_Some & He'); [rewrite He'|]; set_solver.
  - intros [Hq|(h' & e' & Hm & He')].
    + destruct (parent e) as [q'|] eqn:He; [|set_solver].
      exists h, e. rewrite lookup_insert_eq. set_solver.
    + exists h', e'. rewrite lookup_insert_ne by congruence. done.
Qed.

Lemma heads_insert m h e bt bt' :
  m !! h = None → h ∉ parents m → parent e ≠ Some h →
  heads {| entries := <[h := e]> m; best_tip := bt |}
  = {[ h ]} ∪ (heads {| entries := m; best_tip := bt' |}
                 ∖ match parent e with Some q => {[ q ]} | None => ∅ end).
Proof.
  intros Hh Hp Hne. unfold heads; cbn [entries].
  rewrite parents_insert, dom_insert_L by done. apply set_eq. intros x.
  assert (h ∉ (match parent e with Some q => {[ q ]} | None => ∅ end : gset BlockHash)).
  { destruct (parent e); set_solver. }
  set_solver.
Qed.

(** How a new entry hangs below the index. *)
Definition links (m : gmap BlockHash ChainIndexEntry) (prev : BlockHash) (w : Z)
    (e : ChainIndexEntry) : Prop :=
  (m = ∅ ∧ prev = BlockHash_default ∧ height e = 0 ∧ cumulative_work e = w ∧ parent e = None)
  ∨ ∃ pe, m !! prev = Some pe ∧ height e = height pe + 1
      ∧ cumulative_work e = cumulative_work pe + w ∧ cumulative_work e < 2 ^ 128
      ∧ parent e = Some prev.

(** Strictly more work takes over; ties keep the incumbent. *)
Definition tip_after (ci : ChainIndex) (e : ChainIndexEntry) : option BlockHash :=
  match best_tip ci ≫= λ t, entries ci !! t with
  | Some te => if bool_decide (cumulative_work te < cumulative_work e)
               then Some (block_hash e) else best_tip ci
  | None => Some (block_hash e)
  end.

Definition with_entry (ci : ChainIndex) (e : ChainIndexEntry) : ChainIndex :=
  {| entries := <[block_hash e := e]> (entries ci); best_tip := tip_after ci e |}.

Lemma update_best_tip_new ci e :
  chain_wf ci → entries ci !! block_hash e = None →
  update_best_tip {| entries := <[block_hash e := e]> (entries ci); best_tip := best_tip ci |}
    (block_hash e) = Some (with_entry ci e).
Proof.
  intros Hwf Hnew. unfold update_best_tip, with_entry, tip_after; cbn [entries best_tip].
  rewrite lookup_insert_eq. cbn.
  pose proof (cw_best ci Hwf) as Hb. destruct (best_tip ci) as [t|]; [|done].
  destruct Hb as (te & Ht & _). cbn. rewrite Ht.
  rewrite lookup_insert_ne, Ht by congruence. cbn. by case_bool_decide.
Qed.

Lemma chain_wf_new : chain_wf ChainIndex_new.
Proof.
  split; cbn [entries best_tip ChainIndex_new]; [apply map_Forall_empty| |done].
  intros h1 h2 e1 e2 H1. by rewrite lookup_empty in H1.
Qed.

Lemma entry_ok_insert m h e h' e' :
  m !! h = None → entry_ok m h' e' → entry_ok (<[h := e]> m) h' e'.
Proof.
  intros Hh (? & ? & ? & Hp). unfold entry_ok. rewrite map_size_insert_None by done.
  split_and!; try done; try lia. destruct (parent e'); [|done].
  destruct Hp as (pe & Hpe & ?). exists pe. split; [|done].
  rewrite lookup_insert_ne by congruence. done.
Qed.

Lemma links_entry_ok m prev w e :
  map_Forall (entry_ok m) m → m !! block_hash e = None → 1 ≤ w < 2 ^ 128 →
  links m prev w e → entry_ok (<[block_hash e := e]> m) (block_hash e) e.
Proof.
  intros Hm Hnew Hw Hl. unfold entry_ok. rewrite map_size_insert_None by done.
  destruct Hl as [(-> & -> & Hh & Hcw & Hp)|(pe & Hpe & Hh & Hcw & Hlt & Hp)]; rewrite Hp.
  - split_and!; try done; lia.
  - destruct (Hm _ _ Hpe) as (_ & ? & ? & _). split_and!; try done; try lia.
    exists pe. rewrite lookup_insert_ne by congruence. split_and!; [done|lia|lia].
Qed.

Lemma with_entry_wf ci prev w e :
  chain_wf ci → entries ci !! block_hash e = None → 1 ≤ w < 2 ^ 128 →
  links (entries ci) prev w e → chain_wf (with_entry ci e).
Proof.
  intros [Hent Hgen Hbest] Hnew Hw Hl. unfold with_entry. split; cbn [entries best_tip].
  - apply map_Forall_insert_2; [by eapply links_entry_ok|].
    eapply map_Forall_impl; [done|]. intros h e' He'. by apply entry_ok_insert.
  - assert (∀ h' e', entries ci !! h' = Some e' → parent e ≠ None) as Hne.
    { intros h' e' He'. destruct Hl as [(Hem & _)|(? & _ & _ & _ & _ & ->)]; [|done].
      rewrite Hem in He'. done. }
    intros h1 h2 e1 e2 [[<- <-]|[? H1]]%lookup_insert_Some [[<- <-]|[? H2]]%lookup_insert_Some
      Hp1 Hp2; [done| | |by eapply Hgen].
    + by destruct (Hne _ _ H2).
    + by destruct (Hne _ _ H1).
  - unfold tip_after. destruct (best_tip ci) as [t|]; cbn.
    + destruct Hbest as (te & Hte & Hmax). rewrite Hte. case_bool_decide as Hlt.
      * exists e. rewrite lookup_insert_eq. split; [done|].
        intros h' e' [[<- <-]|[? He']]%lookup_insert_Some; [lia|].
        specialize (Hmax _ _ He'). lia.
      * exists te. rewrite lookup_insert_ne by congruence. split; [done|].
        intros h' e' [[<- <-]|[? He']]%lookup_insert_Some; [lia|by eapply Hmax].
    + exists e. rewrite Hbest, lookup_insert_eq. split; [done|].
      intros h' e' [[<- <-]|[? He']]%lookup_insert_Some; [lia|]. by rewrite lookup_empty in He'.
Qed.

(** Rewrites the tip update of a freshly inserted entry [e]. *)
Ltac fold_new_tip ci e :=
  match goal with |- context [update_best_tip ?a ?b] =>
    change (update_best_tip a b) with
      (update_best_tip {| entries := <[block_hash e := e]> (entries ci);
                          best_tip := best_tip ci |} (block_hash e))
  end; rewrite (update_best_tip_new ci e).

Section chain_lemmas.
Context `{C : Crypto} `{L : !CryptoLaws C}.

Lemma block_valid_work b :
  Block_wf b → block_valid b →
  ∃ w, block_work b = Ok w ∧ 1 ≤ w < 2 ^ 128.
Proof.
  intros [(_ & _ & _ & _ & Hb & _) _] [(t & Ht & _) _ _]. exists (work t).
  unfold block_work. rewrite Ht. split; [done|]. by eapply from_compact_work_range.
Qed.

(** A valid block either is known, or is linked below the index, or has no
    place there. *)
(** Every outcome on a valid block; the height of a child may overflow. *)
Lemma insert_block_outcomes ci b :
  chain_wf ci → Block_wf b → block_valid b →
  (∃ e, entries ci !! header_hash (header b) = Some e ∧ insert_block ci b = Ok (ci, e))
  ∨ entries ci !! header_hash (header b) = None ∧
    ((∃ w e, block_work b = Ok w ∧ 1 ≤ w < 2 ^ 128
        ∧ links (entries ci) (prev_blockhash (header b)) w e
        ∧ block_hash e = header_hash (header b)
        ∧ insert_block ci b = Ok (with_entry ci e, e))
     ∨ (entries ci = ∅ ∧ prev_blockhash (header b) ≠ BlockHash_default
        ∧ insert_block ci b = Err GenesisHasParent)
     ∨ (entries ci ≠ ∅ ∧ entries ci !! prev_blockhash (header b) = None
        ∧ insert_block ci b = Err (MissingParent (prev_blockhash (header b))))
     ∨ (∃ pe w, entries ci !! prev_blockhash (header b) = Some pe ∧ block_work b = Ok w
        ∧ 2 ^ 128 ≤ cumulative_work pe + w ∧ insert_block ci b = Err WorkOverflow)
     ∨ (∃ pe, entries ci !! prev_blockhash (header b) = Some pe ∧ 2 ^ 64 ≤ height pe + 1
        ∧ insert_block ci b = Panic)).
Proof using L.
  intros Hwf Hb Hv. unfold insert_block.
  rewrite (proj2 (validate_block_Ok b ltac:(apply Hb)) Hv). cbn [map_err mbind result_bind].
  destruct (entries ci !! header_hash (header b)) as [e|] eqn:He; [left; eauto|].
  right. split; [done|]. destruct (block_valid_work b Hb Hv) as (w & Hw & Hwr). rewrite Hw.
  cbn [mbind result_bind].
  case_bool_decide as Hem; [case_bool_decide as Hpar|].
  - right. left. done.
  - left. cbn [mbind result_bind].
    set (e := {| block_hash := _ |}). exists w, e. split_and!; [done|lia|lia| |done|].
    + left. done.
    + by fold_new_tip ci e.
  - destruct (entries ci !! prev_blockhash (header b)) as [pe|] eqn:Hpe; cbn [ok_or mbind result_bind].
    2: { right. right. left. done. }
    destruct (cw_entries ci Hwf _ _ Hpe) as (_ & Hh & Hcw & _).
    unfold add_or_panic, checked_add.
    destruct (bool_decide (height pe + 1 < 2 ^ 64)) eqn:Hh1;
      [apply bool_decide_eq_true_1 in Hh1|apply bool_decide_eq_false_1 in Hh1].
    2: { right. right. right. right. exists pe. split_and!; [done|lia|done]. }
    cbn [expect mbind result_bind]. case_bool_decide as Hov; cbn [ok_or mbind result_bind].
    + left. set (e := {| block_hash := _ |}). exists w, e. split_and!; [done|lia|lia| |done|].
      * right. exists pe. done.
      * by fold_new_tip ci e.
    + right. right. right. left. exists pe, w. split_and!; [done|done|lia|done].
Qed.

Lemma insert_block_cases ci b :
  chain_wf ci → Block_wf b → block_valid b → Z.of_nat (size (entries ci)) < 2 ^ 64 →
  (∃ e, entries ci !! header_hash (header b) = Some e ∧ insert_block ci b = Ok (ci, e))
  ∨ entries ci !! header_hash (header b) = None ∧
    ((∃ w e, block_work b = Ok w ∧ 1 ≤ w < 2 ^ 128
        ∧ links (entries ci) (prev_blockhash (header b)) w e
        ∧ block_hash e = header_hash (header b)
        ∧ insert_block ci b = Ok (with_entry ci e, e))
     ∨ (entries ci = ∅ ∧ prev_blockhash (header b) ≠ BlockHash_default
        ∧ insert_block ci b = Err GenesisHasParent)
     ∨ (entries ci ≠ ∅ ∧ entries ci !! prev_blockhash (header b) = None
        ∧ insert_block ci b = Err (MissingParent (prev_blockhash (header b))))
     ∨ (∃ pe w, entries ci !! prev_blockhash (header b) = Some pe ∧ block_work b = Ok w
        ∧ 2 ^ 128 ≤ cumulative_work pe + w ∧ insert_block ci b = Err WorkOverflow)).
Proof using L.
  intros Hwf Hb Hv Hsz.
  destruct (insert_block_outcomes ci b Hwf Hb Hv)
    as [?|(? & [?|[?|[?|[?|(pe & Hpe & Hh & _)]]]])]; [by left|right; split; [done|]..].
  - by left.
  - by right; left.
  - by right; right; left.
  - by right; right; right.
  - destruct (cw_entries ci Hwf _ _ Hpe) as (_ & ? & _). lia.
Qed.

Lemma insert_block_inv ci b ci' e :
  chain_wf ci → Block_wf b → insert_block ci b = Ok (ci', e) →
  block_valid b ∧ chain_wf ci' ∧ entries ci' !! header_hash (header b) = Some e
  ∧ (ci' = ci ∨ entries ci !! header_hash (header b) = None ∧ ci' = with_entry ci e
       ∧ ∃ w, block_work b = Ok w ∧ links (entries ci) (prev_blockhash (header b)) w e
              ∧ block_hash e = header_hash (header b)).
Proof using L.
  intros Hwf Hb Hi. assert (block_valid b) as Hv.
  { apply validate_block_Ok; [apply Hb|]. unfold insert_block in Hi.
    by destruct (validate_block b) as [[]| |]. }
  split; [done|].
  destruct (insert_block_outcomes ci b Hwf Hb Hv)
    as [(e' & He & Hi')|[Hn [(w & e' & Hw & Hwr & Hl & Hh & Hi')
       |[(_ & _ & Hi')|[(_ & _ & Hi')|[(? & ? & _ & _ & _ & Hi')|(? & _ & _ & Hi')]]]]]];
    rewrite Hi' in Hi; simplify_eq.
  - split_and!; [done..|]. by left.
  - rewrite <-Hh in *. split_and!; [by eapply with_entry_wf| |].
    + cbn. apply lookup_insert_eq.
    + right. split_and!; [done|done|]. eauto.
Qed.

Lemma insert_block_no_panic ci b :
  chain_wf ci → Block_wf b → Block_encodable b → Z.of_nat (size (entries ci)) < 2 ^ 64 →
  no_panic (insert_block ci b).
Proof using L.
  intros Hwf Hb He Hsz Hi. destruct (validate_block b) as [[]|e|] eqn:Hv.
  - apply validate_block_Ok in Hv; [|apply Hb].
    destruct (insert_block_cases ci b Hwf Hb Hv Hsz) as [(e & _ & Hi')|[_
      [(? & ? & _ & _ & _ & _ & Hi')|[(_ & _ & Hi')|[(_ & _ & Hi')|(? & ? & _ & _ & _ & Hi')]]]]];
      congruence.
  - unfold insert_block in Hi. rewrite Hv in Hi. done.
  - by apply (validate_block_no_panic b He).
Qed.

End chain_lemmas.

(** ** Ancestry *)

(** [ancestry m h l]: [l] lists [h] and its ancestors down to the block
    without a parent. *)
Inductive ancestry (m : gmap BlockHash ChainIndexEntry) : BlockHash → list BlockHash → Prop :=
| ancestry_genesis h e : m !! h = Some e → parent e = None → ancestry m h [h]
| ancestry_child h e p l :
    m !! h = Some e → parent e = Some p → ancestry m p l → ancestry m h (h :: l).

Lemma ancestry_det m h l1 l2 : ancestry m h l1 → ancestry m h l2 → l1 = l2.
Proof.
  intros H. revert l2. induction H as [h e He Hp|h e p l He Hp Hl IH]; intros l2 H2;
    inversion H2; simplify_eq; [done|]. f_equal. by apply IH.
Qed.

Lemma ancestry_exists m h e :
  map_Forall (entry_ok m) m → m !! h = Some e →
  ∃ l, ancestry m h l ∧ Z.of_nat (length l) = height e + 1.
Proof.
  intros Hm. remember (Z.to_nat (height e)) as n eqn:Hn. revert h e Hn.
  induction n as [|n IH]; intros h e Hn He; destruct (Hm _ _ He) as (_ & Hh & _ & Hp).
  - destruct (parent e) as [p|] eqn:Hpar.
    + destruct Hp as (pe & Hpe & Heq & _). destruct (Hm _ _ Hpe) as (_ & ? & _). lia.
    + exists [h]. split; [by econstructor|]. cbn. lia.
  - destruct (parent e) as [p|] eqn:Hpar; [|lia].
    destruct Hp as (pe & Hpe & Heq & _).
    destruct (IH p pe) as (l & Hl & Hlen); [lia|done|].
    exists (h :: l). split; [by eapply ancestry_child|]. cbn [length]. lia.
Qed.

Lemma ancestry_insert m h e h' l :
  m !! h = None → ancestry m h' l → ancestry (<[h := e]> m) h' l.
Proof.
  intros Hh. induction 1; [eapply ancestry_genesis|eapply ancestry_child]; try done;
    by rewrite lookup_insert_ne by congruence.
Qed.

(** Heights strictly drop along an ancestry, so its blocks are distinct. *)
Lemma ancestry_heights m h l e h' e' :
  map_Forall (entry_ok m) m → ancestry m h l → m !! h = Some e →
  h' ∈ l → m !! h' = Some e' → h' = h ∨ height e' < height e.
Proof.
  intros Hm Hl. revert e. induction Hl as [h e0 He0 Hp|h e0 p l He0 Hp Hl IH]; intros e He Hin He'.
  - left. set_solver.
  - apply elem_of_cons in Hin as [->|Hin]; [by left|right]. assert (e0 = e) as -> by congruence.
    destruct (Hm _ _ He) as (_ & _ & _ & Hpar). rewrite Hp in Hpar.
    destruct Hpar as (pe & Hpe & Hh & _).
    destruct (IH pe Hpe Hin He') as [->|]; simplify_eq; lia.
Qed.

Lemma ancestry_elem m h l h' : ancestry m h l → h' ∈ l → is_Some (m !! h').
Proof.
  induction 1 as [h e|h e p l ? ? ? IH]; intros Hin.
  - apply list_elem_of_singleton in Hin as ->. eauto.
  - apply elem_of_cons in Hin as [->|?]; eauto.
Qed.

Lemma ancestry_NoDup m h l :
  map_Forall (entry_ok m) m → ancestry m h l → NoDup l.
Proof.
  intros Hm. induction 1 as [h e|h e p l He Hp Hl IH]; [apply NoDup_singleton|].
  apply NoDup_cons. split; [|done]. intros Hin.
  destruct (Hm _ _ He) as (_ & _ & _ & Hpar). rewrite Hp in Hpar.
  destruct Hpar as (pe & Hpe & Hh & _).
  destruct (ancestry_heights m p l pe h e Hm Hl Hpe Hin He) as [->|]; simplify_eq; lia.
Qed.

(** ** Theorems *)

Section claims.
Context `{C : Crypto} `{L : !CryptoLaws C}.

(** C17: [insert_block] on every branch, for an index that satisfies its
    invariant: an invalid block is refused with the consensus error; a known
    block returns its entry and changes nothing; a new valid block that links
    to the index (genesis into an empty index, otherwise below an indexed
    parent without work overflow) is added with the parent's height plus one and
    cumulative work plus its own work, and becomes the best tip exactly when its work is
    strictly greater than the current tip's; the remaining errors mean what they say.  It
    never panics. *)
Theorem insert_block_correct (ci : ChainIndex) (b : Block) :
  chain_wf ci → Block_wf b → Block_encodable b → Z.of_nat (size (entries ci)) < 2 ^ 64 →
  match insert_block ci b with
  | Ok (ci', e) =>
      block_valid b ∧
      match entries ci !! header_hash (header b) with
      | Some e0 => ci' = ci ∧ e = e0
      | None => ci' = with_entry ci e ∧ block_hash e = header_hash (header b)
          ∧ ∃ w, block_work b = Ok w ∧ links (entries ci) (prev_blockhash (header b)) w e
      end
  | Err (InvalidBlock ce) => validate_block b = Err ce
  | Err GenesisHasParent => entries ci = ∅ ∧ prev_blockhash (header b) ≠ BlockHash_default
  | Err (MissingParent p) => p = prev_blockhash (header b) ∧ entries ci !! p = None
  | Err WorkOverflow => ∃ pe w, entries ci !! prev_blockhash (header b) = Some pe
      ∧ block_work b = Ok w ∧ 2 ^ 128 ≤ cumulative_work pe + w
  | Panic => False
  end.
Proof using L.
  intros Hwf Hb He Hsz. destruct (validate_block b) as [[]|ce|] eqn:Hv.
  - apply validate_block_Ok in Hv; [|apply Hb].
    destruct (insert_block_cases ci b Hwf Hb Hv Hsz) as [(e & He' & ->)|[Hn
      [(w & e & Hw & _ & Hl & Hh & ->)|[(? & ? & ->)|[(? & ? & ->)|(pe & w & ? & ? & ? & ->)]]]]].
    + by rewrite He'.
    + rewrite Hn. eauto 7.
    + done.
    + done.
    + eauto.
  - unfold insert_block. by rewrite Hv.
  - by destruct (validate_block_no_panic b He).
Qed.

(** An index reached from the empty one by [n] successful insertions. *)
Inductive chain_reach : nat → ChainIndex → Prop :=
| chain_reach_new : chain_reach 0 ChainIndex_new
| chain_reach_insert n ci b ci' e :
    chain_reach n ci → Block_wf b → insert_block ci b = Ok (ci', e) →
    chain_reach (S n) ci'.

Lemma chain_reach_wf n ci :
  chain_reach n ci → Z.of_nat n < 2 ^ 64 → chain_wf ci ∧ (size (entries ci) ≤ n)%nat.
Proof using L.
  induction 1 as [|n ci b ci' e Hr IH Hb Hi]; intros Hn.
  - split; [apply chain_wf_new|]. cbn. rewrite map_size_empty. lia.
  - destruct IH as [Hwf Hsz]; [lia|].
    apply insert_block_inv in Hi as (_ & Hwf' & _ & [->|(Hnew & -> & w & _ & _ & Hh)]);
      [split; [done|lia] | |done|done].
    split; [done|]. cbn. rewrite Hh, map_size_insert_None by done. lia.
Qed.

(** C18: Best-tip selection: after any sequence of (fewer than 2^64) insertions
    the index is well formed, its tip is an indexed block of maximal cumulative
    work, and every indexed block has exactly one ancestry, of [height + 1] distinct
    indexed blocks ending in the unique genesis. *)
Theorem reachable_chain_best_tip (n : nat) (ci : ChainIndex) :
  chain_reach n ci → Z.of_nat n < 2 ^ 64 →
  chain_wf ci
  ∧ (entries ci ≠ ∅ → ∃ t te, best_tip ci = Some t ∧ entries ci !! t = Some te
       ∧ ∀ h e, entries ci !! h = Some e → cumulative_work e ≤ cumulative_work te)
  ∧ ∀ h e, entries ci !! h = Some e →
      ∃ l, ancestry (entries ci) h l ∧ NoDup l ∧ Z.of_nat (length l) = height e + 1
           ∧ ∀ l', ancestry (entries ci) h l' → l' = l.
Proof using L.
  intros Hr Hn. destruct (chain_reach_wf n ci Hr Hn) as [Hwf _]. split_and!; [done| |].
  - intros Hne. pose proof (cw_best ci Hwf) as Hb. destruct (best_tip ci) as [t|]; [|done].
    destruct Hb as (te & ? & ?). eauto.
  - intros h e He. pose proof (cw_entries ci Hwf) as Hm.
    destruct (ancestry_exists _ h e Hm He) as (l & Hl & Hlen). exists l.
    split_and!; [done|by eapply ancestry_NoDup|done|].
    intros l' Hl'. by eapply ancestry_det.
Qed.

(** [branch_count] counts branch heads: extending a head keeps the count,
    adding a child below a block that already has one adds a branch, and
    a single genesis is one branch. *)
Theorem branch_count_insert (ci : ChainIndex) (b : Block) (ci' : ChainIndex) (e : ChainIndexEntry) :
  chain_wf ci → Block_wf b → Z.of_nat (size (entries ci)) < 2 ^ 64 →
  entries ci !! header_hash (header b) = None → insert_block ci b = Ok (ci', e) →
  branch_count ci' =
    if bool_decide (entries ci ≠ ∅ ∧ prev_blockhash (header b) ∈ heads ci)
    then branch_count ci else S (branch_count ci).
Proof using L.
  intros Hwf Hb Hsz Hnew Hi.
  apply insert_block_inv in Hi as (_ & Hwf' & Hlk & [->|(_ & -> & w & _ & Hl & Hh)]);
    [congruence| |done..].
  rewrite !branch_count_heads. unfold with_entry. rewrite <-Hh in Hnew.
  assert (∀ x, x ∈ parents (entries ci) → x ∈ dom (entries ci)) as Hsub.
  { intros x (h & e' & He' & Hp)%elem_of_parents.
    destruct (cw_entries ci Hwf _ _ He') as (_ & _ & _ & Hpar). rewrite Hp in Hpar.
    destruct Hpar as (pe & ? & _). apply elem_of_dom. eauto. }
  rewrite (heads_insert _ _ _ _ (best_tip ci)); [|done| |].
  2: { intros Hin%Hsub. apply elem_of_dom in Hin as [? ?]. congruence. }
  2: { destruct Hl as [(_ & _ & _ & _ & ->)|(pe & Hpe & _ & _ & _ & ->)]; congruence. }
  replace {| entries := entries ci; best_tip := best_tip ci |} with ci by by destruct ci.
  assert (block_hash e ∉ heads ci) as Hnh.
  { unfold heads. rewrite elem_of_difference, elem_of_dom. intros [[? ?] _]. congruence. }
  rewrite size_union, size_singleton by set_solver.
  destruct Hl as [(Hem & _ & _ & _ & ->)|(pe & Hpe & _ & _ & _ & ->)].
  - rewrite bool_decide_eq_false_2 by naive_solver. rewrite difference_empty_L. done.
  - assert (entries ci ≠ ∅) as Hne by (intros Hem; by rewrite Hem in Hpe).
    destruct (decide (prev_blockhash (header b) ∈ heads ci)) as [Hin|Hnin].
    + rewrite bool_decide_eq_true_2 by done.
      rewrite size_difference, size_singleton by set_solver.
      assert (size (heads ci) ≠ 0)%nat; [|lia].
      intros Hz%size_empty_inv. set_solver.
    + rewrite bool_decide_eq_false_2 by naive_solver.
      rewrite difference_disjoint_L by set_solver. done.
Qed.

End claims.

(** ** Witnesses *)

Module DemoChain.
#[local] Existing Instance Toy.crypto.
#[local] Existing Instance Toy.laws.

Definition ok_or_default {E A} (d : A) (r : result E A) : A :=
  match r with Ok a => a | _ => d end.

Definition entry0 : ChainIndexEntry :=
  {| block_hash := BlockHash_default; height := 0; cumulative_work := 0; parent := None |}.

Definition run1 := ok_or_default (ChainIndex_new, entry0)
  (insert_block ChainIndex_new DemoBlocks.genesis).
Definition run2 := ok_or_default (ChainIndex_new, entry0)
  (insert_block run1.1 DemoBlocks.block1).

Example insert_genesis : insert_block ChainIndex_new DemoBlocks.genesis = Ok (run1.1, run1.2).
Proof. vm_decide. Qed.
Example insert_block1 : insert_block run1.1 DemoBlocks.block1 = Ok (run2.1, run2.2).
Proof. vm_decide. Qed.

Lemma reach1 : chain_reach 1 run1.1.
Proof.
  eapply chain_reach_insert; [apply chain_reach_new| |exact insert_genesis]. vm_decide.
Qed.
Lemma reach2 : chain_reach 2 run2.1.
Proof. eapply chain_reach_insert; [apply reach1| |exact insert_block1]. vm_decide. Qed.

Lemma wf1 : chain_wf run1.1.
Proof. by apply (chain_reach_wf 1 run1.1 reach1). Qed.
Lemma wf2 : chain_wf run2.1.
Proof. by apply (chain_reach_wf 2 run2.1 reach2). Qed.

End DemoChain.

Lemma insert_block_correct_witness :
  DemoChain.run2.1 = with_entry DemoChain.run1.1 DemoChain.run2.2.
Proof.
  pose proof (insert_block_correct (C:=Toy.crypto) (L:=Toy.laws) DemoChain.run1.1
    DemoBlocks.block1 DemoChain.wf1 ltac:(vm_decide) ltac:(vm_decide) ltac:(vm_decide)) as H.
  rewrite DemoChain.insert_block1 in H. destruct H as [_ H].
  destruct (entries DemoChain.run1.1 !! header_hash (header DemoBlocks.block1)) eqn:E.
  - exfalso. apply (f_equal (λ o, bool_decide (is_Some o))) in E. vm_compute in E. discriminate.
  - destruct H as [H _]. exact H.
Defined.

Lemma reachable_chain_best_tip_witness :
  chain_wf DemoChain.run2.1 ∧ best_tip DemoChain.run2.1
    = Some (header_hash (C:=Toy.crypto) (header DemoBlocks.block1)).
Proof.
  split; [|vm_decide].
  apply (reachable_chain_best_tip (C:=Toy.crypto) (L:=Toy.laws) 2 DemoChain.run2.1);
    [exact DemoChain.reach2|reflexivity].
Defined.

Lemma branch_count_insert_witness :
  branch_count DemoChain.run2.1 = branch_count DemoChain.run1.1.
Proof.
  rewrite (branch_count_insert (C:=Toy.crypto) (L:=Toy.laws) DemoChain.run1.1 DemoBlocks.block1
    DemoChain.run2.1 DemoChain.run2.2 DemoChain.wf1 ltac:(vm_decide) ltac:(vm_decide)
    ltac:(vm_decide) DemoChain.insert_block1).
  rewrite bool_decide_eq_true_2 by vm_decide. reflexivity.
Defined.
