(* ===== verification/Mempool.v ===== *)
(** * mempool.rs: transactions waiting to be mined

    [Mempool] is its one field, the map [transactions].  The code iterates the
    [HashMap] in an unspecified order; every use is insensitive to it (a set of
    removals, [all], [max], a [min_by_key] whose keys are distinct, a sort by
    distinct keys), so the model iterates in the order of [map_to_list].  Every
    error return of [submit] precedes its first mutation. *)

From S2P Require Import Prelude Bytes Crypto Types State Consensus.

Definition MAX_MEMPOOL_TRANSACTIONS : Z := 1024.

Inductive MempoolError :=
| DuplicateTransaction (id : Txid)
| ConflictingInput (o : OutPoint)
| ReplacementFeeTooLow (existing replacement : Z)
| CapacityFeeTooLow (lowest candidate : Z)
| InvalidTransaction (e : ValidationError).

#[export] Instance MempoolError_eq_dec : EqDecision MempoolError.
Proof. solve_decision. Defined.

Notation Mempool := (gmap Txid Transaction).

Definition Mempool_new : Mempool := ∅.
Definition Mempool_len (mp : Mempool) : nat := size mp.
Definition Mempool_is_empty (mp : Mempool) : bool := bool_decide (mp = ∅).
Definition Mempool_get (mp : Mempool) (id : Txid) : option Transaction := mp !! id.
Definition Mempool_iter (mp : Mempool) : list (Txid * Transaction) := map_to_list mp.

(** [Vec<(K, V)>::into_iter().collect::<HashMap>()]: a later entry wins. *)
Definition Mempool_from_persisted (txs : list (Txid * Transaction)) : Mempool :=
  foldl (λ mp p, <[p.1 := p.2]> mp) ∅ txs.

Definition transactions_conflict (left right : Transaction) : bool :=
  existsb (λ l, existsb (λ r, bool_decide (previous_output r = previous_output l))
                  (inputs right)) (inputs left).

Definition same_input_set (left right : Transaction) : bool :=
  bool_decide (length (inputs left) = length (inputs right))
  && forallb (λ l, existsb (λ r, bool_decide (previous_output r = previous_output l))
                     (inputs right)) (inputs left).

Definition first_conflicting_input (tx : Transaction) (pending : Mempool) : option OutPoint :=
  previous_output <$>
    List.find (λ input,
      existsb (λ p : Txid * Transaction,
        existsb (λ spent, bool_decide (previous_output spent = previous_output input))
          (inputs p.2)) (map_to_list pending)) (inputs tx).

Definition conflicting_transactions (mp : Mempool) (tx : Transaction) : list Txid :=
  (filter (λ p : Txid * Transaction, transactions_conflict tx p.2 = true) (map_to_list mp)).*1.

Definition conflicts_are_replaceable (mp : Mempool) (tx : Transaction)
    (conflicting_ids : list Txid) : may_panic bool :=
  try_all (λ id, pending ← mp !! id; Some (same_input_set tx pending)) conflicting_ids.

Definition remove_many (mp : Mempool) (ids : list Txid) : Mempool :=
  foldl (λ mp id, delete id mp) mp ids.

(** The order of the tuple keys [(fee, txid.to_string())]. *)
Definition eviction_le (a b : Txid * Amount) : bool :=
  bool_decide (a.2 < b.2
    ∨ a.2 = b.2 ∧ String.le (Txid_to_string a.1) (Txid_to_string b.1)).

(** The order of [sort_by_key(|(txid, _)| txid.to_string())]. *)
Definition entry_le (a b : Txid * Transaction) : Prop :=
  String.le (Txid_to_string a.1) (Txid_to_string b.1).

#[export] Instance entry_le_dec : RelDecision entry_le.
Proof. unfold entry_le. intros a b. apply _. Defined.

Section mempool.
Context `{C : Crypto}.

Definition capacity_eviction_candidate (mp : Mempool) (utxos : UtxoSet)
    (conflicting_ids : list Txid) : may_panic (option (Txid * Amount)) :=
  let survivor_count :=
    saturating_sub (Z.of_nat (size mp)) (Z.of_nat (length conflicting_ids)) in
  if bool_decide (survivor_count < MAX_MEMPOOL_TRANSACTIONS) then Some None
  else
    fees ← mapM (λ p : Txid * Transaction,
             f ← unwrap (transaction_fee utxos p.2); Some (p.1, f))
             (filter (λ p : Txid * Transaction, p.1 ∉ conflicting_ids) (map_to_list mp));
    Some (min_by eviction_le fees).

Definition submit (mp : Mempool) (utxos : UtxoSet) (tx : Transaction)
    : result MempoolError (Mempool * Txid) :=
  id ← expect (Transaction_txid tx);
  if bool_decide (is_Some (mp !! id)) then Err (DuplicateTransaction id)
  else
    replacement_fee ← map_err InvalidTransaction (transaction_fee utxos tx);
    let conflicting_ids := conflicting_transactions mp tx in
    _ ← (match conflicting_ids with
         | [] => Ok ()
         | _ :: _ =>
             replaceable ← expect (conflicts_are_replaceable mp tx conflicting_ids);
             if negb replaceable then
               o ← expect (first_conflicting_input tx mp);
               Err (ConflictingInput o)
             else
               fees ← expect (mapM (λ existing_id,
                        pending ← mp !! existing_id;
                        unwrap (transaction_fee utxos pending)) conflicting_ids);
               existing_fee ← expect (list_max fees);
               if bool_decide (replacement_fee ≤ existing_fee)
               then Err (ReplacementFeeTooLow existing_fee replacement_fee)
               else Ok ()
         end);
    displaced ← expect (capacity_eviction_candidate mp utxos conflicting_ids);
    mp' ← (match displaced with
           | Some (evicted_id, evicted_fee) =>
               if bool_decide (replacement_fee ≤ evicted_fee)
               then Err (CapacityFeeTooLow evicted_fee replacement_fee)
               else Ok (delete evicted_id mp)
           | None => Ok mp
           end);
    Ok (<[id := tx]> (remove_many mp' conflicting_ids), id).

(** The [for (txid, tx) in entries] loop of [collect_valid], on
    [(candidate, selected, selected_ids)]. *)
Fixpoint collect_loop (max_count : Z) (l : list (Txid * Transaction)) (candidate : UtxoSet)
    (selected : list Transaction) (selected_ids : list Txid)
    : may_panic (list Transaction * list Txid) :=
  match l with
  | [] => Some (selected, selected_ids)
  | (id, tx) :: l =>
      if bool_decide (max_count ≤ Z.of_nat (length selected)) then Some (selected, selected_ids)
      else
        match apply_transaction candidate tx 0 with
        | Ok candidate' =>
            collect_loop max_count l candidate' (selected ++ [tx]) (selected_ids ++ [id])
        | Err _ => collect_loop max_count l candidate selected selected_ids
        | Panic => None
        end
  end.

Definition collect_valid (mp : Mempool) (utxos : UtxoSet) (max_count : Z)
    : may_panic (list Transaction * list Txid) :=
  let sorted := merge_sort entry_le (map_to_list mp) in
  collect_loop max_count sorted utxos [] [].

(** [retain] with a predicate that may panic. *)
Definition prune_invalid (mp : Mempool) (utxos : UtxoSet) : may_panic Mempool :=
  if existsb (λ p : Txid * Transaction,
       match validate_transaction utxos p.2 with Panic => true | _ => false end)
       (map_to_list mp)
  then None
  else Some (filter (λ p : Txid * Transaction,
               is_ok (validate_transaction utxos p.2) = true) mp).

End mempool.

(** ** Invariant *)

Definition spends (tx : Transaction) (o : OutPoint) : Prop :=
  o ∈ previous_output <$> inputs tx.

Section invariant.
Context `{C : Crypto}.

(** Pending transactions are stored under their id, within machine ranges,
    individually valid against the active coins, pairwise without a common
    input, and at most [MAX_MEMPOOL_TRANSACTIONS]. *)
Record mempool_ok (U : UtxoSet) (mp : Mempool) : Prop := {
  mo_tx id tx : mp !! id = Some tx →
    Transaction_txid tx = Some id ∧ Transaction_wf tx ∧ ∃ f, tx_valid U tx f;
  mo_disjoint id1 id2 tx1 tx2 o :
    mp !! id1 = Some tx1 → mp !! id2 = Some tx2 → spends tx1 o → spends tx2 o → id1 = id2;
  mo_size : Z.of_nat (size mp) ≤ MAX_MEMPOOL_TRANSACTIONS
}.

End invariant.

(** ** Lemmas *)

Lemma existsb_prev o l :
  existsb (λ i, bool_decide (previous_output i = o)) l = true ↔ o ∈ previous_output <$> l.
Proof.
  rewrite existsb_exists, list_elem_of_fmap. setoid_rewrite bool_decide_eq_true.
  setoid_rewrite <-list_elem_of_In. naive_solver.
Qed.

Lemma transactions_conflict_true t1 t2 :
  transactions_conflict t1 t2 = true ↔ ∃ o, spends t1 o ∧ spends t2 o.
Proof.
  unfold transactions_conflict, spends. rewrite existsb_exists. setoid_rewrite existsb_prev.
  setoid_rewrite <-list_elem_of_In. setoid_rewrite (list_elem_of_fmap _ (inputs t1)).
  naive_solver.
Qed.

Lemma same_input_set_true t1 t2 :
  same_input_set t1 t2 = true ↔
  length (inputs t1) = length (inputs t2) ∧ ∀ o, spends t1 o → spends t2 o.
Proof.
  unfold same_input_set, spends. rewrite andb_true_iff, bool_decide_eq_true, forallb_forall.
  setoid_rewrite existsb_prev. setoid_rewrite <-list_elem_of_In.
  setoid_rewrite (list_elem_of_fmap _ (inputs t1)). naive_solver.
Qed.

(** With distinct inputs the one-sided check decides equality of input sets. *)
Lemma same_input_set_perm t1 t2 :
  NoDup (previous_output <$> inputs t1) →
  same_input_set t1 t2 = true ↔
  previous_output <$> inputs t1 ≡ₚ previous_output <$> inputs t2.
Proof.
  intros Hnd. rewrite same_input_set_true. split.
  - intros [Hl Hs]. apply submseteq_length_Permutation.
    + apply NoDup_submseteq; done.
    + rewrite !length_fmap. lia.
  - intros Hp. split; [|intros o; unfold spends; by rewrite Hp].
    apply Permutation_length in Hp. by rewrite !length_fmap in Hp.
Qed.

Lemma elem_of_conflicting mp tx id :
  id ∈ conflicting_transactions mp tx ↔
  ∃ p, mp !! id = Some p ∧ transactions_conflict tx p = true.
Proof.
  unfold conflicting_transactions. rewrite list_elem_of_fmap. split.
  - intros ([i p] & -> & [? ?%elem_of_map_to_list]%list_elem_of_filter). eauto.
  - intros (p & ? & ?). exists (id, p). split; [done|].
    apply list_elem_of_filter. split; [done|]. by apply elem_of_map_to_list.
Qed.

Lemma conflicting_NoDup mp tx : NoDup (conflicting_transactions mp tx).
Proof.
  unfold conflicting_transactions. eapply sublist_NoDup; [apply (NoDup_fst_map_to_list mp)|].
  apply fmap_sublist, sublist_filter.
Qed.

Lemma remove_many_lookup mp ids id :
  remove_many mp ids !! id = if bool_decide (id ∈ ids) then None else mp !! id.
Proof. apply foldl_delete_lookup. Qed.

#[export] Instance entry_le_trans : Transitive entry_le.
Proof. intros a b c. unfold entry_le. by intros ->. Qed.
#[export] Instance entry_le_total : Total entry_le.
Proof. intros a b. unfold entry_le. apply (total String.le). Qed.

Lemma eviction_le_total a b : eviction_le a b = true ∨ eviction_le b a = true.
Proof.
  unfold eviction_le. rewrite !bool_decide_eq_true.
  destruct (Z.lt_trichotomy a.2 b.2) as [|[|]]; [naive_solver| |naive_solver].
  destruct (total String.le (Txid_to_string a.1) (Txid_to_string b.1)); naive_solver.
Qed.

Lemma eviction_le_trans a b c :
  eviction_le a b = true → eviction_le b c = true → eviction_le a c = true.
Proof.
  unfold eviction_le. rewrite !bool_decide_eq_true.
  intros [|[? H1]] [|[? H2]]; [left; lia..|]. right. split; [lia|]. by rewrite H1.
Qed.

Lemma eviction_le_fee a b : eviction_le a b = true → a.2 ≤ b.2.
Proof. unfold eviction_le. rewrite bool_decide_eq_true. lia. Qed.

Section submit_lemmas.
Context `{C : Crypto} (U : UtxoSet) (HU : utxos_wf U).

Lemma pending_fee mp id p :
  mempool_ok U mp → mp !! id = Some p → ∃ f, transaction_fee U p = Ok f ∧ tx_valid U p f.
Proof using HU.
  intros Hok Hp. destruct (mo_tx U mp Hok id p Hp) as (_ & Hw & f & Hf).
  exists f. split; [|done]. by apply transaction_fee_Ok.
Qed.

(** The transactions a replacement displaces are at most one: two of them would
    share an input. *)
Lemma replaceable_single mp tx ids :
  mempool_ok U mp → NoDup (previous_output <$> inputs tx) →
  ids = conflicting_transactions mp tx → ids ≠ [] →
  conflicts_are_replaceable mp tx ids = Some true →
  ∃ v p, ids = [v] ∧ mp !! v = Some p
    ∧ previous_output <$> inputs tx ≡ₚ previous_output <$> inputs p.
Proof using.
  intros Hok Hnd -> Hne Hall%try_all_true.
  destruct (conflicting_transactions mp tx) as [|v ids] eqn:Hids; [done|].
  assert (∀ i, i ∈ v :: ids → ∃ p, mp !! i = Some p
    ∧ transactions_conflict tx p = true ∧ same_input_set tx p = true) as Hel.
  { intros i Hi. eapply Forall_forall in Hall; [|done]. rewrite <-Hids in Hi.
    apply elem_of_conflicting in Hi as (p & Hp & Hc). rewrite Hp in Hall. cbn in Hall.
    injection Hall as Hall. eauto. }
  destruct (Hel v) as (p & Hp & (o & Ho & _)%transactions_conflict_true & Hs); [by left|].
  exists v, p. split_and!; [|done|by apply same_input_set_perm].
  destruct ids as [|v' ids]; [done|]. exfalso.
  destruct (Hel v') as (p' & Hp' & _ & Hs'); [by right; left|].
  pose proof (conflicting_NoDup mp tx) as Hnd'. rewrite Hids in Hnd'.
  apply NoDup_cons in Hnd' as [Hv _]. apply Hv, elem_of_cons. left.
  eapply (mo_disjoint U mp Hok v v' p p' o); [done..| |];
    [apply same_input_set_true in Hs as [_ Hs]; auto
    |apply same_input_set_true in Hs' as [_ Hs']; auto].
Qed.

Lemma replaceable_is_Some mp tx :
  is_Some (conflicts_are_replaceable mp tx (conflicting_transactions mp tx)).
Proof using.
  apply try_all_is_Some, Forall_forall. intros id (p & -> & _)%elem_of_conflicting. cbn. eauto.
Qed.

(** Two transactions share the reported input with the new one, and one
    pending transaction conflicts without having the same inputs. *)
Lemma first_conflicting_input_Some mp tx :
  conflicting_transactions mp tx ≠ [] →
  ∃ o id p, first_conflicting_input tx mp = Some o ∧ spends tx o
    ∧ mp !! id = Some p ∧ spends p o.
Proof using.
  intros Hne. unfold first_conflicting_input.
  destruct (List.find _ (inputs tx)) as [i|] eqn:Hf.
  - apply find_some in Hf as [Hi%list_elem_of_In Hex%existsb_exists].
    destruct Hex as ([id p] & Hin%list_elem_of_In%elem_of_map_to_list & Hs%existsb_prev).
    exists (previous_output i), id, p. split_and!; [done| |done|done].
    apply list_elem_of_fmap. eauto.
  - exfalso. destruct (conflicting_transactions mp tx) as [|id ids] eqn:Hids; [done|].
    assert (id ∈ conflicting_transactions mp tx) as Hin by (rewrite Hids; by left).
    apply elem_of_conflicting in Hin as (p & Hp & (o & Ho & Ho')%transactions_conflict_true).
    apply list_elem_of_fmap in Ho as (i & -> & Hi).
    eapply find_none in Hf; [|by apply list_elem_of_In].
    assert (existsb (λ p : Txid * Transaction, existsb (λ spent,
      bool_decide (previous_output spent = previous_output i)) (inputs p.2))
      (map_to_list mp) = true) as Ht; [|congruence].
    apply existsb_exists. exists (id, p). split; [|by apply existsb_prev].
    by apply list_elem_of_In, elem_of_map_to_list.
Qed.

Definition pending_fees (ids : list Txid) (l : list (Txid * Transaction))
    : may_panic (list (Txid * Amount)) :=
  mapM (λ p : Txid * Transaction, f ← unwrap (transaction_fee U p.2); Some (p.1, f))
    (filter (λ p : Txid * Transaction, p.1 ∉ ids) l).

Lemma pending_fees_total mp ids :
  mempool_ok U mp → is_Some (pending_fees ids (map_to_list mp)).
Proof using HU.
  intros Hok. apply mapM_is_Some, Forall_forall.
  intros [id p] [_ Hp%elem_of_map_to_list]%list_elem_of_filter. cbn.
  destruct (pending_fee mp id p Hok Hp) as (f & -> & _). cbn. eauto.
Qed.

Lemma elem_of_pending_fees mp ids l id f :
  mempool_ok U mp → pending_fees ids (map_to_list mp) = Some l →
  (id, f) ∈ l ↔ id ∉ ids ∧ ∃ p, mp !! id = Some p ∧ tx_valid U p f.
Proof using HU.
  intros Hok Hl. apply mapM_Some in Hl. split.
  - intros [n Hn]%list_elem_of_lookup. eapply Forall2_lookup_r in Hl as ([i p] & Hp & Hf); [|done].
    apply list_elem_of_lookup_2, list_elem_of_filter in Hp as [Hi Hp%elem_of_map_to_list].
    cbn in *. destruct (pending_fee mp i p Hok Hp) as (f' & Hfee & Hv).
    rewrite Hfee in Hf. cbn in Hf. simplify_eq. eauto.
  - intros (Hi & p & Hp & Hv).
    assert ((id, p) ∈ filter (λ p : Txid * Transaction, p.1 ∉ ids) (map_to_list mp)) as Hin
      by (apply list_elem_of_filter; split; [done|by apply elem_of_map_to_list]).
    apply list_elem_of_lookup in Hin as [n Hn].
    eapply Forall2_lookup_l in Hl as ([i f'] & Hp' & Hf); [|done]. cbn in Hf.
    destruct (pending_fee mp id p Hok Hp) as (f2 & Hfee & Hv2).
    rewrite Hfee in Hf. cbn in Hf. simplify_eq.
    rewrite (tx_valid_fee_unique _ _ _ _ Hv Hv2). by eapply list_elem_of_lookup_2.
Qed.

(** Eviction picks a lowest-fee transaction, and only from a full pool that
    loses nothing to replacement. *)
Lemma capacity_eviction_cases mp tx :
  mempool_ok U mp →
  let ids := conflicting_transactions mp tx in
  (capacity_eviction_candidate mp U ids = Some None
   ∧ (Z.of_nat (size mp) < MAX_MEMPOOL_TRANSACTIONS ∨ ids ≠ []))
  ∨ (ids = [] ∧ Z.of_nat (size mp) = MAX_MEMPOOL_TRANSACTIONS
     ∧ ∃ v p f, capacity_eviction_candidate mp U ids = Some (Some (v, f))
         ∧ mp !! v = Some p ∧ tx_valid U p f
         ∧ ∀ id' p' f', mp !! id' = Some p' → tx_valid U p' f' → f ≤ f').
Proof using HU.
  intros Hok ids. pose proof (mo_size U mp Hok) as Hsz.
  unfold capacity_eviction_candidate, saturating_sub, MAX_MEMPOOL_TRANSACTIONS in *.
  case_bool_decide as Hs.
  - left. split; [done|]. destruct ids; [|by right]. cbn in Hs. left. lia.
  - right. assert (ids = []) as Hids by (destruct ids; [done|]; cbn [length] in Hs; lia).
    assert (Z.of_nat (size mp) = 1024) as Hfull by lia. rewrite Hids in *.
    split_and!; [done|done|]. fold (pending_fees [] (map_to_list mp)).
    destruct (pending_fees_total mp [] Hok) as [l Hl]. rewrite Hl. cbn.
    assert (l ≠ []) as Hne.
    { intros ->. destruct (map_to_list mp) as [|[i p] ml] eqn:Hm.
      - apply map_to_list_empty_iff in Hm. subst. rewrite map_size_empty in Hfull. lia.
      - assert (mp !! i = Some p) as Hp by (apply elem_of_map_to_list; rewrite Hm; by left).
        destruct (pending_fee mp i p Hok Hp) as (f & _ & Hf). rewrite <-Hm in Hl.
        assert ((i, f) ∈ []) as Hin; [|set_solver].
        apply (elem_of_pending_fees mp [] [] i f Hok Hl). split; [set_solver|eauto]. }
    destruct (min_by eviction_le l) as [[v f]|] eqn:Hmin; [|by destruct l].
    apply min_by_Some in Hmin as [Hin Hall];
      [|apply eviction_le_total|apply eviction_le_trans].
    apply (elem_of_pending_fees mp [] l v f Hok Hl) in Hin as (_ & p & Hp & Hv).
    exists v, p, f. split_and!; [done..|]. intros id' p' f' Hp' Hv'.
    assert ((id', f') ∈ l) as Hin'.
    { apply (elem_of_pending_fees mp [] l id' f' Hok Hl). split; [set_solver|eauto]. }
    eapply Forall_forall in Hall; [|done]. by apply eviction_le_fee in Hall.
Qed.

End submit_lemmas.

Lemma conflicting_nil mp tx :
  conflicting_transactions mp tx = [] ↔
  ∀ id p o, mp !! id = Some p → spends p o → ¬ spends tx o.
Proof.
  split.
  - intros Hnil id p o Hp Ho Ho'.
    assert (id ∈ conflicting_transactions mp tx) as Hin; [|rewrite Hnil in Hin; set_solver].
    apply elem_of_conflicting. exists p. split; [done|]. apply transactions_conflict_true. eauto.
  - intros H. destruct (conflicting_transactions mp tx) as [|id ids] eqn:E; [done|].
    assert (id ∈ conflicting_transactions mp tx) as Hin by (rewrite E; by left).
    apply elem_of_conflicting in Hin as (p & Hp & (o & ? & ?)%transactions_conflict_true).
    by edestruct H.
Qed.

Section admission.
Context `{C : Crypto} (U : UtxoSet) (HU : utxos_wf U).

Lemma tx_valid_NoDup tx f : tx_valid U tx f → NoDup (previous_output <$> inputs tx).
Proof using.
  intros (_ & _ & Hv). unfold is_coinbase in Hv. destruct (inputs tx) eqn:Hi; [constructor|].
  rewrite <-Hi in *. by destruct Hv as (_ & _ & ? & _).
Qed.

(** The admission policy: a transaction of fee [f] enters either beside the
    pending ones, or in place of one that pays strictly less and either has
    the same inputs or is a cheapest one of a full pool. *)
Definition admitted (mp : Mempool) (tx : Transaction) (id : Txid) (f : Z) (mp' : Mempool) : Prop :=
  (conflicting_transactions mp tx = [] ∧ Z.of_nat (size mp) < MAX_MEMPOOL_TRANSACTIONS
   ∧ mp' = <[id := tx]> mp)
  ∨ ∃ v p f', mp !! v = Some p ∧ tx_valid U p f' ∧ f' < f ∧ mp' = <[id := tx]> (delete v mp)
    ∧ (previous_output <$> inputs tx ≡ₚ previous_output <$> inputs p
       ∨ conflicting_transactions mp tx = []
         ∧ Z.of_nat (size mp) = MAX_MEMPOOL_TRANSACTIONS
         ∧ ∀ id2 p2 f2, mp !! id2 = Some p2 → tx_valid U p2 f2 → f' ≤ f2).

Lemma admitted_ok mp tx id f mp' :
  mempool_ok U mp → Transaction_wf tx → Transaction_txid tx = Some id → tx_valid U tx f →
  mp !! id = None → admitted mp tx id f mp' → mempool_ok U mp'.
Proof using.
  intros Hok Hw Hid Hf Hnew Had.
  assert (∃ m, mp' = <[id := tx]> m ∧ m ⊆ mp
    ∧ Z.of_nat (size m) < MAX_MEMPOOL_TRANSACTIONS
    ∧ ∀ i p o, m !! i = Some p → spends p o → spends tx o → False) as (m & -> & Hsub & Hsz & Hdis).
  { pose proof (mo_size U mp Hok).
    destruct Had as [(Hc & Hs & ->)|(v & p & f' & Hv & _ & _ & -> & Hcase)].
    { exists mp. split_and!; [done..|]. by apply conflicting_nil. }
    exists (delete v mp). split_and!; [done|apply delete_subseteq| |].
    - rewrite map_size_delete_Some by eauto.
      assert (size mp ≠ 0%nat); [|lia]. intros ->%map_size_empty_inv. done.
    - intros i p2 o Hp2 Ho Ho'. apply lookup_delete_Some in Hp2 as [Hne Hp2].
      destruct Hcase as [Hperm|[Hc _]]; [|by eapply conflicting_nil].
      apply Hne. eapply (mo_disjoint U mp Hok v i p p2 o); [done..| |done].
      unfold spends. by rewrite <-Hperm. }
  assert (m !! id = None) as Hmid.
  { destruct (m !! id) eqn:E; [|done]. eapply lookup_weaken in E; [|done]. congruence. }
  split.
  - intros i t [[-> ->]|[_ Hi]]%lookup_insert_Some; [eauto|].
    eapply (mo_tx U mp Hok), lookup_weaken; done.
  - intros i1 i2 t1 t2 o [[-> ->]|[? H1]]%lookup_insert_Some
      [[-> ->]|[? H2]]%lookup_insert_Some Ho1 Ho2; [done| | |].
    + by destruct (Hdis _ _ _ H2 Ho2).
    + by destruct (Hdis _ _ _ H1 Ho1).
    + eapply (mo_disjoint U mp Hok i1 i2); [by eapply lookup_weaken..|done|done].
  - rewrite map_size_insert_None by done. lia.
Qed.

(** What each error of [submit] reports. *)
Definition submit_rejects (mp : Mempool) (tx : Transaction) (id : Txid) (e : MempoolError) : Prop :=
  match e with
  | DuplicateTransaction i => i = id ∧ is_Some (mp !! id)
  | InvalidTransaction ve => transaction_fee U tx = Err ve
  | ConflictingInput o =>
      spends tx o ∧ (∃ i p, mp !! i = Some p ∧ spends p o)
      ∧ ∃ i p, mp !! i = Some p ∧ transactions_conflict tx p = true
          ∧ ¬ (previous_output <$> inputs tx ≡ₚ previous_output <$> inputs p)
  | ReplacementFeeTooLow existing replacement =>
      tx_valid U tx replacement ∧ replacement ≤ existing
      ∧ ∃ v p, mp !! v = Some p ∧ tx_valid U p existing
          ∧ previous_output <$> inputs tx ≡ₚ previous_output <$> inputs p
  | CapacityFeeTooLow lowest candidate =>
      tx_valid U tx candidate ∧ candidate ≤ lowest
      ∧ Z.of_nat (size mp) = MAX_MEMPOOL_TRANSACTIONS
      ∧ ∀ i p f, mp !! i = Some p → tx_valid U p f → lowest ≤ f
  end.

(** The tail of [submit] after the conflict check. *)
Lemma submit_tail mp tx id f ids :
  mempool_ok U mp → tx_valid U tx f → ids = conflicting_transactions mp tx →
  (ids = [] ∨ ∃ v p f', ids = [v] ∧ mp !! v = Some p ∧ tx_valid U p f' ∧ f' < f
     ∧ previous_output <$> inputs tx ≡ₚ previous_output <$> inputs p) →
  match (displaced ← expect (capacity_eviction_candidate mp U ids);
         mp' ← (match displaced with
                | Some (evicted_id, evicted_fee) =>
                    if bool_decide (f ≤ evicted_fee)
                    then Err (CapacityFeeTooLow evicted_fee f)
                    else Ok (delete evicted_id mp)
                | None => Ok mp
                end);
         Ok (<[id := tx]> (remove_many mp' ids), id)) with
  | Ok (mp', i) => i = id ∧ admitted mp tx id f mp'
  | Err e => submit_rejects mp tx id e
  | Panic => False
  end.
Proof using HU.
  intros Hok Hf Hids Hcase.
  pose proof (capacity_eviction_cases U HU mp tx Hok) as Hcap. cbn zeta in Hcap.
  rewrite <-Hids in Hcap.
  destruct Hcap as [[-> Hsz]|(-> & Hfull & v & p & f' & -> & Hp & Hv & Hmin)];
    cbn [expect mbind result_bind].
  - split; [done|]. destruct Hcase as [->|(v & p & f' & -> & Hp & Hv & Hlt & Hperm)].
    + left. destruct Hsz as [Hsz|]; done.
    + right. exists v, p, f'. split_and!; [done..|]. by left.
  - case_bool_decide as Hle; cbn.
    + split_and!; try done.
    + split; [done|]. right. exists v, p, f'. split_and!; [done|done|lia|done|]. right. done.
Qed.

Lemma submit_cases mp tx id :
  mempool_ok U mp → Transaction_wf tx → encodable true tx → Transaction_txid tx = Some id →
  match submit mp U tx with
  | Ok (mp', i) => i = id ∧ mp !! id = None ∧ ∃ f, tx_valid U tx f ∧ admitted mp tx id f mp'
  | Err e => submit_rejects mp tx id e
  | Panic => False
  end.
Proof using HU.
  intros Hok Hw He Hid. unfold submit. rewrite Hid. cbn [expect mbind result_bind].
  case_bool_decide as Hdup; [done|]. apply eq_None_not_Some in Hdup.
  destruct (transaction_fee U tx) as [f|ve|] eqn:Hfee; cbn [map_err mbind result_bind]; [|done|].
  2: { unfold transaction_fee in Hfee.
       destruct (validate_transaction_inner U tx) eqn:Hv; try done.
       by apply (validate_inner_no_panic U tx (encodable_true_false tx He)). }
  apply transaction_fee_Ok in Hfee as Hf; [|done..].
  destruct (conflicting_transactions mp tx) as [|v0 ids0] eqn:Hids.
  { pose proof (submit_tail mp tx id f [] Hok Hf) as Ht. rewrite Hids in Ht.
    specialize (Ht eq_refl (or_introl eq_refl)). cbn [mbind result_bind] in *.
    repeat case_match; naive_solver. }
  rewrite <-Hids. assert (conflicting_transactions mp tx ≠ []) as Hne by (by rewrite Hids).
  clear v0 ids0 Hids.
  destruct (replaceable_is_Some mp tx) as [b Hb]. rewrite Hb. cbn [expect mbind result_bind].
  destruct b; cbn [negb].
  - destruct (replaceable_single U mp tx _ Hok (tx_valid_NoDup tx f Hf) eq_refl Hne Hb)
      as (v & p & Hv & Hp & Hperm).
    destruct (pending_fee U HU mp v p Hok Hp) as (f' & Hf' & Hvf').
    pose proof (submit_tail mp tx id f [v] Hok Hf (eq_sym Hv)) as Ht.
    rewrite Hv in *. cbn [mapM]. rewrite Hp. cbn [mbind option_bind]. rewrite Hf'.
    cbn [unwrap mbind option_bind mret option_ret expect result_bind list_max foldl].
    case_bool_decide as Hle; cbn [mbind result_bind submit_rejects].
    + split_and!; try done. eauto.
    + assert (f' < f) by lia. specialize (Ht ltac:(naive_solver)).
      cbn [mbind result_bind] in *. repeat case_match; naive_solver.
  - destruct (first_conflicting_input_Some mp tx Hne) as (o & i & p & -> & Ho & Hp & Hpo).
    cbn. split_and!; [done|eauto|].
    apply try_all_false in Hb as (i' & Hi' & Hs).
    apply elem_of_conflicting in Hi' as (p' & Hp' & Hc'). rewrite Hp' in Hs. cbn in Hs.
    injection Hs as Hs. exists i', p'. split_and!; [done..|]. intros Hperm.
    apply same_input_set_perm in Hperm; [congruence|]. by eapply tx_valid_NoDup.
Qed.

End admission.

(** ** Selection *)

Section select.
Context `{C : Crypto}.

(** What [collect_valid] needs of the stored transactions. *)
Definition keyed (p : Txid * Transaction) : Prop :=
  Transaction_txid p.2 = Some p.1 ∧ Transaction_wf p.2.

Lemma collect_loop_sound max l cand sel ids :
  Forall keyed l → utxos_wf cand →
  ∃ sub cand' fs, collect_loop max l cand sel ids = Some (sel ++ sub.*2, ids ++ sub.*1)
    ∧ sublist sub l ∧ apply_txs 0 cand sub.*2 cand' fs
    ∧ Z.of_nat (length (sel ++ sub.*2)) ≤ Z.max max (Z.of_nat (length sel)).
Proof.
  revert cand sel ids. induction l as [|[id tx] l IH]; intros cand sel ids Hl HU; cbn [collect_loop].
  { exists [], cand, 0. rewrite !app_nil_r.
    split_and!; [done|constructor|constructor|lia]. }
  apply Forall_cons in Hl as [[Hid Hw] Hl]. cbn in Hid, Hw. case_bool_decide as Hmax.
  { exists [], cand, 0. rewrite !app_nil_r.
    split_and!; [done|apply sublist_nil_l|constructor|lia]. }
  destruct (apply_transaction cand tx 0) as [cand1|e|] eqn:Ha.
  - pose proof (apply_transaction_wf _ _ _ _ HU Hw Ha) as HU1.
    destruct (IH cand1 (sel ++ [tx]) (ids ++ [id]) Hl HU1)
      as (sub & cand' & fs & -> & Hsub & Htxs & Hlen).
    pose proof (proj1 (apply_transaction_Ok _ _ _ _ HU Hw) Ha) as (f & _ & Hf & _).
    exists ((id, tx) :: sub), cand', (f + fs). cbn. rewrite <-!app_assoc in *. cbn.
    split_and!; [done|by constructor|by econstructor|].
    revert Hlen. rewrite !length_app. cbn. lia.
  - destruct (IH cand sel ids Hl HU) as (sub & cand' & fs & -> & Hsub & ? & ?).
    exists sub, cand', fs. split_and!; [done|by constructor|done|done].
  - by destruct (apply_transaction_no_panic cand tx 0 (txid_encodable tx id Hid)).
Qed.

(** Pending transactions that do not step on each other. *)
Definition independent (cand : UtxoSet) (l : list (Txid * Transaction)) : Prop :=
  NoDup l.*1
  ∧ (∀ id tx, (id, tx) ∈ l → ∃ f, tx_valid cand tx f)
  ∧ (∀ id1 tx1 id2 tx2 o, (id1, tx1) ∈ l → (id2, tx2) ∈ l →
       spends tx1 o → spends tx2 o → id1 = id2)
  ∧ (∀ id n, id ∈ l.*1 → cand !! {| txid := id; vout := n |} = None).

Lemma tx_valid_spends_known U tx f o : tx_valid U tx f → spends tx o → is_Some (U !! o).
Proof.
  intros (_ & _ & Hv) (i & -> & Hi)%list_elem_of_fmap. unfold is_coinbase in Hv.
  destruct (inputs tx) eqn:Hin; [set_solver|]. rewrite <-Hin in *.
  destruct Hv as (d & _ & _ & Hau & _). eapply Forall_forall in Hau as (u & _ & _ & Hu & _); eauto.
Qed.

(** Applying one of them leaves the others independent. *)
Lemma independent_step cand id tx l cand1 :
  utxos_wf cand → keyed (id, tx) → independent cand ((id, tx) :: l) →
  apply_transaction cand tx 0 = Ok cand1 → independent cand1 l.
Proof.
  intros HU [Hid Hw] (Hnd & Hval & Hdis & Hfresh) Ha. cbn in *.
  apply NoDup_cons in Hnd as [Hni Hnd].
  apply apply_transaction_Ok in Ha as (f & id' & _ & Hid' & Hins); [|done..].
  assert (id' = id) as -> by congruence.
  assert (∀ o, txid o ≠ id → ¬ spends tx o → cand1 !! o = cand !! o) as Hsame.
  { intros o Ho Hs. rewrite (insert_outputs_lookup _ _ _ _ _ _ _ o Hins).
    rewrite bool_decide_eq_false_2 by naive_solver.
    rewrite without_lookup, bool_decide_eq_false_2; done. }
  split_and!; [done| | |].
  - intros id2 tx2 Hin. destruct (Hval id2 tx2) as [f2 Hf2]; [by right|]. exists f2.
    eapply tx_valid_local; [|done]. intros i Hi. symmetry.
    assert (spends tx2 (previous_output i)) as Hs by (apply list_elem_of_fmap; eauto).
    apply Hsame.
    + intros Heq. destruct (tx_valid_spends_known _ _ _ _ Hf2 Hs) as [u Hu].
      specialize (Hfresh id (vout (previous_output i)) ltac:(by left)).
      rewrite <-Heq in Hfresh. destruct (previous_output i); cbn in *. congruence.
    + intros Hs'. assert (id = id2) as ->.
      { eapply (Hdis id tx id2 tx2); [by left|by right|done|done]. }
      apply Hni. apply list_elem_of_fmap. by exists (id2, tx2).
  - intros id1 tx1 id2 tx2 o ? ?. apply Hdis; by right.
  - intros id2 n Hid2. destruct (decide (id2 = id)) as [->|Hne]; [done|].
    rewrite (insert_outputs_lookup _ _ _ _ _ _ _ _ Hins).
    rewrite bool_decide_eq_false_2 by (cbn; naive_solver).
    rewrite without_lookup, Hfresh by (by right). by case_bool_decide.
Qed.

Lemma collect_loop_complete max l cand sel ids :
  Forall keyed l → utxos_wf cand → independent cand l →
  Z.of_nat (length sel + length l) ≤ max →
  collect_loop max l cand sel ids = Some (sel ++ l.*2, ids ++ l.*1).
Proof.
  revert cand sel ids. induction l as [|[id tx] l IH]; intros cand sel ids Hl HU Hind Hmax;
    cbn [collect_loop]; [by rewrite !app_nil_r|].
  apply Forall_cons in Hl as [Hk Hl]. cbn [length] in Hmax.
  rewrite bool_decide_eq_false_2 by lia.
  pose proof Hind as (_ & Hval & _). destruct (Hval id tx) as [f Hf]; [by left|].
  destruct Hk as [Hid Hw]. cbn in Hid, Hw. pose proof (txid_encodable tx id Hid) as He.
  destruct (insert_outputs_total id 0 (is_coinbase tx) 0 (outputs tx)
    (without cand (previous_output <$> inputs tx))) as [cand1 Hins]; [apply He|].
  assert (apply_transaction cand tx 0 = Ok cand1) as Ha by (apply apply_transaction_Ok; eauto).
  rewrite Ha, IH.
  - by rewrite <-!app_assoc.
  - done.
  - by eapply apply_transaction_wf.
  - by eapply independent_step.
  - rewrite length_app. cbn [length]. lia.
Qed.

Lemma mempool_keyed U mp : mempool_ok U mp → Forall keyed (map_to_list mp).
Proof.
  intros Hok. apply Forall_forall. intros [id tx] Hin%elem_of_map_to_list.
  destruct (mo_tx U mp Hok id tx Hin) as (? & ? & _). done.
Qed.

Lemma collect_valid_run U mp max_count :
  utxos_wf U → Forall keyed (map_to_list mp) → 0 ≤ max_count →
  ∃ sub U' fees, collect_valid mp U max_count = Some (sub.*2, sub.*1)
    ∧ sublist sub (merge_sort entry_le (map_to_list mp)) ∧ StronglySorted entry_le sub
    ∧ (∀ id tx, (id, tx) ∈ sub → mp !! id = Some tx) ∧ NoDup sub.*1
    ∧ apply_txs 0 U sub.*2 U' fees ∧ Z.of_nat (length sub) ≤ max_count.
Proof.
  intros HU Hk Hmax. unfold collect_valid.
  pose proof (merge_sort_Permutation entry_le (map_to_list mp)) as Hperm.
  destruct (collect_loop_sound max_count (merge_sort entry_le (map_to_list mp)) U [] [])
    as (sub & U' & fs & Hc & Hsub & Htxs & Hlen); [by rewrite Hperm|done|].
  exists sub, U', fs. rewrite Hc. cbn in *. split_and!; [done|done| | | |done|].
  - eapply StronglySorted_sub; [done|]. apply StronglySorted_merge_sort; apply _.
  - intros id tx Hin. apply elem_of_map_to_list. rewrite <-Hperm.
    by eapply elem_of_sublist.
  - eapply sublist_NoDup; [|by apply fmap_sublist]. rewrite Hperm.
    apply (NoDup_fst_map_to_list mp).
  - rewrite length_fmap in Hlen. lia.
Qed.

End select.

Section prune.
Context `{C : Crypto}.

Lemma prune_invalid_Some mp U :
  Forall keyed (map_to_list mp) →
  prune_invalid mp U
  = Some (filter (λ p : Txid * Transaction, is_ok (validate_transaction U p.2) = true) mp).
Proof.
  intros Hk. unfold prune_invalid. destruct (existsb _ _) eqn:Hex; [exfalso|done].
  apply existsb_exists in Hex as ([id tx] & Hin%list_elem_of_In & Hp).
  eapply Forall_forall in Hk as [Hid _]; [|done]. cbn in *.
  apply txid_encodable, encodable_true_false, (validate_inner_no_panic U) in Hid.
  unfold validate_transaction in Hp. by destruct (validate_transaction_inner U tx).
Qed.

Lemma prune_invalid_spec U U' mp :
  utxos_wf U' → mempool_ok U mp →
  ∃ mp', prune_invalid mp U' = Some mp' ∧ mempool_ok U' mp'
    ∧ ∀ id tx, mp' !! id = Some tx ↔ mp !! id = Some tx ∧ ∃ f, tx_valid U' tx f.
Proof.
  intros HU' Hok. rewrite prune_invalid_Some by by eapply mempool_keyed.
  eexists. split; [done|].
  assert (∀ id tx, filter (λ p : Txid * Transaction,
      is_ok (validate_transaction U' p.2) = true) mp !! id = Some tx
    ↔ mp !! id = Some tx ∧ ∃ f, tx_valid U' tx f) as Hlk.
  { intros id tx. rewrite map_lookup_filter_Some. apply and_iff_compat_l_dep. intros Hin.
    destruct (mo_tx U mp Hok id tx Hin) as (_ & Hw & _).
    rewrite <-validate_transaction_Ok by done. cbn. rewrite is_ok_true.
    split; [by intros [[] ?]|eauto]. }
  split; [|done]. split.
  - intros id tx [Hin Hv]%Hlk. destruct (mo_tx U mp Hok id tx Hin) as (? & ? & _). done.
  - intros id1 id2 tx1 tx2 o [? _]%Hlk [? _]%Hlk. by apply (mo_disjoint U mp Hok).
  - pose proof (mo_size U mp Hok). pose proof (map_subseteq_size _ _
      (map_filter_subseteq (λ p : Txid * Transaction,
        is_ok (validate_transaction U' p.2) = true) mp)). lia.
Qed.

End prune.

(** ** Theorems *)

Section claims.
Context `{C : Crypto}.

(** C19: Admission policy of [submit], on every branch.  From a pool that
    satisfies the invariant it never panics (none of its [expect]s fires);
    an accepted transaction is valid and new, displaces
    at most one pending transaction, which pays strictly less and either spends
    exactly the same inputs or is a cheapest one of a full pool, and
    the invariant holds again; a refusal reports a real violation of the policy. *)
Theorem submit_correct (U : UtxoSet) (mp : Mempool) (tx : Transaction) (id : Txid) :
  utxos_wf U → mempool_ok U mp → Transaction_wf tx → Transaction_txid tx = Some id →
  match submit mp U tx with
  | Ok (mp', i) =>
      i = id ∧ mp !! id = None ∧ mp' !! id = Some tx ∧ mempool_ok U mp'
      ∧ ∃ f, tx_valid U tx f ∧ admitted U mp tx id f mp'
  | Err e => submit_rejects U mp tx id e
  | Panic => False
  end.
Proof.
  intros HU Hok Hw Hid.
  pose proof (submit_cases U HU mp tx id Hok Hw (txid_encodable tx id Hid) Hid) as H.
  destruct (submit mp U tx) as [[mp' i]|e|]; [|done..].
  destruct H as (-> & Hnew & f & Hf & Had). split_and!; [done|done| | |eauto].
  - destruct Had as [(_ & _ & ->)|(v & p & f' & _ & _ & _ & -> & _)]; apply lookup_insert_eq.
  - by eapply admitted_ok.
Qed.

(** [collect_valid] returns for every pool of keyed transactions, and what it selects for a
    block is a sublist of the pool in txid order, of at most [max_count]
    transactions that apply one after the other to the coin set, with their ids. *)
Theorem collect_valid_sound (U : UtxoSet) (mp : Mempool) (max_count : Z) :
  utxos_wf U → Forall keyed (map_to_list mp) → 0 ≤ max_count →
  ∃ sub U' fees, collect_valid mp U max_count = Some (sub.*2, sub.*1)
    ∧ sublist sub (merge_sort entry_le (map_to_list mp)) ∧ StronglySorted entry_le sub
    ∧ (∀ id tx, (id, tx) ∈ sub → mp !! id = Some tx) ∧ NoDup sub.*1
    ∧ apply_txs 0 U sub.*2 U' fees ∧ Z.of_nat (length sub) ≤ max_count.
Proof. apply collect_valid_run. Qed.

(** Nothing valid is left behind: from a pool that satisfies the invariant, whose
    transactions' ids do not name coins that already exist, a block
    without a count limit selects every pending transaction. *)
Theorem collect_valid_complete (U : UtxoSet) (mp : Mempool) (max_count : Z) :
  utxos_wf U → mempool_ok U mp →
  (∀ id n, is_Some (mp !! id) → U !! {| txid := id; vout := n |} = None) →
  Z.of_nat (size mp) ≤ max_count →
  ∃ l, collect_valid mp U max_count = Some (l.*2, l.*1) ∧ l ≡ₚ map_to_list mp.
Proof.
  intros HU Hok Hfresh Hmax. unfold collect_valid.
  pose proof (merge_sort_Permutation entry_le (map_to_list mp)) as Hperm.
  exists (merge_sort entry_le (map_to_list mp)). split; [|done].
  rewrite collect_loop_complete; [done|rewrite Hperm; by eapply mempool_keyed|done| |].
  - split_and!.
    + rewrite Hperm. apply (NoDup_fst_map_to_list mp).
    + intros id tx. rewrite Hperm, elem_of_map_to_list. intros Hin. apply (mo_tx U mp Hok id tx Hin).
    + intros id1 tx1 id2 tx2 o. rewrite Hperm, !elem_of_map_to_list. apply (mo_disjoint U mp Hok).
    + intros id n. rewrite Hperm. intros ([i tx] & -> & Hin%elem_of_map_to_list)%list_elem_of_fmap.
      apply Hfresh. eauto.
  - rewrite Hperm, length_map_to_list. cbn. lia.
Qed.

(** [prune_invalid] keeps exactly the pending transactions that are valid against the new coin set,
    and so re-establishes the pool invariant for that set, whatever set the
    invariant held for before; it never panics there. *)
Theorem prune_invalid_restores (U U' : UtxoSet) (mp : Mempool) :
  utxos_wf U' → mempool_ok U mp →
  ∃ mp', prune_invalid mp U' = Some mp' ∧ mempool_ok U' mp'
    ∧ ∀ id tx, mp' !! id = Some tx ↔ mp !! id = Some tx ∧ ∃ f, tx_valid U' tx f.
Proof.
  intros HU' Hok. by apply prune_invalid_spec with U.
Qed.

(** [submit] does not ask for inputs: a transaction that spends nothing is
    valid with fee 0 at any coin set, so a pool with room admits it however much
    value its outputs claim to create. *)
Theorem submit_admits_inputless (U : UtxoSet) (mp : Mempool) (tx : Transaction) (id : Txid) :
  utxos_wf U → mempool_ok U mp → Transaction_wf tx → Transaction_txid tx = Some id →
  inputs tx = [] → outputs tx ≠ [] → out_value tx < 2 ^ 64 → mp !! id = None →
  Z.of_nat (size mp) < MAX_MEMPOOL_TRANSACTIONS →
  submit mp U tx = Ok (<[id := tx]> mp, id).
Proof.
  intros HU Hok Hw Hid Hin Hout Hov Hnew Hsz. unfold submit. rewrite Hid. cbn.
  rewrite bool_decide_eq_false_2 by (rewrite Hnew; by intros []).
  assert (transaction_fee U tx = Ok 0) as ->.
  { apply transaction_fee_Ok; [done..|]. unfold tx_valid, is_coinbase. by rewrite Hin. }
  assert (conflicting_transactions mp tx = []) as ->.
  { apply conflicting_nil. intros i p o _ _. unfold spends. rewrite Hin. apply not_elem_of_nil. }
  cbn. unfold capacity_eviction_candidate, saturating_sub. cbn.
  by rewrite bool_decide_eq_true_2 by lia.
Qed.

End claims.

(** ** Witnesses *)

Lemma mempool_ok_empty `{C : Crypto} U : mempool_ok U ∅.
Proof.
  split.
  - intros id tx H. by rewrite lookup_empty in H.
  - intros ? ? ? ? ? H. by rewrite lookup_empty in H.
  - done.
Qed.

Module DemoPool.
#[local] Existing Instance Toy.crypto.

Definition pool : Mempool := <[Demo.payment_id := Demo.payment]> ∅.

Example submits : submit ∅ Demo.coins Demo.payment = Ok (pool, Demo.payment_id).
Proof. vm_decide. Qed.

Lemma coins_wf : utxos_wf Demo.coins.
Proof. vm_decide. Qed.

Lemma pool_ok : mempool_ok Demo.coins pool.
Proof.
  pose proof (submit_cases Demo.coins coins_wf ∅ Demo.payment Demo.payment_id
    (mempool_ok_empty _) ltac:(vm_decide) ltac:(vm_decide) ltac:(vm_decide)) as H.
  rewrite submits in H. destruct H as (_ & Hnew & f & Hf & Had).
  eapply admitted_ok; [apply mempool_ok_empty| | |exact Hf|exact Hnew|exact Had]; vm_decide.
Qed.

End DemoPool.

Lemma submit_correct_witness :
  mempool_ok (C:=Toy.crypto) Demo.coins DemoPool.pool.
Proof.
  pose proof (submit_correct (C:=Toy.crypto) Demo.coins ∅ Demo.payment Demo.payment_id
    DemoPool.coins_wf (mempool_ok_empty _) ltac:(vm_decide) ltac:(vm_decide)) as H.
  rewrite DemoPool.submits in H. destruct H as (_ & _ & _ & H & _). exact H.
Defined.

Lemma collect_valid_sound_witness :
  ∃ l, collect_valid (C:=Toy.crypto) DemoPool.pool Demo.coins 8 = Some l.
Proof.
  destruct (collect_valid_sound (C:=Toy.crypto) Demo.coins DemoPool.pool 8
    DemoPool.coins_wf (mempool_keyed _ _ DemoPool.pool_ok) ltac:(vm_decide))
    as (sub & _ & _ & H & _).
  exists (sub.*2, sub.*1). exact H.
Defined.

Lemma collect_valid_complete_witness :
  ∃ l, collect_valid (C:=Toy.crypto) DemoPool.pool Demo.coins 8 = Some (l.*2, l.*1)
       ∧ l ≡ₚ map_to_list DemoPool.pool.
Proof.
  apply (collect_valid_complete (C:=Toy.crypto) Demo.coins DemoPool.pool 8
    DemoPool.coins_wf DemoPool.pool_ok); [|vm_decide].
  intros id n [tx Htx]. unfold DemoPool.pool in Htx.
  apply lookup_insert_Some in Htx as [[<- _]|[_ Htx]]; [|by rewrite lookup_empty in Htx].
  unfold Demo.coins. rewrite lookup_insert_ne; [apply lookup_empty|].
  intros [= Heq]; discriminate.
Defined.

Lemma prune_invalid_restores_witness :
  ∃ mp', prune_invalid (C:=Toy.crypto) DemoPool.pool Demo.coins_after = Some mp'
         ∧ mempool_ok (C:=Toy.crypto) Demo.coins_after mp'.
Proof.
  destruct (prune_invalid_restores (C:=Toy.crypto) Demo.coins Demo.coins_after DemoPool.pool
    ltac:(vm_decide) DemoPool.pool_ok) as (mp' & H1 & H2 & _).
  exists mp'. split; [exact H1|exact H2].
Defined.

Lemma submit_admits_inputless_witness :
  submit (C:=Toy.crypto) ∅ Demo.coins Demo.coinbase
  = Ok (<[Demo.coinbase_id := Demo.coinbase]> ∅, Demo.coinbase_id).
Proof.
  apply (submit_admits_inputless (C:=Toy.crypto)); [exact DemoPool.coins_wf
    |apply mempool_ok_empty|vm_decide|vm_decide|reflexivity|discriminate|reflexivity
    |apply lookup_empty|vm_decide].
Defined.
