(* ===== verification/Wire.v ===== *)
(** * wire.rs: peer messages and their newline-delimited framing

    [serde_json] is third party: the class [SerdeJson] holds its two entry
    points at a message type, [SerdeJsonLaws] what the framing relies on: that a
    serialized value decodes to itself and that the compact serialization
    contains no newline. *)

From S2P Require Import Prelude Bytes Types.

Definition PROTOCOL_VERSION : Z := 1.

Record TipSummary := { tip : option BlockHash; tip_height : option Z }.

Record HelloMessage := {
  network : string;
  hello_version : Z;
  hello_node_name : option string;
  advertised_addr : option string;
  hello_tip : option BlockHash;
  hello_height : option Z
}.

Record MinePendingRequest := {
  reward : Z;
  miner_public_key : bytes;
  uniqueness : Z;
  request_bits : Z;
  max_transactions : Z
}.

Record MinedBlock := { mined_hash : BlockHash }.

Inductive WireMessage :=
| WHello (h : HelloMessage)
| WGetTip
| WTip (t : TipSummary)
| WAnnounceTip (t : TipSummary)
| WAnnounceTx (tx : Transaction)
| WAnnounceBlock (b : Block)
| WGetBlock (h : BlockHash)
| WBlock (b : option Block)
| WMinePending (r : MinePendingRequest)
| WMinedBlock (m : MinedBlock).

#[export] Instance TipSummary_eq_dec : EqDecision TipSummary.
Proof. solve_decision. Defined.
#[export] Instance HelloMessage_eq_dec : EqDecision HelloMessage.
Proof. solve_decision. Defined.
#[export] Instance MinePendingRequest_eq_dec : EqDecision MinePendingRequest.
Proof. solve_decision. Defined.
#[export] Instance MinedBlock_eq_dec : EqDecision MinedBlock.
Proof. solve_decision. Defined.
#[export] Instance WireMessage_eq_dec : EqDecision WireMessage.
Proof. solve_decision. Defined.

#[export] Program Instance TipSummary_countable : Countable TipSummary :=
  inj_countable' (λ t, (tip t, tip_height t)) (λ p, {| tip := p.1; tip_height := p.2 |}) _.
Next Obligation. by intros []. Qed.
#[export] Program Instance HelloMessage_countable : Countable HelloMessage :=
  inj_countable'
    (λ h, (network h, hello_version h, hello_node_name h, advertised_addr h, hello_tip h,
           hello_height h))
    (λ '(n, v, m, a, t, i), {| network := n; hello_version := v; hello_node_name := m;
       advertised_addr := a; hello_tip := t; hello_height := i |}) _.
Next Obligation. by intros []. Qed.
#[export] Program Instance MinePendingRequest_countable : Countable MinePendingRequest :=
  inj_countable'
    (λ r, (reward r, miner_public_key r, uniqueness r, request_bits r, max_transactions r))
    (λ '(w, k, u, b, m), {| reward := w; miner_public_key := k; uniqueness := u;
       request_bits := b; max_transactions := m |}) _.
Next Obligation. by intros []. Qed.

Definition WireMessage_repr (m : WireMessage) :
    HelloMessage + unit + TipSummary + TipSummary + Transaction + Block + BlockHash + option Block
    + MinePendingRequest + BlockHash :=
  match m with
  | WHello h => inl (inl (inl (inl (inl (inl (inl (inl (inl h))))))))
  | WGetTip => inl (inl (inl (inl (inl (inl (inl (inl (inr ()))))))))
  | WTip t => inl (inl (inl (inl (inl (inl (inl (inr t)))))))
  | WAnnounceTip t => inl (inl (inl (inl (inl (inl (inr t))))))
  | WAnnounceTx t => inl (inl (inl (inl (inl (inr t)))))
  | WAnnounceBlock b => inl (inl (inl (inl (inr b))))
  | WGetBlock h => inl (inl (inl (inr h)))
  | WBlock b => inl (inl (inr b))
  | WMinePending r => inl (inr r)
  | WMinedBlock m => inr (mined_hash m)
  end.
#[export] Program Instance WireMessage_countable : Countable WireMessage :=
  inj_countable' WireMessage_repr
    (λ r, match r with
      | inl (inl (inl (inl (inl (inl (inl (inl (inl h)))))))) => WHello h
      | inl (inl (inl (inl (inl (inl (inl (inl (inr _)))))))) => WGetTip
      | inl (inl (inl (inl (inl (inl (inl (inr t))))))) => WTip t
      | inl (inl (inl (inl (inl (inl (inr t)))))) => WAnnounceTip t
      | inl (inl (inl (inl (inl (inr t))))) => WAnnounceTx t
      | inl (inl (inl (inl (inr b)))) => WAnnounceBlock b
      | inl (inl (inl (inr h))) => WGetBlock h
      | inl (inl (inr b)) => WBlock b
      | inl (inr r) => WMinePending r
      | inr h => WMinedBlock {| mined_hash := h |}
      end) _.
Next Obligation. by intros [| | | | | | | | |[]]. Qed.

(** ** Framing *)

(** Text as the list of its characters; [nl] is ['\n']. *)
Definition nl : Ascii.ascii := Ascii.ascii_of_nat 10.

Class SerdeJson (A : Type) := {
  json_error : Type;
  to_string : A → result json_error (list Ascii.ascii);
  from_str : list Ascii.ascii → result json_error A
}.
Arguments json_error A {_}.

Class SerdeJsonLaws (A : Type) (J : SerdeJson A) : Prop := {
  to_string_Ok a : ∃ s, to_string a = Ok s;
  from_to_string a s : to_string a = Ok s → from_str s = Ok a;
  to_string_no_newline a s : to_string a = Ok s → nl ∉ s
}.

(** [str::trim_end_matches('\n')]. *)
Fixpoint trim_newlines (rev_line : list Ascii.ascii) : list Ascii.ascii :=
  match rev_line with
  | c :: l => if bool_decide (c = nl) then trim_newlines l else rev_line
  | [] => []
  end.

Definition trim_end_newlines (line : list Ascii.ascii) : list Ascii.ascii :=
  reverse (trim_newlines (reverse line)).

Section framing.
Context {A : Type} `{J : SerdeJson A}.

(** [WireMessage::to_json_line]. *)
Definition to_json_line (m : A) : result (json_error A) (list Ascii.ascii) :=
  json ← to_string m;
  Ok (json ++ [nl]).

(** [WireMessage::from_json_line]. *)
Definition from_json_line (line : list Ascii.ascii) : result (json_error A) A :=
  from_str (trim_end_newlines line).

End framing.

(** [BufRead::read_line]: the characters up to and including the first
    newline, or all of them at the end of the stream. *)
Fixpoint read_line (input : list Ascii.ascii) : list Ascii.ascii * list Ascii.ascii :=
  match input with
  | [] => ([], [])
  | c :: input =>
      if bool_decide (c = nl) then ([c], input)
      else let '(line, rest) := read_line input in (c :: line, rest)
  end.

Lemma read_line_app s rest : nl ∉ s → read_line (s ++ nl :: rest) = (s ++ [nl], rest).
Proof.
  induction s as [|c s IH]; intros Hs; cbn.
  - by rewrite bool_decide_eq_true_2.
  - rewrite bool_decide_eq_false_2 by set_solver. rewrite IH by set_solver. done.
Qed.

Lemma trim_newlines_id s : nl ∉ s → trim_newlines s = s.
Proof.
  destruct s as [|c s]; [done|]. intros Hs. cbn. by rewrite bool_decide_eq_false_2 by set_solver.
Qed.

Lemma trim_end_newlines_snoc s : nl ∉ s → trim_end_newlines (s ++ [nl]) = s.
Proof.
  intros Hs. unfold trim_end_newlines. rewrite reverse_snoc. cbn.
  rewrite bool_decide_eq_true_2 by done.
  rewrite trim_newlines_id; [apply reverse_involutive|]. by rewrite elem_of_reverse.
Qed.

Section framing_claims.
Context {A : Type} `{J : SerdeJson A} `{L : !SerdeJsonLaws A J}.

Lemma from_to_json_line m line : to_json_line m = Ok line → from_json_line line = Ok m.
Proof using L.
  unfold to_json_line. intros H. inv_result. unfold from_json_line.
  rewrite trim_end_newlines_snoc by (by eapply to_string_no_newline).
  by apply from_to_string.
Qed.

(** Framing round trip: whatever messages are written one after the other
    on a connection, the reader that splits the byte stream at newlines gets each line back with the
    rest of the stream intact, and each line decodes to the message that was sent. *)
Theorem json_line_roundtrip (m : A) (rest : list Ascii.ascii) :
  ∃ line, to_json_line m = Ok line
  ∧ read_line (line ++ rest) = (line, rest)
  ∧ from_json_line line = Ok m.
Proof using L.
  destruct (to_string_Ok m) as [s Hs]. exists (s ++ [nl]).
  assert (to_json_line m = Ok (s ++ [nl])) as Hl by (unfold to_json_line; by rewrite Hs).
  split_and!; [done| |by apply from_to_json_line].
  rewrite <-app_assoc. apply read_line_app. by eapply to_string_no_newline.
Qed.

End framing_claims.

(** ** Witnesses *)

(** A codec of any countable type, for concrete runs: the binary digits of the
    value's code, least significant first. *)
Module DemoJson.

Definition zero : Ascii.ascii := Ascii.ascii_of_nat 48.
Definition one : Ascii.ascii := Ascii.ascii_of_nat 49.

Fixpoint print (p : positive) : list Ascii.ascii :=
  match p with
  | xH => []
  | xO p => zero :: print p
  | xI p => one :: print p
  end.

Fixpoint parse (s : list Ascii.ascii) : positive :=
  match s with
  | [] => xH
  | c :: s => if bool_decide (c = one) then xI (parse s) else xO (parse s)
  end.

Definition json (A : Type) `{Countable A} : SerdeJson A := {|
  json_error := unit;
  to_string := λ a, Ok (print (encode a));
  from_str := λ s, ok_or (decode (parse s)) ()
|}.

Lemma parse_print p : parse (print p) = p.
Proof. induction p as [p IH|p IH|]; cbn; rewrite ?IH; done. Qed.

Lemma json_laws (A : Type) `{Countable A} : SerdeJsonLaws A (json A).
Proof.
  split; cbn.
  - intros a. by eexists.
  - intros a s [= <-]. by rewrite parse_print, decode_encode.
  - intros a s [= <-]. generalize (encode a). clear.
    intros p. induction p as [p IH|p IH|]; cbn.
    + apply not_elem_of_cons. split; [done|exact IH].
    + apply not_elem_of_cons. split; [done|exact IH].
    + set_solver.
Qed.

End DemoJson.

Lemma json_line_roundtrip_witness :
  ∃ line, to_json_line (J:=DemoJson.json WireMessage) WGetTip = Ok line
    ∧ from_json_line (J:=DemoJson.json WireMessage) line = Ok WGetTip.
Proof.
  destruct (json_line_roundtrip (J:=DemoJson.json WireMessage)
    (L:=DemoJson.json_laws WireMessage) WGetTip []) as (line & H1 & _ & H2).
  exists line. split; [exact H1|exact H2].
Defined.
