(* ===== verification/Admin.v ===== *)
(** * admin.rs: the local admin protocol and its one-shot client

    The socket is a parameter: [connect], [write_line] and [read_line_io] are the
    three I/O calls the client makes, on an abstract stream. *)

From S2P Require Import Prelude Bytes Types Wire.

Record StatusSummary := {
  status_tip : option BlockHash;
  status_height : option Z;
  status_branch_count : nat;
  mempool_size : nat;
  peer_count : nat;
  mining_enabled : bool
}.

Record BalanceSummary := { amount : Z }.

Record BootstrapSummary := { blocks_mined : Z; last_block_hash : option BlockHash }.

Inductive AdminRequest :=
| GetStatus
| GetBalance (public_key : bytes)
| Bootstrap (public_key : bytes) (blocks : Z)
| SubmitTransaction (transaction : Transaction).

Inductive AdminResponse :=
| Status (s : StatusSummary)
| Balance (b : BalanceSummary)
| Bootstrapped (b : BootstrapSummary)
| Submitted (id : Txid)
| Error (message : string).

#[export] Instance StatusSummary_eq_dec : EqDecision StatusSummary.
Proof. solve_decision. Defined.
#[export] Instance BalanceSummary_eq_dec : EqDecision BalanceSummary.
Proof. solve_decision. Defined.
#[export] Instance BootstrapSummary_eq_dec : EqDecision BootstrapSummary.
Proof. solve_decision. Defined.
#[export] Instance AdminRequest_eq_dec : EqDecision AdminRequest.
Proof. solve_decision. Defined.
#[export] Instance AdminResponse_eq_dec : EqDecision AdminResponse.
Proof. solve_decision. Defined.

Section client.
Context {stream io_error : Type}.
Context `{JQ : SerdeJson AdminRequest} `{JR : SerdeJson AdminResponse}.
Context (connect : string → result io_error stream).
Context (write_all : stream → list Ascii.ascii → result io_error stream).
Context (read_line_io : stream → result io_error (list Ascii.ascii)).
Context (invalid_request : json_error AdminRequest → io_error).
Context (invalid_response : json_error AdminResponse → io_error).
Context (unexpected_eof : io_error).

Inductive AdminError :=
| Connect (e : io_error)
| Send (e : io_error)
| Receive (e : io_error)
| Server (message : string)
| UnexpectedResponse (r : AdminResponse).

Definition send_request (s : stream) (request : AdminRequest) : result io_error stream :=
  line ← map_err invalid_request (to_string request);
  write_all s (line ++ [nl]).

(** [receive_response] with [receive_response_from_reader] inlined: a read of
    zero bytes is the end of the stream. *)
Definition receive_response (s : stream) : result io_error AdminResponse :=
  line ← read_line_io s;
  match line with
  | [] => Err unexpected_eof
  | _ :: _ => map_err invalid_response (from_str (trim_end_newlines line))
  end.

Definition request_status (admin_addr : string) : result AdminError StatusSummary :=
  s ← map_err Connect (connect admin_addr);
  s ← map_err Send (send_request s GetStatus);
  response ← map_err Receive (receive_response s);
  match response with
  | Status summary => Ok summary
  | Error message => Err (Server message)
  | other => Err (UnexpectedResponse other)
  end.

Definition request_balance (admin_addr : string) (public_key : bytes)
    : result AdminError BalanceSummary :=
  s ← map_err Connect (connect admin_addr);
  s ← map_err Send (send_request s (GetBalance public_key));
  response ← map_err Receive (receive_response s);
  match response with
  | Balance summary => Ok summary
  | Error message => Err (Server message)
  | other => Err (UnexpectedResponse other)
  end.

Definition submit_transaction (admin_addr : string) (transaction : Transaction)
    : result AdminError Txid :=
  s ← map_err Connect (connect admin_addr);
  s ← map_err Send (send_request s (SubmitTransaction transaction));
  response ← map_err Receive (receive_response s);
  match response with
  | Submitted id => Ok id
  | Error message => Err (Server message)
  | other => Err (UnexpectedResponse other)
  end.

Definition bootstrap_funds (admin_addr : string) (public_key : bytes) (blocks : Z)
    : result AdminError BootstrapSummary :=
  s ← map_err Connect (connect admin_addr);
  s ← map_err Send (send_request s (Bootstrap public_key blocks));
  response ← map_err Receive (receive_response s);
  match response with
  | Bootstrapped summary => Ok summary
  | Error message => Err (Server message)
  | other => Err (UnexpectedResponse other)
  end.

End client.
