(* ===== verification/Mining.v ===== *)
(** * mining.rs: candidate assembly, nonce search and the miner worker

    The nonce search of the source is an unbounded loop; the model gives it
    fuel, one unit per candidate tried, and [OutOfFuel] for "still searching".
    The nonce wraps at 2^32, so 2^32 units see every nonce. *)

From S2P Require Import Prelude Bytes Crypto Types State Consensus Wire.

Inductive fuel_error := OutOfFuel.

#[export] Instance fuel_error_eq_dec : EqDecision fuel_error.
Proof. solve_decision. Defined.

Section mining.
Context `{C : Crypto}.

(** ** Configuration *)

Record MiningConfig := {
  miner_verifying_key : VerifyingKey;
  interval : Z;
  config_max_transactions : Z;
  config_bits : Z;
  next_uniqueness : Z
}.

Definition MiningConfig_new (vk : VerifyingKey) : MiningConfig := {|
  miner_verifying_key := vk;
  interval := 250;
  config_max_transactions := 100;
  config_bits := 0x207fffff;
  next_uniqueness := 0
|}.

Definition with_interval (c : MiningConfig) (i : Z) : MiningConfig := {|
  miner_verifying_key := miner_verifying_key c; interval := i;
  config_max_transactions := config_max_transactions c; config_bits := config_bits c;
  next_uniqueness := next_uniqueness c
|}.

Definition with_max_transactions (c : MiningConfig) (m : Z) : MiningConfig := {|
  miner_verifying_key := miner_verifying_key c; interval := interval c;
  config_max_transactions := m; config_bits := config_bits c;
  next_uniqueness := next_uniqueness c
|}.

Definition with_bits (c : MiningConfig) (b : Z) : MiningConfig := {|
  miner_verifying_key := miner_verifying_key c; interval := interval c;
  config_max_transactions := config_max_transactions c; config_bits := b;
  next_uniqueness := next_uniqueness c
|}.

Definition next_request (c : MiningConfig) : MiningConfig * MinePendingRequest :=
  let request := {|
    reward := BLOCK_SUBSIDY;
    miner_public_key := verifying_key_bytes (miner_verifying_key c);
    uniqueness := next_uniqueness c;
    request_bits := config_bits c;
    max_transactions := config_max_transactions c
  |} in
  ({| miner_verifying_key := miner_verifying_key c; interval := interval c;
      config_max_transactions := config_max_transactions c; config_bits := config_bits c;
      next_uniqueness := wrapping_add 32 (next_uniqueness c) 1 |}, request).

(** ** Candidates *)

Definition coinbase_transaction (reward : Z) (vk : VerifyingKey) (uniq : Z) : Transaction := {|
  version := 1;
  inputs := [];
  outputs := [{| value := reward; locking_data := verifying_key_bytes vk |}];
  lock_time := uniq
|}.

Definition with_merkle_root (b : Block) (root : bytes) : Block := {|
  header := {| header_version := header_version (header b);
               prev_blockhash := prev_blockhash (header b);
               header_merkle_root := root; time := time (header b);
               bits := bits (header b); nonce := nonce (header b) |};
  transactions := transactions b
|}.

Definition with_nonce (b : Block) (n : Z) : Block := {|
  header := {| header_version := header_version (header b);
               prev_blockhash := prev_blockhash (header b);
               header_merkle_root := header_merkle_root (header b); time := time (header b);
               bits := bits (header b); nonce := n |};
  transactions := transactions b
|}.

Definition build_candidate (prev : BlockHash) (reward : Z) (vk : VerifyingKey)
    (uniq bits : Z) (txs : list Transaction) : may_panic Block :=
  let block := {|
    header := {| header_version := 1; prev_blockhash := prev;
                 header_merkle_root := replicate 32 x00; time := 1;
                 bits := bits; nonce := 0 |};
    transactions := coinbase_transaction reward vk uniq :: txs
  |} in
  root ← merkle_root block;
  Some (with_merkle_root block root).

(** [candidate.header.nonce = candidate.header.nonce.wrapping_add(1)]. *)
Definition bump_nonce (b : Block) : Block := with_nonce b (wrapping_add 32 (nonce (header b)) 1).

Fixpoint solve_candidate (fuel : nat) (candidate : Block) : result fuel_error Block :=
  match fuel with
  | O => Err OutOfFuel
  | S fuel =>
      match validate_block candidate with
      | Ok _ => Ok candidate
      | Err _ => solve_candidate fuel (bump_nonce candidate)
      | Panic => Panic
      end
  end.

Definition mine_block (fuel : nat) (prev : BlockHash) (reward : Z) (vk : VerifyingKey)
    (uniq bits : Z) (txs : list Transaction) : result fuel_error Block :=
  candidate ← expect (build_candidate prev reward vk uniq bits txs);
  solve_candidate fuel candidate.

(** ** Lemmas *)

Definition nth_nonce (b : Block) (j : nat) : Block :=
  with_nonce b ((nonce (header b) + Z.of_nat j) mod 2 ^ 32).

Lemma nth_nonce_S b j : nth_nonce (bump_nonce b) j = nth_nonce b (S j).
Proof.
  unfold nth_nonce, bump_nonce, with_nonce, wrapping_add; cbn [header nonce transactions
    header_version prev_blockhash header_merkle_root time bits].
  do 2 f_equal. rewrite Z.add_mod_idemp_l by done. f_equal. lia.
Qed.

Lemma with_nonce_id b : with_nonce b (nonce (header b)) = b.
Proof. by destruct b as [[] ?]. Qed.

Lemma nth_nonce_0 b : u32 (nonce (header b)) → nth_nonce b 0 = b.
Proof.
  intros H. unfold nth_nonce. rewrite Z.add_0_r, Z.mod_small by done. apply with_nonce_id.
Qed.

Lemma nth_nonce_surj b n :
  u32 n → ∃ j, Z.of_nat j < 2 ^ 32 ∧ nth_nonce b j = with_nonce b n.
Proof.
  intros Hn. exists (Z.to_nat ((n - nonce (header b)) mod 2 ^ 32)).
  pose proof (Z.mod_pos_bound (n - nonce (header b)) (2 ^ 32) ltac:(done)).
  rewrite Z2Nat.id by lia. split; [lia|]. unfold nth_nonce. rewrite Z2Nat.id by lia.
  rewrite Z.add_mod_idemp_r by done. f_equal.
  replace (nonce (header b) + (n - nonce (header b))) with n by lia. by apply Z.mod_small.
Qed.

Lemma bump_nonce_u32 b : u32 (nonce (header (bump_nonce b))).
Proof. by apply uint_wrapping_add. Qed.

Lemma solve_candidate_Ok fuel c b :
  u32 (nonce (header c)) → solve_candidate fuel c = Ok b →
  validate_block b = Ok () ∧ ∃ n, u32 n ∧ b = with_nonce c n.
Proof.
  revert c. induction fuel as [|fuel IH]; intros c Hn; cbn; [done|].
  destruct (validate_block c) as [[]|e|] eqn:Hv; [|intros Hs|done].
  - intros [= <-]. split; [done|]. exists (nonce (header c)). by rewrite with_nonce_id.
  - apply IH in Hs as [? (n & ? & ->)]; [eauto|apply bump_nonce_u32].
Qed.

Lemma solve_candidate_found c j :
  Block_encodable c → u32 (nonce (header c)) → validate_block (nth_nonce c j) = Ok () →
  ∃ fuel b, (fuel ≤ S j)%nat ∧ solve_candidate fuel c = Ok b.
Proof.
  revert c. induction j as [|j IH]; intros c He Hn Hj.
  - rewrite nth_nonce_0 in Hj by done. exists 1%nat, c. cbn. by rewrite Hj.
  - destruct (validate_block c) as [[]|e|] eqn:Hv.
    + exists 1%nat, c. cbn. rewrite Hv. split; [lia|done].
    + rewrite <-nth_nonce_S in Hj.
      destruct (IH (bump_nonce c)) as (fuel & b & ? & ?); [done|apply bump_nonce_u32|done|].
      exists (S fuel), b. cbn. rewrite Hv. split; [lia|done].
    + by destruct (validate_block_no_panic c He).
Qed.

Lemma solve_candidate_none fuel c :
  Block_encodable c → u32 (nonce (header c)) →
  (∀ n, u32 n → validate_block (with_nonce c n) ≠ Ok ()) →
  solve_candidate fuel c = Err OutOfFuel.
Proof.
  revert c. induction fuel as [|fuel IH]; intros c He Hn Hno; cbn; [done|].
  destruct (validate_block c) as [[]|e|] eqn:Hv.
  - destruct (Hno (nonce (header c))); [done|]. by rewrite with_nonce_id.
  - apply IH; [done|apply bump_nonce_u32|done].
  - by destruct (validate_block_no_panic c He).
Qed.

Lemma solve_candidate_mono f1 f2 c b :
  solve_candidate f1 c = Ok b → (f1 ≤ f2)%nat → solve_candidate f2 c = Ok b.
Proof.
  revert f2 c. induction f1 as [|f1 IH]; intros f2 c; cbn; [done|]. intros Hs Hle.
  destruct f2 as [|f2]; [lia|]. cbn. destruct (validate_block c); [done| |done].
  apply IH; [done|lia].
Qed.

Lemma merkle_root_header b1 b2 :
  transactions b1 = transactions b2 → merkle_root b1 = merkle_root b2.
Proof. intros H. unfold merkle_root. by rewrite H. Qed.

Lemma build_candidate_Some prev r vk u bts txs c :
  build_candidate prev r vk u bts txs = Some c →
  transactions c = coinbase_transaction r vk u :: txs
  ∧ prev_blockhash (header c) = prev ∧ bits (header c) = bts ∧ nonce (header c) = 0
  ∧ merkle_root c = Some (header_merkle_root (header c)).
Proof.
  unfold build_candidate. intros (root & Hr & [= <-])%bind_Some. cbn.
  by split_and!.
Qed.

Lemma coinbase_transaction_encodable `{!CryptoLaws C} r vk u :
  encodable true (coinbase_transaction r vk u).
Proof.
  split_and!; [done|done|by intros _; constructor|]. repeat constructor. cbn.
  unfold fits_u32, verifying_key_bytes. by rewrite VerifyingKey_to_bytes_length.
Qed.

Lemma build_candidate_total `{!CryptoLaws C} prev r vk u bts txs :
  Forall (encodable true) txs →
  ∃ c, build_candidate prev r vk u bts txs = Some c ∧ Block_encodable c.
Proof.
  intros Htxs. unfold build_candidate.
  match goal with |- context [merkle_root ?b] => destruct (merkle_root_total b) as [root Hr] end.
  { constructor; [apply coinbase_transaction_encodable|done]. }
  rewrite Hr. cbn. eexists. split; [done|].
  constructor; [apply coinbase_transaction_encodable|done].
Qed.

(** What mining returns is within machine ranges and encodable. *)
Lemma mine_block_wf `{!CryptoLaws C} fuel prev r vk u bts txs b :
  BlockHash_wf prev → u64 r → u32 u → u32 bts →
  Forall Transaction_wf txs → Forall (encodable true) txs →
  mine_block fuel prev r vk u bts txs = Ok b →
  Block_wf b ∧ Block_encodable b ∧ prev_blockhash (header b) = prev.
Proof.
  intros Hp Hr Hu Hb Hw He Hm.
  destruct (build_candidate_total prev r vk u bts txs He) as (c & Hc & Hce).
  destruct (build_candidate_Some _ _ _ _ _ _ _ Hc) as (Htx & Hprev & Hbits & Hn & Hroot).
  unfold mine_block in Hm. rewrite Hc in Hm. cbn in Hm.
  apply solve_candidate_Ok in Hm as (_ & n & Hnn & ->); [|by rewrite Hn].
  assert (header_version (header c) = 1 ∧ time (header c) = 1) as [Hv Ht].
  { unfold build_candidate in Hc. by apply bind_Some in Hc as (? & _ & [= <-]). }
  split_and!; [|done|done]. split.
  - split_and!; cbn; [by rewrite Hv|by rewrite Hprev|by eapply merkle_root_length|by rewrite Ht
      |by rewrite Hbits|done].
  - cbn. rewrite Htx. constructor; [|done]. split_and!; cbn; [done|done|constructor|].
    repeat constructor; apply Hr.
Qed.

(** A header-independent defect survives every nonce. *)
Lemma validate_block_coinbase_defect c n first rest :
  transactions c = first :: rest → existsb is_coinbase rest = true →
  validate_block (with_nonce c n) ≠ Ok ().
Proof.
  intros Htx Hex. unfold validate_block, with_nonce; cbn [transactions]. rewrite Htx.
  destruct (validate_header_pow _); cbn; [|done..]. destruct (is_coinbase first); cbn; [|done].
  by rewrite Hex.
Qed.

Lemma validate_block_bits_defect c n :
  from_compact (bits (header c)) = None → validate_block (with_nonce c n) ≠ Ok ().
Proof.
  intros Hb. unfold validate_block, validate_header_pow, with_nonce; cbn [header bits].
  by rewrite Hb.
Qed.

End mining.

(** ** The miner worker

    The worker thread and the thread that owns the [Miner] handle share the
    generation counter and the command channel.  A handle operation is two
    atomic steps, the [fetch_add] and the [send], and the worker can run between them. *)

Inductive MinerCommand :=
| Submit (generation : Z) (candidate : Block)
| Cancel (generation : Z)
| Stop.

(** Where the worker is in [run_miner_worker]: at the head of the outer loop,
    about to load the generation, past that check, or in the
    [try_recv] loop with its [replace_current]. *)
Inductive worker_pc := Top | Check | Work | Drain (replace_current : bool) | Stopped.

Record MinerSys := {
  generation : Z;
  queue : list MinerCommand;
  sending : option MinerCommand;
  current : option (Z * Block);
  pc : worker_pc;
  mined : list Block;
  (** Every command issued so far, in order (history). *)
  log : list MinerCommand
}.

Definition CANCEL_CHECK_INTERVAL : Z := 4096.

(** [Miner::start]. *)
Definition miner_start : MinerSys := {|
  generation := 0; queue := []; sending := None; current := None; pc := Top;
  mined := []; log := []
|}.

(** The first half of [Miner::submit], [cancel] and [stop]: the [fetch_add] and the
    command it is sent with. *)
Definition begin_command (s : MinerSys) (mk : Z → MinerCommand) : MinerSys :=
  let g := wrapping_add 64 (generation s) 1 in
  {| generation := g; queue := queue s; sending := Some (mk g); current := current s;
     pc := pc s; mined := mined s; log := log s ++ [mk g] |}.

Definition Miner_submit (s : MinerSys) (candidate : Block) : MinerSys :=
  begin_command s (λ g, Submit g candidate).
Definition Miner_cancel (s : MinerSys) : MinerSys := begin_command s Cancel.
Definition Miner_stop (s : MinerSys) : MinerSys := begin_command s (λ _, Stop).

(** The second half: [command_tx.send]; a stopped worker has dropped the
    receiver and the command is lost. *)
Definition Miner_send (s : MinerSys) : MinerSys :=
  match sending s with
  | None => s
  | Some cmd =>
      {| generation := generation s;
         queue := match pc s with Stopped => queue s | _ => queue s ++ [cmd] end;
         sending := None; current := current s; pc := pc s; mined := mined s; log := log s |}
  end.

Definition goto (s : MinerSys) (q : list MinerCommand) (c : option (Z * Block))
    (p : worker_pc) (m : list Block) : MinerSys :=
  {| generation := generation s; queue := q; sending := sending s; current := c;
     pc := p; mined := m; log := log s |}.

Section worker.
Context `{C : Crypto}.

(** One atomic step of [run_miner_worker]; [None] when it is blocked in
    [recv] or has returned. *)
Definition worker_step (s : MinerSys) : option MinerSys :=
  match pc s with
  | Top =>
      match current s with
      | Some _ => Some (goto s (queue s) (current s) Check (mined s))
      | None =>
          match queue s with
          | [] => None
          | Submit g c :: q => Some (goto s q (Some (g, c)) Top (mined s))
          | Cancel _ :: q => Some (goto s q None Top (mined s))
          | Stop :: q => Some (goto s q None Stopped (mined s))
          end
      end
  | Check =>
      match current s with
      | None => None
      | Some (g, _) =>
          if bool_decide (generation s ≠ g)
          then Some (goto s (queue s) (current s) (Drain true) (mined s))
          else Some (goto s (queue s) (current s) Work (mined s))
      end
  | Work =>
      match current s with
      | None => None
      | Some (g, c) =>
          match validate_block c with
          | Ok _ => Some (goto s (queue s) None (Drain false) (mined s ++ [c]))
          | Err _ =>
              let c := bump_nonce c in
              let p := if bool_decide (nonce (header c) mod CANCEL_CHECK_INTERVAL = 0)
                       then Drain false else Check in
              Some (goto s (queue s) (Some (g, c)) p (mined s))
          | Panic => Some (goto s (queue s) (current s) Stopped (mined s))
          end
      end
  | Drain replace_current =>
      match queue s with
      | [] => Some (goto s [] (if replace_current then None else current s) Top (mined s))
      | Submit g c :: q => Some (goto s q (Some (g, c)) (Drain false) (mined s))
      | Cancel _ :: q => Some (goto s q None (Drain false) (mined s))
      | Stop :: q => Some (goto s q (current s) Stopped (mined s))
      end
  | Stopped => None
  end.

(** Interleavings of the two threads. *)
Inductive miner_step : MinerSys → MinerSys → Prop :=
| step_submit s c : sending s = None → miner_step s (Miner_submit s c)
| step_cancel s : sending s = None → miner_step s (Miner_cancel s)
| step_stop s : sending s = None → miner_step s (Miner_stop s)
| step_send s : miner_step s (Miner_send s)
| step_worker s s' : worker_step s = Some s' → miner_step s s'.

Inductive miner_reach : MinerSys → Prop :=
| miner_reach_start : miner_reach miner_start
| miner_reach_step s s' : miner_reach s → miner_step s s' → miner_reach s'.

(** A block obtained from a candidate that was submitted as generation [g]. *)
Definition from_submission (l : list MinerCommand) (g : Z) (b : Block) : Prop :=
  ∃ c0 n, Submit g c0 ∈ l ∧ b = with_nonce c0 n.

Record miner_inv (s : MinerSys) : Prop := {
  mi_generation : generation s = Z.of_nat (length (log s));
  mi_numbered i g c : log s !! i = Some (Submit g c) → g = Z.of_nat (S i);
  mi_queue cmd : cmd ∈ queue s → cmd ∈ log s;
  mi_sending cmd : sending s = Some cmd → cmd ∈ log s;
  mi_current g c : current s = Some (g, c) → from_submission (log s) g c;
  mi_mined b : b ∈ mined s → validate_block b = Ok () ∧ ∃ g, from_submission (log s) g b
}.

Lemma from_submission_mono l l' g b :
  from_submission l g b → from_submission (l ++ l') g b.
Proof. intros (c0 & n & ? & ?). exists c0, n. split; [set_solver|done]. Qed.

Lemma from_submission_bump l g c : from_submission l g c → from_submission l g (bump_nonce c).
Proof. intros (c0 & n & ? & ->). by exists c0, (wrapping_add 32 n 1). Qed.

Lemma from_submission_self l g c : Submit g c ∈ l → from_submission l g c.
Proof. intros. exists c, (nonce (header c)). by rewrite with_nonce_id. Qed.

Lemma miner_inv_start : miner_inv miner_start.
Proof. split; cbn; try done; set_solver. Qed.

Lemma miner_inv_begin s mk :
  miner_inv s → Z.of_nat (length (log s)) + 1 < 2 ^ 64 →
  (∀ g g' c, mk g = Submit g' c → g' = g) → miner_inv (begin_command s mk).
Proof.
  intros [Hg Hn Hq Hs Hc Hm] Hlt Hmk. unfold begin_command, wrapping_add.
  rewrite Hg, Z.mod_small by lia. split; cbn.
  - rewrite length_app. cbn. lia.
  - intros i g c Hi. apply lookup_app_Some in Hi as [Hi|[Hle Hi]]; [by eapply Hn|].
    apply list_lookup_singleton_Some in Hi as [Hi Heq]. apply Hmk in Heq. lia.
  - intros cmd ?%Hq. set_solver.
  - intros cmd [= <-]. set_solver.
  - intros g c ?%Hc. by apply from_submission_mono.
  - intros b [? [g ?]]%Hm. split; [done|]. exists g. by apply from_submission_mono.
Qed.

Lemma miner_inv_goto s q c p m :
  miner_inv s → (∀ cmd, cmd ∈ q → cmd ∈ queue s) →
  (∀ g b, c = Some (g, b) → from_submission (log s) g b) →
  (∀ b, b ∈ m → validate_block b = Ok () ∧ ∃ g, from_submission (log s) g b) →
  miner_inv (goto s q c p m).
Proof. intros [Hg Hn Hq Hs Hc Hm] ? ? ?. split; cbn; auto. Qed.

Lemma miner_inv_worker s s' : miner_inv s → worker_step s = Some s' → miner_inv s'.
Proof.
  intros Hinv Hstep. pose proof Hinv as [Hg Hn Hq Hs Hc Hm]. unfold worker_step in Hstep.
  destruct (pc s) as [| | |r|]; [| | | |done].
  - destruct (current s) as [[g c]|] eqn:Hcur.
    { simplify_eq. apply miner_inv_goto; auto. }
    destruct (queue s) as [|[g c|g|] q] eqn:Hqueue; [done|..]; simplify_eq;
      (apply miner_inv_goto; [done|rewrite Hqueue; set_solver| |done]); intros; simplify_eq.
    apply from_submission_self, Hq. set_solver.
  - destruct (current s) as [[g c]|] eqn:Hcur; [|done].
    case_bool_decide; simplify_eq; apply miner_inv_goto; auto.
  - destruct (current s) as [[g c]|] eqn:Hcur; [|done].
    destruct (validate_block c) as [[]|e|] eqn:Hv; simplify_eq; apply miner_inv_goto; auto.
    + intros; simplify_eq.
    + intros b [?|Hb%list_elem_of_singleton]%elem_of_app; [auto|]. subst b. eauto.
    + intros g' b [= <- <-]. by apply from_submission_bump, Hc.
  - destruct (queue s) as [|[g c|g|] q] eqn:Hqueue; simplify_eq;
      (apply miner_inv_goto; [done|rewrite Hqueue; set_solver| |done]).
    + destruct r; [by intros|auto].
    + intros g' b [= <- <-]. apply from_submission_self, Hq. set_solver.
    + by intros.
    + auto.
Qed.

Lemma miner_step_log s s' :
  miner_step s s' → (length (log s) ≤ length (log s'))%nat.
Proof.
  destruct 1; unfold Miner_submit, Miner_cancel, Miner_stop, begin_command, Miner_send; cbn;
    rewrite ?length_app; cbn; try lia; [by destruct (sending s)|].
  unfold worker_step in *. by repeat case_match; simplify_eq.
Qed.

Lemma miner_reach_inv s :
  miner_reach s → Z.of_nat (length (log s)) < 2 ^ 64 → miner_inv s.
Proof.
  induction 1 as [|s s' Hr IH Hstep]; intros Hlt; [apply miner_inv_start|].
  pose proof (miner_step_log s s' Hstep). specialize (IH ltac:(lia)).
  inv Hstep; [apply miner_inv_begin..| |by eapply miner_inv_worker]; try done; try naive_solver;
    try (cbn in Hlt; rewrite length_app in Hlt; cbn in Hlt; lia).
  unfold Miner_send. destruct (sending s) as [cmd|] eqn:Hsend; [|done].
  destruct IH as [Hg Hn Hq Hs Hc Hm]. split; cbn; auto; [|done].
  intros cmd'. destruct (pc s); set_solver.
Qed.

End worker.

(** ** Theorems *)

Section claims.
Context `{C : Crypto}.

(** C24: The nonce search decides solvability: on an encodable candidate it
    only returns validated blocks that differ from the candidate in the nonce;
    it returns within 2^32 attempts exactly when some nonce works; and when
    none does it never returns. *)
Theorem solve_candidate_correct (c : Block) :
  Block_encodable c → u32 (nonce (header c)) →
  (∀ fuel b, solve_candidate fuel c = Ok b →
     validate_block b = Ok () ∧ ∃ n, u32 n ∧ b = with_nonce c n)
  ∧ ((∃ n, u32 n ∧ validate_block (with_nonce c n) = Ok ()) ↔
     ∃ fuel b, Z.of_nat fuel ≤ 2 ^ 32 ∧ solve_candidate fuel c = Ok b)
  ∧ ((∀ n, u32 n → validate_block (with_nonce c n) ≠ Ok ()) →
     ∀ fuel, solve_candidate fuel c = Err OutOfFuel).
Proof.
  intros He Hn. split_and!; [intros fuel b; by apply solve_candidate_Ok| |].
  - split.
    + intros (n & Hu & Hv). destruct (nth_nonce_surj c n Hu) as (j & Hj & Heq).
      rewrite <-Heq in Hv. destruct (solve_candidate_found c j He Hn Hv) as (fuel & b & ? & ?).
      exists fuel, b. split; [lia|done].
    + intros (fuel & b & _ & Hs). apply solve_candidate_Ok in Hs as (Hv & n & Hu & ->); eauto.
  - intros Hno fuel. by apply solve_candidate_none.
Qed.

(** Mining produces valid blocks: assembling non-coinbase transactions
    always succeeds, and if any nonce meets the target the search returns, within 2^32
    attempts, a block that satisfies every context-free rule, extends [prev] and holds
    the coinbase followed by the given transactions. *)
Theorem mine_block_correct `{!CryptoLaws C} prev r vk u bts txs t :
  Forall (encodable true) txs → Forall (λ tx, is_coinbase tx = false) txs →
  u32 bts → from_compact bts = Some t →
  ∃ c, build_candidate prev r vk u bts txs = Some c
  ∧ ((∃ n, u32 n ∧ is_met_by t (header_hash (header (with_nonce c n))) = true) →
     ∃ fuel b, Z.of_nat fuel ≤ 2 ^ 32 ∧ mine_block fuel prev r vk u bts txs = Ok b
     ∧ block_valid b ∧ prev_blockhash (header b) = prev
     ∧ transactions b = coinbase_transaction r vk u :: txs).
Proof.
  intros Henc Hcb Hb Ht. destruct (build_candidate_total prev r vk u bts txs Henc) as (c & Hc & He).
  exists c. split; [done|]. intros (n & Hn & Hmet).
  destruct (build_candidate_Some _ _ _ _ _ _ _ Hc) as (Htx & Hprev & Hbits & Hnonce & Hroot).
  assert (validate_block (with_nonce c n) = Ok ()) as Hv.
  { unfold validate_block, validate_header_pow.
    change (bits (header (with_nonce c n))) with (bits (header c)).
    change (transactions (with_nonce c n)) with (transactions c).
    rewrite Hbits, Ht. cbn [ok_or mbind result_bind]. rewrite Hmet, Htx. cbn [is_coinbase inputs coinbase_transaction negb].
    rewrite (proj2 (existsb_coinbase_false txs) Hcb).
    rewrite (merkle_root_header (with_nonce c n) c) by done. rewrite Hroot. cbn.
    by rewrite bool_decide_eq_false_2 by (intros []; done). }
  assert (u32 (nonce (header c))) as Hu by by rewrite Hnonce.
  destruct (nth_nonce_surj c n Hn) as (j & Hj & Heq). rewrite <-Heq in Hv.
  destruct (solve_candidate_found c j He Hu Hv) as (fuel & b & Hf & Hs).
  exists fuel, b. split; [lia|]. unfold mine_block. rewrite Hc. cbn. split; [done|].
  apply solve_candidate_Ok in Hs as (Hvb & m & _ & ->); [|done].
  split_and!; [|done|done]. apply validate_block_Ok; [cbn; by rewrite Hbits|done].
Qed.

(** The search has no way out of a defect that no nonce repairs: with an
    undecodable target, or with a second input-less transaction among the ones to include,
    [mine_block] never returns. *)
Theorem mine_block_diverges `{!CryptoLaws C} prev r vk u bts txs :
  Forall (encodable true) txs →
  from_compact bts = None ∨ existsb is_coinbase txs = true →
  ∀ fuel, mine_block fuel prev r vk u bts txs = Err OutOfFuel.
Proof.
  intros Henc Hdef fuel.
  destruct (build_candidate_total prev r vk u bts txs Henc) as (c & Hc & He).
  destruct (build_candidate_Some _ _ _ _ _ _ _ Hc) as (Htx & _ & Hbits & Hnonce & _).
  unfold mine_block. rewrite Hc. cbn. apply solve_candidate_none; [done|by rewrite Hnonce|].
  intros n _. destruct Hdef as [Hd|Hd].
  - apply validate_block_bits_defect. by rewrite Hbits.
  - by eapply validate_block_coinbase_defect.
Qed.

(** C25: The miner never works on stale candidates: in every interleaving of the
    worker with the handle's operations (fewer than 2^64 of them), every block it
    reports is a validated nonce variant of a submitted candidate, and whenever the
    worker passes its generation check the candidate it goes on with is the
    one of the very last command issued. *)
Theorem miner_worker_fresh (s : MinerSys) :
  miner_reach s → Z.of_nat (length (log s)) < 2 ^ 64 →
  (∀ b, b ∈ mined s → validate_block b = Ok () ∧ ∃ g c0 n, Submit g c0 ∈ log s ∧ b = with_nonce c0 n)
  ∧ (∀ s', pc s = Check → worker_step s = Some s' → pc s' = Work →
     ∃ g c0 n, last (log s) = Some (Submit g c0) ∧ current s' = Some (g, with_nonce c0 n)).
Proof.
  intros Hr Hlt. destruct (miner_reach_inv s Hr Hlt) as [Hg Hnum _ _ Hc Hm]. split.
  - intros b Hb. destruct (Hm b Hb) as [? (g & c0 & n & ? & ?)]. eauto 8.
  - intros s' Hpc Hstep Hwork. unfold worker_step in Hstep. rewrite Hpc in Hstep.
    destruct (current s) as [[g c]|] eqn:Hcur; [|done].
    case_bool_decide as Heq; [by simplify_eq|]. injection Hstep as <-.
    destruct (Hc g c eq_refl) as (c0 & n & Hin & ->).
    apply list_elem_of_lookup in Hin as [i Hi]. pose proof (Hnum _ _ _ Hi) as Hgi.
    exists g, c0, n. split; [|done]. rewrite last_lookup, <-Hi. f_equal. lia.
Qed.

End claims.

(** ** Witnesses *)

Module DemoMiner.
#[local] Existing Instance Toy.crypto.
#[local] Existing Instance Toy.laws.

Definition cand : Block := with_nonce DemoBlocks.block1 0.

Definition run1 (s : MinerSys) : MinerSys := default s (worker_step s).
(** Submit a candidate, then let the worker take it up to its generation check. *)
Definition s1 : MinerSys := Miner_send (Miner_submit miner_start DemoBlocks.block1).
Definition s3 : MinerSys := run1 (run1 s1).

Lemma reach_s3 : miner_reach s3.
Proof.
  apply (miner_reach_step (run1 s1)); [|by apply step_worker].
  apply (miner_reach_step s1); [|by apply step_worker].
  eapply miner_reach_step; [|apply step_send].
  eapply miner_reach_step; [|by apply step_submit]. apply miner_reach_start.
Qed.

End DemoMiner.

Lemma solve_candidate_correct_witness :
  ∃ fuel b, Z.of_nat fuel ≤ 2 ^ 32
    ∧ solve_candidate (C:=Toy.crypto) fuel DemoMiner.cand = Ok b.
Proof.
  destruct (solve_candidate_correct (C:=Toy.crypto) DemoMiner.cand ltac:(vm_decide)
    ltac:(vm_decide)) as (_ & H & _).
  apply H. exists (nonce (header DemoBlocks.block1)). split; [vm_decide|].
  vm_compute. reflexivity.
Defined.

Lemma mine_block_correct_witness :
  ∃ c, build_candidate (C:=Toy.crypto) BlockHash_default 50 x05 0
    DemoBlocks.easy_bits [] = Some c.
Proof.
  destruct (from_compact DemoBlocks.easy_bits) as [t|] eqn:Ht; [|discriminate].
  destruct (mine_block_correct (C:=Toy.crypto) (CryptoLaws0:=Toy.laws) BlockHash_default 50
    x05 0 DemoBlocks.easy_bits [] t) as (c & H & _).
  - constructor.
  - constructor.
  - vm_decide.
  - exact Ht.
  - exists c. exact H.
Defined.

Lemma mine_block_diverges_witness :
  mine_block (C:=Toy.crypto) 1000 BlockHash_default 50 x05 0
    DemoBlocks.easy_bits [Demo.coinbase] = Err OutOfFuel.
Proof.
  apply (mine_block_diverges (C:=Toy.crypto) (CryptoLaws0:=Toy.laws)).
  - vm_decide.
  - right. reflexivity.
Defined.

Lemma miner_worker_fresh_witness :
  ∃ g c0 n, last (log DemoMiner.s3) = Some (Submit g c0)
    ∧ current (DemoMiner.run1 DemoMiner.s3) = Some (g, with_nonce c0 n).
Proof.
  destruct (miner_worker_fresh (C:=Toy.crypto) DemoMiner.s3 DemoMiner.reach_s3 ltac:(vm_decide))
    as [_ H].
  apply (H (DemoMiner.run1 DemoMiner.s3)); reflexivity.
Defined.
