(* ===== verification/NodeState.v ===== *)
(** * node_state.rs: chain index, cached coin sets, active view and mempool

    Operations that mutate before they can fail return the new state beside
    the result: [accept_block] keeps the index entry and the stored block of
    a block whose transactions then fail to apply. *)

From S2P Require Import Prelude Bytes Crypto Types State Consensus Chain Mempool Wire Mining.

Inductive NodeStateError :=
| NChain (e : ChainError)
| NConsensus (e : ConsensusError)
| NConsensusFee (e : ValidationError)
| NMempool (e : MempoolError)
| InsufficientFunds (requested available : Amount)
| MissingIndexedBlock (h : BlockHash)
| MissingParentState (h : BlockHash).

#[export] Instance NodeStateError_eq_dec : EqDecision NodeStateError.
Proof. unfold Amount. solve_decision. Defined.

Record NodeState := {
  chain : ChainIndex;
  active_utxos : UtxoSet;
  mempool : Mempool;
  blocks : gmap BlockHash Block;
  utxo_snapshots : gmap BlockHash UtxoSet
}.

#[export] Instance NodeState_eq_dec : EqDecision NodeState.
Proof. solve_decision. Defined.

Definition NodeState_new : NodeState := {|
  chain := ChainIndex_new; active_utxos := ∅; mempool := ∅; blocks := ∅; utxo_snapshots := ∅
|}.

Definition set_mempool (s : NodeState) (mp : Mempool) : NodeState := {|
  chain := chain s; active_utxos := active_utxos s; mempool := mp; blocks := blocks s;
  utxo_snapshots := utxo_snapshots s
|}.

Definition get_block (s : NodeState) (h : BlockHash) : option Block := blocks s !! h.

Definition tip_summary (s : NodeState) : TipSummary :=
  match best_tip (chain s) with
  | None => {| tip := None; tip_height := None |}
  | Some t => {| tip := Some t; tip_height := height <$> entries (chain s) !! t |}
  end.

(** The order of [sort_by_key(|outpoint| (outpoint.txid.to_string(), outpoint.vout))]. *)
Definition outpoint_le (a b : OutPoint) : Prop :=
  (String.le (Txid_to_string (txid a)) (Txid_to_string (txid b))
   ∧ Txid_to_string (txid a) ≠ Txid_to_string (txid b))
  ∨ Txid_to_string (txid a) = Txid_to_string (txid b) ∧ vout a ≤ vout b.

#[export] Instance outpoint_le_dec : RelDecision outpoint_le.
Proof. unfold outpoint_le. intros a b. apply _. Defined.

Definition sorted_outpoints (U : UtxoSet) : list OutPoint :=
  merge_sort outpoint_le (map_to_list U).*1.

Definition active_outpoints (s : NodeState) : list OutPoint :=
  sorted_outpoints (active_utxos s).

(** [Iterator::sum] over [u64] with overflow checks. *)
Definition sum_u64 (l : list Z) : may_panic Z := try_fold (add_or_panic 64) 0 l.

Section node.
Context `{C : Crypto}.

Definition balance_for_key (s : NodeState) (owner : VerifyingKey) : may_panic Amount :=
  let owner_bytes := verifying_key_bytes owner in
  sum_u64 ((λ p, value (output p.2)) <$>
    filter (λ p : OutPoint * Utxo, locking_data (output p.2) = owner_bytes)
      (map_to_list (active_utxos s))).

Definition submit_transaction (s : NodeState) (tx : Transaction)
    : NodeState * result NodeStateError Txid :=
  match submit (mempool s) (active_utxos s) tx with
  | Ok (mp, id) => (set_mempool s mp, Ok id)
  | Err e => (s, Err (NMempool e))
  | Panic => (s, Panic)
  end.

(** ** Payments *)

(** The selection loop of [build_payment_transaction], on
    [(selected, total)]. *)
Fixpoint select_coins (U : UtxoSet) (sender_keys : list (bytes * SigningKey)) (amount : Z)
    (os : list OutPoint) (selected : list (OutPoint * SigningKey)) (total : Z)
    : list (OutPoint * SigningKey) * Z :=
  match os with
  | [] => (selected, total)
  | o :: os =>
      match U !! o with
      | None => select_coins U sender_keys amount os selected total
      | Some utxo =>
          match List.find (λ p : bytes * SigningKey,
                  bool_decide (p.1 = locking_data (output utxo))) sender_keys with
          | None => select_coins U sender_keys amount os selected total
          | Some (_, signing_key) =>
              let selected := selected ++ [(o, signing_key)] in
              let total := saturating_add 64 total (value (output utxo)) in
              if bool_decide (amount ≤ total) then (selected, total)
              else select_coins U sender_keys amount os selected total
          end
      end
  end.

Definition build_payment_transaction (U : UtxoSet) (sender_signing_keys : list SigningKey)
    (change_key recipient_key : VerifyingKey) (amount uniq : Z)
    : result NodeStateError Transaction :=
  let sender_keys := (λ k, (verifying_key_bytes (SigningKey_verifying_key k), k))
                       <$> sender_signing_keys in
  let '(selected, total) := select_coins U sender_keys amount (sorted_outpoints U) [] 0 in
  if bool_decide (total < amount) then Err (InsufficientFunds amount total)
  else
    let outputs :=
      {| value := amount; locking_data := verifying_key_bytes recipient_key |} ::
      (if bool_decide (0 < total - amount)
       then [{| value := total - amount; locking_data := verifying_key_bytes change_key |}]
       else []) in
    let unsigned := {|
      version := 1;
      inputs := (λ p : OutPoint * SigningKey,
                   {| previous_output := p.1; unlocking_data := [] |}) <$> selected;
      outputs := outputs;
      lock_time := uniq
    |} in
    digest ← expect (signing_digest unsigned);
    Ok {|
      version := 1;
      inputs := (λ p : OutPoint * SigningKey,
                   {| previous_output := p.1; unlocking_data := sign_message p.2 digest |})
                <$> selected;
      outputs := outputs;
      lock_time := uniq
    |}.

Definition submit_payment (s : NodeState) (sender_signing_keys : list SigningKey)
    (change_key recipient_key : VerifyingKey) (amount uniq : Z)
    : NodeState * result NodeStateError Txid :=
  match build_payment_transaction (active_utxos s) sender_signing_keys change_key recipient_key
          amount uniq with
  | Ok tx => submit_transaction s tx
  | Err e => (s, Err e)
  | Panic => (s, Panic)
  end.

(** ** Blocks *)

Definition ensure_snapshot (s : NodeState) (hash : BlockHash) (par : option BlockHash)
    (h : BlockHeight) : NodeState * result NodeStateError unit :=
  if bool_decide (is_Some (utxo_snapshots s !! hash)) then (s, Ok ())
  else
    let r :=
      utxos ← (match par with
               | None => Ok ∅
               | Some parent_hash =>
                   ok_or (utxo_snapshots s !! parent_hash) (MissingParentState parent_hash)
               end);
      block ← ok_or (blocks s !! hash) (MissingIndexedBlock hash);
      map_err NConsensus (apply_block utxos block h) in
    match r with
    | Ok utxos =>
        ({| chain := chain s; active_utxos := active_utxos s; mempool := mempool s;
            blocks := blocks s; utxo_snapshots := <[hash := utxos]> (utxo_snapshots s) |}, Ok ())
    | Err e => (s, Err e)
    | Panic => (s, Panic)
    end.

Definition accept_block (s : NodeState) (b : Block) : NodeState * result NodeStateError unit :=
  match insert_block (chain s) b with
  | Err e => (s, Err (NChain e))
  | Panic => (s, Panic)
  | Ok (chain', entry) =>
      let hash := block_hash entry in
      let s1 := {|
        chain := chain'; active_utxos := active_utxos s; mempool := mempool s;
        blocks := match blocks s !! hash with
                  | Some _ => blocks s
                  | None => <[hash := b]> (blocks s)
                  end;
        utxo_snapshots := utxo_snapshots s
      |} in
      match ensure_snapshot s1 hash (parent entry) (height entry) with
      | (s2, Ok _) =>
          if bool_decide (best_tip (chain s2) = Some hash) then
            match utxo_snapshots s2 !! hash with
            | None => (s2, Err (MissingParentState hash))
            | Some utxos =>
                match prune_invalid (mempool s2) utxos with
                | None => (s2, Panic)
                | Some mp =>
                    ({| chain := chain s2; active_utxos := utxos; mempool := mp;
                        blocks := blocks s2; utxo_snapshots := utxo_snapshots s2 |}, Ok ())
                end
            end
          else (s2, Ok ())
      | (s2, r) => (s2, r)
      end
  end.

(** [for block in blocks { state.accept_block(block)?; }] *)
Fixpoint accept_blocks (s : NodeState) (bs : list Block) : NodeState * result NodeStateError unit :=
  match bs with
  | [] => (s, Ok ())
  | b :: bs =>
      match accept_block s b with
      | (s, Ok _) => accept_blocks s bs
      | (s, r) => (s, r)
      end
  end.

Definition from_persisted (bs : list Block) (mp : Mempool) : result NodeStateError NodeState :=
  match accept_blocks NodeState_new bs with
  | (s, Ok _) =>
      mp ← expect (prune_invalid mp (active_utxos s));
      Ok (set_mempool s mp)
  | (_, Err e) => Err e
  | (_, Panic) => Panic
  end.

(** [NodeState::mine_block]; [Err None] stands for a nonce search that has not
    ended within [fuel] attempts. *)
Definition NodeState_mine_block (fuel : nat) (s : NodeState) (subsidy : Z) (vk : VerifyingKey)
    (uniq bits max : Z) : NodeState * result (option NodeStateError) BlockHash :=
  let prev := default BlockHash_default (best_tip (chain s)) in
  let assembled : result (option NodeStateError) (Block * list Txid) :=
    sel ← expect (collect_valid (mempool s) (active_utxos s) max);
    let '(pending, included_ids) := sel in
    total_fees ← map_err (Some ∘ NConsensusFee)
      (try_fold (λ total tx,
         f ← transaction_fee (active_utxos s) tx;
         ok_or (checked_add 64 total f) InputValueOverflow) 0 pending);
    reward ← expect (add_or_panic 64 subsidy total_fees);
    block ← map_err (λ _, None) (mine_block fuel prev reward vk uniq bits pending);
    Ok (block, included_ids) in
  match assembled with
  | Err e => (s, Err e)
  | Panic => (s, Panic)
  | Ok (block, included_ids) =>
      let hash := header_hash (header block) in
      match accept_block s block with
      | (s, Ok _) => (set_mempool s (remove_many (mempool s) included_ids), Ok hash)
      | (s, Err e) => (s, Err (Some e))
      | (s, Panic) => (s, Panic)
      end
  end.

End node.

(** ** Invariant *)

Section invariant.
Context `{C : Crypto}.

(** A cached coin set is the parent's cached set with the block applied; its
    supply is bounded by one subsidy per block of its branch. *)
Definition snapshot_ok (s : NodeState) (h : BlockHash) (U : UtxoSet) : Prop :=
  ∃ e b, entries (chain s) !! h = Some e ∧ blocks s !! h = Some b
  ∧ (match parent e with
     | None => apply_block ∅ b (height e) = Ok U
     | Some p => ∃ Up, utxo_snapshots s !! p = Some Up ∧ apply_block Up b (height e) = Ok U
     end)
  ∧ utxos_wf U ∧ total_value U ≤ BLOCK_SUBSIDY * (height e + 1).

(** The entry of a block: below its parent, with the parent's work and its own. *)
Definition entry_of (m : gmap BlockHash ChainIndexEntry) (b : Block) (e : ChainIndexEntry) : Prop :=
  ∃ w, block_work b = Ok w ∧
  match parent e with
  | None => prev_blockhash (header b) = BlockHash_default ∧ height e = 0 ∧ cumulative_work e = w
  | Some p => p = prev_blockhash (header b) ∧ ∃ pe, m !! p = Some pe
      ∧ height e = height pe + 1 ∧ cumulative_work e = cumulative_work pe + w
  end.

(** The stored block hashes to its key and hangs where the index says. *)
Definition stored_ok (s : NodeState) (h : BlockHash) (b : Block) : Prop :=
  header_hash (header b) = h ∧ Block_wf b ∧ Block_encodable b ∧ block_valid b
  ∧ ∀ e, entries (chain s) !! h = Some e → entry_of (entries (chain s)) b e.

Record node_inv (s : NodeState) : Prop := {
  ni_chain : chain_wf (chain s);
  ni_blocks h : is_Some (blocks s !! h) ↔ is_Some (entries (chain s) !! h);
  ni_stored h b : blocks s !! h = Some b → stored_ok s h b;
  ni_snapshot h U : utxo_snapshots s !! h = Some U → snapshot_ok s h U;
  ni_active : active_utxos s = ∅ ∨ ∃ h, utxo_snapshots s !! h = Some (active_utxos s);
  ni_mempool : mempool_ok (active_utxos s) (mempool s)
}.

(** The active view is the cached view of the best tip. *)
Definition tip_synced (s : NodeState) : Prop :=
  match best_tip (chain s) with
  | None => active_utxos s = ∅
  | Some t => utxo_snapshots s !! t = Some (active_utxos s)
  end.

Lemma node_inv_new : node_inv NodeState_new ∧ tip_synced NodeState_new.
Proof.
  split; [|done]. split; cbn.
  - apply chain_wf_new.
  - intros h. by rewrite !lookup_empty.
  - intros h b Hb. by rewrite lookup_empty in Hb.
  - intros h U HU. by rewrite lookup_empty in HU.
  - by left.
  - apply mempool_ok_empty.
Qed.

Lemma utxos_wf_empty : utxos_wf ∅.
Proof. apply map_Forall_empty. Qed.

Lemma active_wf s : node_inv s → utxos_wf (active_utxos s).
Proof.
  intros Hi. destruct (ni_active s Hi) as [->|[h Hh]]; [apply utxos_wf_empty|].
  by destruct (ni_snapshot s Hi h _ Hh) as (e & b & _ & _ & _ & ? & _).
Qed.

(** Changing only the mempool. *)
Lemma node_inv_set_mempool s mp :
  node_inv s → mempool_ok (active_utxos s) mp → node_inv (set_mempool s mp).
Proof. intros [] ?. by split. Qed.

Lemma remove_many_ok U mp ids : mempool_ok U mp → mempool_ok U (remove_many mp ids).
Proof.
  intros Hok.
  assert (remove_many mp ids ⊆ mp) as Hsub.
  { apply map_subseteq_spec. intros i t. rewrite remove_many_lookup. by case_bool_decide. }
  split.
  - intros id tx Hid. eapply (mo_tx U mp Hok), lookup_weaken; done.
  - intros i1 i2 t1 t2 o H1 H2. apply (mo_disjoint U mp Hok i1 i2 t1 t2 o); by eapply lookup_weaken.
  - pose proof (mo_size U mp Hok). pose proof (map_subseteq_size _ _ Hsub). lia.
Qed.

End invariant.

Section accept.
Context `{C : Crypto} `{L : !CryptoLaws C}.

(** The state after indexing and storing a new block, before its coins are
    computed. *)
Definition indexed (s : NodeState) (b : Block) (e : ChainIndexEntry) : NodeState := {|
  chain := with_entry (chain s) e; active_utxos := active_utxos s; mempool := mempool s;
  blocks := <[block_hash e := b]> (blocks s); utxo_snapshots := utxo_snapshots s
|}.

Lemma snapshot_indexed s b e h U :
  entries (chain s) !! block_hash e = None → blocks s !! block_hash e = None →
  snapshot_ok s h U → snapshot_ok (indexed s b e) h U.
Proof using.
  intros He Hb (e' & b' & He' & Hb' & Hr). exists e', b'. cbn.
  rewrite !lookup_insert_ne by congruence. done.
Qed.

Lemma entry_of_insert m b e h e' : m !! h = None → entry_of m b e → entry_of (<[h := e']> m) b e.
Proof using.
  intros Hn (w & Hw & He). exists w. split; [done|]. destruct (parent e) as [p|]; [|done].
  destruct He as (-> & pe & Hpe & ?). split; [done|]. exists pe.
  by rewrite lookup_insert_ne by congruence.
Qed.

Lemma links_entry_of m b w e :
  block_work b = Ok w → m !! block_hash e = None → links m (prev_blockhash (header b)) w e →
  entry_of (<[block_hash e := e]> m) b e.
Proof using.
  intros Hw Hn Hl. exists w. split; [done|].
  destruct Hl as [(_ & ? & ? & ? & ->)|(pe & Hpe & ? & ? & _ & ->)]; [done|].
  split; [done|]. exists pe. by rewrite lookup_insert_ne by congruence.
Qed.

Lemma indexed_inv s b w e :
  node_inv s → Block_wf b → Block_encodable b → block_valid b →
  entries (chain s) !! block_hash e = None → block_hash e = header_hash (header b) →
  1 ≤ w < 2 ^ 128 → block_work b = Ok w →
  links (entries (chain s)) (prev_blockhash (header b)) w e → node_inv (indexed s b e).
Proof using.
  intros Hi Hw He Hv Hnew Hh Hwr Hbw Hl. pose proof Hi as [Hc Hbl Hst Hsn Hac Hm].
  assert (blocks s !! block_hash e = None) as Hbnew.
  { apply eq_None_not_Some. rewrite Hbl. by rewrite Hnew; intros []. }
  split; cbn.
  - by eapply with_entry_wf.
  - intros h. rewrite !lookup_insert_is_Some. by rewrite Hbl.
  - intros h b' [[<- <-]|[Hne Hb']]%lookup_insert_Some; unfold stored_ok; cbn.
    + split_and!; try done. intros e'. rewrite lookup_insert_eq. intros [= <-].
      by eapply links_entry_of.
    + destruct (Hst _ _ Hb') as (? & ? & ? & ? & Hent). split_and!; try done.
      rewrite lookup_insert_ne by done. intros e' ?. by apply entry_of_insert, Hent.
  - intros h U HU. apply snapshot_indexed; auto.
  - done.
  - done.
Qed.

Lemma apply_block_supply_step U b h U' n :
  utxos_wf U → Block_wf b → apply_block U b h = Ok U' → total_value U ≤ BLOCK_SUBSIDY * n →
  utxos_wf U' ∧ total_value U' ≤ BLOCK_SUBSIDY * (n + 1).
Proof using L.
  intros HU Hb Ha Hn. split; [by eapply apply_block_wf|].
  pose proof (apply_block_total _ _ _ _ HU Hb Ha). lia.
Qed.

Lemma ensure_snapshot_spec s h e b s' r :
  node_inv s → entries (chain s) !! h = Some e → blocks s !! h = Some b →
  ensure_snapshot s h (parent e) (height e) = (s', r) →
  node_inv s' ∧ r ≠ Panic
  ∧ (r ≠ Ok () → s' = s ∧ utxo_snapshots s !! h = None)
  ∧ (r = Ok () → s' = s ∧ is_Some (utxo_snapshots s !! h)
     ∨ ∃ U, snapshot_ok s h U ∧ utxo_snapshots s !! h = None ∧ s' =
         {| chain := chain s; active_utxos := active_utxos s; mempool := mempool s;
            blocks := blocks s; utxo_snapshots := <[h := U]> (utxo_snapshots s) |}).
Proof using L.
  intros Hi He Hb. pose proof Hi as [Hc Hbl Hst Hsn Hac Hm]. unfold ensure_snapshot.
  case_bool_decide as Hs; [by intros [= <- <-]; split_and!; [..|naive_solver]|].
  apply eq_None_not_Some in Hs. rewrite Hb.
  destruct (Hst h b Hb) as (_ & Hbw & Hbe & _ & _).
  assert (∀ Up, utxos_wf Up →
    (match parent e with None => Up = ∅ | Some p => utxo_snapshots s !! p = Some Up end) →
    total_value Up ≤ BLOCK_SUBSIDY * height e) as Hsupply.
  { intros Up HUp Hpar. destruct (cw_entries _ Hc h e He) as (_ & _ & _ & Hp).
    destruct (parent e) as [p|].
    - destruct Hp as (pe & Hpe & Hh & _). destruct (Hsn p Up Hpar) as (e' & ? & ? & _ & _ & _ & Ht).
      simplify_eq. by rewrite Hh.
    - subst Up. rewrite total_value_empty. unfold BLOCK_SUBSIDY. lia. }
  destruct (match parent e with
    | None => Ok ∅
    | Some p => ok_or (utxo_snapshots s !! p) (MissingParentState p) end) as [Up|err|] eqn:Hpar;
    cbn [mbind result_bind ok_or].
  - assert (match parent e with None => Up = ∅ | Some p => utxo_snapshots s !! p = Some Up end)
      as Hpar'.
    { destruct (parent e); [by apply ok_or_Ok in Hpar|by injection Hpar]. }
    assert (utxos_wf Up) as HUp.
    { destruct (parent e); [|subst; apply utxos_wf_empty].
      by destruct (Hsn _ _ Hpar') as (? & ? & _ & _ & _ & ? & _). }
    specialize (Hsupply Up HUp Hpar').
    destruct (apply_block Up b (height e)) as [U|ce|] eqn:Ha; cbn.
    + intros [= <- <-].
      destruct (apply_block_supply_step _ _ _ _ _ HUp Hbw Ha Hsupply) as [HU Ht].
      assert (snapshot_ok s h U) as Hok.
      { exists e, b. split_and!; try done. destruct (parent e); [eauto|by subst]. }
      split_and!; [|done|done|intros _; right; eauto].
      split; cbn; try done.
      * intros h' U' [[<- <-]|[Hne HU']]%lookup_insert_Some;
          [destruct Hok as (e' & b' & ? & ? & Hp & ?)
          |destruct (Hsn _ _ HU') as (e' & b' & ? & ? & Hp & ?)]; exists e', b'; cbn;
          (split_and!; [done..| |naive_solver|naive_solver]);
          (destruct (parent e'); [|done]); destruct Hp as (Up' & ? & ?); exists Up';
          (split; [|done]); rewrite lookup_insert_ne by congruence; done.
      * destruct Hac as [|[h' ?]]; [by left|right]. exists h'.
        by rewrite lookup_insert_ne by congruence.
    + intros [= <- <-]. by split_and!.
    + by destruct (apply_block_no_panic Up b (height e) Hbe).
  - intros [= <- <-]. by split_and!.
  - by destruct (parent e) as [p|]; [destruct (utxo_snapshots s !! p)|].
Qed.

Lemma ensure_snapshot_frame s h p n s' r :
  ensure_snapshot s h p n = (s', r) →
  chain s' = chain s ∧ blocks s' = blocks s ∧ active_utxos s' = active_utxos s
  ∧ mempool s' = mempool s.
Proof using.
  unfold ensure_snapshot. case_bool_decide; [by intros [= <- <-]|].
  destruct (_ ≫= _); by intros [= <- <-].
Qed.

Lemma ensure_snapshot_not_chain s h p n s' e :
  ensure_snapshot s h p n ≠ (s', Err (NChain e)).
Proof using.
  unfold ensure_snapshot. case_bool_decide; [done|].
  destruct p as [p|]; [destruct (utxo_snapshots s !! p); cbn; [|done]|];
    (destruct (blocks s !! h); cbn; [|done]); by destruct (apply_block _ _ _).
Qed.

(** Indexing and storing the block, whether it is new or known. *)
Lemma insert_step s b chain' e :
  node_inv s → Block_wf b → Block_encodable b → insert_block (chain s) b = Ok (chain', e) →
  let s1 := {| chain := chain'; active_utxos := active_utxos s; mempool := mempool s;
               blocks := match blocks s !! block_hash e with
                         | Some _ => blocks s
                         | None => <[block_hash e := b]> (blocks s)
                         end;
               utxo_snapshots := utxo_snapshots s |} in
  node_inv s1 ∧ block_hash e = header_hash (header b)
  ∧ entries chain' !! block_hash e = Some e
  ∧ is_Some (blocks s1 !! block_hash e)
  ∧ (best_tip chain' = Some (block_hash e) ∨ best_tip chain' = best_tip (chain s)).
Proof using L.
  intros Hi Hw He Hins.
  pose proof Hins as (Hv & Hwf' & Hlk & Hcase)%insert_block_inv; [|apply Hi|done].
  pose proof (block_valid_work b Hw Hv) as (w' & Hw' & Hwr).
  destruct Hcase as [->|(Hnew & -> & w & Hwk & Hl & Hh)].
  - destruct (cw_entries _ (ni_chain s Hi) _ _ Hlk) as (Hbh & _). rewrite Hbh.
    destruct (proj2 (ni_blocks s Hi (header_hash (header b)))) as [b0 Hb0]; [by eexists|].
    cbn zeta. rewrite Hb0. cbn. rewrite Hb0.
    split_and!; [by destruct s|done|done|by eexists|by right].
  - rewrite <-Hh in Hnew, Hlk.
    assert (blocks s !! block_hash e = None) as Hbn.
    { apply eq_None_not_Some. rewrite (ni_blocks s Hi). rewrite Hnew. by intros []. }
    cbn zeta. rewrite Hbn. cbn [blocks]. assert (w = w') as -> by congruence.
    split_and!; [by eapply indexed_inv|done|done|rewrite lookup_insert_eq; by eexists|].
    cbn. unfold tip_after. destruct (best_tip (chain s) ≫= _) as [te|] eqn:Hte; [|by left].
    case_bool_decide; [by left|by right].
Qed.

(** What [accept_block] leaves behind when it fails after indexing. *)
Definition poisoned (s : NodeState) (b : Block) (s' : NodeState) : Prop :=
  ∃ chain' e, insert_block (chain s) b = Ok (chain', e) ∧ chain s' = chain'
  ∧ active_utxos s' = active_utxos s ∧ mempool s' = mempool s
  ∧ utxo_snapshots s' = utxo_snapshots s
  ∧ utxo_snapshots s' !! header_hash (header b) = None
  ∧ is_Some (blocks s' !! header_hash (header b)).

(** The only panic is the overflow of the height in [insert_block], which
    leaves the state as it was. *)
Lemma accept_block_any s b s' r :
  node_inv s → Block_wf b → Block_encodable b → accept_block s b = (s', r) →
  node_inv s' ∧
  match r with
  | Ok _ => (∃ e, insert_block (chain s) b = Ok (chain s', e))
            ∧ is_Some (utxo_snapshots s' !! header_hash (header b))
            ∧ (tip_synced s → tip_synced s')
  | Err (NChain e) => s' = s ∧ insert_block (chain s) b = Err e
  | Err _ => poisoned s b s'
  | Panic => s' = s ∧ insert_block (chain s) b = Panic
  end.
Proof using L.
  intros Hi Hw He. unfold accept_block.
  destruct (insert_block (chain s) b) as [[chain' e]|ce|] eqn:Hins;
    [|by intros [= <- <-]..].
  pose proof (insert_step s b chain' e Hi Hw He Hins) as Hs1. cbn zeta in *.
  match type of Hs1 with node_inv ?x ∧ _ => set (s1 := x) in * end.
  destruct Hs1 as (Hi1 & Hh & Hlk & [b1 Hb1] & Htip).
  destruct (ensure_snapshot s1 (block_hash e) (parent e) (height e)) as [s2 r2] eqn:Hens.
  pose proof (ensure_snapshot_spec s1 _ e b1 s2 r2 Hi1 Hlk Hb1 Hens) as (Hi2 & Hnp & Hbad & Hgood).
  destruct r2 as [[]|err|]; [|intros [= <- <-]|done].
  2: { destruct Hbad as [-> Hnone]; [done|].
       assert (poisoned s b s1) as Hp.
       { exists chain', e. rewrite <-Hh. by split_and!. }
       split; [done|]. destruct err; try done.
       by apply ensure_snapshot_not_chain in Hens. }
  assert (chain s2 = chain') as Hc2.
  { destruct (Hgood eq_refl) as [[-> _]|(U & _ & _ & ->)]; done. }
  assert (is_Some (utxo_snapshots s2 !! block_hash e)) as Hs2.
  { destruct (Hgood eq_refl) as [[-> ?]|(U & _ & _ & ->)]; [done|].
    cbn. rewrite lookup_insert_eq. by eexists. }
  assert (∀ h U, utxo_snapshots s !! h = Some U → utxo_snapshots s2 !! h = Some U) as Hmono.
  { intros h U HU. destruct (Hgood eq_refl) as [[-> _]|(U' & _ & Hn & ->)]; [done|].
    cbn in *. rewrite lookup_insert_ne; [done|]. congruence. }
  assert (active_utxos s2 = active_utxos s) as Ha2.
  { destruct (Hgood eq_refl) as [[-> _]|(U & _ & _ & ->)]; done. }
  clearbody s1. subst chain'. case_bool_decide as Hbt.
  - destruct Hs2 as [U HU]. rewrite HU.
    assert (utxos_wf U) as HUw.
    { by destruct (ni_snapshot s2 Hi2 _ _ HU) as (? & ? & _ & _ & _ & ? & _). }
    destruct (prune_invalid_spec _ U (mempool s2) HUw (ni_mempool s2 Hi2)) as (mp & -> & Hmp & _).
    intros [= <- <-]. split; [|split_and!; cbn].
    + destruct Hi2 as [Hic Hib Hist Hisn _ _].
      split; cbn; [exact Hic|exact Hib|exact Hist|exact Hisn|right; eauto|exact Hmp].
    + eauto.
    + rewrite <-Hh, HU. by eexists.
    + intros _. unfold tip_synced; cbn. by rewrite Hbt.
  - intros [= <- <-]. split; [done|]. split_and!; [by eauto|by rewrite <-Hh|].
    unfold tip_synced. rewrite Ha2. destruct Htip as [?|Htip]; [done|rewrite Htip].
    destruct (best_tip (chain s)); [auto|done].
Qed.

Lemma accept_block_spec s b s' r :
  node_inv s → Block_wf b → Block_encodable b →
  Z.of_nat (size (entries (chain s))) < 2 ^ 64 → accept_block s b = (s', r) →
  node_inv s' ∧
  match r with
  | Ok _ => (∃ e, insert_block (chain s) b = Ok (chain s', e))
            ∧ is_Some (utxo_snapshots s' !! header_hash (header b))
            ∧ (tip_synced s → tip_synced s')
  | Err (NChain e) => s' = s ∧ insert_block (chain s) b = Err e
  | Err _ => poisoned s b s'
  | Panic => False
  end.
Proof using L.
  intros Hi Hw He Hsz Ha. destruct (accept_block_any s b s' r Hi Hw He Ha) as [Hi' Hr].
  split; [done|]. destruct r; [done..|].
  by destruct (insert_block_no_panic _ _ (ni_chain s Hi) Hw He Hsz (proj2 Hr)).
Qed.

End accept.

(** ** Replaying a branch *)

Section replay.
Context `{C : Crypto} `{L : !CryptoLaws C}.

(** Applying a list of blocks from height [h] on. *)
Fixpoint replay (U : UtxoSet) (h : Z) (bs : list Block) : result ConsensusError UtxoSet :=
  match bs with
  | [] => Ok U
  | b :: bs => U' ← apply_block U b h; replay U' (h + 1) bs
  end.

Lemma replay_snoc U h bs b :
  replay U h (bs ++ [b]) = (U' ← replay U h bs; apply_block U' b (h + Z.of_nat (length bs))).
Proof using.
  revert U h. induction bs as [|b' bs IH]; intros U h; cbn [replay app].
  - cbn. rewrite Z.add_0_r. by destruct (apply_block U b h).
  - destruct (apply_block U b' h) as [U'| |]; cbn [mbind result_bind]; [|done..].
    rewrite IH. cbn [length]. do 2 f_equal.
    by replace (h + 1 + Z.of_nat (length bs)) with (h + Z.of_nat (S (length bs))) by lia.
Qed.

(** A cached coin set is what replaying its branch from genesis gives. *)
Lemma snapshot_replay s h l U :
  node_inv s → ancestry (entries (chain s)) h l → utxo_snapshots s !! h = Some U →
  ∃ bs, Forall2 (λ h b, blocks s !! h = Some b) (reverse l) bs ∧ replay ∅ 0 bs = Ok U.
Proof using.
  intros Hi Hl. pose proof (cw_entries _ (ni_chain s Hi)) as Hm. revert U.
  induction Hl as [h e He Hp|h e p l He Hp Hl IH]; intros U HU;
    destruct (ni_snapshot s Hi _ _ HU) as (e' & b & He' & Hb & Hap & _);
    assert (e' = e) as -> by congruence; rewrite Hp in Hap;
    destruct (Hm _ _ He) as (_ & _ & _ & Hpar); rewrite Hp in Hpar.
  - exists [b]. split; [by repeat constructor|]. cbn. rewrite <-Hpar, Hap. done.
  - destruct Hap as (Up & HUp & Hap). destruct (IH Up HUp) as (bs & Hbs & Hr).
    exists (bs ++ [b]). rewrite reverse_cons. split; [apply Forall2_app; [done|by repeat constructor]|].
    rewrite replay_snoc, Hr. cbn. rewrite <-Hap. f_equal.
    destruct Hpar as (pe & Hpe & Hh & _).
    destruct (ancestry_exists _ p pe Hm Hpe) as (l' & Hl' & Hlen).
    assert (l' = l) as -> by (by eapply ancestry_det).
    apply Forall2_length in Hbs. rewrite length_reverse in Hbs. lia.
Qed.

End replay.

(** ** Steps of a node *)

Section steps.
Context `{C : Crypto} `{L : !CryptoLaws C}.

Lemma submit_transaction_inv s tx s' r :
  node_inv s → Transaction_wf tx → encodable true tx → submit_transaction s tx = (s', r) →
  node_inv s' ∧ r ≠ Panic ∧ chain s' = chain s ∧ active_utxos s' = active_utxos s
  ∧ utxo_snapshots s' = utxo_snapshots s.
Proof using.
  intros Hi Hw He. destruct (Transaction_txid_is_Some tx He) as [id Hid].
  pose proof (submit_cases _ (active_wf s Hi) (mempool s) tx id (ni_mempool s Hi) Hw He Hid) as Hc.
  unfold submit_transaction. destruct (submit (mempool s) (active_utxos s) tx) as [[mp i]|e|];
    [|by intros [= <- <-]|done].
  destruct Hc as (-> & Hnew & f & Hf & Had). intros [= <- <-].
  split_and!; [|done..]. apply node_inv_set_mempool; [done|].
  eapply admitted_ok; [apply Hi|done..].
Qed.

(** The operations on a node's state, with what they return. *)
Inductive node_step : NodeState → NodeState → Prop :=
| ns_accept s b s' r : Block_wf b → Block_encodable b →
    accept_block s b = (s', r) → node_step s s'
| ns_submit s tx s' r : Transaction_wf tx → encodable true tx →
    submit_transaction s tx = (s', r) → node_step s s'
| ns_remove s ids : node_step s (set_mempool s (remove_many (mempool s) ids)).

(** A step in which no block was indexed without its coins being computed. *)
Inductive clean_step : NodeState → NodeState → Prop :=
| cs_accept s b s' : Block_wf b → Block_encodable b →
    accept_block s b = (s', Ok ()) → clean_step s s'
| cs_refuse s b s' e : Block_wf b → Block_encodable b →
    accept_block s b = (s', Err (NChain e)) → clean_step s s'
| cs_submit s tx s' r : Transaction_wf tx → encodable true tx →
    submit_transaction s tx = (s', r) → clean_step s s'
| cs_remove s ids : clean_step s (set_mempool s (remove_many (mempool s) ids)).

Inductive reach (step : NodeState → NodeState → Prop) : nat → NodeState → Prop :=
| reach_new : reach step 0 NodeState_new
| reach_step n s s' : reach step n s → step s s' → reach step (S n) s'.

Lemma clean_is_node_step s s' : clean_step s s' → node_step s s'.
Proof using. destruct 1; econstructor; done. Qed.

Lemma with_entry_size ci e :
  (size (entries (with_entry ci e)) ≤ S (size (entries ci)))%nat.
Proof using.
  cbn. destruct (entries ci !! block_hash e) eqn:E.
  - rewrite map_size_insert_Some by eauto. lia.
  - by rewrite map_size_insert_None.
Qed.

Lemma accept_block_size s b s' r :
  node_inv s → Block_wf b → Block_encodable b →
  Z.of_nat (size (entries (chain s))) < 2 ^ 64 → accept_block s b = (s', r) →
  (size (entries (chain s')) ≤ S (size (entries (chain s))))%nat.
Proof using L.
  intros Hi Hw He Hsz Ha.
  pose proof (accept_block_spec s b s' r Hi Hw He Hsz Ha) as (_ & Hr).
  assert (∀ c' e, insert_block (chain s) b = Ok (c', e) →
    (size (entries c') ≤ S (size (entries (chain s))))%nat) as Hins.
  { intros c' e Hins. apply insert_block_inv in Hins as (_ & _ & _ & [->|(_ & -> & _)]);
      [lia|apply with_entry_size|apply Hi|done]. }
  destruct r as [[]|[]|]; [..|done]; 
    try (destruct Hr as (c' & en & Hi' & Hc' & _); rewrite Hc'; by apply (Hins c' en)).
  - destruct Hr as [[e Hi'] _]. by eapply Hins.
  - destruct Hr as [-> _]. lia.
Qed.

Lemma node_step_inv s s' :
  node_inv s → Z.of_nat (size (entries (chain s))) < 2 ^ 64 → node_step s s' →
  node_inv s' ∧ (size (entries (chain s')) ≤ S (size (entries (chain s))))%nat.
Proof using L.
  intros Hi Hsz Hstep. revert Hi Hsz.
  destruct Hstep as [s b s' r Hw He Ha|s tx s' r Hw He Ha|s ids]; intros Hi Hsz.
  - split; [by apply (accept_block_spec _ _ _ _ Hi Hw He Hsz Ha)|by eapply accept_block_size].
  - destruct (submit_transaction_inv _ _ _ _ Hi Hw He Ha) as (? & _ & -> & _). split; [done|lia].
  - split; [|cbn; lia]. by apply node_inv_set_mempool, remove_many_ok, Hi.
Qed.

Lemma reach_inv n s :
  reach node_step n s → Z.of_nat n < 2 ^ 64 →
  node_inv s ∧ (size (entries (chain s)) ≤ n)%nat.
Proof using L.
  induction 1 as [|n s s' Hr IH Hstep]; intros Hn.
  - split; [apply node_inv_new|]. cbn. rewrite map_size_empty. lia.
  - destruct IH as [Hi Hsz]; [lia|].
    destruct (node_step_inv s s' Hi ltac:(lia) Hstep). split; [done|lia].
Qed.

Lemma clean_reach_synced n s :
  reach clean_step n s → Z.of_nat n < 2 ^ 64 → reach node_step n s ∧ tip_synced s.
Proof using L.
  induction 1 as [|n s s' Hr IH Hstep]; intros Hn.
  - split; [constructor|apply node_inv_new].
  - destruct IH as [Hr' Hs]; [lia|].
    split; [econstructor; [done|by apply clean_is_node_step]|].
    destruct (reach_inv n s Hr' ltac:(lia)) as [Hi Hsz]. clear Hr Hr'. revert Hi Hsz Hs.
    destruct Hstep as [s b s' Hw He Ha|s b s' e Hw He Ha|s tx s' r Hw He Ha|s ids];
      intros Hi Hsz Hs.
    + apply (accept_block_spec _ _ _ _ Hi Hw He ltac:(lia)) in Ha as (_ & _ & _ & Hsync). auto.
    + apply (accept_block_spec _ _ _ _ Hi Hw He ltac:(lia)) in Ha as (_ & -> & _). done.
    + destruct (submit_transaction_inv _ _ _ _ Hi Hw He Ha) as (_ & _ & Hc & Hau & Hsn).
      unfold tip_synced. by rewrite Hc, Hau, Hsn.
    + done.
Qed.

End steps.

(** ** Payments *)

Section payments.
Context `{C : Crypto} `{L : !CryptoLaws C}.

Definition key_bytes (k : SigningKey) : bytes := verifying_key_bytes (SigningKey_verifying_key k).

(** The coin is locked to one of the keys. *)
Definition owned (U : UtxoSet) (keys : list SigningKey) (o : OutPoint) : Prop :=
  match U !! o with
  | Some u => locking_data (output u) ∈ key_bytes <$> keys
  | None => False
  end.

#[export] Instance owned_dec U keys o : Decision (owned U keys o).
Proof. unfold owned. destruct (U !! o); apply _. Defined.

Definition owned_value (U : UtxoSet) (keys : list SigningKey) : Z :=
  Zsum (coin_value U <$> filter (owned U keys) (map_to_list U).*1).

Definition keyring (keys : list SigningKey) : list (bytes * SigningKey) :=
  (λ k, (key_bytes k, k)) <$> keys.

(** The key selected for a coin unlocks it. *)
Definition unlocks (U : UtxoSet) (p : OutPoint * SigningKey) : Prop :=
  ∃ u, U !! p.1 = Some u ∧ locking_data (output u) = key_bytes p.2.

Lemma find_key U keys o u :
  U !! o = Some u →
  match List.find (λ p : bytes * SigningKey, bool_decide (p.1 = locking_data (output u)))
          (keyring keys) with
  | Some (_, k) => unlocks U (o, k) ∧ owned U keys o
  | None => ¬ owned U keys o
  end.
Proof using.
  intros Hu. unfold owned. rewrite Hu. destruct (List.find _ _) as [[d k]|] eqn:Hf.
  - apply find_some in Hf as [Hin%list_elem_of_In Heq%bool_decide_eq_true]. cbn in Heq.
    apply list_elem_of_fmap in Hin as (k' & [= -> ->] & Hk').
    split; [by exists u|]. rewrite <-Heq. apply list_elem_of_fmap. eauto.
  - intros (k & Hk & Hin)%list_elem_of_fmap.
    eapply find_none in Hf; [|apply list_elem_of_In, list_elem_of_fmap; eauto].
    cbn in Hf. apply bool_decide_eq_false in Hf. done.
Qed.

Lemma select_coins_spec U keys amt os sel tot sel' tot' :
  utxos_wf U → 0 ≤ tot → tot + Zsum (coin_value U <$> os) < 2 ^ 64 →
  select_coins U (keyring keys) amt os sel tot = (sel', tot') →
  ∃ new, sel' = sel ++ new ∧ sublist new.*1 os
  ∧ Forall (λ p, unlocks U p ∧ owned U keys p.1) new
  ∧ tot' = tot + Zsum (coin_value U <$> new.*1)
  ∧ (tot' < amt → new.*1 = filter (owned U keys) os)
  ∧ (tot < amt → amt ≤ tot' → new ≠ []).
Proof using.
  intros HU. revert sel tot. induction os as [|o os IH]; intros sel tot H0 Hlt; cbn [select_coins].
  { intros [= <- <-]. exists []. rewrite app_nil_r. cbn.
    split_and!; [done|constructor|constructor|unfold Zsum; cbn; lia|done|lia]. }
  rewrite fmap_cons, Zsum_cons in Hlt. pose proof (coin_value_nonneg U o HU) as Hcv.
  assert (0 ≤ Zsum (coin_value U <$> os)) as Hos.
  { apply Zsum_nonneg, Forall_fmap, Forall_true. intros x. by apply coin_value_nonneg. }
  destruct (U !! o) as [u|] eqn:Hu.
  - pose proof (find_key U keys o u Hu) as Hfk.
    destruct (List.find _ _) as [[d k]|].
    + destruct Hfk as [Hunl Hown].
      assert (coin_value U o = value (output u)) as Hval by (unfold coin_value; by rewrite Hu).
      unfold saturating_add, max_uint. rewrite Z.min_l, <-Hval by lia.
      case_bool_decide as Hamt.
      * intros [= <- <-]. exists [(o, k)]. cbn. unfold Zsum; cbn.
        split_and!; [done|by apply sublist_skip, sublist_nil_l|by repeat constructor|lia|lia|done].
      * intros Hrec. apply IH in Hrec as (new & -> & Hsub & Hall & -> & Hfull & _); [|lia..].
        exists ((o, k) :: new). rewrite <-app_assoc. cbn [fmap list_fmap fst].
        rewrite Zsum_cons, filter_cons_True by done.
        split_and!; [done|by apply sublist_skip|by constructor|lia| |done].
        intros Hlt'. f_equal. apply Hfull. lia.
    + intros Hrec. apply IH in Hrec as (new & ? & ? & ? & ? & ? & ?); [|lia..].
      exists new. rewrite filter_cons_False by done.
      split_and!; [done|by apply sublist_cons|done|done|done|done].
  - intros Hrec. apply IH in Hrec as (new & ? & ? & ? & ? & ? & ?); [|lia..].
    exists new. rewrite filter_cons_False by (unfold owned; rewrite Hu; tauto).
    split_and!; [done|by apply sublist_cons|done|done|done|done].
Qed.

Lemma total_value_keys U : Zsum (coin_value U <$> (map_to_list U).*1) = total_value U.
Proof using.
  unfold total_value. f_equal. rewrite <-list_fmap_compose. apply list_fmap_ext.
  intros i [o u] Hi%list_elem_of_lookup_2%elem_of_map_to_list. unfold compose, coin_value; cbn.
  by rewrite Hi.
Qed.

Lemma sorted_outpoints_perm U : sorted_outpoints U ≡ₚ (map_to_list U).*1.
Proof using. apply merge_sort_Permutation. Qed.

(** The transaction before signing, and after. *)
Definition unsigned_payment (sel : list (OutPoint * SigningKey)) (outs : list TxOut) (u : Z)
    : Transaction := {|
  version := 1;
  inputs := (λ p : OutPoint * SigningKey,
               {| previous_output := p.1; unlocking_data := [] |}) <$> sel;
  outputs := outs; lock_time := u
|}.

Definition signed_payment (digest : bytes) (sel : list (OutPoint * SigningKey))
    (outs : list TxOut) (u : Z) : Transaction := {|
  version := 1;
  inputs := (λ p : OutPoint * SigningKey,
               {| previous_output := p.1; unlocking_data := sign_message p.2 digest |}) <$> sel;
  outputs := outs; lock_time := u
|}.

Lemma signed_prevouts d sel outs u :
  previous_output <$> inputs (signed_payment d sel outs u) = sel.*1.
Proof using. cbn. by rewrite <-list_fmap_compose. Qed.

(** Filling in the signatures does not change what was signed. *)
Lemma signed_digest d sel outs u :
  signing_digest (signed_payment d sel outs u) = signing_digest (unsigned_payment sel outs u).
Proof using.
  unfold signing_digest. rewrite !encode_strip. do 2 f_equal.
  apply strip_eq. split_and!; try done. cbn. by rewrite <-!list_fmap_compose.
Qed.

Lemma signed_authorized U d sel outs u :
  Forall (unlocks U) sel → Forall (authorized U d) (inputs (signed_payment d sel outs u)).
Proof using L.
  intros Hsel. cbn. apply Forall_fmap. eapply Forall_impl; [done|].
  intros [o k] (c & Hc & Hlock). cbn in *. exists c, (SigningKey_verifying_key k),
    (SigningKey_sign k d). cbn.
  rewrite Hlock. split_and!; [done|apply parse_verifying_key_bytes
    |apply parse_signature_sign|apply verify_sign].
Qed.

Lemma signed_encodable d sel outs u :
  fits_u32 (length sel) → fits_u32 (length outs) →
  Forall (λ o, fits_u32 (length (locking_data o))) outs →
  encodable true (signed_payment d sel outs u)
  ∧ encodable false (unsigned_payment sel outs u).
Proof using L.
  intros Hs Ho Hl. split; split_and!; cbn; rewrite ?length_fmap; try done.
  intros _. apply Forall_fmap, Forall_true. intros [o k]. cbn. unfold fits_u32, sign_message.
  by rewrite Signature_to_bytes_length.
Qed.

End payments.

Section payment_proof.
Context `{C : Crypto} `{L : !CryptoLaws C}.

Lemma build_payment_unfold U keys ck rk amt u :
  build_payment_transaction U keys ck rk amt u =
  let '(sel, tot) := select_coins U (keyring keys) amt (sorted_outpoints U) [] 0 in
  if bool_decide (tot < amt) then Err (InsufficientFunds amt tot)
  else
    let outs := {| value := amt; locking_data := verifying_key_bytes rk |} ::
      (if bool_decide (0 < tot - amt)
       then [{| value := tot - amt; locking_data := verifying_key_bytes ck |}] else []) in
    digest ← expect (signing_digest (unsigned_payment sel outs u));
    Ok (signed_payment digest sel outs u).
Proof using. done. Qed.

(** The signed transaction spends the selected coins for exactly its outputs. *)
Lemma signed_payment_valid U d sel outs u :
  Forall (unlocks U) sel → NoDup sel.*1 → sel ≠ [] → outs ≠ [] →
  signing_digest (unsigned_payment sel outs u) = Some d →
  Zsum (coin_value U <$> sel.*1) < 2 ^ 64 →
  Zsum (value <$> outs) = Zsum (coin_value U <$> sel.*1) →
  tx_valid U (signed_payment d sel outs u) 0
  ∧ in_value U (signed_payment d sel outs u) = Zsum (coin_value U <$> sel.*1).
Proof using L.
  intros Hunl Hnd Hne Hout Hd Hlt Hsum.
  assert (in_value U (signed_payment d sel outs u) = Zsum (coin_value U <$> sel.*1)) as Hin.
  { unfold in_value. by rewrite list_fmap_compose, signed_prevouts. }
  split; [|done]. split_and!; [done|unfold out_value; cbn [outputs signed_payment]; lia|].
  assert (is_coinbase (signed_payment d sel outs u) = false) as ->.
  { unfold is_coinbase; cbn. by destruct sel. }
  exists d. rewrite signed_digest, signed_prevouts, Hin. unfold out_value; cbn [outputs signed_payment].
  split_and!; [done|done|by apply signed_authorized|done|lia|lia].
Qed.

Lemma signed_payment_wf U d sel outs u :
  Forall (unlocks U) sel → map_Forall (λ o _, OutPoint_wf o) U → u32 u →
  Forall TxOut_wf outs → Transaction_wf (signed_payment d sel outs u).
Proof using.
  intros Hunl Hout Hu Ho. split_and!; cbn; [done|done| |done].
  apply Forall_fmap. eapply Forall_impl; [done|]. intros [o k] (c & Hc & _). cbn in *.
  by apply (Hout o c).
Qed.

Lemma build_payment_cases U keys ck rk amt u :
  utxos_wf U → map_Forall (λ o _, OutPoint_wf o) U →
  total_value U < 2 ^ 64 → fits_u32 (size U) → 0 < amt → u32 u →
  match build_payment_transaction U keys ck rk amt u with
  | Ok tx =>
      tx_valid U tx 0 ∧ Transaction_wf tx ∧ encodable true tx
      ∧ Forall (λ i, owned U keys (previous_output i)) (inputs tx)
      ∧ outputs tx = {| value := amt; locking_data := verifying_key_bytes rk |} ::
          (if bool_decide (0 < in_value U tx - amt)
           then [{| value := in_value U tx - amt; locking_data := verifying_key_bytes ck |}]
           else [])
  | Err e => e = InsufficientFunds amt (owned_value U keys) ∧ owned_value U keys < amt
  | Panic => False
  end.
Proof using L.
  intros HU Hout Htot Hsize Hamt Hu. rewrite build_payment_unfold.
  pose proof (sorted_outpoints_perm U) as Hperm.
  assert (Zsum (coin_value U <$> sorted_outpoints U) = total_value U) as Hsum
    by (rewrite Hperm; apply total_value_keys).
  destruct (select_coins U (keyring keys) amt (sorted_outpoints U) [] 0) as [sel tot] eqn:Hsel.
  apply select_coins_spec in Hsel as (new & -> & Hsub & Hall & -> & Hfull & Hne); [|done|lia|lia].
  apply Forall_and in Hall as [Hunl Hown].
  cbn [app] in *. rewrite Z.add_0_l in *. set (tot := Zsum (coin_value U <$> new.*1)) in *.
  assert (NoDup new.*1) as Hnd.
  { eapply sublist_NoDup; [|done]. rewrite Hperm. apply (NoDup_fst_map_to_list U). }
  assert (Forall (λ o, 0 ≤ coin_value U o) (sorted_outpoints U)) as Hnn.
  { apply Forall_true. intros o. by apply coin_value_nonneg. }
  case_bool_decide as Hlt.
  { specialize (Hfull Hlt). assert (tot = owned_value U keys) as <-; [|done].
    unfold tot, owned_value. by rewrite Hfull, Hperm. }
  assert (tot ≤ total_value U) as Htle.
  { unfold tot. rewrite <-Hsum. by apply Zsum_sublist_le. }
  set (outs := _ :: _). cbv zeta.
  assert (Zsum (value <$> outs) = tot ∧ Forall TxOut_wf outs
    ∧ Forall (λ o, fits_u32 (length (locking_data o))) outs ∧ fits_u32 (length outs))
    as (Hos & How & Hol & Hof).
  { unfold outs, TxOut_wf, uint, fits_u32, verifying_key_bytes, Zsum.
    case_bool_decide; cbn; split_and!; repeat constructor; cbn;
      rewrite ?VerifyingKey_to_bytes_length; try done; lia. }
  assert (fits_u32 (length new)) as Hlen.
  { unfold fits_u32 in *. apply sublist_length in Hsub. rewrite length_fmap in Hsub.
    rewrite Hperm, length_fmap, length_map_to_list in Hsub. lia. }
  destruct (signed_encodable [] new outs u Hlen Hof Hol) as [_ Henc].
  destruct (signing_digest_is_Some _ Henc) as [d Hd]. rewrite Hd. cbn [expect mbind result_bind].
  destruct (signed_payment_valid U d new outs u) as [Hval Hin]; [done|done|auto with lia|done|done|lia|done|].
  split_and!; [done|by eapply signed_payment_wf|by apply signed_encodable| |by rewrite Hin].
  by apply Forall_fmap.
Qed.

End payment_proof.

Lemma sum_u64_Some l :
  Forall (λ z, 0 ≤ z) l → Zsum l < 2 ^ 64 → sum_u64 l = Some (Zsum l).
Proof.
  unfold sum_u64. intros Hl. rewrite <-(Z.add_0_l (Zsum l)).
  assert (∀ s, 0 ≤ s → s + Zsum l < 2 ^ 64 →
    try_fold (add_or_panic 64) s l = Some (s + Zsum l)) as Hgen; [|by apply Hgen].
  induction Hl as [|z l Hz Hl IH]; intros s Hs Hlt; cbn [try_fold].
  - cbn. f_equal. unfold Zsum; cbn. lia.
  - rewrite Zsum_cons in *. pose proof (Zsum_nonneg l Hl).
    unfold add_or_panic, checked_add. rewrite bool_decide_eq_true_2 by lia. cbn.
    unfold add_or_panic in IH. rewrite IH by lia. f_equal. lia.
Qed.

Lemma owned_value_single `{C : Crypto} U k :
  owned_value U [k]
  = Zsum ((λ p, value (output p.2)) <$>
      filter (λ p : OutPoint * Utxo, locking_data (output p.2) = key_bytes k) (map_to_list U)).
Proof.
  unfold owned_value. f_equal.
  assert (∀ l, (∀ o u, (o, u) ∈ l → U !! o = Some u) →
    coin_value U <$> filter (owned U [k]) l.*1
    = (λ p, value (output p.2)) <$>
        filter (λ p : OutPoint * Utxo, locking_data (output p.2) = key_bytes k) l) as Hgen.
  { induction l as [|[o u] l IH]; intros Hl; [done|].
    assert (U !! o = Some u) as Hu by (apply Hl; by left).
    specialize (IH ltac:(intros; apply Hl; by right)).
    assert (owned U [k] o ↔ locking_data (output u) = key_bytes k) as Hiff.
    { unfold owned. rewrite Hu. cbn. set_solver. }
    rewrite fmap_cons, !filter_cons. cbn [fst snd].
    destruct (decide (owned U [k] o)) as [Ho|Ho], (decide (locking_data _ = key_bytes k));
      try tauto; rewrite ?fmap_cons, IH; try done.
    f_equal. unfold coin_value. by rewrite Hu. }
  apply Hgen. intros o u. apply elem_of_map_to_list.
Qed.

Section mine_proof.
Context `{C : Crypto} `{L : !CryptoLaws C}.

Lemma accept_blocks_spec bs s :
  node_inv s → tip_synced s → Forall (λ b, Block_wf b ∧ Block_encodable b) bs →
  Z.of_nat (size (entries (chain s)) + length bs) < 2 ^ 64 →
  match accept_blocks s bs with
  | (s', Ok _) => node_inv s' ∧ tip_synced s'
  | (_, Err e) => ∃ bs1 b bs2 s1, bs = bs1 ++ b :: bs2
      ∧ accept_blocks s bs1 = (s1, Ok ()) ∧ (accept_block s1 b).2 = Err e
  | (_, Panic) => False
  end.
Proof using L.
  revert s. induction bs as [|b bs IH]; intros s Hi Hs Hbs Hsz; cbn [accept_blocks]; [done|].
  apply Forall_cons in Hbs as [[Hw He] Hbs]. cbn [length] in Hsz.
  destruct (accept_block s b) as [s1 r] eqn:Ha.
  pose proof (accept_block_spec s b s1 r Hi Hw He ltac:(lia) Ha) as (Hi1 & Hr).
  pose proof (accept_block_size s b s1 r Hi Hw He ltac:(lia) Ha) as Hsz1.
  destruct r as [[]|e|]; [|exists [], b, bs, s; by rewrite Ha|done].
  destruct Hr as (_ & _ & Hsync).
  specialize (IH s1 Hi1 (Hsync Hs) Hbs ltac:(lia)).
  destruct (accept_blocks s1 bs) as [s2 [[]|e|]]; [done| |done].
  destruct IH as (bs1 & b' & bs2 & s' & -> & Hacc & Herr).
  exists (b :: bs1), b', bs2, s'. split_and!; [done| |done]. cbn. by rewrite Ha.
Qed.

(** The fee loop of [mine_block]. *)
Lemma fees_nonneg U txs s r :
  utxos_wf U → Forall Transaction_wf txs →
  try_fold (λ total tx, f ← transaction_fee U tx;
    ok_or (checked_add 64 total f) InputValueOverflow) s txs = Ok r → s ≤ r.
Proof using.
  intros HU Hw. revert s. induction Hw as [|tx txs Hw _ IH]; intros s; cbn [try_fold].
  - intros [= ->]. lia.
  - intros (s1 & (f & Hf & Ha)%result_bind_Ok & Hr)%result_bind_Ok.
    apply transaction_fee_Ok, tx_valid_fee_nonneg in Hf; [|done..].
    apply ok_or_Ok, checked_add_Some in Ha as [_ ->]. apply IH in Hr. lia.
Qed.

Lemma best_tip_wf s :
  node_inv s → BlockHash_wf (default BlockHash_default (best_tip (chain s))).
Proof using L.
  intros Hi. pose proof (cw_best _ (ni_chain s Hi)) as Hb.
  destruct (best_tip (chain s)) as [t|]; [|done]. cbn. destruct Hb as (te & Hte & _).
  destruct (proj2 (ni_blocks s Hi t)) as [b Hbl]; [by eexists|].
  destruct (ni_stored s Hi t b Hbl) as (<- & _). apply header_hash_length.
Qed.

(** A fresh child of the best tip outworks it. *)
Lemma child_of_tip_is_best ci b ci' e t :
  chain_wf ci → Block_wf b → Z.of_nat (size (entries ci)) < 2 ^ 64 →
  insert_block ci b = Ok (ci', e) → entries ci !! header_hash (header b) = None →
  prev_blockhash (header b) = default BlockHash_default (best_tip ci) → t = header_hash (header b) →
  best_tip ci' = Some t.
Proof using L.
  intros Hc Hw Hsz Hins Hnew Hprev ->.
  pose proof Hins as (Hv & _ & Hlk & Hcase)%insert_block_inv; [|done..].
  destruct (block_valid_work b Hw Hv) as (w' & Hw' & Hwr).
  destruct Hcase as [->|(_ & -> & w & Hwk & Hl & Hh)]; [congruence|].
  assert (w = w') as -> by congruence. cbn. unfold tip_after.
  pose proof (cw_best ci Hc) as Hb. rewrite Hprev in Hl.
  destruct (best_tip ci) as [t|]; cbn in *; [|by rewrite Hh].
  destruct Hb as (te & Hte & _). rewrite Hte.
  destruct Hl as [(Hem & _)|(pe & Hpe & _ & Hcw & _)]; [by rewrite Hem in Hte|].
  simplify_eq. rewrite bool_decide_eq_true_2 by lia. by rewrite Hh.
Qed.

(** Either a well-formed child of the tip was assembled and handed to
    [accept_block], or nothing changed. *)
Lemma NodeState_mine_block_cases fuel s sub vk u bts max s' r :
  node_inv s → u64 sub → u32 u → u32 bts → 0 ≤ max →
  NodeState_mine_block fuel s sub vk u bts max = (s', r) →
  (s' = s ∧ is_ok r = false)
  ∨ ∃ b ids s1 ra, accept_block s b = (s1, ra) ∧ Block_wf b ∧ Block_encodable b
    ∧ prev_blockhash (header b) = default BlockHash_default (best_tip (chain s))
    ∧ (∃ txs, collect_valid (mempool s) (active_utxos s) max = Some (txs, ids))
    ∧ match ra with
      | Ok _ => s' = set_mempool s1 (remove_many (mempool s1) ids)
                ∧ r = Ok (header_hash (header b))
      | Err e => s' = s1 ∧ r = Err (Some e)
      | Panic => s' = s1 ∧ r = Panic
      end.
Proof using L.
  intros Hi Hsub Hu Hb Hmax. unfold NodeState_mine_block.
  destruct (collect_valid_run (active_utxos s) (mempool s) max (active_wf s Hi)
    (mempool_keyed _ _ (ni_mempool s Hi)) Hmax) as (l & U' & fs & Hcol & _ & _ & Hmem & _).
  rewrite Hcol. cbn [expect mbind result_bind].
  destruct (map_err _ (try_fold _ 0 l.*2)) as [fees|e|] eqn:Hfees; cbn [mbind result_bind];
    [|by intros [= <- <-]; left..].
  destruct (add_or_panic 64 sub fees) as [rew|] eqn:Hrew; cbn [expect mbind result_bind];
    [|by intros [= <- <-]; left].
  destruct (mine_block _ _ _ _ _ _ _) as [b|e|] eqn:Hmine; cbn [map_err mbind result_bind];
    [|by intros [= <- <-]; left..].
  assert (Forall (λ tx, Transaction_wf tx ∧ encodable true tx) l.*2) as [Hw He]%Forall_and.
  { apply Forall_fmap, Forall_forall. intros [id tx] Hin. cbn.
    destruct (mo_tx _ _ (ni_mempool s Hi) id tx (Hmem id tx Hin)) as (Hid & ? & _).
    split; [done|by eapply txid_encodable]. }
  assert (u64 rew) as Hrw.
  { apply map_err_Ok in Hfees. apply fees_nonneg in Hfees; [|by apply active_wf|done].
    apply checked_add_Some in Hrew as [? ->]. unfold uint in *. lia. }
  destruct (mine_block_wf _ _ _ _ _ _ _ _ (best_tip_wf s Hi) Hrw Hu Hb Hw He Hmine) as (? & ? & ?).
  destruct (accept_block s b) as [s1 ra] eqn:Ha. intros Hr. right. exists b, l.*1, s1, ra.
  split_and!; eauto. by destruct ra as [[]|e|]; injection Hr as <- <-.
Qed.

Lemma NodeState_mine_block_spec fuel s sub vk u bts max s' h :
  node_inv s → u64 sub → u32 u → u32 bts → 0 ≤ max →
  NodeState_mine_block fuel s sub vk u bts max = (s', Ok h) →
  ∃ b ids s1, accept_block s b = (s1, Ok ()) ∧ Block_wf b ∧ Block_encodable b
  ∧ h = header_hash (header b)
  ∧ prev_blockhash (header b) = default BlockHash_default (best_tip (chain s))
  ∧ (∃ txs, collect_valid (mempool s) (active_utxos s) max = Some (txs, ids))
  ∧ s' = set_mempool s1 (remove_many (mempool s1) ids).
Proof using L.
  intros Hi Hsub Hu Hb Hmax Hm.
  apply NodeState_mine_block_cases in Hm as [[_ Hm]|(b & ids & s1 & ra & Ha & ? & ? & ? & ? & Hr)];
    [done| |done..].
  destruct ra as [[]|e|]; destruct Hr as [-> Hr]; [injection Hr as ->|done..]. by exists b, ids, s1.
Qed.

(** Whatever mining returns, the node invariant holds afterwards. *)
Lemma NodeState_mine_block_keeps fuel s sub vk u bts max s' r :
  node_inv s → u64 sub → u32 u → u32 bts → 0 ≤ max →
  NodeState_mine_block fuel s sub vk u bts max = (s', r) → node_inv s'.
Proof using L.
  intros Hi Hsub Hu Hb Hmax Hm.
  apply NodeState_mine_block_cases in Hm as [[-> _]|(b & ids & s1 & ra & Ha & Hw & He & _ & _ & Hr)];
    [done| |done..].
  apply accept_block_any in Ha as [Hi1 _]; [|done..].
  destruct ra; destruct Hr as [-> _]; [|done..]. by apply node_inv_set_mempool, remove_many_ok, Hi1.
Qed.

(** Whatever mining returns, the node invariant holds afterwards and at most
    one block has been added. *)
Lemma NodeState_mine_block_inv fuel s sub vk u bts max s' r :
  node_inv s → u64 sub → u32 u → u32 bts → 0 ≤ max →
  Z.of_nat (size (entries (chain s))) < 2 ^ 64 →
  NodeState_mine_block fuel s sub vk u bts max = (s', r) →
  node_inv s' ∧ (size (entries (chain s')) ≤ S (size (entries (chain s))))%nat
  ∧ (is_ok r = true → tip_synced s → tip_synced s').
Proof using L.
  intros Hi Hsub Hu Hb Hmax Hsz Hm.
  apply NodeState_mine_block_cases in Hm as [[-> Hm]|(b & ids & s1 & ra & Ha & Hw & He & _ & _ & Hr)];
    [rewrite Hm; split_and!; [done|lia|done]| |done..].
  pose proof (accept_block_size _ _ _ _ Hi Hw He Hsz Ha) as Hs1.
  apply accept_block_spec in Ha as [Hi1 Ha]; [|done..].
  destruct ra as [[]|e|]; destruct Hr as [-> ->]; [|by split_and!..].
  split_and!; [by apply node_inv_set_mempool, remove_many_ok, Hi1|done|]. intros _. apply Ha.
Qed.

End mine_proof.

(** ** Theorems *)

Section claims.
Context `{C : Crypto} `{L : !CryptoLaws C}.

(** C2: [accept_block] on every branch, for any well-formed block and node state:
    it never panics and re-establishes the node invariant
    even when it fails.  [Ok] means the block is indexed and its coins are
    cached, and keeps the active view in step with the best tip; a chain error
    leaves the state untouched; any later error leaves the block indexed
    and stored but without coins. *)
Theorem accept_block_correct (s : NodeState) (b : Block) (s' : NodeState)
    (r : result NodeStateError unit) :
  node_inv s → Block_wf b → Block_encodable b →
  Z.of_nat (size (entries (chain s))) < 2 ^ 64 → accept_block s b = (s', r) →
  node_inv s' ∧
  match r with
  | Ok _ => (∃ e, insert_block (chain s) b = Ok (chain s', e))
            ∧ is_Some (utxo_snapshots s' !! header_hash (header b))
            ∧ (tip_synced s → tip_synced s')
  | Err (NChain e) => s' = s ∧ insert_block (chain s) b = Err e
  | Err _ => poisoned s b s'
  | Panic => False
  end.
Proof using L. apply accept_block_spec. Qed.

(** C1: Refinement of the node to its specification: after any sequence of
    operations in which every indexed block also applied, the active coin
    set is exactly the result of replaying, from the empty set, the blocks of the
    best chain (a chain of maximal cumulative work) from genesis to the tip. *)
Theorem active_view_is_best_chain (n : nat) (s : NodeState) :
  reach clean_step n s → Z.of_nat n < 2 ^ 64 →
  match best_tip (chain s) with
  | None => active_utxos s = ∅ ∧ entries (chain s) = ∅
  | Some t => ∃ te l bs, entries (chain s) !! t = Some te
      ∧ (∀ h e, entries (chain s) !! h = Some e → cumulative_work e ≤ cumulative_work te)
      ∧ ancestry (entries (chain s)) t l
      ∧ Forall2 (λ h b, blocks s !! h = Some b) (reverse l) bs
      ∧ replay ∅ 0 bs = Ok (active_utxos s)
  end.
Proof using L.
  intros Hr Hn. destruct (clean_reach_synced n s Hr Hn) as [Hr' Hs].
  destruct (reach_inv n s Hr' Hn) as [Hi _]. pose proof (cw_best _ (ni_chain s Hi)) as Hb.
  unfold tip_synced in Hs. destruct (best_tip (chain s)) as [t|]; [|done].
  destruct Hb as (te & Hte & Hmax).
  destruct (ancestry_exists _ t te (cw_entries _ (ni_chain s Hi)) Hte) as (l & Hl & _).
  destruct (snapshot_replay s t l _ Hi Hl Hs) as (bs & Hbs & Hrep). eauto 10.
Qed.

(** C3: Whatever sequence of blocks and transactions a node is given, valid
    or not: every pending transaction is valid against the active coins, the pending
    transactions do not conflict, and the supply of every cached coin set is at most one
    subsidy per block of its branch. *)
Theorem node_safety (n : nat) (s : NodeState) :
  reach node_step n s → Z.of_nat n < 2 ^ 64 →
  mempool_ok (active_utxos s) (mempool s) ∧ utxos_wf (active_utxos s)
  ∧ ∀ h U, utxo_snapshots s !! h = Some U →
      ∃ e, entries (chain s) !! h = Some e ∧ utxos_wf U
        ∧ 0 ≤ total_value U ≤ BLOCK_SUBSIDY * (height e + 1).
Proof using L.
  intros Hr Hn. destruct (reach_inv n s Hr Hn) as [Hi _].
  split_and!; [apply Hi|by apply active_wf|]. intros h U HU.
  destruct (ni_snapshot s Hi h U HU) as (e & b & He & _ & _ & Hwf & Htot).
  exists e. split_and!; [done..|by apply total_value_nonneg|done].
Qed.

(** A block that fails to apply still moves the best tip: if it is indexed as the new tip
    but its transactions are refused, the tip names a block without coins, the active view stays
    behind, and every later block on top of it is refused for want of its parent's coins. *)
Theorem failed_block_poisons_tip (s : NodeState) (b : Block) (s' : NodeState) (ce : ConsensusError) :
  node_inv s → Block_wf b → Block_encodable b →
  Z.of_nat (size (entries (chain s))) < 2 ^ 64 →
  accept_block s b = (s', Err (NConsensus ce)) →
  (∀ ch e, insert_block (chain s) b = Ok (ch, e) →
     best_tip ch = Some (header_hash (header b))) →
  best_tip (chain s') = Some (header_hash (header b))
  ∧ active_utxos s' = active_utxos s ∧ ¬ tip_synced s'
  ∧ ∀ c ch e, prev_blockhash (header c) = header_hash (header b) →
      insert_block (chain s') c = Ok (ch, e) → parent e = Some (header_hash (header b)) →
      utxo_snapshots s' !! block_hash e = None →
      (accept_block s' c).2 = Err (MissingParentState (header_hash (header b))).
Proof using L.
  intros Hi Hw He Hsz Ha Htip.
  pose proof (accept_block_spec s b s' _ Hi Hw He Hsz Ha) as (_ & ch & e & Hins & Hch & Hact & _ & _ & Hnone & _).
  rewrite Hch, (Htip ch e Hins). split_and!; [done|done| |].
  - unfold tip_synced. rewrite Hch, (Htip ch e Hins). congruence.
  - intros c ch2 e2 Hprev Hins2 Hpar Hsn. rewrite <-Hch in Hins2.
    unfold accept_block. rewrite Hins2, Hpar.
    unfold ensure_snapshot; cbn [utxo_snapshots blocks].
    rewrite bool_decide_eq_false_2 by (rewrite Hsn; by intros []). by rewrite Hnone.
Qed.

(** Payments: with fewer than 2^32 coins worth less than 2^64 in total,
    [build_payment_transaction] never panics; it fails exactly by
    reporting the whole balance of the sender's keys, when that is less than the amount;
    otherwise the transaction is valid with fee 0, pays the amount to the
    recipient first, returns the exact change, and spends only the sender's coins. *)
Theorem build_payment_correct (U : UtxoSet) (keys : list SigningKey)
    (change_key recipient : VerifyingKey) (amt u : Z) :
  utxos_wf U → map_Forall (λ o _, OutPoint_wf o) U →
  total_value U < 2 ^ 64 → fits_u32 (size U) → 0 < amt → u32 u →
  match build_payment_transaction U keys change_key recipient amt u with
  | Ok tx =>
      tx_valid U tx 0 ∧ Transaction_wf tx ∧ encodable true tx
      ∧ Forall (λ i, owned U keys (previous_output i)) (inputs tx)
      ∧ outputs tx = {| value := amt; locking_data := verifying_key_bytes recipient |} ::
          (if bool_decide (0 < in_value U tx - amt)
           then [{| value := in_value U tx - amt;
                    locking_data := verifying_key_bytes change_key |}] else [])
  | Err e => e = InsufficientFunds amt (owned_value U keys) ∧ owned_value U keys < amt
  | Panic => False
  end.
Proof using L.
  intros HU Hout Htot Hsize Hamt Hu. by apply build_payment_cases.
Qed.

(** [balance_for_key] is the exact value of the coins locked to the key,
    without overflow, as long as the active supply fits in a [u64]. *)
Theorem balance_for_key_correct (s : NodeState) (k : SigningKey) :
  utxos_wf (active_utxos s) → total_value (active_utxos s) < 2 ^ 64 →
  balance_for_key s (SigningKey_verifying_key k) = Some (owned_value (active_utxos s) [k]).
Proof using.
  intros HU Ht. unfold balance_for_key. rewrite owned_value_single.
  fold (key_bytes k). apply sum_u64_Some.
  - apply Forall_fmap, Forall_forall.
    intros [o c] [_ Hin%elem_of_map_to_list]%list_elem_of_filter.
    apply HU in Hin as [_ Hv]. apply Hv.
  - eapply Z.le_lt_trans; [|exact Ht]. unfold total_value.
    apply Zsum_sublist_le; [apply sublist_filter|].
    apply Forall_forall. intros [o c] Hin%elem_of_map_to_list.
    apply HU in Hin as [_ Hv]. apply Hv.
Qed.

(** Restoring from disk: rebuilding a node from stored blocks and a stored
    mempool either reports the error of a block that does not fit or
    gives a state that satisfies the node invariant, with the active view in step with
    the best tip and the stale pending transactions dropped; it never panics. *)
Theorem from_persisted_correct (bs : list Block) (mp : Mempool) (U0 : UtxoSet) :
  Forall (λ b, Block_wf b ∧ Block_encodable b) bs → Z.of_nat (length bs) < 2 ^ 64 →
  mempool_ok U0 mp →
  match from_persisted bs mp with
  | Ok s => node_inv s ∧ tip_synced s ∧ mempool s ⊆ mp
  | Err e => ∃ bs1 b bs2 s1, bs = bs1 ++ b :: bs2
      ∧ accept_blocks NodeState_new bs1 = (s1, Ok ()) ∧ (accept_block s1 b).2 = Err e
  | Panic => False
  end.
Proof using L.
  intros Hbs Hlen Hmp. unfold from_persisted.
  pose proof (accept_blocks_spec bs NodeState_new (proj1 node_inv_new) (proj2 node_inv_new) Hbs) as H.
  cbn [chain NodeState_new ChainIndex_new entries] in H. rewrite map_size_empty in H.
  specialize (H ltac:(lia)). destruct (accept_blocks NodeState_new bs) as [s [[]|e|]].
  - destruct H as (Hi & Hs).
    destruct (prune_invalid_spec U0 (active_utxos s) mp (active_wf s Hi) Hmp)
      as (mp' & -> & Hok & Hlk). cbn.
    split_and!; [by apply node_inv_set_mempool|done|].
    apply map_subseteq_spec. intros id tx Hid. cbn in Hid. by apply Hlk in Hid as [? _].
  - done.
  - done.
Qed.

End claims.

(** ** Witnesses *)

Module DemoNode.
#[local] Existing Instance Toy.crypto.
#[local] Existing Instance Toy.laws.

Lemma run_pair {A B} (p : A * B) (b : B) : p.2 = b → p = (p.1, b).
Proof. destruct p; cbn. by intros ->. Qed.

Definition s1 : NodeState := (accept_block NodeState_new DemoBlocks.genesis).1.
Definition s2 : NodeState := (submit_transaction s1 Demo.payment).1.
Definition s3 : NodeState := (accept_block s2 DemoBlocks.block1).1.

(** A block on the genesis block whose coinbase claims too much. *)
Definition greedy : Block :=
  Eval vm_compute in DemoBlocks.search 64
    (DemoBlocks.unsolved (header_hash (header DemoBlocks.genesis)) 3 [DemoBlocks.reward 1000 9]).
Definition s_bad : NodeState := (accept_block s1 greedy).1.

Example accept1 : accept_block NodeState_new DemoBlocks.genesis = (s1, Ok ()).
Proof. unfold s1. apply run_pair. vm_decide. Qed.
Example submit2 : submit_transaction s1 Demo.payment = (s2, Ok Demo.payment_id).
Proof. unfold s2. apply run_pair. vm_decide. Qed.
Example accept3 : accept_block s2 DemoBlocks.block1 = (s3, Ok ()).
Proof. unfold s3. apply run_pair. vm_decide. Qed.
Example accept_bad :
  accept_block s1 greedy = (s_bad, Err (NConsensus (CoinbaseRewardTooLarge 50 1000))).
Proof. unfold s_bad. apply run_pair. vm_decide. Qed.

Definition tip_of (r : result ChainError (ChainIndex * ChainIndexEntry)) : option BlockHash :=
  match r with Ok p => best_tip p.1 | _ => None end.

Example bad_tip : tip_of (insert_block (chain s1) greedy) = Some (header_hash (header greedy)).
Proof. vm_decide. Qed.

Lemma node_reach1 : reach clean_step 1 s1.
Proof.
  eapply reach_step; [apply reach_new|]. eapply cs_accept; [| |exact accept1]; vm_decide.
Qed.
Lemma node_reach3 : reach clean_step 3 s3.
Proof.
  apply (reach_step _ 2 s2).
  - eapply reach_step; [exact node_reach1|]. eapply cs_submit; [| |exact submit2]; vm_decide.
  - eapply cs_accept; [| |exact accept3]; vm_decide.
Qed.

Lemma inv1 : node_inv s1 ∧ tip_synced s1.
Proof.
  destruct (clean_reach_synced 1 s1 node_reach1 ltac:(vm_decide)) as [Hr Hs].
  split; [by apply (reach_inv 1 s1 Hr)|done].
Qed.

Definition mined : NodeState * result (option NodeStateError) BlockHash :=
  NodeState_mine_block 64 s1 50 x05 7 DemoBlocks.easy_bits 10.
Definition mined_hash : BlockHash :=
  match mined.2 with Ok h => h | _ => BlockHash_default end.

End DemoNode.

Lemma accept_block_correct_witness : node_inv (C:=Toy.crypto) DemoNode.s_bad.
Proof.
  refine (proj1 (accept_block_correct (C:=Toy.crypto) (L:=Toy.laws) DemoNode.s1 DemoNode.greedy
    DemoNode.s_bad (Err (NConsensus (CoinbaseRewardTooLarge 50 1000))) (proj1 DemoNode.inv1)
    _ _ _ DemoNode.accept_bad)); vm_decide.
Defined.

Lemma active_view_is_best_chain_witness :
  match best_tip (chain DemoNode.s3) with
  | None => active_utxos DemoNode.s3 = ∅ ∧ entries (chain DemoNode.s3) = ∅
  | Some t => ∃ te l bs, entries (chain DemoNode.s3) !! t = Some te
      ∧ (∀ h e, entries (chain DemoNode.s3) !! h = Some e → cumulative_work e ≤ cumulative_work te)
      ∧ ancestry (entries (chain DemoNode.s3)) t l
      ∧ Forall2 (λ h b, blocks DemoNode.s3 !! h = Some b) (reverse l) bs
      ∧ replay (C:=Toy.crypto) ∅ 0 bs = Ok (active_utxos DemoNode.s3)
  end.
Proof.
  refine (active_view_is_best_chain (C:=Toy.crypto) (L:=Toy.laws) 3 DemoNode.s3
    DemoNode.node_reach3 _).
  vm_decide.
Defined.

Lemma node_safety_witness :
  mempool_ok (C:=Toy.crypto) (active_utxos DemoNode.s3) (mempool DemoNode.s3).
Proof.
  refine (proj1 (node_safety (C:=Toy.crypto) (L:=Toy.laws) 3 DemoNode.s3
    (proj1 (clean_reach_synced (L:=Toy.laws) 3 DemoNode.s3 DemoNode.node_reach3 _)) _)); vm_decide.
Defined.

Lemma failed_block_poisons_tip_witness :
  best_tip (chain DemoNode.s_bad) = Some (header_hash (C:=Toy.crypto) (header DemoNode.greedy))
  ∧ ¬ tip_synced DemoNode.s_bad.
Proof.
  destruct (failed_block_poisons_tip (C:=Toy.crypto) (L:=Toy.laws) DemoNode.s1 DemoNode.greedy
    DemoNode.s_bad (CoinbaseRewardTooLarge 50 1000) (proj1 DemoNode.inv1)
    ltac:(vm_decide) ltac:(vm_decide) ltac:(vm_decide) DemoNode.accept_bad) as (H1 & _ & H3 & _).
  - intros ch e Hins. pose proof DemoNode.bad_tip as Ht. rewrite Hins in Ht. exact Ht.
  - split; [exact H1|exact H3].
Defined.

Lemma build_payment_correct_witness :
  ∃ tx, build_payment_transaction (C:=Toy.crypto) Demo.coins [x05] x05 x06 30 1 = Ok tx
    ∧ tx_valid (C:=Toy.crypto) Demo.coins tx 0.
Proof.
  pose proof (build_payment_correct (C:=Toy.crypto) (L:=Toy.laws) Demo.coins [x05] x05 x06 30 1
    DemoPool.coins_wf ltac:(vm_decide) ltac:(vm_decide) ltac:(vm_decide) ltac:(vm_decide)
    ltac:(vm_decide)) as H.
  destruct (build_payment_transaction (C:=Toy.crypto) Demo.coins [x05] x05 x06 30 1) as [tx|e|] eqn:E.
  - exists tx. split; [reflexivity|]. apply H.
  - apply (f_equal is_ok) in E. vm_compute in E. discriminate.
  - destruct H.
Defined.

Lemma balance_for_key_correct_witness :
  balance_for_key (C:=Toy.crypto) DemoNode.s1 (SigningKey_verifying_key (Crypto:=Toy.crypto) x05)
  = Some (owned_value (C:=Toy.crypto) (active_utxos DemoNode.s1) [x05]).
Proof.
  apply (balance_for_key_correct (C:=Toy.crypto) DemoNode.s1 x05); vm_decide.
Defined.

Lemma from_persisted_correct_witness :
  ∃ s, from_persisted (C:=Toy.crypto) [DemoBlocks.genesis; DemoBlocks.block1] DemoPool.pool = Ok s
    ∧ tip_synced s.
Proof.
  pose proof (from_persisted_correct (C:=Toy.crypto) (L:=Toy.laws)
    [DemoBlocks.genesis; DemoBlocks.block1] DemoPool.pool Demo.coins
    ltac:(vm_decide) ltac:(vm_decide) DemoPool.pool_ok) as H.
  destruct (from_persisted (C:=Toy.crypto) [DemoBlocks.genesis; DemoBlocks.block1] DemoPool.pool) as [s|e|] eqn:E.
  - exists s. split; [reflexivity|]. apply H.
  - apply (f_equal is_ok) in E. vm_compute in E. discriminate.
  - destruct H.
Defined.
