(* ===== verification/NodeMining.v ===== *)
(** * node_state.rs: mining through the node

    [NodeState::mine_block] on every branch: which transactions it selects, which block it puts
    together from them, and what comes of it. *)

From S2P Require Import Prelude Bytes Crypto Types State Consensus Chain Mempool Mining NodeState.

Section mining.
Context `{C : Crypto} `{L : !CryptoLaws C}.

(** ** Specification *)

(** The pending transactions of a block on [s], with the fee each pays: at most [max] of them, in the order of their ids, which apply
    one after the other; all of them, if there is room and no id names a coin that exists. *)
Record selected (s : NodeState) (max : Z) (sel : list (Txid * Transaction)) (fees : list Z) : Prop := {
  se_pending id tx : (id, tx) ∈ sel → mempool s !! id = Some tx;
  se_sorted : StronglySorted entry_le sel;
  se_nodup : NoDup sel.*1;
  se_count : Z.of_nat (length sel) ≤ max;
  se_applies : ∃ U total, apply_txs 0 (active_utxos s) sel.*2 U total;
  se_fees : Forall2 (tx_valid (active_utxos s)) sel.*2 fees;
  se_all :
    (∀ id n, is_Some (mempool s !! id) → active_utxos s !! {| txid := id; vout := n |} = None) →
    Z.of_nat (size (mempool s)) ≤ max → sel ≡ₚ map_to_list (mempool s)
}.

(** A block on the best tip of [s] that holds a coinbase to [vk] of the subsidy and all fees,
    followed by the selected transactions; its nonce is free. *)
Record assembled (s : NodeState) (subsidy : Z) (vk : VerifyingKey) (u bts : Z)
    (sel : list (Txid * Transaction)) (fees : list Z) (b : Block) : Prop := {
  as_parent : prev_blockhash (header b) = default BlockHash_default (best_tip (chain s));
  as_bits : bits (header b) = bts;
  as_transactions : transactions b = coinbase_transaction (subsidy + Zsum fees) vk u :: sel.*2;
  as_merkle : merkle_root b = Some (header_merkle_root (header b));
  as_reward : subsidy + Zsum fees < 2 ^ 64
}.

(** ** Lemmas *)

Lemma collect_selected s max :
  node_inv s → 0 ≤ max →
  ∃ sel fees, collect_valid (mempool s) (active_utxos s) max = Some (sel.*2, sel.*1)
    ∧ selected s max sel fees.
Proof using L.
  intros Hi Hmax. pose proof (active_wf s Hi) as HU. pose proof (ni_mempool s Hi) as Hok.
  destruct (collect_valid_run (active_utxos s) (mempool s) max HU (mempool_keyed _ _ Hok) Hmax)
    as (sel & U' & total & Hcol & _ & Hsort & Hmem & Hnd & Happ & Hlen).
  assert (∃ fees, Forall2 (tx_valid (active_utxos s)) sel.*2 fees) as [fees Hfees].
  { clear -Hmem Hok. induction sel as [|[id tx] sel IH]; [by exists []|].
    destruct IH as [fees Hf]; [intros; apply Hmem; by right|].
    destruct (mo_tx _ _ Hok id tx) as (_ & _ & [f Hv]); [apply Hmem; by left|]. exists (f :: fees). by constructor. }
  exists sel, fees. split; [done|]. split; try done; [by eauto|]. intros Hfresh Hsz.
  destruct (collect_valid_complete (active_utxos s) (mempool s) max HU Hok Hfresh Hsz) as (l & Hl & Hperm).
  rewrite Hcol in Hl. injection Hl as H2 H1.
  rewrite <-(zip_fst_snd sel), H1, H2. by rewrite zip_fst_snd.
Qed.

Lemma fees_total U txs fees acc :
  utxos_wf U → Forall Transaction_wf txs → Forall2 (tx_valid U) txs fees → 0 ≤ acc < 2 ^ 64 →
  try_fold (λ total tx, f ← transaction_fee U tx;
    ok_or (checked_add 64 total f) InputValueOverflow) acc txs
  = if bool_decide (acc + Zsum fees < 2 ^ 64) then Ok (acc + Zsum fees) else Err InputValueOverflow.
Proof using.
  intros HU Hw Hf. revert acc. induction Hf as [|tx f txs fees Hv Hf IH]; intros acc Hacc; cbn [try_fold].
  - unfold Zsum; cbn. rewrite Z.add_0_r, bool_decide_eq_true_2 by lia. done.
  - apply Forall_cons in Hw as [Hwt Hw]. pose proof (tx_valid_fee_nonneg _ _ _ Hv) as Hf0.
    assert (0 ≤ Zsum fees) as Hs.
    { apply Zsum_nonneg. clear -Hf. induction Hf; constructor; eauto using tx_valid_fee_nonneg. }
    rewrite (proj2 (transaction_fee_Ok U tx f HU Hwt) Hv). cbn [mbind result_bind].
    rewrite Zsum_cons. destruct (checked_add 64 acc f) as [z|] eqn:Hz; cbn [ok_or mbind result_bind].
    + apply checked_add_Some in Hz as [Hlt ->]. rewrite IH by (done || lia).
      by replace (acc + (f + Zsum fees)) with (acc + f + Zsum fees) by lia.
    + unfold checked_add in Hz. case_bool_decide; [done|]. by rewrite bool_decide_eq_false_2 by lia.
Qed.

Lemma solve_candidate_no_panic fuel c : Block_encodable c → solve_candidate fuel c ≠ Panic.
Proof using.
  revert c. induction fuel as [|fuel IH]; intros c He; cbn; [done|].
  destruct (validate_block c) as [|e|] eqn:Hv; [done|by apply IH|]. by destruct (validate_block_no_panic c He).
Qed.

(** The search over the nonces of an assembled block. *)
Lemma mine_block_outcome fuel s subsidy vk u bts sel fees :
  Forall (encodable true) sel.*2 → u32 bts → subsidy + Zsum fees < 2 ^ 64 →
  match mine_block fuel (default BlockHash_default (best_tip (chain s))) (subsidy + Zsum fees) vk u bts sel.*2 with
  | Ok b => assembled s subsidy vk u bts sel fees b ∧ block_valid b
  | Err _ => ∃ b, assembled s subsidy vk u bts sel fees b
      ∧ ∀ j, (j < fuel)%nat → validate_block (nth_nonce b j) ≠ Ok ()
  | Panic => False
  end.
Proof using L.
  intros He Hb Hr. unfold mine_block.
  destruct (build_candidate_total (default BlockHash_default (best_tip (chain s))) (subsidy + Zsum fees)
    vk u bts sel.*2 He) as (c & Hc & Hce). rewrite Hc. cbn [expect mbind result_bind].
  destruct (build_candidate_Some _ _ _ _ _ _ _ Hc) as (Htx & Hprev & Hbits & Hn & Hroot).
  assert (u32 (nonce (header c))) as Hnonce by by rewrite Hn.
  destruct (solve_candidate fuel c) as [b|e|] eqn:Hs; [| |by apply solve_candidate_no_panic in Hs].
  - apply solve_candidate_Ok in Hs as (Hv & n & _ & ->); [|done].
    split; [by split|]. apply validate_block_Ok; [cbn; by rewrite Hbits|done].
  - exists c. split; [by split|]. intros j Hj Hv.
    destruct (solve_candidate_found c j Hce Hnonce Hv) as (f & b & Hf & Hok).
    by rewrite (solve_candidate_mono f fuel c b Hok ltac:(lia)) in Hs.
Qed.

Lemma prune_subseteq mp U mp' : prune_invalid mp U = Some mp' → mp' ⊆ mp.
Proof using.
  unfold prune_invalid. destruct (existsb _ _); [done|]. intros [= <-]. apply map_filter_subseteq.
Qed.

(** A new block that is accepted is stored; nothing becomes pending, and no coin set is dropped. *)
Lemma accept_block_stored s b s' :
  node_inv s → Block_wf b → Block_encodable b → accept_block s b = (s', Ok ()) →
  mempool s' ⊆ mempool s
  ∧ (blocks s !! header_hash (header b) = None → get_block s' (header_hash (header b)) = Some b).
Proof using L.
  intros Hi Hw He. unfold accept_block.
  destruct (insert_block (chain s) b) as [[chain' e]|ce|] eqn:Hins; [|done..].
  pose proof (insert_step s b chain' e Hi Hw He Hins) as (_ & Hh & _). rewrite Hh.
  destruct (ensure_snapshot _ _ _ _) as [s2 r2] eqn:Hens.
  apply ensure_snapshot_frame in Hens as (Hc & Hb & _ & Hm). cbn in *.
  assert (blocks s !! header_hash (header b) = None → get_block s2 (header_hash (header b)) = Some b) as Hget.
  { intros Hnew. unfold get_block. by rewrite Hb, Hnew, lookup_insert_eq. }
  destruct r2 as [[]|?|]; [|done..]. cbn zeta. case_bool_decide; [|intros [= <-]; by rewrite Hm].
  destruct (utxo_snapshots s2 !! _) as [U|]; [|done].
  destruct (prune_invalid _ _) as [mp|] eqn:Hp; [|done]. intros [= <-]. cbn. rewrite <-Hm.
  split; [by eapply prune_subseteq|done].
Qed.

Lemma accept_block_snapshots s b s' r :
  accept_block s b = (s', r) → utxo_snapshots s ⊆ utxo_snapshots s'.
Proof using.
  unfold accept_block. destruct (insert_block (chain s) b) as [[chain' e]|ce|]; [|by intros [= <- <-]..].
  cbn zeta. destruct (ensure_snapshot _ _ _ _) as [s2 r2] eqn:Hens.
  assert (utxo_snapshots s ⊆ utxo_snapshots s2) as Hsub.
  { revert Hens. unfold ensure_snapshot. cbn [utxo_snapshots]. case_bool_decide as Hn; [by intros [= <- <-]|].
    destruct (_ ≫= _) as [U|?|]; intros [= <- <-]; [|done..]. cbn. apply insert_subseteq.
    by apply eq_None_not_Some. }
  destruct r2 as [[]|?|]; [|by intros [= <- <-]..]. case_bool_decide; [|by intros [= <- <-]].
  destruct (utxo_snapshots s2 !! _) as [U|]; [|by intros [= <- <-]].
  destruct (prune_invalid _ _); by intros [= <- <-].
Qed.

(** A new block on the tip takes the active coins to the coins after it. *)
Lemma accept_on_tip s b s' :
  let h := header_hash (header b) in
  node_inv s → tip_synced s → Block_wf b → Block_encodable b →
  Z.of_nat (size (entries (chain s))) < 2 ^ 64 → accept_block s b = (s', Ok ()) →
  prev_blockhash (header b) = default BlockHash_default (best_tip (chain s)) →
  entries (chain s) !! h = None →
  best_tip (chain s') = Some h ∧ get_block s' h = Some b
  ∧ ∃ e, entries (chain s') !! h = Some e
    ∧ apply_block (active_utxos s) b (height e) = Ok (active_utxos s').
Proof using L.
  intros h Hi Hs Hw He Hsz Ha Hprev Hnew.
  destruct (accept_block_spec s b s' _ Hi Hw He Hsz Ha) as (Hi' & [e Hins] & [U HU] & Hsy). specialize (Hsy Hs).
  assert (best_tip (chain s') = Some h) as Ht
    by by eapply (child_of_tip_is_best (chain s) b); [apply Hi|..].
  assert (get_block s' h = Some b) as Hget.
  { apply (accept_block_stored s b s'); [done..|]. apply eq_None_not_Some. rewrite (ni_blocks s Hi).
    fold h. rewrite Hnew. by intros []. }
  split; [done|]. split; [done|]. unfold tip_synced in Hsy. rewrite Ht in Hsy.
  destruct (ni_snapshot s' Hi' h _ Hsy) as (e' & b' & He' & Hb' & Hap & _).
  assert (b' = b) as -> by (unfold get_block in Hget; congruence). exists e'. split; [done|].
  destruct (insert_block_inv _ _ _ _ (ni_chain s Hi) Hw Hins)
    as (_ & _ & Hlk & [Hc|(_ & _ & w & _ & Hl & _)]); fold h in Hlk; [rewrite Hc in Hlk; congruence|].
  assert (e' = e) as -> by congruence. rewrite Hprev in Hl. unfold links in Hl.
  unfold tip_synced in Hs. pose proof (cw_best _ (ni_chain s Hi)) as Hbest.
  destruct (best_tip (chain s)) as [t|]; cbn in Hl.
  - destruct Hbest as (te & Hte & _). destruct Hl as [(Hem & _)|(pe & Hpe & _ & _ & _ & Hpar)]; [by rewrite Hem in Hte|].
    rewrite Hpar in Hap. destruct Hap as (Up & HUp & Hap).
    by rewrite (lookup_weaken _ _ _ _ Hs (accept_block_snapshots _ _ _ _ Ha)) in HUp; simplify_eq.
  - destruct Hl as [(_ & _ & _ & _ & Hpar)|(pe & Hpe & _)]; [|by rewrite Hbest in Hpe].
    rewrite Hpar in Hap. by rewrite Hs.
Qed.

(** ** Theorem *)

(** C23: Mining through the node, on every branch.  [mine_block] selects pending transactions in
    the order of their ids (all of them if there is room) and their fees, and then: if it returns a hash, it is that
    of a block on the best tip, of the given difficulty, valid, with a coinbase of subsidy plus fees to the key and exactly the
    selected transactions; the node invariant holds and the active view is in step with the tip; unless the
    hash was known before, the block is stored and is the new best tip, and the active coins are those the block makes of
    the coins before; the selected transactions, and no new ones, have left the mempool.  If the fees overflow it reports
    that, if the reward overflows it panics, and if the nonces tried were not enough the search is still running, in all three
    cases on an unchanged node; any other error is that of [accept_block] on such a block. *)
Theorem node_mine_block_correct (fuel : nat) (s : NodeState) (subsidy : Z) (vk : VerifyingKey)
    (u bts max : Z) :
  node_inv s → tip_synced s → u64 subsidy → u32 u → u32 bts → 0 ≤ max →
  Z.of_nat (size (entries (chain s))) < 2 ^ 64 →
  ∃ sel fees, selected s max sel fees ∧
  match NodeState_mine_block fuel s subsidy vk u bts max with
  | (s', Ok h) => ∃ b, assembled s subsidy vk u bts sel fees b ∧ block_valid b
      ∧ h = header_hash (header b)
      ∧ node_inv s' ∧ tip_synced s' ∧ is_Some (utxo_snapshots s' !! h)
      ∧ (entries (chain s) !! h = None →
         best_tip (chain s') = Some h ∧ get_block s' h = Some b
         ∧ ∃ e, entries (chain s') !! h = Some e
           ∧ apply_block (active_utxos s) b (height e) = Ok (active_utxos s'))
      ∧ mempool s' ⊆ mempool s ∧ (∀ id, id ∈ sel.*1 → mempool s' !! id = None)
  | (s', Err (Some e)) =>
      s' = s ∧ e = NConsensusFee InputValueOverflow ∧ 2 ^ 64 ≤ Zsum fees
      ∨ ∃ b, assembled s subsidy vk u bts sel fees b ∧ block_valid b
          ∧ accept_block s b = (s', Err e)
  | (s', Err None) => s' = s ∧ ∃ b, assembled s subsidy vk u bts sel fees b
      ∧ ∀ j, (j < fuel)%nat → validate_block (nth_nonce b j) ≠ Ok ()
  | (s', Panic) => s' = s ∧ Zsum fees < 2 ^ 64 ≤ subsidy + Zsum fees
  end.
Proof using L.
  intros Hi Hs Hsub Hu Hb Hmax Hsz. destruct (collect_selected s max Hi Hmax) as (sel & fees & Hcol & Hsel).
  exists sel, fees. split; [done|]. unfold NodeState_mine_block. rewrite Hcol. cbn [expect mbind result_bind].
  assert (Forall (λ tx, Transaction_wf tx ∧ encodable true tx) sel.*2) as [Hw He]%Forall_and.
  { apply Forall_fmap, Forall_forall. intros [id tx] Hin. cbn.
    destruct (mo_tx _ _ (ni_mempool s Hi) id tx (se_pending _ _ _ _ Hsel id tx Hin)) as (Hid & ? & _).
    split; [done|by eapply txid_encodable]. }
  rewrite (fees_total (active_utxos s) sel.*2 fees 0 (active_wf s Hi) Hw (se_fees _ _ _ _ Hsel) ltac:(done)).
  rewrite Z.add_0_l. case_bool_decide as Hfee; cbn [map_err mbind result_bind];
    [|left; split_and!; [done..|lia]].
  unfold add_or_panic, checked_add. case_bool_decide as Hrew; cbn [expect mbind result_bind]; [|split; [done|lia]].
  pose proof (mine_block_outcome fuel s subsidy vk u bts sel fees He Hb Hrew) as Hout.
  destruct (mine_block _ _ _ _ _ _ _) as [b|e|] eqn:Hmine; cbn [map_err mbind result_bind]; [|done..].
  destruct Hout as [Has Hval].
  assert (u64 (subsidy + Zsum fees)) as Hr64.
  { split; [|done]. pose proof (se_fees _ _ _ _ Hsel) as Hf. assert (0 ≤ Zsum fees); [|unfold uint in *; lia].
    apply Zsum_nonneg. clear -Hf. induction Hf; constructor; eauto using tx_valid_fee_nonneg. }
  destruct (mine_block_wf _ _ _ _ _ _ _ _ (best_tip_wf s Hi) Hr64 Hu Hb Hw He Hmine) as (Hbw & Hbe & Hprev).
  destruct (accept_block s b) as [s1 ra] eqn:Ha.
  pose proof (accept_block_spec s b s1 _ Hi Hbw Hbe Hsz Ha) as (Hi1 & Hra).
  destruct ra as [[]|e|]; [|right; by exists b|done]. destruct Hra as (_ & Hsnap & Hsync).
  exists b. split_and!; try done.
  - by apply node_inv_set_mempool, remove_many_ok, Hi1.
  - by apply Hsync.
  - intros Hnew. by apply (accept_on_tip s b s1).
  - cbn. etransitivity; [|apply (accept_block_stored s b s1 Hi Hbw Hbe Ha)].
    apply map_subseteq_spec. intros id tx. rewrite remove_many_lookup. by case_bool_decide.
  - intros id Hid. cbn. rewrite remove_many_lookup. by rewrite bool_decide_eq_true_2.
Qed.

End mining.

(** ** Witness *)

Module DemoMining.
#[local] Existing Instance Toy.crypto.
#[local] Existing Instance Toy.laws.

Lemma inv2 : node_inv DemoNode.s2 ∧ tip_synced DemoNode.s2.
Proof.
  destruct (clean_reach_synced 2 DemoNode.s2) as [Hr Hs]; [|vm_decide|].
  - eapply reach_step; [exact DemoNode.node_reach1|]. eapply cs_submit; [| |exact DemoNode.submit2]; vm_decide.
  - split; [by apply (reach_inv 2 DemoNode.s2 Hr)|done].
Qed.

Definition run : NodeState * result (option NodeStateError) BlockHash :=
  NodeState_mine_block 64 DemoNode.s2 50 x05 7 DemoBlocks.easy_bits 10.

Lemma ids_fresh id n :
  is_Some (mempool DemoNode.s2 !! id) → active_utxos DemoNode.s2 !! {| txid := id; vout := n |} = None.
Proof.
  intros Hid. apply eq_None_not_Some. intros [c Hc].
  assert (map_Forall (λ o _, mempool DemoNode.s2 !! txid o = None) (active_utxos DemoNode.s2)) as H by vm_decide.
  specialize (H _ _ Hc). cbn in H. rewrite H in Hid. exact (is_Some_None Hid).
Qed.

End DemoMining.

(** The pending payment is mined: it is in the block on the new tip and no longer pending. *)
Lemma node_mine_block_correct_witness :
  ∃ s' h b, DemoMining.run = (s', Ok h) ∧ best_tip (chain s') = Some h ∧ get_block s' h = Some b
    ∧ Demo.payment ∈ transactions b ∧ mempool s' !! Demo.payment_id = None.
Proof.
  destruct (node_mine_block_correct (C:=Toy.crypto) (L:=Toy.laws) 64 DemoNode.s2 50 x05 7 DemoBlocks.easy_bits 10
    (proj1 DemoMining.inv2) (proj2 DemoMining.inv2) ltac:(vm_decide) ltac:(vm_decide) ltac:(vm_decide)
    ltac:(vm_decide) ltac:(vm_decide)) as (sel & fees & Hsel & H).
  assert (match DemoMining.run with
          | (_, Ok h) => bool_decide (entries (chain DemoNode.s2) !! h = None) | _ => false end = true) as Hnew
    by (vm_compute; reflexivity).
  unfold DemoMining.run in *. revert Hnew H.
  generalize (NodeState_mine_block (C:=Toy.crypto) 64 DemoNode.s2 50 x05 7 DemoBlocks.easy_bits 10).
  intros p Hnew H. destruct p as [s' [h|[e|]|]]; [|discriminate Hnew..].
  destruct H as (b & Has & _ & _ & _ & _ & _ & Htip & _ & Hgone).
  apply bool_decide_eq_true_1 in Hnew. destruct (Htip Hnew) as (Ht & Hb & _).
  assert ((Demo.payment_id, Demo.payment) ∈ sel) as Hin.
  { rewrite (se_all _ _ _ _ Hsel DemoMining.ids_fresh) by vm_decide. apply elem_of_map_to_list. vm_decide. }
  exists s', h, b. split; [reflexivity|]. split; [exact Ht|]. split; [exact Hb|]. split.
  - rewrite (as_transactions _ _ _ _ _ _ _ _ Has). right. exact (list_elem_of_fmap_2 snd _ _ Hin).
  - apply Hgone. exact (list_elem_of_fmap_2 fst _ _ Hin).
Defined.
