(* ===== verification/Home.v ===== *)
(** * home.rs: the runtime configuration of a node and its defaults *)

From S2P Require Import Prelude.

Definition default_mining_interval_ms : Z := 250.
Definition default_listen_addr : string := "127.0.0.1:9001".
Definition default_admin_addr : string := "127.0.0.1:9000".
Definition default_network : string := "wobble-local".
Definition default_mining_max_transactions : Z := 100.
Definition default_mining_bits : string := "0x207fffff".

(** [PathBuf] is its text. *)
Record MiningSection := {
  enabled : bool;
  reward_wallet : option string;
  interval_ms : Z;
  section_max_transactions : Z;
  section_bits : string
}.

Definition MiningSection_default : MiningSection := {|
  enabled := false;
  reward_wallet := None;
  interval_ms := default_mining_interval_ms;
  section_max_transactions := default_mining_max_transactions;
  section_bits := default_mining_bits
|}.

Record NodeConfig := {
  listen_addr : string;
  admin_addr : string;
  config_network : string;
  config_node_name : option string;
  config_advertised_addr : option string;
  config_mining : MiningSection
}.

Definition NodeConfig_new (network : string) (node_name : option string) (listen : string)
    : NodeConfig := {|
  listen_addr := listen;
  admin_addr := default_admin_addr;
  config_network := network;
  config_node_name := node_name;
  config_advertised_addr := None;
  config_mining := MiningSection_default
|}.

Definition with_advertised_addr (c : NodeConfig) (a : string) : NodeConfig := {|
  listen_addr := listen_addr c; admin_addr := admin_addr c; config_network := config_network c;
  config_node_name := config_node_name c; config_advertised_addr := Some a;
  config_mining := config_mining c
|}.

Definition with_admin_addr (c : NodeConfig) (a : string) : NodeConfig := {|
  listen_addr := listen_addr c; admin_addr := a; config_network := config_network c;
  config_node_name := config_node_name c; config_advertised_addr := config_advertised_addr c;
  config_mining := config_mining c
|}.

Definition NodeConfig_default : NodeConfig := {|
  listen_addr := default_listen_addr;
  admin_addr := default_admin_addr;
  config_network := default_network;
  config_node_name := None;
  config_advertised_addr := None;
  config_mining := MiningSection_default
|}.

#[export] Instance MiningSection_eq_dec : EqDecision MiningSection.
Proof. solve_decision. Defined.
#[export] Instance NodeConfig_eq_dec : EqDecision NodeConfig.
Proof. solve_decision. Defined.
