(* ===== verification/Peers.v ===== *)
(** * peers.rs: peer endpoints and persisted peer records *)

From S2P Require Import Prelude Bytes Types.

(** [PeerEndpoint] of server.rs. *)
Record PeerEndpoint := { endpoint_addr : string; endpoint_node_name : option string }.

(** [PeerAddr] of server.rs: what a stream learnt from the remote hello. *)
Record PeerAddr := { origin_addr : option string; origin_node_name : option string }.

Definition PeerAddr_default : PeerAddr := {| origin_addr := None; origin_node_name := None |}.

Inductive PeerSource := Seed | Hello | PeerExchange | Manual.

Definition PeerSource_as_str (s : PeerSource) : string :=
  match s with
  | Seed => "seed"
  | Hello => "hello"
  | PeerExchange => "peer_exchange"
  | Manual => "manual"
  end.

Definition PeerSource_parse (value : string) : option PeerSource :=
  if bool_decide (value = "seed") then Some Seed
  else if bool_decide (value = "hello") then Some Hello
  else if bool_decide (value = "peer_exchange") then Some PeerExchange
  else if bool_decide (value = "manual") then Some Manual
  else None.

Record StoredPeer := {
  peer_addr : string;
  peer_node_name : option string;
  source : PeerSource;
  advertised_tip_hash : option BlockHash;
  advertised_height : option Z;
  last_hello_at : option string;
  last_seen_at : option string;
  last_connect_at : option string;
  last_success_at : option string;
  last_error : option string;
  connections : Z;
  failed_connections : Z;
  behavior_score : Z;
  banned_until : option string
}.

Definition from_endpoint (e : PeerEndpoint) (src : PeerSource) : StoredPeer := {|
  peer_addr := endpoint_addr e;
  peer_node_name := endpoint_node_name e;
  source := src;
  advertised_tip_hash := None;
  advertised_height := None;
  last_hello_at := None;
  last_seen_at := None;
  last_connect_at := None;
  last_success_at := None;
  last_error := None;
  connections := 0;
  failed_connections := 0;
  behavior_score := 100;
  banned_until := None
|}.

Definition endpoint (p : StoredPeer) : PeerEndpoint :=
  {| endpoint_addr := peer_addr p; endpoint_node_name := peer_node_name p |}.

#[export] Instance PeerEndpoint_eq_dec : EqDecision PeerEndpoint.
Proof. solve_decision. Defined.
#[export] Instance PeerAddr_eq_dec : EqDecision PeerAddr.
Proof. solve_decision. Defined.
#[export] Instance PeerSource_eq_dec : EqDecision PeerSource.
Proof. solve_decision. Defined.
#[export] Instance StoredPeer_eq_dec : EqDecision StoredPeer.
Proof. solve_decision. Defined.

(** The range of the fields: [u64], [u32] and [i32] in the source. *)
Definition StoredPeer_wf (p : StoredPeer) : Prop :=
  match advertised_height p with Some h => u64 h | None => True end
  ∧ u32 (connections p) ∧ u32 (failed_connections p)
  ∧ - 2 ^ 31 ≤ behavior_score p < 2 ^ 31
  ∧ match advertised_tip_hash p with
    | Some h => length (BlockHash_as_bytes h) = 32%nat
    | None => True
    end.

#[export] Instance StoredPeer_wf_dec p : Decision (StoredPeer_wf p).
Proof.
  unfold StoredPeer_wf. destruct (advertised_height p), (advertised_tip_hash p); apply _.
Defined.

Lemma PeerSource_parse_as_str s : PeerSource_parse (PeerSource_as_str s) = Some s.
Proof. by destruct s. Qed.

Lemma endpoint_from_endpoint e src : endpoint (from_endpoint e src) = e.
Proof. by destruct e. Qed.
