(* ===== verification/Client.v ===== *)
(** * net.rs and client.rs: line transport over a TCP stream, one-shot peer requests

    A stream is what the environment will do with it: the data of each
    successful [read] (an [Err] for a failing one, the end of the list for a
    closed connection), what has been written so far, and the outcome of each
    future [write_all]/[flush] pair.  [connect] is the network, a parameter.

    [net::receive_message] wraps a clone of the socket in a new [BufReader] and
    drops it after one line: what the last [read] returned beyond the newline
    is lost ([receive_message_drops_read_ahead]). *)

From S2P Require Import Prelude Bytes Types Wire Home.

Inductive ErrorKind :=
| BrokenPipe | TimedOut | UnexpectedEof | InvalidData | Other | ConnectionRefused | ConnectionReset
| NotFound | AlreadyExists.

(** [io::Error]: its kind and message. *)
Record io_Error := io_error { error_kind : ErrorKind; error_text : string }.

#[export] Instance ErrorKind_eq_dec : EqDecision ErrorKind.
Proof. solve_decision. Defined.
#[export] Instance io_Error_eq_dec : EqDecision io_Error.
Proof. solve_decision. Defined.

Inductive ClientError :=
| Connect (e : io_Error)
| SendHello (e : io_Error)
| ReceiveHello (e : io_Error)
| UnexpectedHandshake (m : WireMessage).

Inductive RequestError :=
| Handshake (e : ClientError)
| Send (e : io_Error)
| Receive (e : io_Error)
| UnexpectedResponse (m : WireMessage).

#[export] Instance ClientError_eq_dec : EqDecision ClientError.
Proof. solve_decision. Defined.
#[export] Instance RequestError_eq_dec : EqDecision RequestError.
Proof. solve_decision. Defined.

Record TcpStream := {
  incoming : list (result io_Error (list Ascii.ascii));
  written : list Ascii.ascii;
  write_outcomes : list (result io_Error unit)
}.

(** [read_line] on a fresh [BufReader]: reads until a newline has been seen; the
    rest of the last read stays in the buffer and is returned second. *)
Fixpoint buffered_read_line (reads : list (result io_Error (list Ascii.ascii)))
    : list (result io_Error (list Ascii.ascii))
      * result io_Error (list Ascii.ascii * list Ascii.ascii) :=
  match reads with
  | [] => ([], Ok ([], []))
  | Err e :: reads => (reads, Err e)
  | Panic :: reads => (reads, Panic)
  | Ok chunk :: reads =>
      let '(line, rest) := read_line chunk in
      if bool_decide (nl ∈ line) then (reads, Ok (line, rest))
      else
        match buffered_read_line reads with
        | (reads, Ok (more, rest)) => (reads, Ok (line ++ more, rest))
        | (reads, r) => (reads, r)
        end
  end.

Section net.
Context `{J : SerdeJson WireMessage}.
Context (json_error_text : json_error WireMessage → string).

Definition invalid_data (e : json_error WireMessage) : io_Error :=
  io_error InvalidData (json_error_text e).

(** A write whose outcome the environment has not fixed succeeds. *)
Definition send_message (s : TcpStream) (message : WireMessage)
    : TcpStream * result io_Error unit :=
  match map_err invalid_data (to_json_line message) with
  | Ok line =>
      match write_outcomes s with
      | Err e :: os =>
          ({| incoming := incoming s; written := written s; write_outcomes := os |}, Err e)
      | Panic :: os =>
          ({| incoming := incoming s; written := written s; write_outcomes := os |}, Panic)
      | os =>
          ({| incoming := incoming s; written := written s ++ line; write_outcomes := tail os |},
           Ok ())
      end
  | Err e => (s, Err e)
  | Panic => (s, Panic)
  end.

(** [receive_message_from_reader], on the line the reader returned. *)
Definition receive_message_from_reader (line : list Ascii.ascii) : result io_Error WireMessage :=
  match line with
  | [] => Err (io_error UnexpectedEof "peer closed connection")
  | _ :: _ => map_err invalid_data (from_json_line line)
  end.

Definition receive_message (s : TcpStream) : TcpStream * result io_Error WireMessage :=
  let '(reads, r) := buffered_read_line (incoming s) in
  ({| incoming := reads; written := written s; write_outcomes := write_outcomes s |},
   p ← r; receive_message_from_reader p.1).

Context (connect : string → result io_Error TcpStream).
Context (configure_outbound_stream : TcpStream → result io_Error unit).

(** The hello of a one-shot client: no listener address and no tip. *)
Definition client_hello (config : NodeConfig) : HelloMessage := {|
  network := config_network config;
  hello_version := PROTOCOL_VERSION;
  hello_node_name := config_node_name config;
  advertised_addr := None;
  hello_tip := None;
  hello_height := None
|}.

Definition connect_and_handshake (peer_addr : string) (config : NodeConfig)
    : result ClientError (TcpStream * HelloMessage) :=
  s ← map_err Connect (connect peer_addr);
  _ ← map_err Connect (configure_outbound_stream s);
  match send_message s (WHello (client_hello config)) with
  | (_, Err e) => Err (SendHello e)
  | (_, Panic) => Panic
  | (s, Ok _) =>
      match receive_message s with
      | (_, Err e) => Err (ReceiveHello e)
      | (_, Panic) => Panic
      | (s, Ok (WHello message)) => Ok (s, message)
      | (_, Ok other) => Err (UnexpectedHandshake other)
      end
  end.

(** One request on a fresh connection: the reply and the final stream. *)
Definition one_shot (peer_addr : string) (config : NodeConfig) (message : WireMessage)
    : result RequestError TcpStream :=
  p ← map_err Handshake (connect_and_handshake peer_addr config);
  match send_message p.1 message with
  | (s, Ok _) => Ok s
  | (_, Err e) => Err (Send e)
  | (_, Panic) => Panic
  end.

Definition request_tip (peer_addr : string) (config : NodeConfig) : result RequestError TipSummary :=
  s ← one_shot peer_addr config WGetTip;
  reply ← map_err Receive (receive_message s).2;
  match reply with
  | WTip summary => Ok summary
  | other => Err (UnexpectedResponse other)
  end.

Definition request_block (peer_addr : string) (config : NodeConfig) (block_hash : BlockHash)
    : result RequestError (option Block) :=
  s ← one_shot peer_addr config (WGetBlock block_hash);
  reply ← map_err Receive (receive_message s).2;
  match reply with
  | WBlock block => Ok block
  | other => Err (UnexpectedResponse other)
  end.

Definition announce_transaction (peer_addr : string) (config : NodeConfig) (tx : Transaction)
    : result RequestError unit :=
  _ ← one_shot peer_addr config (WAnnounceTx tx);
  Ok ().

(** ** Receiving *)

Lemma read_line_noline s : nl ∉ s → read_line s = (s, []).
Proof.
  induction s as [|c s IH]; intros Hs; cbn; [done|].
  rewrite bool_decide_eq_false_2 by set_solver. by rewrite IH by set_solver.
Qed.

Lemma read_line_concat s : (read_line s).1 ++ (read_line s).2 = s.
Proof.
  induction s as [|c s IH]; cbn; [done|]. case_bool_decide; [done|].
  destruct (read_line s) as [line rest]. cbn in *. by rewrite IH.
Qed.

(** However the transport cuts a line into reads, the line comes back whole;
    what the last read carried beyond it is left in the buffer. *)
Lemma buffered_read_line_chunks chunks last extra reads :
  Forall (λ c, nl ∉ c) chunks → nl ∉ last →
  buffered_read_line ((Ok <$> chunks) ++ Ok (last ++ nl :: extra) :: reads)
  = (reads, Ok (mjoin chunks ++ last ++ [nl], extra)).
Proof using.
  intros Hc Hlast. induction Hc as [|c chunks Hnl Hc IH]; cbn.
  - rewrite read_line_app by done. by rewrite bool_decide_eq_true_2 by set_solver.
  - rewrite read_line_noline by done. rewrite bool_decide_eq_false_2 by done.
    cbn in IH. rewrite IH. by rewrite <-app_assoc.
Qed.

End net.

Section net_claims.
Context `{J : SerdeJson WireMessage} `{L : !SerdeJsonLaws WireMessage J}.
Context (json_error_text : json_error WireMessage → string).

(** Reading one message: however TCP cuts the bytes of a message into
    reads, [receive_message] returns exactly the message that was sent; but the
    bytes that arrive in the same read after its newline ([extra]) are dropped
    with the temporary reader, so the next call starts after them. *)
Theorem receive_message_drops_read_ahead (m : WireMessage) (json last extra : list Ascii.ascii)
    (chunks : list (list Ascii.ascii)) (reads : list (result io_Error (list Ascii.ascii)))
    (s : TcpStream) :
  to_string m = Ok json → mjoin chunks ++ last = json →
  incoming s = (Ok <$> chunks) ++ Ok (last ++ nl :: extra) :: reads →
  receive_message json_error_text s
  = ({| incoming := reads; written := written s; write_outcomes := write_outcomes s |}, Ok m).
Proof using L.
  intros Hm Hj Hin. pose proof (to_string_no_newline m json Hm) as Hnl. subst json.
  apply not_elem_of_app in Hnl as [Hc Hlast].
  unfold receive_message. rewrite Hin, buffered_read_line_chunks; cbn [mbind result_bind fst].
  - rewrite app_assoc. f_equal. unfold receive_message_from_reader.
    rewrite (from_to_json_line m) by (unfold to_json_line; by rewrite Hm).
    by destruct (_ ++ [nl]) eqn:E; [apply app_nil in E as [_ E]|].
  - apply Forall_forall. intros c Hcin Hn. apply Hc. apply list_elem_of_join. eauto.
  - done.
Qed.

End net_claims.

(** ** Witnesses *)

Module DemoClient.

(** A tip split over two reads, with another message behind it. *)
Definition json : list Ascii.ascii := DemoJson.print (encode WGetTip).
Definition stream : TcpStream := {|
  incoming := [Ok (take 3 json);
               Ok (drop 3 json ++ nl :: DemoJson.print (encode (WBlock None)) ++ [nl])];
  written := [];
  write_outcomes := []
|}.

End DemoClient.

Lemma receive_message_drops_read_ahead_witness :
  receive_message (J:=DemoJson.json WireMessage) (λ _, EmptyString) DemoClient.stream
  = ({| incoming := []; written := []; write_outcomes := [] |}, Ok WGetTip).
Proof.
  apply (receive_message_drops_read_ahead (J:=DemoJson.json WireMessage)
    (L:=DemoJson.json_laws WireMessage) (λ _, EmptyString) WGetTip DemoClient.json
    (drop 3 DemoClient.json) (DemoJson.print (encode (WBlock None)) ++ [nl])
    [take 3 DemoClient.json] [] DemoClient.stream); reflexivity.
Defined.
