(* ===== verification/Files.v ===== *)
(** * std::fs and std::path as the files of a node use them

    A disk is the contents of its files, the directories that exist, and what the environment
    will do to the next operations: [None] lets one through, [Some f] makes it fail with an
    [io::Error].  [fs::write] truncates the file before it writes, so a failing
    write may leave the old contents ([fault_left = None]) or any other
    ([fault_left = Some _]).  Text is its UTF-8 bytes; [fs::read_to_string]
    refuses anything else.  Bincode and serde_json are third party: the classes
    [FileCodec] and [PrettyJson] with their documented laws. *)

From S2P Require Import Prelude Bytes Wire Client.

Record Fault := { fault_error : io_Error; fault_left : option bytes }.

Record Disk := {
  disk_files : gmap string bytes;
  disk_dirs : gset string;
  disk_faults : list (option Fault)
}.

(** A fallible operation on the disk; what it did before it failed stays. *)
Definition disk_op (E A : Type) : Type := Disk → Disk * result E A.

#[export] Instance disk_ret {E} : MRet (disk_op E) := λ A a d, (d, Ok a).
#[export] Instance disk_bind {E} : MBind (disk_op E) := λ A B f m d,
  match m d with
  | (d', Ok a) => f a d'
  | (d', Err e) => (d', Err e)
  | (d', Panic) => (d', Panic)
  end.

(** A pure step of an operation. *)
Definition lift {E A} (r : result E A) : disk_op E A := λ d, (d, r).

Definition map_io {E A} (f : io_Error → E) (m : disk_op io_Error A) : disk_op E A :=
  λ d, let '(d', r) := m d in (d', map_err f r).

(** [bytes] is well-formed UTF-8, as [str::from_utf8] decides it. *)
Definition in_range (lo hi : Z) (b : byte) : bool :=
  bool_decide (lo ≤ byte_to_Z b ∧ byte_to_Z b ≤ hi).
Definition continuation : byte → bool := in_range 0x80 0xbf.

Fixpoint utf8_valid (bs : bytes) : bool :=
  match bs with
  | [] => true
  | b :: r =>
      if in_range 0 0x7f b then utf8_valid r
      else if in_range 0xc2 0xdf b then
        match r with c :: r => continuation c && utf8_valid r | _ => false end
      else if in_range 0xe0 0xef b then
        match r with
        | c :: d :: r =>
            in_range (if in_range 0xe0 0xe0 b then 0xa0 else 0x80)
              (if in_range 0xed 0xed b then 0x9f else 0xbf) c
            && continuation d && utf8_valid r
        | _ => false
        end
      else if in_range 0xf0 0xf4 b then
        match r with
        | c :: d :: e :: r =>
            in_range (if in_range 0xf0 0xf0 b then 0x90 else 0x80)
              (if in_range 0xf4 0xf4 b then 0x8f else 0xbf) c
            && continuation d && continuation e && utf8_valid r
        | _ => false
        end
      else false
  end.

(** The environment's verdict on the next operation. *)
Definition next_fault (d : Disk) : option Fault := mjoin (head (disk_faults d)).
Definition after_op (d : Disk) (fs : gmap string bytes) : Disk :=
  {| disk_files := fs; disk_dirs := disk_dirs d; disk_faults := tail (disk_faults d) |}.

Definition fs_read (path : string) : disk_op io_Error bytes := λ d,
  let d' := after_op d (disk_files d) in
  match next_fault d with
  | Some f => (d', Err (fault_error f))
  | None =>
      (d', ok_or (disk_files d !! path) (io_error NotFound "No such file or directory"))
  end.

Definition fs_read_to_string (path : string) : disk_op io_Error bytes :=
  bs ← fs_read path;
  lift (if utf8_valid bs then Ok bs
        else Err (io_error InvalidData "stream did not contain valid UTF-8")).

Definition fs_write (path : string) (bs : bytes) : disk_op io_Error unit := λ d,
  match next_fault d with
  | Some f =>
      (after_op d (match fault_left f with
                   | Some rest => <[path := rest]> (disk_files d)
                   | None => disk_files d
                   end), Err (fault_error f))
  | None => (after_op d (<[path := bs]> (disk_files d)), Ok ())
  end.

(** [Path::exists]: an error counts as absence. *)
Definition path_exists {E} (path : string) : disk_op E bool := λ d,
  (after_op d (disk_files d),
   Ok match next_fault d with
      | Some _ => false
      | None => bool_decide (is_Some (disk_files d !! path)) || bool_decide (path ∈ disk_dirs d)
      end).

(** [fs::create_dir_all].  The parents it creates too hold none of the
    program's files and are not recorded. *)
Definition create_dir_all (path : string) : disk_op io_Error unit := λ d,
  match next_fault d with
  | Some f => (after_op d (disk_files d), Err (fault_error f))
  | None =>
      match disk_files d !! path with
      | Some _ => (after_op d (disk_files d), Err (io_error AlreadyExists "File exists"))
      | None =>
          ({| disk_files := disk_files d; disk_dirs := {[ path ]} ∪ disk_dirs d;
              disk_faults := tail (disk_faults d) |}, Ok ())
      end
  end.

(** ** Paths: a [PathBuf] is its text, with [/] as separator *)

Definition slash : Ascii.ascii := Ascii.ascii_of_nat 47.

Definition is_absolute (path : string) : bool :=
  match path with String c _ => bool_decide (c = slash) | EmptyString => false end.

Fixpoint ends_with_slash (path : string) : bool :=
  match path with
  | EmptyString => false
  | String c EmptyString => bool_decide (c = slash)
  | String _ rest => ends_with_slash rest
  end.

(** [Path::join]. *)
Definition join (root path : string) : string :=
  if is_absolute path then path
  else if bool_decide (root = EmptyString) || ends_with_slash root then root +:+ path
  else root +:+ "/" +:+ path.

Lemma string_app_inj (a b c : string) : a +:+ b = a +:+ c → b = c.
Proof. induction a as [|x a IH]; cbn; [done|]. intros [= H]. by apply IH. Qed.

Lemma join_inj root p q :
  is_absolute p = false → is_absolute q = false → join root p = join root q → p = q.
Proof.
  unfold join. intros -> ->. destruct (_ || _); intros H; apply string_app_inj in H; [done|].
  by injection H.
Qed.

(** [bincode::serde] with the standard configuration, for one type of file. *)
Class FileCodec (EncodeError DecodeError A : Type) := {
  file_encode : A → result EncodeError bytes;
  file_decode : bytes → result DecodeError (A * nat)
}.

Class FileCodecLaws {E D A} (K : FileCodec E D A) : Prop := {
  file_decode_encode a : ∃ bs n, file_encode a = Ok bs ∧ file_decode bs = Ok (a, n)
}.

(** [serde_json::to_string_pretty] and [serde_json::from_str]. *)
Class PrettyJson (JsonError A : Type) := {
  to_string_pretty : A → result JsonError bytes;
  from_text : bytes → result JsonError A
}.

Class PrettyJsonLaws {E A} (J : PrettyJson E A) : Prop := {
  from_text_pretty a : ∃ s, to_string_pretty a = Ok s ∧ utf8_valid s = true ∧ from_text s = Ok a
}.

(** ** Runs without faults *)

Definition healthy (d : Disk) : Prop := disk_faults d = [].

Lemma fs_write_healthy path bs d :
  healthy d →
  fs_write path bs d
  = ({| disk_files := <[path := bs]> (disk_files d); disk_dirs := disk_dirs d; disk_faults := [] |}, Ok ()).
Proof. destruct d as [fs ds fl]. unfold healthy. cbn. by intros ->. Qed.

Lemma fs_read_healthy path bs d :
  healthy d → disk_files d !! path = Some bs → fs_read path d = (d, Ok bs).
Proof.
  destruct d as [fs ds fl]. unfold healthy, fs_read, after_op, next_fault. cbn.
  by intros -> ->.
Qed.

Lemma fs_read_to_string_healthy path bs d :
  healthy d → disk_files d !! path = Some bs → utf8_valid bs = true →
  fs_read_to_string path d = (d, Ok bs).
Proof.
  intros Hd Hf Hu. unfold fs_read_to_string, mbind, disk_bind, lift.
  by rewrite (fs_read_healthy _ bs), Hu.
Qed.

(** Reading never changes a file. *)
Lemma fs_read_files path d : disk_files (fs_read path d).1 = disk_files d.
Proof. unfold fs_read. by destruct (next_fault d). Qed.

Lemma disk_bind_Ok {E A B} (m : disk_op E A) (f : A → disk_op E B) d d' b :
  (m ≫= f) d = (d', Ok b) ↔ ∃ a d1, m d = (d1, Ok a) ∧ f a d1 = (d', Ok b).
Proof. unfold mbind, disk_bind. destruct (m d) as [d1 []]; split; naive_solver. Qed.

Lemma disk_bind_run {E A B} (m : disk_op E A) (f : A → disk_op E B) d d' a :
  m d = (d', Ok a) → (m ≫= f) d = f a d'.
Proof. unfold mbind, disk_bind. by intros ->. Qed.

Lemma map_io_Ok {E A} (f : io_Error → E) (m : disk_op io_Error A) d d' a :
  map_io f m d = (d', Ok a) ↔ m d = (d', Ok a).
Proof. unfold map_io. destruct (m d) as [d1 []]; cbn; split; naive_solver. Qed.

(** ** Concrete codecs, for witnesses *)
Module DemoFiles.

Definition codec (A : Type) `{Countable A} : FileCodec unit unit A := {|
  file_encode a := Ok (Digits.print (encode a));
  file_decode bs := ok_or ((λ a, (a, length bs)) <$> decode (Digits.parse bs)) ()
|}.

Lemma codec_laws (A : Type) `{Countable A} : FileCodecLaws (codec A).
Proof.
  split. intros a. cbn. eexists _, _. split; [done|].
  by rewrite Digits.byte_parse_print, decode_encode.
Qed.

Definition pretty (A : Type) `{Countable A} : PrettyJson unit A := {|
  to_string_pretty a := Ok (Digits.print (encode a));
  from_text s := ok_or (decode (Digits.parse s)) ()
|}.

Lemma print_utf8 p : utf8_valid (Digits.print p) = true.
Proof. by induction p. Qed.

Lemma pretty_laws (A : Type) `{Countable A} : PrettyJsonLaws (pretty A).
Proof.
  split. intros a. eexists. split; [done|]. split; [apply print_utf8|].
  cbn. by rewrite Digits.byte_parse_print, decode_encode.
Qed.

End DemoFiles.
