(* ===== verification/Wallet.v ===== *)
(** * wallet.rs: the named keyring and its file

    The wallet invariant is what [Wallet::validate] checks; the [expect] in
    [default_wallet_key] relies on it.  Fresh keys ([crypto::generate_signing_key],
    the operating system's randomness) are arguments.  The file formats V2 and
    V1 are bincode encodings, a parameter per format. *)

From S2P Require Import Prelude Bytes Crypto Wire Client Files.

Definition DEFAULT_KEY_NAME : string := "default".

Record WalletKeyFile := { file_key_name : string; file_secret_key : bytes }.
Record WalletFileV2 := { file_default_key : string; file_keys : list WalletKeyFile }.
Record WalletFileV1 := { legacy_secret_key : bytes }.

#[export] Instance WalletKeyFile_eq_dec : EqDecision WalletKeyFile.
Proof. solve_decision. Defined.
#[export] Instance WalletFileV2_eq_dec : EqDecision WalletFileV2.
Proof. solve_decision. Defined.
#[export] Instance WalletFileV1_eq_dec : EqDecision WalletFileV1.
Proof. solve_decision. Defined.

Section wallet.
Context `{C : Crypto}.
Context {EncodeError DecodeError : Type}.
Context `{K2 : !FileCodec EncodeError DecodeError WalletFileV2}.
Context `{K1 : !FileCodec EncodeError DecodeError WalletFileV1}.

Inductive WalletError :=
| WalletIo (e : io_Error)
| WalletEncode (e : EncodeError)
| WalletDecode (e : DecodeError)
| DuplicateKeyName (n : string)
| UnknownKeyName (n : string)
| MissingDefaultKey (n : string)
| EmptyWallet.

Record WalletKey := { key_name : string; key_signing_key : SigningKey }.

Definition key_verifying_key (k : WalletKey) : VerifyingKey :=
  SigningKey_verifying_key (key_signing_key k).
Definition secret_key_bytes (k : WalletKey) : bytes := SigningKey_to_bytes (key_signing_key k).

Record Wallet := { default_key : string; wallet_keys : list WalletKey }.

Definition Wallet_from_signing_key (signing_key : SigningKey) : Wallet := {|
  default_key := DEFAULT_KEY_NAME;
  wallet_keys := [{| key_name := DEFAULT_KEY_NAME; key_signing_key := signing_key |}]
|}.

Definition Wallet_generate (fresh : SigningKey) : Wallet := Wallet_from_signing_key fresh.

Definition key_count (w : Wallet) : nat := length (wallet_keys w).

(** [self.keys.iter().any(|key| key.name == name)]. *)
Definition has_name (name : string) (ks : list WalletKey) : bool :=
  existsb (λ k, bool_decide (key_name k = name)) ks.

(** [iter().find]: the first key of that name. *)
Fixpoint find_key (name : string) (ks : list WalletKey) : option WalletKey :=
  match ks with
  | [] => None
  | k :: ks => if bool_decide (key_name k = name) then Some k else find_key name ks
  end.

Definition Wallet_key (w : Wallet) (name : string) : result WalletError WalletKey :=
  ok_or (find_key name (wallet_keys w)) (UnknownKeyName name).

Definition generate_key (w : Wallet) (name : string) (fresh : SigningKey)
    : Wallet * result WalletError VerifyingKey :=
  if has_name name (wallet_keys w) then (w, Err (DuplicateKeyName name))
  else
    ({| default_key := default_key w;
        wallet_keys := wallet_keys w ++ [{| key_name := name; key_signing_key := fresh |}] |},
     Ok (SigningKey_verifying_key fresh)).

Definition default_wallet_key (w : Wallet) : may_panic WalletKey :=
  find_key (default_key w) (wallet_keys w).

Definition Wallet_signing_key (w : Wallet) : may_panic SigningKey :=
  key_signing_key <$> default_wallet_key w.
Definition Wallet_verifying_key (w : Wallet) : may_panic VerifyingKey :=
  key_verifying_key <$> default_wallet_key w.
Definition verifying_keys (w : Wallet) : list VerifyingKey := key_verifying_key <$> wallet_keys w.

(** The duplicate scan: [prior] is [self.keys[..index]]. *)
Fixpoint check_names (prior ks : list WalletKey) : result WalletError unit :=
  match ks with
  | [] => Ok ()
  | k :: ks =>
      if has_name (key_name k) prior then Err (DuplicateKeyName (key_name k))
      else check_names (prior ++ [k]) ks
  end.

Definition validate (w : Wallet) : result WalletError unit :=
  match wallet_keys w with
  | [] => Err EmptyWallet
  | ks =>
      _ ← check_names [] ks;
      if has_name (default_key w) ks then Ok () else Err (MissingDefaultKey (default_key w))
  end.

Definition wallet_file (w : Wallet) : WalletFileV2 := {|
  file_default_key := default_key w;
  file_keys := (λ k, {| file_key_name := key_name k; file_secret_key := secret_key_bytes k |})
                 <$> wallet_keys w
|}.

Definition wallet_of_file (f : WalletFileV2) : Wallet := {|
  default_key := file_default_key f;
  wallet_keys := (λ k, {| key_name := file_key_name k;
                          key_signing_key := signing_key_from_bytes (file_secret_key k) |})
                   <$> file_keys f
|}.

Definition save_wallet (path : string) (w : Wallet) : disk_op WalletError unit :=
  _ ← lift (validate w);
  bs ← lift (map_err WalletEncode (file_encode (wallet_file w)));
  map_io WalletIo (fs_write path bs).

Definition load_wallet (path : string) : disk_op WalletError Wallet :=
  bs ← map_io WalletIo (fs_read path);
  match file_decode (A:=WalletFileV2) bs with
  | Ok (file, _) =>
      let wallet := wallet_of_file file in
      _ ← lift (validate wallet);
      mret wallet
  | Err _ =>
      legacy ← lift (map_err WalletDecode (file_decode (A:=WalletFileV1) bs));
      mret (Wallet_from_signing_key (signing_key_from_bytes (legacy_secret_key legacy.1)))
  | Panic => lift Panic
  end.

(** ** The invariant *)

Definition names (w : Wallet) : list string := key_name <$> wallet_keys w.

Record wallet_inv (w : Wallet) : Prop := {
  wi_unique : NoDup (names w);
  wi_default : default_key w ∈ names w
}.

Lemma has_name_spec name ks : has_name name ks = bool_decide (name ∈ key_name <$> ks).
Proof.
  induction ks as [|k ks IH]; cbn; [done|]. unfold has_name in IH. rewrite IH.
  symmetry. destruct (decide (key_name k = name)) as [<-|Hne].
  - rewrite (bool_decide_eq_true_2 (key_name k = _)) by done. cbn.
    apply bool_decide_eq_true_2. by left.
  - rewrite (bool_decide_eq_false_2 (key_name k = _)) by done. cbn.
    apply bool_decide_ext. rewrite elem_of_cons. naive_solver.
Qed.

Lemma find_key_name name ks k : find_key name ks = Some k → key_name k = name ∧ k ∈ ks.
Proof.
  induction ks as [|k' ks IH]; cbn; [done|]. case_bool_decide as Hn; intros H.
  - simplify_eq. split; [done|by left].
  - destruct (IH H). split; [done|by right].
Qed.

Lemma find_key_is_Some name ks : name ∈ key_name <$> ks → is_Some (find_key name ks).
Proof.
  induction ks as [|k ks IH]; cbn; [by intros ?%elem_of_nil|].
  intros Hin. case_bool_decide as Hk; [by eexists|]. apply IH.
  apply elem_of_cons in Hin as [->|?]; done.
Qed.

Lemma find_key_unique ks k :
  NoDup (key_name <$> ks) → k ∈ ks → find_key (key_name k) ks = Some k.
Proof.
  induction ks as [|k' ks IH]; cbn; [by intros _ ?%elem_of_nil|].
  intros [Hk' Hnd]%NoDup_cons [->|Hin]%elem_of_cons; [by rewrite bool_decide_eq_true_2|].
  rewrite bool_decide_eq_false_2; [by apply IH|]. intros Heq. apply Hk'. rewrite Heq.
  by apply list_elem_of_fmap_2.
Qed.

Lemma check_names_spec prior ks :
  NoDup (key_name <$> prior) →
  match check_names prior ks with
  | Ok _ => NoDup (key_name <$> prior ++ ks)
  | Err e => ∃ ks1 k ks2, ks = ks1 ++ k :: ks2 ∧ NoDup (key_name <$> prior ++ ks1)
      ∧ key_name k ∈ key_name <$> prior ++ ks1 ∧ e = DuplicateKeyName (key_name k)
  | Panic => False
  end.
Proof.
  revert prior. induction ks as [|k ks IH]; intros prior Hnd; cbn [check_names].
  { by rewrite app_nil_r. }
  rewrite has_name_spec. case_bool_decide as Hin.
  { exists [], k, ks. by rewrite app_nil_r. }
  assert (NoDup (key_name <$> prior ++ [k])) as Hnd'.
  { rewrite fmap_app. apply NoDup_app. split; [done|]. split; [|apply NoDup_singleton].
    intros x Hx ->%list_elem_of_singleton. done. }
  specialize (IH _ Hnd'). destruct (check_names (prior ++ [k]) ks) as [[]|e|].
  - by rewrite <-app_assoc in IH.
  - destruct IH as (ks1 & k' & ks2 & -> & IH). exists (k :: ks1), k', ks2.
    by rewrite <-app_assoc in IH.
  - done.
Qed.

Lemma find_key_app name ks ks' k : find_key name ks = Some k → find_key name (ks ++ ks') = Some k.
Proof.
  induction ks as [|k0 ks IH]; [done|]. cbn. by case_bool_decide.
Qed.

(** What [validate] reports, on every branch. *)
Lemma validate_spec w :
  match validate w with
  | Ok _ => wallet_inv w
  | Err EmptyWallet => wallet_keys w = []
  | Err (DuplicateKeyName n) => n ∈ names w ∧ ¬ NoDup (names w)
  | Err (MissingDefaultKey n) => NoDup (names w) ∧ n = default_key w ∧ n ∉ names w
  | _ => False
  end.
Proof.
  unfold validate, names. destruct (wallet_keys w) as [|k ks] eqn:Hks; [done|].
  pose proof (check_names_spec [] (k :: ks) (NoDup_nil_2 )) as Hc. cbn [app] in Hc.
  destruct (check_names [] (k :: ks)) as [[]|e|]; cbn -[has_name fmap]; [|..|done].
  - rewrite has_name_spec. case_bool_decide; [|done]. split; unfold names; by rewrite Hks.
  - destruct Hc as (ks1 & k' & ks2 & Heq & _ & Hin & ->). rewrite Heq, fmap_app, fmap_cons.
    split; [set_solver|]. intros (_ & Hd & _)%NoDup_app. apply (Hd _ Hin). by left.
Qed.

Lemma validate_Ok w : validate w = Ok () ↔ wallet_inv w.
Proof.
  pose proof (validate_spec w) as H. split; [by intros Hv; rewrite Hv in H|].
  intros [Hu Hd]. destruct (validate w) as [[]|[]|]; [done|..]; try naive_solver.
  unfold names in Hd. rewrite H in Hd. by apply elem_of_nil in Hd.
Qed.

Lemma wallet_inv_generate sk : wallet_inv (Wallet_generate sk).
Proof. split; [apply NoDup_singleton|by left]. Qed.

Lemma wallet_inv_generate_key w name sk :
  wallet_inv w → wallet_inv (generate_key w name sk).1.
Proof.
  intros [Hu Hd]. unfold generate_key. rewrite has_name_spec.
  case_bool_decide as Hin; [done|]. split; unfold names in *; cbn; rewrite fmap_app; [|set_solver].
  apply NoDup_app. split; [done|]. split; [|apply NoDup_singleton].
  intros x Hx ->%list_elem_of_singleton. done.
Qed.

(** The [expect] of [default_wallet_key] never fires. *)
Lemma default_wallet_key_total w :
  wallet_inv w → ∃ k, default_wallet_key w = Some k ∧ k ∈ wallet_keys w
    ∧ key_name k = default_key w.
Proof.
  intros [_ Hd]. destruct (find_key_is_Some _ _ Hd) as [k Hk].
  exists k. split; [done|]. by apply find_key_name in Hk as [-> ?].
Qed.

Context `{!CryptoLaws C} `{!FileCodecLaws K2} `{!FileCodecLaws K1}.

Lemma wallet_of_wallet_file w : wallet_of_file (wallet_file w) = w.
Proof using CryptoLaws0.
  destruct w as [d ks]. unfold wallet_of_file, wallet_file. cbn. f_equal.
  rewrite <-list_fmap_compose. rewrite <-(list_fmap_id ks) at 2. apply list_fmap_ext.
  intros i [n sk] _. unfold secret_key_bytes, signing_key_from_bytes. cbn.
  by rewrite SigningKey_from_to_bytes.
Qed.

(** Whatever is on the disk, a loaded wallet satisfies the invariant, and
    loading changes no file. *)
Lemma load_wallet_inv path d :
  disk_files (load_wallet path d).1 = disk_files d
  ∧ ∀ w, (load_wallet path d).2 = Ok w → wallet_inv w.
Proof using.
  unfold load_wallet, mbind, disk_bind, map_io. pose proof (fs_read_files path d) as Hf.
  destruct (fs_read path d) as [d' r]. cbn in Hf. destruct r as [bs|e|]; cbn; [|done..].
  destruct (file_decode (A:=WalletFileV2) bs) as [[f n]|e|]; cbn; [..|done].
  - destruct (validate (wallet_of_file f)) as [[]|e|] eqn:Hv; cbn; [|done..].
    split; [done|]. intros w [= <-]. by apply validate_Ok.
  - destruct (file_decode (A:=WalletFileV1) bs) as [[f n]|e'|]; cbn; [|done..].
    split; [done|]. intros w [= <-]. apply (wallet_inv_generate _).
Qed.

(** What is saved is loaded. *)
Lemma save_load_wallet path d w :
  healthy d → wallet_inv w →
  ∃ bs, let d' := {| disk_files := <[path := bs]> (disk_files d); disk_dirs := disk_dirs d;
                     disk_faults := [] |} in
    save_wallet path w d = (d', Ok ()) ∧ load_wallet path d' = (d', Ok w).
Proof using All.
  intros Hd Hw. destruct (file_decode_encode (wallet_file w)) as (bs & n & He & Hdec).
  exists bs. intros d'. unfold save_wallet, load_wallet, mbind, disk_bind, lift, map_io.
  rewrite (proj2 (validate_Ok w)) by done. rewrite He. cbn [map_err].
  rewrite fs_write_healthy by done. split; [done|].
  rewrite (fs_read_healthy _ bs) by (done || apply lookup_insert_eq). cbn [map_err].
  rewrite Hdec, wallet_of_wallet_file. cbn. by rewrite (proj2 (validate_Ok w)).
Qed.

(** C22: a healthy disk gives back exactly the wallet that was saved, and every
    wallet that can be loaded (from any bytes on any disk) or grown from a loaded
    one by [generate_key] satisfies the invariant: unique names and a present
    default key, so that its default key lookup does not panic and each of its
    keys is found under its name.  A wallet that violates the invariant is
    refused before the disk is touched. *)
Theorem wallet_files_correct (path : string) (d : Disk) (w : Wallet) :
  (healthy d → wallet_inv w →
   ∃ d', save_wallet path w d = (d', Ok ()) ∧ load_wallet path d' = (d', Ok w)
     ∧ ∀ p, p ≠ path → disk_files d' !! p = disk_files d !! p)
  ∧ (¬ wallet_inv w → ∃ e, save_wallet path w d = (d, Err e))
  ∧ (∀ w0 ops, (load_wallet path d).2 = Ok w0 →
       let w' := foldl (λ w op, (generate_key w op.1 op.2).1) w0 ops in
       wallet_inv w' ∧ is_Some (Wallet_signing_key w')
       ∧ ∀ k, k ∈ wallet_keys w' → Wallet_key w' (key_name k) = Ok k).
Proof using All.
  split; [|split].
  - intros Hd Hw. destruct (save_load_wallet path d w Hd Hw) as (bs & Hs & Hl).
    eexists. split_and!; [exact Hs|exact Hl|]. intros p Hp. cbn. by rewrite lookup_insert_ne.
  - intros Hw. unfold save_wallet, mbind, disk_bind, lift.
    pose proof (validate_spec w) as Hs.
    destruct (validate w) as [[]|e|]; [done|by exists e|done].
  - intros w0 ops Hl w'. assert (wallet_inv w') as Hi.
    { subst w'. apply load_wallet_inv in Hl. revert w0 Hl.
      induction ops as [|op ops IH]; intros w0 Hl; cbn; [done|].
      apply IH. by apply wallet_inv_generate_key. }
    split; [done|]. split.
    + destruct (default_wallet_key_total w' Hi) as (k & Hk & _).
      unfold Wallet_signing_key. rewrite Hk. by eexists.
    + intros k Hk. unfold Wallet_key.
      by rewrite find_key_unique by (done || apply Hi).
Qed.

(** A single-key file of the old format loads as a one-entry keyring, unless its
    bytes happen to decode as a file of the new format. *)
Lemma load_wallet_legacy path d sk :
  ∃ bs, file_encode {| legacy_secret_key := SigningKey_to_bytes sk |} = Ok bs
  ∧ (healthy d → disk_files d !! path = Some bs →
     (∃ e, file_decode (A:=WalletFileV2) bs = Err e) →
     load_wallet path d = (d, Ok (Wallet_from_signing_key sk)))
  ∧ (healthy d → disk_files d !! path = Some bs →
     ∀ f n e, file_decode (A:=WalletFileV2) bs = Ok (f, n) →
     validate (wallet_of_file f) = Err e → load_wallet path d = (d, Err e)).
Proof using All.
  destruct (file_decode_encode {| legacy_secret_key := SigningKey_to_bytes sk |})
    as (bs & n & He & Hdec).
  exists bs. split; [done|]. unfold load_wallet, mbind, disk_bind, lift, map_io.
  split.
  - intros Hd Hf [e Hv2]. rewrite (fs_read_healthy _ bs) by done. cbn.
    rewrite Hv2, Hdec. cbn. unfold signing_key_from_bytes. by rewrite SigningKey_from_to_bytes.
  - intros Hd Hf f n' e Hv2 Hv. rewrite (fs_read_healthy _ bs) by done. cbn.
    by rewrite Hv2, Hv.
Qed.

End wallet.

(** ** Witness *)
Module DemoWallet.

#[export] Program Instance WalletKeyFile_countable : Countable WalletKeyFile :=
  inj_countable' (λ k, (file_key_name k, file_secret_key k))
    (λ p, {| file_key_name := p.1; file_secret_key := p.2 |}) _.
Next Obligation. by intros []. Qed.
#[export] Program Instance WalletFileV2_countable : Countable WalletFileV2 :=
  inj_countable' (λ f, (file_default_key f, file_keys f))
    (λ p, {| file_default_key := p.1; file_keys := p.2 |}) _.
Next Obligation. by intros []. Qed.
#[export] Program Instance WalletFileV1_countable : Countable WalletFileV1 :=
  inj_countable' legacy_secret_key Build_WalletFileV1 _.
Next Obligation. by intros []. Qed.

Definition disk : Disk := {|
  disk_files := {["wallet.bin" := [x00]]}; disk_dirs := ∅; disk_faults := []
|}.
Definition wallet : Wallet (C:=Toy.crypto) :=
  (generate_key (C:=Toy.crypto) (EncodeError:=unit) (DecodeError:=unit)
     (Wallet_generate (C:=Toy.crypto) x07) "receiving-1" x2a).1.

End DemoWallet.
#[local] Existing Instances DemoWallet.WalletFileV2_countable DemoWallet.WalletFileV1_countable.

Lemma wallet_files_correct_witness :
  ∃ d', save_wallet (C:=Toy.crypto) (K2:=DemoFiles.codec WalletFileV2) (DecodeError:=unit)
          "wallet.bin" DemoWallet.wallet DemoWallet.disk = (d', Ok ())
    ∧ load_wallet (C:=Toy.crypto) (K2:=DemoFiles.codec WalletFileV2)
        (K1:=DemoFiles.codec WalletFileV1) "wallet.bin" d' = (d', Ok DemoWallet.wallet)
    ∧ key_count (C:=Toy.crypto) DemoWallet.wallet = 2%nat.
Proof.
  destruct (wallet_files_correct (C:=Toy.crypto) (CryptoLaws0:=Toy.laws)
    (K2:=DemoFiles.codec WalletFileV2) (K1:=DemoFiles.codec WalletFileV1)
    (FileCodecLaws0:=DemoFiles.codec_laws WalletFileV2)
    (FileCodecLaws1:=DemoFiles.codec_laws WalletFileV1)
    "wallet.bin" DemoWallet.disk DemoWallet.wallet) as [H _].
  destruct H as (d' & Hs & Hl & _); [reflexivity| |by exists d'].
  apply (validate_Ok (EncodeError:=unit) (DecodeError:=unit)). reflexivity.
Defined.
