(* ===== verification/Aliases.v ===== *)
(** * aliases.rs and the peer file of peers.rs: JSON files on disk

    A [BTreeMap] is a finite map; where the source iterates over one, the keys
    come in text order.  The public keys of a book are arrays of 32 bytes. *)

From S2P Require Import Prelude Bytes Crypto Wire Peers Client Files.

(** The order of a [BTreeMap<String, _>]'s iterator. *)
Definition key_le {A} (p q : string * A) : Prop := String.le p.1 q.1.
#[export] Instance key_le_dec {A} : RelDecision (@key_le A).
Proof. intros p q. unfold key_le. apply _. Defined.

Definition in_key_order {A} (m : gmap string A) : list (string * A) :=
  merge_sort key_le (map_to_list m).

Lemma in_key_order_perm {A} (m : gmap string A) : in_key_order m ≡ₚ map_to_list m.
Proof. apply merge_sort_Permutation. Qed.

(** [chunks_exact(2)] with [u8::from_str_radix]: the bytes of the even-length
    text [value]. *)
Fixpoint parse_chunks (value : string) : option bytes :=
  match value with
  | String c1 (String c2 rest) =>
      z ← u8_from_str_radix_16 c1 c2;
      bs ← parse_chunks rest;
      Some (byte_of_Z z :: bs)
  | _ => Some []
  end.

Section aliases.
Context `{C : Crypto}.
Context {JsonError : Type}.

Record AliasFile := { file_entries : gmap string string }.
Record AliasBook := { alias_entries : gmap string bytes }.

Context `{J : !PrettyJson JsonError AliasFile}.

Inductive AliasError :=
| AliasIo (e : io_Error)
| AliasSerialize (e : JsonError)
| AliasParse (e : JsonError)
| InvalidPublicKey
| UnknownAlias (alias : string).

Definition AliasBook_new : AliasBook := {| alias_entries := ∅ |}.

Definition AliasBook_insert (b : AliasBook) (alias : string) (public_key : VerifyingKey)
    : AliasBook :=
  {| alias_entries := <[alias := verifying_key_bytes public_key]> (alias_entries b) |}.

Definition AliasBook_entries (b : AliasBook) : list (string * VerifyingKey) :=
  omap (λ p, (λ key, (p.1, key)) <$> parse_verifying_key p.2) (in_key_order (alias_entries b)).

Definition resolve (b : AliasBook) (alias : string) : result AliasError VerifyingKey :=
  bs ← ok_or (alias_entries b !! alias) (UnknownAlias alias);
  ok_or (parse_verifying_key bs) InvalidPublicKey.

Definition encode_public_key (bs : bytes) : string := to_hex bs.

Definition parse_public_key_hex (value : string) : result AliasError bytes :=
  if bool_decide (String.length value = 64%nat) then ok_or (parse_chunks value) InvalidPublicKey
  else Err InvalidPublicKey.

Definition alias_file (b : AliasBook) : AliasFile :=
  {| file_entries := encode_public_key <$> alias_entries b |}.

Definition save_alias_book (path : string) (b : AliasBook) : disk_op AliasError unit :=
  json ← lift (map_err AliasSerialize (to_string_pretty (alias_file b)));
  map_io AliasIo (fs_write path json).

(** The loop of [load_alias_book]. *)
Definition parse_entry (m : gmap string bytes) (p : string * string)
    : result AliasError (gmap string bytes) :=
  bs ← parse_public_key_hex p.2; Ok (<[p.1 := bs]> m).

Definition load_alias_book (path : string) : disk_op AliasError AliasBook :=
  json ← map_io AliasIo (fs_read_to_string path);
  file ← lift (map_err AliasParse (from_text (A:=AliasFile) json));
  entries ← lift (try_fold parse_entry ∅ (in_key_order (file_entries file)));
  mret {| alias_entries := entries |}.

(** ** Hexadecimal keys *)

Lemma to_hex_length bs : String.length (to_hex bs) = (2 * length bs)%nat.
Proof. induction bs as [|b bs IH]; cbn; [done|]. rewrite IH. lia. Qed.

Lemma parse_chunks_to_hex bs : parse_chunks (to_hex bs) = Some bs.
Proof.
  induction bs as [|b bs IH]; [done|]. cbn [to_hex parse_chunks].
  rewrite u8_from_str_radix_16_hex. cbn. by rewrite IH, byte_of_to_Z.
Qed.

Lemma parse_encode_public_key bs :
  length bs = 32%nat → parse_public_key_hex (encode_public_key bs) = Ok bs.
Proof.
  intros Hl. unfold parse_public_key_hex, encode_public_key.
  rewrite bool_decide_eq_true_2 by (rewrite to_hex_length; lia).
  by rewrite parse_chunks_to_hex.
Qed.

Lemma parse_chunks_length n value bs :
  String.length value = (2 * n)%nat → parse_chunks value = Some bs → length bs = n.
Proof.
  revert value bs. induction n as [|n IH]; intros [|c1 [|c2 rest]] bs Hl Hp; try (cbn in Hl; lia).
  - by injection Hp as <-.
  - cbn in Hp, Hl. destruct (u8_from_str_radix_16 c1 c2) as [z|]; [|done]. cbn in Hp.
    destruct (parse_chunks rest) as [bs'|] eqn:Hr; [|done]. injection Hp as <-. cbn.
    f_equal. eapply IH; [|done]. lia.
Qed.

Lemma parse_public_key_hex_length value bs :
  parse_public_key_hex value = Ok bs → length bs = 32%nat.
Proof.
  unfold parse_public_key_hex. case_bool_decide; [|done]. intros Hp. inv_result.
  by eapply (parse_chunks_length 32).
Qed.

(** A sign is accepted in front of a single digit, so two texts name one key. *)
Example parse_public_key_hex_plus :
  parse_public_key_hex (to_hex (replicate 31 x00) +:+ "+f")
  = parse_public_key_hex (to_hex (replicate 31 x00) +:+ "0f").
Proof. reflexivity. Qed.

(** ** Books *)

(** Every stored key has the length of the array. *)
Definition book_wf (b : AliasBook) : Prop :=
  map_Forall (λ _ bs, length bs = PUBLIC_KEY_LEN) (alias_entries b).

Lemma parse_entries_spec (l : list (string * string)) m0 :
  NoDup l.*1 →
  match try_fold parse_entry m0 l with
  | Ok m => (∀ k, m !! k = match list_to_map (M:=gmap string string) l !! k with
                           | Some v => unwrap (parse_public_key_hex v)
                           | None => m0 !! k
                           end)
            ∧ Forall (λ p, is_Some (unwrap (parse_public_key_hex p.2))) l
  | Err e => e = InvalidPublicKey ∧ ¬ Forall (λ p, is_Some (unwrap (parse_public_key_hex p.2))) l
  | Panic => False
  end.
Proof.
  revert m0. induction l as [|[k v] l IH]; intros m0 Hnd; cbn [try_fold].
  { split; [done|constructor]. }
  apply NoDup_cons in Hnd as [Hk Hnd]. 
  assert (parse_entry m0 (k, v) = (bs ← parse_public_key_hex v; Ok (<[k := bs]> m0))) as -> by done.
  destruct (parse_public_key_hex v) as [bs|e|] eqn:Hv; unfold mbind, result_bind.
  - specialize (IH (<[k := bs]> m0) Hnd). destruct (try_fold _ _ l) as [m|e|]; [|..|done].
    + destruct IH as [IH Hall]. split; [|constructor; [by cbn; rewrite Hv|done]].
      intros k'. rewrite IH, list_to_map_cons. destruct (decide (k' = k)) as [->|Hne].
      * rewrite lookup_insert_eq. rewrite not_elem_of_list_to_map_1 by done.
        rewrite lookup_insert_eq. cbn. by rewrite Hv.
      * rewrite !(lookup_insert_ne _ k) by done. done.
    + destruct IH as [-> Hn]. split; [done|]. by intros [_ ?]%Forall_cons.
  - split.
    + revert Hv. unfold parse_public_key_hex. case_bool_decide; [|congruence].
      by destruct (parse_chunks v) eqn:?; cbn; intros [= <-].
    + intros [[x Hx] _]%Forall_cons. cbn in Hx. by rewrite Hv in Hx.
  - revert Hv. unfold parse_public_key_hex. case_bool_decide; [|done].
    by destruct (parse_chunks v).
Qed.

Lemma in_key_order_keys {A} (m : gmap string A) : NoDup (in_key_order m).*1.
Proof. rewrite in_key_order_perm. apply NoDup_fst_map_to_list. Qed.

Lemma list_to_map_in_key_order (m : gmap string string) :
  list_to_map (M:=gmap string string) (in_key_order m) = m.
Proof.
  rewrite (list_to_map_proper _ _ (in_key_order_keys m) (in_key_order_perm m)).
  apply list_to_map_to_list.
Qed.

(** The whole loop: every value parses, or the book is refused. *)
Lemma parse_file_spec (m : gmap string string) :
  match try_fold parse_entry ∅ (in_key_order m) with
  | Ok es => es = omap (λ v, unwrap (parse_public_key_hex v)) m
             ∧ map_Forall (λ _ v, is_Some (unwrap (parse_public_key_hex v))) m
  | Err e => e = InvalidPublicKey
             ∧ ¬ map_Forall (λ _ v, is_Some (unwrap (parse_public_key_hex v))) m
  | Panic => False
  end.
Proof.
  pose proof (parse_entries_spec (in_key_order m) ∅ (in_key_order_keys m)) as H.
  assert (Forall (λ p, is_Some (unwrap (parse_public_key_hex p.2))) (in_key_order m) ↔
    map_Forall (λ _ v, is_Some (unwrap (parse_public_key_hex v))) m) as Hf.
  { rewrite in_key_order_perm. rewrite map_Forall_to_list. apply Forall_proper; [|done].
    by intros []. }
  destruct (try_fold parse_entry ∅ (in_key_order m)) as [es|e|]; [|naive_solver|done].
  destruct H as [H Hall]. split; [|tauto]. apply map_eq. intros k.
  rewrite H, list_to_map_in_key_order, lookup_omap. by destruct (m !! k).
Qed.

Context `{!CryptoLaws C} `{!PrettyJsonLaws J}.

Lemma book_wf_insert b a vk : book_wf b → book_wf (AliasBook_insert b a vk).
Proof using CryptoLaws0. intros Hb. apply map_Forall_insert_2; [apply VerifyingKey_to_bytes_length|done]. Qed.

Lemma resolve_insert b a vk a' :
  resolve (AliasBook_insert b a vk) a' = if bool_decide (a' = a) then Ok vk else resolve b a'.
Proof using CryptoLaws0.
  unfold resolve, AliasBook_insert. cbn [alias_entries]. case_bool_decide as Ha.
  - subst a'. rewrite lookup_insert_eq. cbn. by rewrite parse_verifying_key_bytes.
  - by rewrite lookup_insert_ne by congruence.
Qed.

(** A saved book is read back exactly on a healthy disk; any book that loads
    has keys of the right length only. *)
Theorem alias_book_roundtrip path d b :
  (healthy d → book_wf b →
   ∃ d', save_alias_book path b d = (d', Ok ()) ∧ load_alias_book path d' = (d', Ok b))
  ∧ ∀ b', (load_alias_book path d).2 = Ok b' → book_wf b'.
Proof using PrettyJsonLaws0.
  split.
  - intros Hd Hb. destruct (from_text_pretty (alias_file b)) as (s & He & Hu & Hdec).
    eexists. unfold save_alias_book, load_alias_book, mbind, disk_bind, lift, map_io.
    rewrite He. cbn [map_err]. rewrite fs_write_healthy by done. split; [done|].
    rewrite (fs_read_to_string_healthy _ s) by (done || apply lookup_insert_eq). cbn [map_err].
    rewrite Hdec. cbn [map_err]. pose proof (parse_file_spec (file_entries (alias_file b))) as H.
    assert (omap (λ v, unwrap (parse_public_key_hex v)) (file_entries (alias_file b))
      = alias_entries b) as Heq.
    { apply map_eq. intros k. unfold alias_file. cbn. rewrite lookup_omap, lookup_fmap.
      destruct (alias_entries b !! k) as [bs|] eqn:Hk; cbn; [|done].
      by rewrite parse_encode_public_key by exact (Hb _ _ Hk). }
    destruct (try_fold parse_entry ∅ _) as [es|e|]; [|exfalso|done].
    + destruct H as [-> _]. rewrite Heq. by destruct b.
    + destruct H as [_ H]. apply H. intros k v Hk. unfold alias_file in Hk. cbn in Hk.
      apply lookup_fmap_Some in Hk as (bs & <- & Hk).
      rewrite parse_encode_public_key by exact (Hb _ _ Hk). by eexists.
  - intros b'. unfold load_alias_book, mbind, disk_bind, lift, map_io.
    destruct (fs_read_to_string path d) as [d' []]; cbn [map_err]; [|done..].
    destruct (from_text a) as [f|e|]; cbn [map_err]; [|done..].
    pose proof (parse_file_spec (file_entries f)) as H.
    destruct (try_fold parse_entry ∅ _) as [es|e|]; [|done..]. intros [= <-].
    destruct H as [-> _]. intros k bs. cbn. rewrite lookup_omap.
    destruct (file_entries f !! k) as [v|]; [cbn|done].
    destruct (parse_public_key_hex v) eqn:Hv; [|done..]. intros [= <-].
    by apply parse_public_key_hex_length in Hv.
Qed.

End aliases.

(** ** The bootstrap peer file *)

Section peer_file.
Context {JsonError : Type}.
Context `{J : !PrettyJson JsonError (list PeerEndpoint)}.

Inductive PeerConfigError :=
| PeersRead (e : io_Error)
| PeersParse (e : JsonError).

Definition load_peer_endpoints (path : string) : disk_op PeerConfigError (list PeerEndpoint) :=
  contents ← map_io PeersRead (fs_read_to_string path);
  lift (map_err PeersParse (from_text contents)).

Definition save_peer_endpoints (path : string) (peers : list PeerEndpoint)
    : disk_op PeerConfigError unit :=
  contents ← lift (map_err PeersParse (to_string_pretty peers));
  map_io PeersRead (fs_write path contents).

Context `{!PrettyJsonLaws J}.

Theorem peer_endpoints_roundtrip path d peers :
  healthy d →
  ∃ d', save_peer_endpoints path peers d = (d', Ok ())
    ∧ load_peer_endpoints path d' = (d', Ok peers).
Proof using PrettyJsonLaws0.
  intros Hd. destruct (from_text_pretty peers) as (s & He & Hu & Hdec).
  eexists. unfold save_peer_endpoints, load_peer_endpoints, mbind, disk_bind, lift, map_io.
  rewrite He. cbn [map_err]. rewrite fs_write_healthy by done. split; [done|].
  rewrite (fs_read_to_string_healthy _ s) by (done || apply lookup_insert_eq).
  cbn [map_err]. by rewrite Hdec.
Qed.

End peer_file.
