(* ===== verification/Peer.v ===== *)
(** * peer.rs: the peer protocol

    [handle_message] is the dispatcher over a node state: the state after the
    message and the reply, or the error that closes the connection.  Its
    mining request may use up the fuel of the nonce search.  The duplex session
    that carries the messages is in Session. *)

From S2P Require Import Prelude Bytes Crypto Types State Consensus Chain Mempool Wire Mining.
From S2P Require Import NodeState Home Peers Client.

Inductive PeerError :=
| NetworkMismatch (local remote : string)
| UnsupportedVersion (v : Z)
| TransactionRejected (e : NodeStateError)
| BlockRejected (e : NodeStateError)
| InvalidMinerPublicKey
| MiningRejected (e : NodeStateError).

#[export] Instance PeerError_eq_dec : EqDecision PeerError.
Proof. solve_decision. Defined.

Definition local_hello (config : NodeConfig) (s : NodeState) : HelloMessage :=
  let t := tip_summary s in {|
    network := config_network config;
    hello_version := PROTOCOL_VERSION;
    hello_node_name := config_node_name config;
    advertised_addr :=
      match config_advertised_addr config with
      | Some a => Some a
      | None => Some (listen_addr config)
      end;
    hello_tip := tip t;
    hello_height := tip_height t
  |}.

Section dispatch.
Context `{C : Crypto}.

(** [fuel] bounds the nonce search of [mine_pending]; [Err None] is a search
    that has not ended. *)
Definition handle_message (fuel : nat) (config : NodeConfig) (s : NodeState) (m : WireMessage)
    : NodeState * result (option PeerError) (list WireMessage) :=
  match m with
  | WHello remote =>
      if bool_decide (network remote ≠ config_network config) then
        (s, Err (Some (NetworkMismatch (config_network config) (network remote))))
      else if bool_decide (hello_version remote ≠ PROTOCOL_VERSION) then
        (s, Err (Some (UnsupportedVersion (hello_version remote))))
      else (s, Ok [WHello (local_hello config s)])
  | WGetTip => (s, Ok [WTip (tip_summary s)])
  | WAnnounceTip _ => (s, Ok [])
  | WGetBlock h => (s, Ok [WBlock (get_block s h)])
  | WAnnounceTx tx =>
      match submit_transaction s tx with
      | (s', Ok _) => (s', Ok [])
      | (s', Err (NMempool (DuplicateTransaction _))) => (s', Ok [])
      | (s', Err e) => (s', Err (Some (TransactionRejected e)))
      | (s', Panic) => (s', Panic)
      end
  | WAnnounceBlock b =>
      match accept_block s b with
      | (s', Ok _) => (s', Ok [])
      | (s', Err e) => (s', Err (Some (BlockRejected e)))
      | (s', Panic) => (s', Panic)
      end
  | WMinePending request =>
      match parse_verifying_key (miner_public_key request) with
      | None => (s, Err (Some InvalidMinerPublicKey))
      | Some miner =>
          match NodeState_mine_block fuel s (reward request) miner (uniqueness request)
                  (request_bits request) (max_transactions request) with
          | (s', Ok h) => (s', Ok [WMinedBlock {| mined_hash := h |}])
          | (s', Err (Some e)) => (s', Err (Some (MiningRejected e)))
          | (s', Err None) => (s', Err None)
          | (s', Panic) => (s', Panic)
          end
      end
  | WTip _ | WBlock _ | WMinedBlock _ => (s, Ok [])
  end.

(** The field ranges of a decoded message. *)
Definition WireMessage_wf (m : WireMessage) : Prop :=
  match m with
  | WAnnounceTx tx => Transaction_wf tx ∧ encodable true tx
  | WAnnounceBlock b => Block_wf b ∧ Block_encodable b
  | WMinePending r =>
      u64 (reward r) ∧ u32 (uniqueness r) ∧ u32 (request_bits r) ∧ 0 ≤ max_transactions r
  | _ => True
  end.

(** What a reply to each message tells the remote about the new state. *)
Definition answers (config : NodeConfig) (s s' : NodeState) (m : WireMessage)
    (replies : list WireMessage) : Prop :=
  match m with
  | WHello remote => s' = s ∧ network remote = config_network config
      ∧ hello_version remote = PROTOCOL_VERSION ∧ replies = [WHello (local_hello config s)]
  | WGetTip => s' = s ∧ ∃ t, replies = [WTip t]
      ∧ match tip t with
        | None => entries (chain s) = ∅
        | Some h => ∃ e, entries (chain s) !! h = Some e ∧ tip_height t = Some (height e)
            ∧ ∀ h' e', entries (chain s) !! h' = Some e' → cumulative_work e' ≤ cumulative_work e
        end
  | WGetBlock h => s' = s ∧ ∃ ob, replies = [WBlock ob]
      ∧ (is_Some ob ↔ is_Some (entries (chain s) !! h))
      ∧ ∀ b, ob = Some b → header_hash (header b) = h ∧ block_valid b
  | WAnnounceTx tx => replies = [] ∧ chain s' = chain s ∧ active_utxos s' = active_utxos s
      ∧ ∃ id, Transaction_txid tx = Some id ∧ is_Some (mempool s' !! id)
  | WAnnounceBlock b => replies = []
      ∧ is_Some (utxo_snapshots s' !! header_hash (header b)) ∧ (tip_synced s → tip_synced s')
  | WMinePending _ => ∃ h, replies = [WMinedBlock {| mined_hash := h |}]
      ∧ is_Some (utxo_snapshots s' !! h) ∧ (tip_synced s → tip_synced s')
  | WAnnounceTip _ | WTip _ | WBlock _ | WMinedBlock _ => s' = s ∧ replies = []
  end.

End dispatch.

Section dispatch_proofs.
Context `{C : Crypto} `{L : !CryptoLaws C}.

Lemma tip_summary_best s :
  node_inv s →
  match tip (tip_summary s) with
  | None => entries (chain s) = ∅
  | Some h => ∃ e, entries (chain s) !! h = Some e ∧ tip_height (tip_summary s) = Some (height e)
      ∧ ∀ h' e', entries (chain s) !! h' = Some e' → cumulative_work e' ≤ cumulative_work e
  end.
Proof using.
  intros Hi. pose proof (cw_best _ (ni_chain s Hi)) as Hb. unfold tip_summary.
  destruct (best_tip (chain s)) as [t|]; cbn; [|done].
  destruct Hb as (te & Hte & Hmax). exists te. by rewrite Hte.
Qed.

Lemma get_block_correct s h :
  node_inv s →
  (is_Some (get_block s h) ↔ is_Some (entries (chain s) !! h))
  ∧ ∀ b, get_block s h = Some b → header_hash (header b) = h ∧ block_valid b.
Proof using.
  intros Hi. split; [apply Hi|]. intros b Hb.
  by destruct (ni_stored s Hi h b Hb) as (? & _ & _ & ? & _).
Qed.

(** A submitted transaction that is accepted or reported as a duplicate is pending afterwards. *)
Lemma submit_transaction_pending s tx s' r :
  node_inv s → Transaction_wf tx → encodable true tx → submit_transaction s tx = (s', r) →
  match r with
  | Ok id | Err (NMempool (DuplicateTransaction id)) =>
      Transaction_txid tx = Some id ∧ is_Some (mempool s' !! id)
  | Err e => s' = s
  | Panic => False
  end.
Proof using.
  intros Hi Hw He. destruct (Transaction_txid_is_Some tx He) as [id Hid].
  pose proof (submit_cases _ (active_wf s Hi) (mempool s) tx id (ni_mempool s Hi) Hw He Hid) as Hc.
  unfold submit_transaction. destruct (submit (mempool s) (active_utxos s) tx) as [[mp i]|e|];
    [|intros [= <- <-]|done].
  - destruct Hc as (-> & Hnew & f & Hf & Had). intros [= <- <-]. split; [done|]. cbn.
    destruct Had as [(_ & _ & ->)|(v & p & f' & _ & _ & _ & -> & _)]; rewrite lookup_insert_eq; eauto.
  - destruct e; cbn in Hc; try done. by destruct Hc as [-> ?].
Qed.

(** C28: The peer protocol is safe for the node: whatever message a remote
    sends, valid or not, the node invariant holds afterwards, at most one block is added, and only
    [mine_pending] can panic.  A successful answer is truthful: a tip is a block of
    maximal work, a returned block is valid and has the requested hash, an
    announced transaction is pending, an announced or mined block has been applied. *)
Theorem handle_message_correct (fuel : nat) (config : NodeConfig) (s : NodeState)
    (m : WireMessage) (s' : NodeState) (r : result (option PeerError) (list WireMessage)) :
  node_inv s → WireMessage_wf m → Z.of_nat (size (entries (chain s))) < 2 ^ 64 →
  handle_message fuel config s m = (s', r) →
  node_inv s' ∧ (size (entries (chain s')) ≤ S (size (entries (chain s))))%nat
  ∧ match r with
    | Ok replies => answers config s s' m replies
    | Err _ => True
    | Panic => ∃ q, m = WMinePending q
    end.
Proof using L.
  intros Hi Hw Hsz. destruct m as [rh| | | |tx|b|h| |q|]; cbn [handle_message];
    try (intros [= <- <-]; split_and!; [done|lia|done]).
  - repeat case_bool_decide; intros [= <- <-]; (split; [done|split; [lia|]]); [done..|].
    split_and!; done.
  - intros [= <- <-]. split; [done|split; [lia|split; [done|]]]. eexists. split; [done|by apply tip_summary_best].
  - destruct Hw as [Hw He]. destruct (submit_transaction s tx) as [s1 r1] eqn:Hs.
    pose proof (submit_transaction_pending _ _ _ _ Hi Hw He Hs) as Hp.
    apply submit_transaction_inv in Hs as (Hi1 & _ & Hc & Ha & _); [|done..].
    assert (size (entries (chain s1)) ≤ S (size (entries (chain s))))%nat by (rewrite Hc; lia).
    destruct r1 as [id|[| | |[]| | |]|]; intros [= <- <-]; split_and!; try done;
      (split_and!; [done..|by eexists]).
  - destruct Hw as [Hw He]. destruct (accept_block s b) as [s1 r1] eqn:Ha.
    pose proof (accept_block_size _ _ _ _ Hi Hw He Hsz Ha).
    apply accept_block_spec in Ha as [Hi1 Ha]; [|done..].
    destruct r1 as [[]|e|]; intros [= <- <-]; split_and!; try done. split_and!; [done|apply Ha..].
  - intros [= <- <-]. split; [done|split; [lia|split; [done|]]]. eexists. split; [done|by apply get_block_correct].
  - destruct Hw as (Hr & Hu & Hb & Hm0).
    destruct (parse_verifying_key _) as [vk|]; [|intros [= <- <-]; split_and!; [done|lia|done]].
    destruct (NodeState_mine_block _ _ _ _ _ _ _) as [s1 r1] eqn:Hm.
    pose proof (NodeState_mine_block_inv _ _ _ _ _ _ _ _ _ Hi Hr Hu Hb Hm0 Hsz Hm) as (Hi1 & Hs1 & Ht).
    destruct r1 as [h|[e|]|]; intros [= <- <-]; split_and!; try done; [|by eexists].
    exists h. split_and!; [done| |by apply Ht].
    apply NodeState_mine_block_spec in Hm as (b & ids & s2 & Ha & Hw & He & -> & _ & _ & ->); [|done..].
    apply accept_block_spec in Ha as (_ & _ & ? & _); done.
Qed.

(** The invariant alone, for a chain of any length. *)
Lemma handle_message_keeps fuel config s m s' r :
  node_inv s → WireMessage_wf m → handle_message fuel config s m = (s', r) → node_inv s'.
Proof using L.
  intros Hi Hw. destruct m as [rh| | | |tx|b|h| |q|]; cbn [handle_message];
    try (by intros [= <- <-]).
  - repeat case_bool_decide; by intros [= <- <-].
  - destruct Hw as [Hw He]. destruct (submit_transaction s tx) as [s1 r1] eqn:Hs.
    apply submit_transaction_inv in Hs as (Hi1 & _); [|done..].
    destruct r1 as [id|[| | |[]| | |]|]; by intros [= <- <-].
  - destruct Hw as [Hw He]. destruct (accept_block s b) as [s1 r1] eqn:Ha.
    apply accept_block_any in Ha as [Hi1 _]; [|done..].
    destruct r1 as [[]|e|]; by intros [= <- <-].
  - destruct Hw as (Hr & Hu & Hb & Hm0).
    destruct (parse_verifying_key _) as [vk|]; [|by intros [= <- <-]].
    destruct (NodeState_mine_block _ _ _ _ _ _ _) as [s1 r1] eqn:Hm.
    apply NodeState_mine_block_keeps in Hm; [|done..].
    destruct r1 as [h|[e|]|]; by intros [= <- <-].
Qed.

End dispatch_proofs.

(** A reward that overflows with the fees of the pending transactions. *)
Lemma mine_pending_overflow_panics `{C : Crypto} fuel config s q vk txs ids fees :
  parse_verifying_key (miner_public_key q) = Some vk →
  collect_valid (mempool s) (active_utxos s) (max_transactions q) = Some (txs, ids) →
  try_fold (λ total tx, f ← transaction_fee (active_utxos s) tx;
              ok_or (checked_add 64 total f) InputValueOverflow) 0 txs = Ok fees →
  2 ^ 64 ≤ reward q + fees →
  handle_message fuel config s (WMinePending q) = (s, Panic).
Proof.
  intros Hvk Hc Hf Hr. cbn. rewrite Hvk. unfold NodeState_mine_block. rewrite Hc.
  cbn [expect mbind result_bind]. rewrite Hf. cbn [map_err mbind result_bind].
  apply checked_add_None in Hr. unfold add_or_panic. rewrite Hr. done.
Qed.

(** ** Witnesses *)

Module DemoPeer.
#[local] Existing Instance Toy.crypto.

(** A transaction announced to a node that has the genesis block. *)
Definition run : NodeState * result (option PeerError) (list WireMessage) :=
  handle_message 0 NodeConfig_default DemoNode.s1 (WAnnounceTx Demo.payment).

Example run_ok : run.2 = Ok [].
Proof. vm_decide. Qed.

End DemoPeer.

Lemma handle_message_correct_witness : node_inv (C:=Toy.crypto) DemoPeer.run.1.
Proof.
  refine (proj1 (handle_message_correct (C:=Toy.crypto) (L:=Toy.laws) 0 NodeConfig_default
    DemoNode.s1 (WAnnounceTx Demo.payment) DemoPeer.run.1 DemoPeer.run.2
    (proj1 DemoNode.inv1) _ _ (surjective_pairing _))); [|vm_decide].
  split; vm_decide.
Defined.
