(* ===== verification/Session.v ===== *)
(** * peer.rs: the duplex peer session

    [run_peer_task] is a state machine driven by the events its [select!]
    waits for: a command of the server, the closing of the command channel, a
    line (or error) from the socket, the deadline of the pending request.
    Reply channels are numbered: the answers given on them are recorded in
    order in [replies], the messages written in [sent], what is handed to the
    server in [notified].  Instants are nanoseconds. *)

From S2P Require Import Prelude Bytes Types Wire Peers Client.

Definition OUTBOUND_PEER_IO_TIMEOUT : Z := 2000000000.

Inductive PeerCommand :=
| RequestTip (reply : nat)
| RequestBlock (h : BlockHash) (reply : nat)
| Announce (m : WireMessage) (reply : nat)
| Shutdown.

Inductive PendingRequest :=
| PendingTip (reply : nat)
| PendingBlock (reply : nat).

(** What is sent on a reply channel. *)
Inductive Reply :=
| ReplyTip (r : result RequestError TipSummary)
| ReplyBlock (r : result RequestError (option Block))
| ReplyAnnounce (r : result io_Error unit).

(** What a session tells the server. *)
Inductive Notice :=
| NoticeConnected
| NoticeMessage (origin : PeerAddr) (m : WireMessage)
| NoticeTipSync (origin : PeerAddr) (t : TipSummary)
| NoticeDisconnected.

Record Session := {
  pending_request : option PendingRequest;
  pending_deadline : option Z;
  commands_open : bool;
  origin : PeerAddr;
  outcomes : list (option io_Error);
  sent : list WireMessage;
  replies : list (nat * Reply);
  notified : list Notice
}.

#[export] Instance PeerCommand_eq_dec : EqDecision PeerCommand.
Proof. solve_decision. Defined.
#[export] Instance PendingRequest_eq_dec : EqDecision PendingRequest.
Proof. solve_decision. Defined.
#[export] Instance Reply_eq_dec : EqDecision Reply.
Proof. solve_decision. Defined.
#[export] Instance Notice_eq_dec : EqDecision Notice.
Proof. solve_decision. Defined.
#[export] Instance Session_eq_dec : EqDecision Session.
Proof. solve_decision. Defined.

Definition set_pending (s : Session) (p : option PendingRequest) (d : option Z) : Session := {|
  pending_request := p; pending_deadline := d; commands_open := commands_open s;
  origin := origin s; outcomes := outcomes s; sent := sent s; replies := replies s;
  notified := notified s
|}.

Definition set_origin (s : Session) (o : PeerAddr) : Session := {|
  pending_request := pending_request s; pending_deadline := pending_deadline s;
  commands_open := commands_open s; origin := o; outcomes := outcomes s; sent := sent s;
  replies := replies s; notified := notified s
|}.

Definition close_commands (s : Session) : Session := {|
  pending_request := pending_request s; pending_deadline := pending_deadline s;
  commands_open := false; origin := origin s; outcomes := outcomes s; sent := sent s;
  replies := replies s; notified := notified s
|}.

(** [reply.send(r)], whose failure is ignored. *)
Definition reply_send (s : Session) (id : nat) (r : Reply) : Session := {|
  pending_request := pending_request s; pending_deadline := pending_deadline s;
  commands_open := commands_open s; origin := origin s; outcomes := outcomes s; sent := sent s;
  replies := replies s ++ [(id, r)]; notified := notified s
|}.

Definition notify (s : Session) (n : Notice) : Session := {|
  pending_request := pending_request s; pending_deadline := pending_deadline s;
  commands_open := commands_open s; origin := origin s; outcomes := outcomes s; sent := sent s;
  replies := replies s; notified := notified s ++ [n]
|}.

Section session.
Context `{J : SerdeJson WireMessage}.
Context (json_error_text : json_error WireMessage → string).

(** The next of [outcomes] is the error, if any, of the bounded [write_all] and
    [flush]; a write without a fixed outcome succeeds. *)
Definition send_async_message (s : Session) (m : WireMessage) : Session * result io_Error unit :=
  match to_json_line m with
  | Err e => (s, Err (invalid_data json_error_text e))
  | Panic => (s, Panic)
  | Ok _ =>
      let s' ok := {|
        pending_request := pending_request s; pending_deadline := pending_deadline s;
        commands_open := commands_open s; origin := origin s; outcomes := tail (outcomes s);
        sent := if (ok : bool) then sent s ++ [m] else sent s;
        replies := replies s; notified := notified s |} in
      match outcomes s with
      | Some e :: _ => (s' false, Err e)
      | _ => (s' true, Ok ())
      end
  end.

(** On the outcome of the bounded [read_line]; an empty line is the end of the
    stream. *)
Definition receive_async_message (read : result io_Error (list Ascii.ascii))
    : result io_Error WireMessage :=
  line ← read;
  match line with
  | [] => Err (io_error UnexpectedEof "peer closed connection")
  | _ :: _ => map_err (invalid_data json_error_text) (from_json_line line)
  end.

Definition already_pending : RequestError :=
  Receive (io_error Other "peer already has a pending request").

(** [handle_peer_command] at time [now]; the flag says whether to keep
    running. *)
Definition handle_peer_command (now : Z) (s : Session) (command : PeerCommand)
    : Session * bool :=
  match command with
  | RequestTip reply =>
      if pending_request s then (reply_send s reply (ReplyTip (Err already_pending)), true)
      else
        match send_async_message s WGetTip with
        | (s, Ok _) =>
            (set_pending s (Some (PendingTip reply)) (Some (now + OUTBOUND_PEER_IO_TIMEOUT)), true)
        | (s, Err e) => (reply_send s reply (ReplyTip (Err (Send e))), false)
        | (s, Panic) => (s, false)
        end
  | RequestBlock h reply =>
      if pending_request s then (reply_send s reply (ReplyBlock (Err already_pending)), true)
      else
        match send_async_message s (WGetBlock h) with
        | (s, Ok _) =>
            (set_pending s (Some (PendingBlock reply)) (Some (now + OUTBOUND_PEER_IO_TIMEOUT)), true)
        | (s, Err e) => (reply_send s reply (ReplyBlock (Err (Send e))), false)
        | (s, Panic) => (s, false)
        end
  | Announce m reply =>
      let '(s, r) := send_async_message s m in
      (reply_send s reply (ReplyAnnounce r), is_ok r)
  | Shutdown => (s, false)
  end.

Definition try_complete_pending_request (s : Session) (m : WireMessage) : Session * bool :=
  match pending_request s, m with
  | Some (PendingTip reply), WTip summary =>
      (reply_send (set_pending s None (pending_deadline s)) reply (ReplyTip (Ok summary)), true)
  | Some (PendingBlock reply), WBlock block =>
      (reply_send (set_pending s None (pending_deadline s)) reply (ReplyBlock (Ok block)), true)
  | _, _ => (s, false)
  end.

Definition fail_pending_request_with_error (s : Session) (e : RequestError) : Session :=
  match pending_request s with
  | None => s
  | Some (PendingTip reply) =>
      reply_send (set_pending s None (pending_deadline s)) reply (ReplyTip (Err e))
  | Some (PendingBlock reply) =>
      reply_send (set_pending s None (pending_deadline s)) reply (ReplyBlock (Err e))
  end.

Definition fail_pending_request (s : Session) (e : io_Error) (kind : option ErrorKind) : Session :=
  fail_pending_request_with_error s
    (Receive (match kind with
              | Some k => io_error k (error_text e)
              | None => e
              end)).

(** [for reply in replies { send_async_message(writer, &reply).await?; }] *)
Fixpoint send_all (s : Session) (ms : list WireMessage) : Session * result io_Error unit :=
  match ms with
  | [] => (s, Ok ())
  | m :: ms =>
      match send_async_message s m with
      | (s, Ok _) => send_all s ms
      | (s, r) => (s, r)
      end
  end.

(** The server's answer to a forwarded message: the text of the error when its
    queue is closed, the text of its own error, or the messages to send back. *)
Definition server_answer : Type := result string (result string (list WireMessage)).

Definition handle_inbound_message (has_handle : bool) (answer : server_answer) (s : Session)
    (m : WireMessage) : Session * result io_Error unit :=
  match try_complete_pending_request s m with
  | (s, true) => (set_pending s (pending_request s) None, Ok ())
  | (s, false) =>
      let tip_for_follow_up_sync := match m with WAnnounceTip t => Some t | _ => None end in
      let s := match m with
               | WHello h => set_origin s {| origin_addr := advertised_addr h;
                                             origin_node_name := hello_node_name h |}
               | _ => s
               end in
      if negb has_handle then (s, Ok ())
      else
        let s := notify s (NoticeMessage (origin s) m) in
        match answer with
        | Err text => (s, Err (io_error BrokenPipe text))
        | Ok (Err text) => (s, Err (io_error Other text))
        | Panic | Ok Panic => (s, Panic)
        | Ok (Ok rs) =>
            match send_all s rs with
            | (s, Ok _) =>
                (match tip_for_follow_up_sync with
                 | Some t => notify s (NoticeTipSync (origin s) t)
                 | None => s
                 end, Ok ())
            | (s, r) => (s, r)
            end
        end
  end.

Inductive SessionEvent :=
| EvCommand (now : Z) (c : PeerCommand)
| EvCommandsClosed
| EvRead (read : result io_Error (list Ascii.ascii)) (answer : server_answer)
| EvDeadline.

(** The [if] guards of the [select!] branches. *)
Definition event_enabled (s : Session) (ev : SessionEvent) : bool :=
  match ev with
  | EvCommand _ _ | EvCommandsClosed => commands_open s
  | EvRead _ _ => true
  | EvDeadline => bool_decide (is_Some (pending_deadline s))
  end.

(** One iteration of the loop; the flag is [false] after a [break]. *)
Definition session_step (has_handle : bool) (s : Session) (ev : SessionEvent) : Session * bool :=
  match ev with
  | EvCommand now c => handle_peer_command now s c
  | EvCommandsClosed => (close_commands s, true)
  | EvRead read answer =>
      match receive_async_message read with
      | Err e => (fail_pending_request s e None, false)
      | Panic => (s, false)
      | Ok m =>
          let '(s, r) := handle_inbound_message has_handle answer s m in (s, is_ok r)
      end
  | EvDeadline =>
      let s := fail_pending_request_with_error s
                 (Receive (io_error TimedOut "peer request timed out")) in
      (set_pending s (pending_request s) None, true)
  end.

Fixpoint session_loop (has_handle : bool) (s : Session) (evs : list SessionEvent)
    : Session * bool :=
  match evs with
  | [] => (s, true)
  | ev :: evs =>
      match session_step has_handle s ev with
      | (s, true) => session_loop has_handle s evs
      | (s, false) => (s, false)
      end
  end.

(** After the loop. *)
Definition session_end (has_handle : bool) (s : Session) : Session :=
  let s := fail_pending_request s (io_error BrokenPipe "peer session closed") (Some BrokenPipe) in
  if has_handle then notify s NoticeDisconnected else s.

(** The state in which [run_peer_task] enters its loop. *)
Definition session_start (has_handle commands : bool) (o : PeerAddr)
    (writes : list (option io_Error)) : Session := {|
  pending_request := None; pending_deadline := None; commands_open := commands; origin := o;
  outcomes := writes; sent := []; replies := [];
  notified := if has_handle then [NoticeConnected] else []
|}.

(** [run_peer_task] on a sequence of events; the flag says whether the session
    is still in its loop after them. *)
Definition run_peer_task (has_handle commands : bool) (o : PeerAddr)
    (writes : list (option io_Error)) (evs : list SessionEvent) : Session * bool :=
  match session_loop has_handle (session_start has_handle commands o writes) evs with
  | (s, true) => (s, true)
  | (s, false) => (session_end has_handle s, false)
  end.

(** An accepted connection: no command channel, nothing known of the peer. *)
Definition serve_peer_stream (writes : list (option io_Error)) (evs : list SessionEvent)
    : Session * bool :=
  run_peer_task true false PeerAddr_default writes evs.

(** On the outcomes of dialling, of writing the hello and of reading the first
    line. *)
Definition open_peer_connection (dial write : result io_Error unit)
    (read : result io_Error (list Ascii.ascii)) (local : HelloMessage)
    : result ClientError HelloMessage :=
  _ ← map_err Connect dial;
  _ ← map_err SendHello
        (_ ← map_err (invalid_data json_error_text) (to_json_line (WHello local)); write);
  m ← map_err ReceiveHello (receive_async_message read);
  match m with
  | WHello remote => Ok remote
  | other => Err (UnexpectedHandshake other)
  end.

(** [connect_peer], given whether the handshake finished within the timeout:
    what the caller gets, and the state of the session that was spawned. *)
Definition connect_peer (in_time : bool) (dial write : result io_Error unit)
    (read : result io_Error (list Ascii.ascii)) (local : HelloMessage) (has_handle : bool)
    (writes : list (option io_Error)) : result ClientError HelloMessage * option Session :=
  let ready := open_peer_connection dial write read local in
  (if in_time then ready
   else Err (ReceiveHello (io_error TimedOut "outbound peer handshake timed out")),
   match ready with
   | Ok remote =>
       Some (session_start has_handle true
         {| origin_addr := advertised_addr remote; origin_node_name := hello_node_name remote |}
         writes)
   | _ => None
   end).

End session.

(** ** [PeerHandle]: the caller's side

    [queued] says whether the command channel took the command, [answer] what
    arrived on the reply channel before the timeout. *)

Definition closed : io_Error := io_error BrokenPipe "outbound peer closed".

Definition PeerHandle_request_tip (queued : bool) (answer : option (result RequestError TipSummary))
    : result RequestError TipSummary :=
  if negb queued then Err (Receive closed)
  else default (Err (Receive (io_error TimedOut "outbound peer tip request timed out"))) answer.

Definition PeerHandle_request_block (queued : bool)
    (answer : option (result RequestError (option Block))) : result RequestError (option Block) :=
  if negb queued then Err (Receive closed)
  else default (Err (Receive (io_error TimedOut "outbound peer block request timed out"))) answer.

Definition PeerHandle_announce (queued : bool) (answer : option (result io_Error unit))
    : result io_Error unit :=
  if negb queued then Err closed
  else default (Err (io_error TimedOut "outbound peer announce timed out")) answer.

(** ** Every request is answered once *)

Definition reply_id (c : PeerCommand) : option nat :=
  match c with
  | RequestTip i | RequestBlock _ i | Announce _ i => Some i
  | Shutdown => None
  end.

Definition event_reply (ev : SessionEvent) : option nat :=
  match ev with
  | EvCommand _ c => reply_id c
  | _ => None
  end.

Definition reply_kind (c : PeerCommand) (r : Reply) : Prop :=
  match c, r with
  | RequestTip _, ReplyTip _ | RequestBlock _ _, ReplyBlock _ | Announce _ _, ReplyAnnounce _ => True
  | _, _ => False
  end.

(** The channel of the request in flight. *)
Definition waiting (s : Session) : list nat :=
  match pending_request s with
  | Some (PendingTip i) | Some (PendingBlock i) => [i]
  | None => []
  end.

(** A reply goes to a command of its kind, a pending request stems from one. *)
Definition asked (evs : list SessionEvent) (i : nat) (r : Reply) : Prop :=
  ∃ now c, EvCommand now c ∈ evs ∧ reply_id c = Some i ∧ reply_kind c r.

Record session_inv (evs : list SessionEvent) (s : Session) : Prop := {
  si_once : (replies s).*1 ++ waiting s ≡ₚ omap event_reply evs;
  si_kind i r : (i, r) ∈ replies s → asked evs i r;
  si_pending p : pending_request s = Some p →
    match p with
    | PendingTip i => ∀ r, asked evs i (ReplyTip r)
    | PendingBlock i => ∀ r, asked evs i (ReplyBlock r)
    end
}.

(** While the loop runs, a request is pending exactly when its deadline is armed. *)
Definition armed (s : Session) : Prop :=
  is_Some (pending_request s) ↔ is_Some (pending_deadline s).

(** Writing changes neither the replies nor the pending request. *)
Definition same_requests (s s' : Session) : Prop :=
  pending_request s' = pending_request s ∧ pending_deadline s' = pending_deadline s
  ∧ replies s' = replies s.

Lemma asked_mono evs ev i r : asked evs i r → asked (evs ++ [ev]) i r.
Proof. intros (now & c & ? & ?). exists now, c. split; [set_solver|done]. Qed.

Lemma session_inv_mono evs ev s :
  event_reply ev = None → session_inv evs s → session_inv (evs ++ [ev]) s.
Proof.
  intros He [H1 H2 H3]. split.
  - rewrite omap_app. cbn. by rewrite He, app_nil_r.
  - intros. by apply asked_mono, H2.
  - intros [] Hp r; apply asked_mono; exact (H3 _ Hp r).
Qed.

Lemma session_inv_ext evs s s' :
  pending_request s' = pending_request s → replies s' = replies s →
  session_inv evs s → session_inv evs s'.
Proof. intros H1 H2 [? ? ?]. split; unfold waiting in *; by rewrite ?H1, ?H2. Qed.

Lemma session_inv_same evs s s' : same_requests s s' → session_inv evs s → session_inv evs s'.
Proof. intros (? & _ & ?). by apply session_inv_ext. Qed.

Lemma armed_same s s' : same_requests s s' → armed s → armed s'.
Proof. intros (H1 & H2 & _). unfold armed. by rewrite H1, H2. Qed.

(** Answering the pending request. *)
Lemma session_inv_answer evs s p i r d :
  session_inv evs s → pending_request s = Some p →
  match p, r with
  | PendingTip j, ReplyTip _ | PendingBlock j, ReplyBlock _ => i = j
  | _, _ => False
  end →
  session_inv evs (reply_send (set_pending s None d) i r).
Proof.
  intros [H1 H2 H3] Hp Hi. split; [| |done].
  - unfold waiting in *. rewrite Hp in H1. cbn. rewrite fmap_app, app_nil_r. cbn.
    destruct p, r; try done; by subst.
  - intros j r' [Hin|Hin%list_elem_of_singleton]%elem_of_app; [by apply H2|].
    injection Hin as -> ->. specialize (H3 _ Hp). destruct p, r; try done; subst; apply H3.
Qed.

(** A command answered at once. *)
Lemma session_inv_reply evs s now c i r :
  session_inv evs s → reply_id c = Some i → reply_kind c r →
  session_inv (evs ++ [EvCommand now c]) (reply_send s i r).
Proof.
  intros [H1 H2 H3] Hi Hk. split.
  - rewrite omap_app. cbn. rewrite Hi, <-H1, fmap_app. cbn. unfold waiting; cbn.
    rewrite <-!app_assoc. f_equiv. apply Permutation_app_comm.
  - intros j r' [Hin|Hin%list_elem_of_singleton]%elem_of_app; [by apply asked_mono, H2|].
    injection Hin as -> ->. exists now, c. split; [set_solver|done].
  - intros [] Hp r'; apply asked_mono; exact (H3 _ Hp r').
Qed.

(** A command that becomes the pending request. *)
Lemma session_inv_install evs s now c p d :
  session_inv evs s → pending_request s = None →
  match c, p with
  | RequestTip i, PendingTip j | RequestBlock _ i, PendingBlock j => i = j
  | _, _ => False
  end →
  session_inv (evs ++ [EvCommand now c]) (set_pending s (Some p) d).
Proof.
  intros [H1 H2 H3] Hn Hc. unfold waiting in H1. rewrite Hn, app_nil_r in H1. split.
  - rewrite omap_app. cbn. rewrite H1. unfold waiting; cbn. destruct c, p; try done; by subst.
  - intros i r Hin. by apply asked_mono, H2.
  - intros p' [= <-]. destruct c, p; try done; subst; intros r; eexists now, _;
      (split; [by apply elem_of_app; right; apply list_elem_of_singleton|done]).
Qed.

Lemma fail_pending_inv evs s e :
  session_inv evs s → session_inv evs (fail_pending_request_with_error s e)
    ∧ pending_request (fail_pending_request_with_error s e) = None.
Proof.
  intros Hs. unfold fail_pending_request_with_error.
  destruct (pending_request s) as [[i|i]|] eqn:Hp; [..|done];
    (split; [by eapply session_inv_answer|done]).
Qed.

Section session_proofs.
Context `{J : SerdeJson WireMessage} `{L : !SerdeJsonLaws WireMessage J}.
Context (json_error_text : json_error WireMessage → string).

Lemma send_same s m s' r :
  send_async_message json_error_text s m = (s', r) → same_requests s s' ∧ r ≠ Panic.
Proof using L.
  unfold send_async_message, to_json_line. destruct (to_string_Ok m) as [line ->]. cbn.
  destruct (outcomes s) as [|[e|] ?]; by intros [= <- <-].
Qed.

Lemma send_all_same s ms s' r :
  send_all json_error_text s ms = (s', r) → same_requests s s' ∧ r ≠ Panic.
Proof using L.
  revert s. induction ms as [|m ms IH]; intros s; cbn; [by intros [= <- <-]|].
  destruct (send_async_message json_error_text s m) as [s1 r1] eqn:Hs.
  apply send_same in Hs as [(H1 & H2 & H3) Hp].
  destruct r1 as [[]|e|]; [|by intros [= <- <-]|done].
  intros [(H1' & H2' & H3') ?]%IH. split; [|done]. unfold same_requests. by rewrite H1', H2', H3'.
Qed.

Lemma handle_peer_command_inv evs now s c s' k :
  session_inv evs s → armed s →
  handle_peer_command json_error_text now s c = (s', k) →
  session_inv (evs ++ [EvCommand now c]) s' ∧ (k = true → armed s').
Proof using L.
  intros Hs Ha. destruct c as [i|h i|m i|]; cbn.
  1,2: destruct (pending_request s) as [p|] eqn:Hp;
    [intros [= <- <-]; split; [by eapply session_inv_reply|done]|];
    destruct (send_async_message _ s _) as [s1 r] eqn:Hw;
    apply send_same in Hw as [Hsame Hnp]; pose proof (session_inv_same _ _ _ Hsame Hs) as Hs1;
    destruct r as [[]|e|]; intros [= <- <-]; [|split; [by eapply session_inv_reply|done]|done];
    (split; [|done]); (apply session_inv_install; [done| |done]); by destruct Hsame as [-> _].
  - destruct (send_async_message _ s _) as [s1 r] eqn:Hw.
    apply send_same in Hw as [Hsame Hnp]. intros [= <- <-]. split.
    + eapply session_inv_reply; [by eapply session_inv_same|done..].
    + intros _. exact (armed_same _ _ Hsame Ha).
  - intros [= <- <-]. split; [by apply session_inv_mono|done].
Qed.

Lemma handle_inbound_inv evs hh a s m s' r :
  session_inv evs s → armed s →
  handle_inbound_message json_error_text hh a s m = (s', r) → session_inv evs s' ∧ armed s'.
Proof using L.
  intros Hs Ha. unfold handle_inbound_message.
  destruct (try_complete_pending_request s m) as [s1 []] eqn:Ht.
  - intros [= <- <-]. unfold try_complete_pending_request in Ht.
    destruct (pending_request s) as [[i|i]|] eqn:Hp, m; try done; injection Ht as <-;
      (split; [|by split; intros []]);
      [exact (session_inv_answer evs s _ i (ReplyTip (Ok t)) None Hs Hp eq_refl)
      |exact (session_inv_answer evs s _ i (ReplyBlock (Ok b)) None Hs Hp eq_refl)].
  - assert (s1 = s) as ->.
    { unfold try_complete_pending_request in Ht.
      by destruct (pending_request s) as [[i|i]|], m; injection Ht as <-. }
    assert (∀ s2, same_requests s s2 → session_inv evs s2 ∧ armed s2) as Hsame.
    { intros s2 H2. split; [by eapply session_inv_same|by eapply armed_same]. }
    destruct hh; cbn [negb]; [|intros [= <- <-]; apply Hsame; by destruct m].
    set (s2 := match m with WHello h => _ | _ => s end).
    assert (same_requests s s2) as H2 by (unfold s2; by destruct m).
    destruct a as [[rs|t|]|t|]; try (intros [= <- <-]; apply Hsame, H2).
    destruct (send_all _ _ rs) as [s3 r3] eqn:Hsa. apply send_all_same in Hsa as [H3 Hnp].
    assert (same_requests s s3) as H23.
    { destruct H2 as (? & ? & ?), H3 as (? & ? & ?). split_and!; etransitivity; eassumption. }
    destruct r3 as [[]|e|]; intros [= <- <-]; [|by apply Hsame|done].
    apply Hsame. by destruct m.
Qed.

Lemma session_step_inv evs hh s ev s' k :
  session_inv evs s → armed s → session_step json_error_text hh s ev = (s', k) →
  session_inv (evs ++ [ev]) s' ∧ (k = true → armed s').
Proof using L.
  intros Hs Ha. destruct ev as [now c| |read a|]; cbn.
  - by apply handle_peer_command_inv.
  - intros [= <- <-]. split; [|done]. apply session_inv_mono; [done|].
    by apply (session_inv_same _ s).
  - pose proof (session_inv_mono evs (EvRead read a) s eq_refl Hs) as Hs1.
    destruct (receive_async_message _ read) as [m|e|].
    + destruct (handle_inbound_message _ hh a s m) as [s1 r] eqn:Hm. intros [= <- <-].
      by apply (handle_inbound_inv _ _ _ _ _ _ _ Hs1 Ha) in Hm as [? ?].
    + intros [= <- <-]. split; [by apply fail_pending_inv|done].
    + intros [= <- <-]. done.
  - intros [= <- <-].
    destruct (fail_pending_inv evs s (Receive (io_error TimedOut "peer request timed out")) Hs)
      as [Hf Hn].
    split; [apply session_inv_mono; [done|by refine (session_inv_ext _ _ _ _ _ Hf)]|].
    intros _. unfold armed. cbn. rewrite Hn. by split; intros [].
Qed.

(** The events a session takes before it ends. *)
Fixpoint consumed (hh : bool) (s : Session) (evs : list SessionEvent) : list SessionEvent :=
  match evs with
  | [] => []
  | ev :: evs =>
      ev :: match session_step json_error_text hh s ev with
            | (s, true) => consumed hh s evs
            | (_, false) => []
            end
  end.

Lemma session_loop_inv evs0 hh s evs s' k :
  session_inv evs0 s → armed s → session_loop json_error_text hh s evs = (s', k) →
  session_inv (evs0 ++ consumed hh s evs) s' ∧ (k = true → armed s').
Proof using L.
  revert evs0 s. induction evs as [|ev evs IH]; intros evs0 s Hs Ha; cbn.
  - intros [= <- <-]. by rewrite app_nil_r.
  - destruct (session_step _ hh s ev) as [s1 k1] eqn:Hst.
    apply (session_step_inv evs0) in Hst as [Hs1 Ha1]; [|done..].
    rewrite cons_middle, app_assoc. destruct k1; [by apply IH; auto|].
    intros [= <- <-]. by rewrite app_nil_r.
Qed.

Lemma session_inv_start hh cm o ws : session_inv [] (session_start hh cm o ws).
Proof. split; [done|set_solver|done]. Qed.

Lemma run_peer_task_inv hh cm o ws evs s k :
  run_peer_task json_error_text hh cm o ws evs = (s, k) →
  session_inv (consumed hh (session_start hh cm o ws) evs) s
  ∧ (if k then armed s else pending_request s = None).
Proof using L.
  unfold run_peer_task. destruct (session_loop _ hh _ evs) as [s1 k1] eqn:Hl.
  apply (session_loop_inv []) in Hl as [Hs Ha]; [|apply session_inv_start|by split; intros []].
  destruct k1; intros [= <- <-]; [auto|]. unfold session_end, fail_pending_request.
  match goal with |- context [fail_pending_request_with_error s1 ?e] =>
    destruct (fail_pending_inv _ s1 e Hs) as [Hf Hn] end.
  destruct hh; [|done]. split; [by refine (session_inv_ext _ _ _ _ _ Hf)|done].
Qed.

(** C29: Request/response discipline of a peer session, for every sequence of
    commands, lines, errors and timeouts: each request taken from the server is answered
    exactly once, on its own channel and with a reply of its kind; at most one is in flight, and
    when the session has ended none is. *)
Theorem session_replies_once (hh cm : bool) (o : PeerAddr) (ws : list (option io_Error))
    (evs : list SessionEvent) (s : Session) (k : bool) :
  run_peer_task json_error_text hh cm o ws evs = (s, k) →
  let taken := consumed hh (session_start hh cm o ws) evs in
  (replies s).*1 ++ waiting s ≡ₚ omap event_reply taken
  ∧ (length (waiting s) ≤ if k then 1 else 0)%nat
  ∧ ∀ i r, (i, r) ∈ replies s → asked taken i r.
Proof using L.
  intros [[H1 H2 H3] Hk]%run_peer_task_inv taken. split_and!; [done| |done].
  unfold waiting. destruct k; [destruct (pending_request s) as [[]|]; cbn; lia|by rewrite Hk].
Qed.

(** C30: No request waits forever: at any point of a running session a request in flight has its deadline
    armed; when the deadline fires the caller gets a timeout, the session goes on, and
    the next request is sent instead of being refused. *)
Theorem session_request_times_out (hh cm : bool) (o : PeerAddr) (ws : list (option io_Error))
    (evs : list SessionEvent) (s : Session) (i : nat) :
  run_peer_task json_error_text hh cm o ws evs = (s, true) → i ∈ waiting s →
  event_enabled s EvDeadline = true
  ∧ ∃ s', session_step json_error_text hh s EvDeadline = (s', true)
    ∧ waiting s' = [] ∧ armed s'
    ∧ (∃ r, replies s' = replies s ++ [(i, r)]
         ∧ (r = ReplyTip (Err (Receive (io_error TimedOut "peer request timed out")))
            ∨ r = ReplyBlock (Err (Receive (io_error TimedOut "peer request timed out")))))
    ∧ ∀ now j, outcomes s = [] →
        sent (handle_peer_command json_error_text now s' (RequestTip j)).1 = sent s ++ [WGetTip].
Proof using L.
  intros [_ Ha]%run_peer_task_inv Hi. unfold waiting in Hi. split.
  { cbn. apply bool_decide_eq_true_2, Ha.
    destruct (pending_request s); [done|by apply not_elem_of_nil in Hi]. }
  eexists. split; [done|]. unfold fail_pending_request_with_error.
  assert (∃ line, to_json_line WGetTip = Ok line) as [line Hline].
  { unfold to_json_line. destruct (to_string_Ok WGetTip) as [l ->]. by eexists. }
  destruct (pending_request s) as [[j|j]|] eqn:Hp; [| |by apply not_elem_of_nil in Hi];
    apply list_elem_of_singleton in Hi as ->;
    (split; [done|split; [by split; intros []|split; [by eexists; eauto|]]]);
    intros now k Hout; cbn; unfold send_async_message; rewrite Hline; cbn; by rewrite Hout.
Qed.

(** Replies are matched by kind only: after a block request has timed out, the late
    answer to it completes the next block request on the connection,
    whatever block was asked for there. *)
Theorem late_block_completes_next_request (hh : bool) (o : PeerAddr) (t1 t2 : Z)
    (h1 h2 : BlockHash) (b : option Block) (line : list Ascii.ascii) (a : server_answer) :
  to_json_line (WBlock b) = Ok line →
  ∃ s, run_peer_task json_error_text hh true o []
         [EvCommand t1 (RequestBlock h1 1); EvDeadline; EvCommand t2 (RequestBlock h2 2);
          EvRead (Ok line) a] = (s, true)
    ∧ sent s = [WGetBlock h1; WGetBlock h2]
    ∧ replies s = [(1%nat, ReplyBlock (Err (Receive (io_error TimedOut "peer request timed out"))));
                   (2%nat, ReplyBlock (Ok b))].
Proof using L.
  intros Hl. pose proof (from_to_json_line _ _ Hl) as Hf.
  assert (∀ h, ∃ l, to_json_line (WGetBlock h) = Ok l) as Hg.
  { intros h. unfold to_json_line. destruct (to_string_Ok (WGetBlock h)) as [l ->]. by eexists. }
  destruct (Hg h1) as [l1 Hl1], (Hg h2) as [l2 Hl2].
  assert (∃ c cs, line = c :: cs) as (c & cs & ->).
  { unfold to_json_line in Hl. inv_result. destruct (_ ++ [nl]) eqn:E; [|by eexists _, _].
    by apply app_nil in E as [_ E]. }
  unfold run_peer_task. cbn. unfold send_async_message. rewrite Hl1. cbn. rewrite Hl2. cbn.
  rewrite Hf. cbn. eexists. split; [done|]. by split.
Qed.

End session_proofs.

(** ** Witnesses *)

Module DemoSession.
#[local] Existing Instance DemoJson.json.

Definition text (e : json_error (SerdeJson:=DemoJson.json WireMessage) WireMessage) : string :=
  EmptyString.
Definition tip_line : list Ascii.ascii :=
  DemoJson.print (encode (WTip {| tip := None; tip_height := None |})) ++ [nl].

(** A tip request that is answered, one refused while another is in flight. *)
Definition events : list SessionEvent :=
  [EvCommand 0 (RequestTip 1); EvCommand 5 (RequestTip 2); EvRead (Ok tip_line) (Ok (Ok []));
   EvCommand 9 (RequestTip 3)].
Definition run : Session * bool :=
  run_peer_task (J:=DemoJson.json WireMessage) text true true PeerAddr_default [] events.

Example run_replies :
  (replies run.1).*1 = [2%nat; 1%nat] ∧ waiting run.1 = [3%nat] ∧ run.2 = true.
Proof. vm_decide. Qed.

Definition no_block : list Ascii.ascii := DemoJson.print (encode (WBlock None)) ++ [nl].
Definition h (b : byte) : BlockHash := BlockHash_new (replicate 32 b).

End DemoSession.

Lemma session_replies_once_witness :
  (replies DemoSession.run.1).*1 ++ waiting DemoSession.run.1
  ≡ₚ omap event_reply (consumed (J:=DemoJson.json WireMessage) DemoSession.text true
       (session_start true true PeerAddr_default []) DemoSession.events).
Proof.
  exact (proj1 (session_replies_once (J:=DemoJson.json WireMessage)
    (L:=DemoJson.json_laws WireMessage) DemoSession.text true true PeerAddr_default []
    DemoSession.events DemoSession.run.1 DemoSession.run.2 (surjective_pairing _))).
Defined.

Lemma session_request_times_out_witness : event_enabled DemoSession.run.1 EvDeadline = true.
Proof.
  refine (proj1 (session_request_times_out (J:=DemoJson.json WireMessage)
    (L:=DemoJson.json_laws WireMessage) DemoSession.text true true PeerAddr_default []
    DemoSession.events DemoSession.run.1 3 (surjective_pairing _) _)).
  vm_decide.
Defined.

Lemma late_block_completes_next_request_witness :
  ∃ s, run_peer_task (J:=DemoJson.json WireMessage) DemoSession.text true true PeerAddr_default []
         [EvCommand 0 (RequestBlock (DemoSession.h x01) 1); EvDeadline;
          EvCommand 3 (RequestBlock (DemoSession.h x02) 2);
          EvRead (Ok DemoSession.no_block) (Ok (Ok []))] = (s, true)
    ∧ sent s = [WGetBlock (DemoSession.h x01); WGetBlock (DemoSession.h x02)]
    ∧ replies s =
        [(1%nat, ReplyBlock (Err (Receive (io_error TimedOut "peer request timed out"))));
         (2%nat, ReplyBlock (Ok None))].
Proof.
  apply (late_block_completes_next_request (J:=DemoJson.json WireMessage)
    (L:=DemoJson.json_laws WireMessage) DemoSession.text true PeerAddr_default 0 3
    (DemoSession.h x01) (DemoSession.h x02) None DemoSession.no_block (Ok (Ok []))).
  reflexivity.
Defined.
