(* ===== verification/Restart.v ===== *)
(** * Restarting a node: replaying its blocks in height order

    [NodeState::from_persisted] receives the stored blocks ordered by height.
    When every indexed block has its coins and the best tip has strictly more
    work than any other block, the replay rebuilds exactly the
    saved state. *)

From S2P Require Import Prelude Bytes Crypto Types State Consensus Chain Mempool NodeState.

(** [m] is the restriction of [m'] to the keys in [hs]. *)
Definition restricts {A} (hs : list BlockHash) (m m' : gmap BlockHash A) : Prop :=
  ∀ h, m !! h = if bool_decide (h ∈ hs) then m' !! h else None.

Lemma restricts_snoc {A} hs (m m' : gmap BlockHash A) h a :
  restricts hs m m' → m' !! h = Some a → restricts (hs ++ [h]) (<[h := a]> m) m'.
Proof.
  intros Hr Hh k. destruct (decide (k = h)) as [->|Hne].
  - rewrite lookup_insert_eq, bool_decide_eq_true_2 by set_solver. done.
  - rewrite lookup_insert_ne by done. rewrite Hr.
    by rewrite (bool_decide_ext (k ∈ hs ++ [h]) (k ∈ hs)) by set_solver.
Qed.

Lemma restricts_all {A} hs (m m' : gmap BlockHash A) :
  restricts hs m m' → (∀ h, is_Some (m' !! h) → h ∈ hs) → m = m'.
Proof.
  intros Hr Hall. apply map_eq. intros h. rewrite Hr. case_bool_decide as Hin; [done|].
  symmetry. apply eq_None_not_Some. intros Hs. by apply Hin, Hall.
Qed.

Lemma restricts_lookup {A} hs (m m' : gmap BlockHash A) h :
  restricts hs m m' → h ∈ hs → m !! h = m' !! h.
Proof. intros Hr Hin. rewrite Hr. by rewrite bool_decide_eq_true_2. Qed.

Section restart.
Context `{C : Crypto} `{L : !CryptoLaws C}.

(** Every indexed block has been applied. *)
Definition complete (s : NodeState) : Prop :=
  map_Forall (λ h _, is_Some (utxo_snapshots s !! h)) (entries (chain s)).

(** No other block has as much work as the best tip. *)
Definition unique_tip (s : NodeState) : Prop :=
  match best_tip (chain s) with
  | None => True
  | Some t => map_Forall (λ h e, h = t ∨ ∃ te, entries (chain s) !! t = Some te
                ∧ cumulative_work e < cumulative_work te) (entries (chain s))
  end.

(** The replay has processed the blocks [hs] of [s]. *)
Record replayed (s : NodeState) (hs : list BlockHash) (p : NodeState) : Prop := {
  rp_inv : node_inv p;
  rp_synced : tip_synced p;
  rp_mempool : mempool p = ∅;
  rp_entries : restricts hs (entries (chain p)) (entries (chain s));
  rp_blocks : restricts hs (blocks p) (blocks s);
  rp_snapshots : restricts hs (utxo_snapshots p) (utxo_snapshots s)
}.

(** A block below the processed ones, or the first of all. *)
Definition next_block (s : NodeState) (hs : list BlockHash) (e : ChainIndexEntry) : Prop :=
  match parent e with
  | None => hs = []
  | Some q => q ∈ hs
  end.

(** A node [p] that has the parent of a block as the node [s] has it. *)
Definition same_parent (s p : NodeState) (e : ChainIndexEntry) : Prop :=
  match parent e with
  | None => entries (chain p) = ∅
  | Some q => is_Some (entries (chain p) !! q) ∧ entries (chain p) !! q = entries (chain s) !! q
      ∧ utxo_snapshots p !! q = utxo_snapshots s !! q
  end.

(** The block gets the same index entry in [p] as in [s]. *)
Lemma insert_same_entry s p h e b :
  node_inv s → node_inv p → entries (chain p) !! h = None → same_parent s p e →
  entries (chain s) !! h = Some e → blocks s !! h = Some b →
  Z.of_nat (size (entries (chain p))) < 2 ^ 64 →
  insert_block (chain p) b = Ok (with_entry (chain p) e, e).
Proof using L.
  intros Hi Hp Hnew Hnext He Hb Hsz.
  destruct (ni_stored s Hi h b Hb) as (Hhash & Hw & Henc & Hv & Hof).
  destruct (Hof e He) as (w & Hwk & Hpar).
  destruct (cw_entries _ (ni_chain s Hi) h e He) as (Heh & _ & Hcw & _).
  unfold same_parent in Hnext.
  destruct (insert_block_cases (chain p) b (ni_chain p Hp) Hw Hv Hsz)
    as [(e' & He' & _)|[_ [(w' & e' & Hw' & _ & Hl & Hh' & ->)|[(Hem & Hd & _)|[(Hne & Hn & _)
       |(pe & w' & Hpe & Hw' & Hov & _)]]]]].
  - rewrite Hhash in He'. congruence.
  - assert (e' = e) as ->; [|done]. assert (w' = w) as -> by congruence.
    unfold links in Hl. destruct e as [eh en ew ep], e' as [eh' en' ew' ep']; cbn in *. subst.
    destruct Hl as [(Hem & Hd & ? & ? & ->)|(pe & Hpe & ? & ? & _ & ->)]; cbn in *; subst.
    + destruct ep as [q|]; [|by destruct Hpar as (_ & -> & ->)].
      destruct Hnext as ([x Hx] & _). by rewrite Hem in Hx.
    + destruct ep as [q|].
      * destruct Hpar as (-> & pe' & Hpe' & ? & ?). destruct Hnext as (_ & Hsame & _). cbn in *.
        assert (pe' = pe) as -> by congruence. f_equal; lia || congruence.
      * by rewrite Hnext in Hpe.
  - exfalso. destruct (parent e) as [q|]; [|by destruct Hpar as [? _]].
    destruct Hnext as ([x Hx] & _). by rewrite Hem in Hx.
  - exfalso. destruct (parent e) as [q|]; [|done].
    destruct Hpar as (-> & _). destruct Hnext as ([x Hx] & _). congruence.
  - exfalso. destruct (parent e) as [q|].
    + destruct Hpar as (-> & pe' & Hpe' & _ & Hc). destruct Hnext as (_ & Hsame & _).
      assert (pe' = pe) as -> by congruence. assert (w' = w) as -> by congruence. lia.
    + by rewrite Hnext in Hpe.
Qed.

(** The state after a new block with coins [U] below a tip that may move. *)
Definition extended (p : NodeState) (e : ChainIndexEntry) (b : Block) (U : UtxoSet) (p' : NodeState)
    : Prop :=
  chain p' = with_entry (chain p) e ∧ blocks p' = <[block_hash e := b]> (blocks p)
  ∧ utxo_snapshots p' = <[block_hash e := U]> (utxo_snapshots p)
  ∧ (mempool p = ∅ → mempool p' = ∅).

Lemma prune_empty U : prune_invalid ∅ U = Some ∅.
Proof using. unfold prune_invalid. rewrite map_to_list_empty. cbn. by rewrite map_filter_empty. Qed.

Lemma complete_extended p e b U p' : complete p → extended p e b U p' → complete p'.
Proof using.
  intros Hc (Hch & _ & Hsn & _) h x. rewrite Hch, Hsn. cbn.
  intros [[<- _]|[? Hx]]%lookup_insert_Some; [rewrite lookup_insert_eq; by eexists|].
  rewrite lookup_insert_ne by done. by eapply Hc.
Qed.

(** A block whose coins [s] has computed is accepted by every node that has its parent. *)
Lemma accept_same_block s p h e b U :
  node_inv s → node_inv p → entries (chain p) !! h = None → same_parent s p e →
  entries (chain s) !! h = Some e → blocks s !! h = Some b → utxo_snapshots s !! h = Some U →
  Z.of_nat (size (entries (chain p))) < 2 ^ 64 →
  ∃ p', accept_block p b = (p', Ok ()) ∧ extended p e b U p' ∧ node_inv p'
    ∧ (tip_synced p → tip_synced p').
Proof using L.
  intros Hi Hp Hnew Hnext He Hb HU Hsz.
  pose proof (insert_same_entry s p h e b Hi Hp Hnew Hnext He Hb Hsz) as Hins.
  destruct (ni_stored s Hi h b Hb) as (_ & Hw & Henc & _ & _).
  destruct (cw_entries _ (ni_chain s Hi) h e He) as (Heh & _).
  destruct (ni_snapshot s Hi h U HU) as (e' & b' & He' & Hb' & Happ & HUw & _). simplify_eq.
  assert (blocks p !! block_hash e = None) as Hbn.
  { apply eq_None_not_Some. intros Hs. apply (ni_blocks p Hp) in Hs as [? Hs]. congruence. }
  assert (utxo_snapshots p !! block_hash e = None) as Hsn.
  { apply eq_None_not_Some. intros [U' HU']. destruct (ni_snapshot p Hp _ _ HU') as (? & ? & ? & _).
    congruence. }
  assert (∃ p', accept_block p b = (p', Ok ()) ∧ extended p e b U p') as (p' & Ha & Hx).
  { unfold accept_block. rewrite Hins, Hbn. unfold ensure_snapshot. cbn [utxo_snapshots blocks].
    rewrite Hsn. rewrite bool_decide_eq_false_2 by (by intros []).
    rewrite lookup_insert_eq. cbn [ok_or].
    assert (∀ o, match parent e with
                 | None => o = Ok ∅
                 | Some q => o = ok_or (utxo_snapshots p !! q) (MissingParentState q)
                 end → (utxos ← o; block ← Ok b; map_err NConsensus (apply_block utxos block (height e)))
                       = Ok U) as Hrun.
    { intros o Ho. unfold same_parent in Hnext. destruct (parent e) as [q|]; subst o.
      - destruct Happ as (Up & HUp & Happ), Hnext as (_ & _ & ->). rewrite HUp. cbn. by rewrite Happ.
      - cbn. by rewrite Happ. }
    rewrite Hrun by (by destruct (parent e)). cbn.
    destruct (prune_invalid_spec _ U (mempool p) HUw (ni_mempool p Hp)) as (mp & Hmp & _).
    rewrite lookup_insert_eq, Hmp. case_bool_decide; eexists; (split; [done|]); split_and!; try done.
    cbn. intros Hem. rewrite Hem, prune_empty in Hmp. by injection Hmp. }
  exists p'. destruct (accept_block_spec p b p' _ Hp Hw Henc Hsz Ha) as (? & _ & _ & ?). auto.
Qed.

Lemma replay_step s hs p h e b :
  node_inv s → complete s → replayed s hs p → h ∉ hs → next_block s hs e →
  entries (chain s) !! h = Some e → blocks s !! h = Some b →
  Z.of_nat (size (entries (chain s))) < 2 ^ 64 →
  ∃ p', accept_block p b = (p', Ok ()) ∧ replayed s (hs ++ [h]) p'.
Proof using L.
  intros Hi Hc Hp Hh Hnext He Hb Hsz. destruct (Hc h e He) as [U HU].
  destruct (cw_entries _ (ni_chain s Hi) h e He) as (Heh & _ & _ & Hpar).
  assert (entries (chain p) ⊆ entries (chain s)) as Hsub.
  { apply map_subseteq_spec. intros k x. rewrite (rp_entries s hs p Hp k). by case_bool_decide. }
  pose proof (map_subseteq_size _ _ Hsub) as Hsz'.
  destruct (accept_same_block s p h e b U) as (p' & Ha & (Hch & Hbl & Hsn & Hmp) & Hi' & Hs');
    [done|apply Hp| | |done..|lia|].
  - rewrite (rp_entries s hs p Hp). by rewrite bool_decide_eq_false_2.
  - unfold same_parent, next_block in *. destruct (parent e) as [q|].
    + destruct Hpar as (pe & Hpe & _).
      rewrite (restricts_lookup hs _ _ q (rp_entries s hs p Hp)), (restricts_lookup hs _ _ q (rp_snapshots s hs p Hp))
        by done. split_and!; [by eexists|done|done].
    + apply map_empty. intros k. rewrite (rp_entries s hs p Hp k), Hnext. done.
  - exists p'. split; [done|]. destruct Hp as [_ Hsy Hem Hre Hrb Hrs].
    split; [done|auto|auto|rewrite Hch|rewrite Hbl|rewrite Hsn]; cbn; rewrite ?Heh; by apply restricts_snoc.
Qed.

(** Blocks in an order in which parents come first. *)
Inductive parents_first (s : NodeState) : list BlockHash → Prop :=
| parents_first_nil : parents_first s []
| parents_first_snoc hs h e :
    parents_first s hs → h ∉ hs → entries (chain s) !! h = Some e → next_block s hs e →
    parents_first s (hs ++ [h]).

Lemma accept_blocks_app p bs1 bs2 p1 :
  accept_blocks p bs1 = (p1, Ok ()) → accept_blocks p (bs1 ++ bs2) = accept_blocks p1 bs2.
Proof using.
  revert p. induction bs1 as [|b bs1 IH]; intros p; cbn; [by intros [= ->]|].
  destruct (accept_block p b) as [p2 [[]|e|]]; [apply IH|done..].
Qed.

Lemma replay_all s hs bs :
  node_inv s → complete s → Z.of_nat (size (entries (chain s))) < 2 ^ 64 →
  parents_first s hs → Forall2 (λ h b, blocks s !! h = Some b) hs bs →
  ∃ p, accept_blocks NodeState_new bs = (p, Ok ()) ∧ replayed s hs p.
Proof using L.
  intros Hi Hc Hsz Hpf. revert bs. induction Hpf as [|hs h e Hpf IH Hh He Hnext]; intros bs Hbs.
  - apply Forall2_nil_inv_l in Hbs as ->. exists NodeState_new. split; [done|].
    split; [apply node_inv_new|apply node_inv_new|done|..]; intros h; cbn; by rewrite lookup_empty.
  - apply Forall2_app_inv_l in Hbs as (bs1 & bs2 & Hbs1 & Hbs2 & ->).
    apply Forall2_cons_inv_l in Hbs2 as (b & bs3 & Hb & Hbs3 & ->).
    apply Forall2_nil_inv_l in Hbs3 as ->.
    destruct (IH bs1 Hbs1) as (p & Hp & Hr).
    destruct (replay_step s hs p h e b Hi Hc Hr Hh Hnext He Hb Hsz) as (p' & Ha & Hr').
    exists p'. split; [|done]. rewrite (accept_blocks_app _ _ _ _ Hp). cbn. by rewrite Ha.
Qed.

(** Rebuilding from all blocks gives back the state, with whatever mempool was
    passed in pruned against its coins. *)
Lemma from_persisted_rebuilds s hs bs mp :
  node_inv s → tip_synced s → complete s → unique_tip s →
  Z.of_nat (size (entries (chain s))) < 2 ^ 64 →
  parents_first s hs → (∀ h, is_Some (entries (chain s) !! h) → h ∈ hs) →
  Forall2 (λ h b, blocks s !! h = Some b) hs bs →
  from_persisted bs mp
  = (mp' ← expect (prune_invalid mp (active_utxos s)); Ok (set_mempool s mp')).
Proof using L.
  intros Hi Hs Hc Hu Hsz Hpf Hall Hbs. unfold from_persisted.
  destruct (replay_all s hs bs Hi Hc Hsz Hpf Hbs) as (p & -> & [Hip Hsp _ Hre Hrb Hrs]).
  pose proof (restricts_all hs _ _ Hre Hall) as Hent.
  assert (blocks p = blocks s) as Hblk.
  { apply (restricts_all hs); [done|]. intros h Hh. apply Hall. by apply (ni_blocks s Hi). }
  assert (utxo_snapshots p = utxo_snapshots s) as Hsnap.
  { apply (restricts_all hs); [done|]. intros h [U HU].
    destruct (ni_snapshot s Hi h U HU) as (e & _ & He & _). eauto. }
  assert (best_tip (chain p) = best_tip (chain s)) as Htip.
  { pose proof (cw_best _ (ni_chain p Hip)) as Hbp. pose proof (cw_best _ (ni_chain s Hi)) as Hbs'.
    rewrite Hent in Hbp. unfold unique_tip in Hu.
    destruct (best_tip (chain p)) as [tp|], (best_tip (chain s)) as [t|]; [|..|done].
    - destruct Hbp as (pe & Hpe & Hmax), Hbs' as (te & Hte & _).
      destruct (Hu tp pe Hpe) as [->|(te' & Hte' & Hlt)]; [done|].
      simplify_eq. specialize (Hmax t te Hte). lia.
    - destruct Hbp as (pe & Hpe & _). rewrite Hbs' in Hpe. done.
    - destruct Hbs' as (te & Hte & _). rewrite Hbp in Hte. done. }
  assert (active_utxos p = active_utxos s) as Hact.
  { unfold tip_synced in Hs, Hsp. rewrite Htip, Hsnap in Hsp. destruct (best_tip (chain s)); congruence. }
  rewrite Hact. f_equal. destruct s as [[es bt] ac mp' bl sn], p as [[es' bt'] ac' mp'' bl' sn'].
  cbn in *. by subst.
Qed.

Lemma prune_valid s :
  node_inv s → prune_invalid (mempool s) (active_utxos s) = Some (mempool s).
Proof using.
  intros Hi.
  destruct (prune_invalid_spec _ (active_utxos s) (mempool s) (active_wf s Hi) (ni_mempool s Hi))
    as (mp & -> & _ & Hlk). f_equal.
  apply map_eq. intros id. apply option_eq. intros tx. rewrite Hlk. split; [by intros [? _]|].
  intros Hin. split; [done|]. by destruct (mo_tx _ _ (ni_mempool s Hi) id tx Hin) as (_ & _ & ?).
Qed.

End restart.
