(* ===== verification/TxIndex.v ===== *)
(** * tx_index.rs: rows of the wallet-style transaction index *)

From S2P Require Import Prelude Bytes Types.

Inductive IndexedTransactionStatus := Mempool | Confirmed.

Definition Status_as_str (s : IndexedTransactionStatus) : string :=
  match s with
  | Mempool => "mempool"
  | Confirmed => "confirmed"
  end.

Definition Status_parse (value : string) : option IndexedTransactionStatus :=
  if bool_decide (value = "mempool") then Some Mempool
  else if bool_decide (value = "confirmed") then Some Confirmed
  else None.

Record IndexedTransaction := {
  indexed_txid : Txid;
  indexed_transaction : Transaction;
  indexed_block_hash : option BlockHash;
  indexed_block_height : option Z;
  position_in_block : option Z;
  status : IndexedTransactionStatus;
  first_seen_at : option string;
  last_updated_at : option string
}.

Inductive TransactionKeyRole := Input | Output.

Definition Role_as_str (r : TransactionKeyRole) : string :=
  match r with
  | Input => "input"
  | Output => "output"
  end.

Definition Role_parse (value : string) : option TransactionKeyRole :=
  if bool_decide (value = "input") then Some Input
  else if bool_decide (value = "output") then Some Output
  else None.

Record TransactionKeyEdge := {
  edge_txid : Txid;
  key_role : TransactionKeyRole;
  key_data : bytes;
  edge_value : option Z;
  edge_vout : option Z
}.

#[export] Instance IndexedTransactionStatus_eq_dec : EqDecision IndexedTransactionStatus.
Proof. solve_decision. Defined.
#[export] Instance IndexedTransaction_eq_dec : EqDecision IndexedTransaction.
Proof. solve_decision. Defined.
#[export] Instance TransactionKeyRole_eq_dec : EqDecision TransactionKeyRole.
Proof. solve_decision. Defined.
#[export] Instance TransactionKeyEdge_eq_dec : EqDecision TransactionKeyEdge.
Proof. solve_decision. Defined.

Lemma Status_parse_as_str s : Status_parse (Status_as_str s) = Some s.
Proof. by destruct s. Qed.

Lemma Role_parse_as_str r : Role_parse (Role_as_str r) = Some r.
Proof. by destruct r. Qed.
