(* ===== verification/Store.v ===== *)
(** * sqlite_store.rs: persistence of the node state

    The database is a record of tables with the columns of the schema: text
    keys, [i64] integers, blobs; a primary key makes a table a finite map,
    [transaction_keys] (no key) is the list of its rows in insertion order.  SQLite
    and bincode are third party: of SQLite the model has what the statements
    of the source say (a plain [INSERT] fails on a taken key, a transaction
    that returns an error is rolled back), of bincode the two
    directions of the class [Bincode].  A store operation takes the database to
    the new one beside its result, so the commits of a failing operation that uses
    several transactions are visible. *)

From S2P Require Import Prelude Bytes Crypto Types State Consensus Chain Mempool NodeState.
From S2P Require Import Peers TxIndex.

Class Bincode := {
  EncodeError : Type;
  DecodeError : Type;
  encode_block : Block → result EncodeError bytes;
  decode_block : bytes → result DecodeError (Block * nat);
  encode_tx : Transaction → result EncodeError bytes;
  decode_tx : bytes → result DecodeError (Transaction * nat)
}.

Class BincodeLaws (B : Bincode) : Prop := {
  decode_encode_block b : ∃ bs n, encode_block b = Ok bs ∧ decode_block bs = Ok (b, n);
  decode_encode_tx t : ∃ bs n, encode_tx t = Ok bs ∧ decode_tx bs = Ok (t, n)
}.

(** [rusqlite::Error], as far as the statements of this module raise it. *)
Inductive SqlError :=
| CannotOpen
| NotADatabase
| DiskIoError
| ConstraintViolation
| FromSqlConversionFailure (column : nat)
| IntegralValueOutOfRange (column : nat) (v : Z).

Inductive SqliteStoreError `{B : Bincode} :=
| Sqlite (e : SqlError)
| Encode (e : EncodeError)
| Decode (e : DecodeError)
| StoreNodeState (e : NodeStateError)
| InvalidHashLength (n : nat)
| InvalidWorkLength (n : nat)
| InvalidHashHex (text : string)
| MissingBlockForEntry (h : BlockHash)
| RebuiltBestTipMismatch (rebuilt persisted : option BlockHash)
| RebuiltUtxoMismatch
| RebuiltMempoolMismatch
| InvalidTransactionStatus (text : string).

(** ** Schema *)

Record ChainRow := { c_height : Z; c_cumulative_work : bytes; c_parent_hash : option string }.

Record UtxoRow := {
  u_value : Z; u_locking_data : bytes; u_created_at_height : Z; u_is_coinbase : Z
}.

Record PeerRow := {
  p_node_name : option string;
  p_source : string;
  p_advertised_tip_hash : option string;
  p_advertised_height : option Z;
  p_last_hello_at : option string;
  p_last_seen_at : option string;
  p_last_connect_at : option string;
  p_last_success_at : option string;
  p_last_error : option string;
  p_connections : Z;
  p_failed_connections : Z;
  p_behavior_score : Z;
  p_banned_until : option string
}.

Record TransactionRow := {
  t_transaction_bytes : bytes;
  t_block_hash : option string;
  t_block_height : option Z;
  t_position_in_block : option Z;
  t_status : string;
  t_first_seen_at : option string;
  t_last_updated_at : option string
}.

Record KeyRow := {
  k_txid : string; k_key_role : string; k_key_data : bytes; k_value : option Z; k_vout : option Z
}.

Record SqliteStore := {
  t_blocks : gmap string bytes;
  t_chain_entries : gmap string ChainRow;
  t_active_utxos : gmap (string * Z) UtxoRow;
  t_mempool_transactions : gmap string bytes;
  t_peers : gmap string PeerRow;
  t_transactions : gmap string TransactionRow;
  t_transaction_keys : list KeyRow;
  t_metadata : gmap string string
}.

(** [initialize_schema] on a new file. *)
Definition empty_store : SqliteStore := {|
  t_blocks := ∅; t_chain_entries := ∅; t_active_utxos := ∅; t_mempool_transactions := ∅;
  t_peers := ∅; t_transactions := ∅; t_transaction_keys := []; t_metadata := ∅
|}.

Definition set_blocks (db : SqliteStore) (t : gmap string bytes) : SqliteStore := {|
  t_blocks := t; t_chain_entries := t_chain_entries db; t_active_utxos := t_active_utxos db;
  t_mempool_transactions := t_mempool_transactions db; t_peers := t_peers db;
  t_transactions := t_transactions db; t_transaction_keys := t_transaction_keys db;
  t_metadata := t_metadata db
|}.
Definition set_chain_entries (db : SqliteStore) (t : gmap string ChainRow) : SqliteStore := {|
  t_blocks := t_blocks db; t_chain_entries := t; t_active_utxos := t_active_utxos db;
  t_mempool_transactions := t_mempool_transactions db; t_peers := t_peers db;
  t_transactions := t_transactions db; t_transaction_keys := t_transaction_keys db;
  t_metadata := t_metadata db
|}.
Definition set_active_utxos (db : SqliteStore) (t : gmap (string * Z) UtxoRow) : SqliteStore := {|
  t_blocks := t_blocks db; t_chain_entries := t_chain_entries db; t_active_utxos := t;
  t_mempool_transactions := t_mempool_transactions db; t_peers := t_peers db;
  t_transactions := t_transactions db; t_transaction_keys := t_transaction_keys db;
  t_metadata := t_metadata db
|}.
Definition set_mempool_transactions (db : SqliteStore) (t : gmap string bytes) : SqliteStore := {|
  t_blocks := t_blocks db; t_chain_entries := t_chain_entries db;
  t_active_utxos := t_active_utxos db; t_mempool_transactions := t; t_peers := t_peers db;
  t_transactions := t_transactions db; t_transaction_keys := t_transaction_keys db;
  t_metadata := t_metadata db
|}.
Definition set_peers (db : SqliteStore) (t : gmap string PeerRow) : SqliteStore := {|
  t_blocks := t_blocks db; t_chain_entries := t_chain_entries db;
  t_active_utxos := t_active_utxos db; t_mempool_transactions := t_mempool_transactions db;
  t_peers := t; t_transactions := t_transactions db;
  t_transaction_keys := t_transaction_keys db; t_metadata := t_metadata db
|}.
Definition set_transactions (db : SqliteStore) (t : gmap string TransactionRow) : SqliteStore := {|
  t_blocks := t_blocks db; t_chain_entries := t_chain_entries db;
  t_active_utxos := t_active_utxos db; t_mempool_transactions := t_mempool_transactions db;
  t_peers := t_peers db; t_transactions := t; t_transaction_keys := t_transaction_keys db;
  t_metadata := t_metadata db
|}.
Definition set_transaction_keys (db : SqliteStore) (t : list KeyRow) : SqliteStore := {|
  t_blocks := t_blocks db; t_chain_entries := t_chain_entries db;
  t_active_utxos := t_active_utxos db; t_mempool_transactions := t_mempool_transactions db;
  t_peers := t_peers db; t_transactions := t_transactions db; t_transaction_keys := t;
  t_metadata := t_metadata db
|}.
Definition set_metadata (db : SqliteStore) (t : gmap string string) : SqliteStore := {|
  t_blocks := t_blocks db; t_chain_entries := t_chain_entries db;
  t_active_utxos := t_active_utxos db; t_mempool_transactions := t_mempool_transactions db;
  t_peers := t_peers db; t_transactions := t_transactions db;
  t_transaction_keys := t_transaction_keys db; t_metadata := t
|}.

(** ** Columns *)

(** [z as i64] of a [u64] and back, [z as u32]. *)
Definition as_i64 (z : Z) : Z := if bool_decide (z < 2 ^ 63) then z else z - 2 ^ 64.
Definition as_u64 (z : Z) : Z := z mod 2 ^ 64.
Definition as_u32 (z : Z) : Z := z mod 2 ^ 32.

(** [hex::decode]. *)
Fixpoint hex_decode (value : string) : option bytes :=
  match value with
  | EmptyString => Some []
  | String c1 (String c2 rest) =>
      z ← u8_from_str_radix_16 c1 c2;
      bs ← hex_decode rest;
      Some (byte_of_Z z :: bs)
  | String _ EmptyString => None
  end.

Definition chain_row (e : ChainIndexEntry) : ChainRow := {|
  c_height := as_i64 (height e);
  c_cumulative_work := be_bytes 16 (cumulative_work e);
  c_parent_hash := BlockHash_to_string <$> parent e
|}.

Definition utxo_key (o : OutPoint) : string * Z := (Txid_to_string (txid o), vout o).

Definition utxo_row (u : Utxo) : UtxoRow := {|
  u_value := as_i64 (value (output u));
  u_locking_data := locking_data (output u);
  u_created_at_height := as_i64 (created_at_height u);
  u_is_coinbase := if utxo_is_coinbase u then 1 else 0
|}.

Definition peer_row (p : StoredPeer) : PeerRow := {|
  p_node_name := peer_node_name p;
  p_source := PeerSource_as_str (source p);
  p_advertised_tip_hash := BlockHash_to_string <$> advertised_tip_hash p;
  p_advertised_height := as_i64 <$> advertised_height p;
  p_last_hello_at := last_hello_at p;
  p_last_seen_at := last_seen_at p;
  p_last_connect_at := last_connect_at p;
  p_last_success_at := last_success_at p;
  p_last_error := last_error p;
  p_connections := connections p;
  p_failed_connections := failed_connections p;
  p_behavior_score := behavior_score p;
  p_banned_until := banned_until p
|}.

Definition transaction_row (bs : bytes) (i : IndexedTransaction) : TransactionRow := {|
  t_transaction_bytes := bs;
  t_block_hash := BlockHash_to_string <$> indexed_block_hash i;
  t_block_height := as_i64 <$> indexed_block_height i;
  t_position_in_block := position_in_block i;
  t_status := Status_as_str (status i);
  t_first_seen_at := first_seen_at i;
  t_last_updated_at := last_updated_at i
|}.

Definition key_row (e : TransactionKeyEdge) : KeyRow := {|
  k_txid := Txid_to_string (edge_txid e);
  k_key_role := Role_as_str (key_role e);
  k_key_data := key_data e;
  k_value := as_i64 <$> edge_value e;
  k_vout := edge_vout e
|}.

Section store.
Context `{C : Crypto} `{B : Bincode}.

Definition decode_work (bs : bytes) : result SqliteStoreError Z :=
  if bool_decide (length bs = 16%nat) then Ok (of_be_bytes bs)
  else Err (InvalidWorkLength (length bs)).

Definition parse_hash (value : string) : result SqliteStoreError bytes :=
  bs ← ok_or (hex_decode value) (InvalidHashHex value);
  if bool_decide (length bs = 32%nat) then Ok bs else Err (InvalidHashLength (length bs)).

Definition parse_block_hash (value : string) : result SqliteStoreError BlockHash :=
  BlockHash_new <$> parse_hash value.
Definition parse_txid (value : string) : result SqliteStoreError Txid :=
  Txid_new <$> parse_hash value.

(** [Option::map(f).transpose()]. *)
Definition transpose {A D} (f : A → result SqliteStoreError D) (o : option A)
    : result SqliteStoreError (option D) :=
  match o with
  | None => Ok None
  | Some a => Some <$> f a
  end.

(** An error of a row closure, reported as a conversion failure of a column. *)
Definition in_column {A} (column : nat) (r : result SqliteStoreError A)
    : result SqliteStoreError A :=
  map_err (λ _, Sqlite (FromSqlConversionFailure column)) r.

(** ** Operations *)

(** A store operation. *)
Definition store_op (A : Type) : Type :=
  SqliteStore → SqliteStore * result SqliteStoreError A.

#[global] Instance store_op_ret : MRet store_op := λ A a db, (db, Ok a).
#[global] Instance store_op_bind : MBind store_op := λ A D f m db,
  match m db with
  | (db, Ok a) => f a db
  | (db, Err e) => (db, Err e)
  | (db, Panic) => (db, Panic)
  end.

(** A query or computation that does not write. *)
Definition lift {A} (r : result SqliteStoreError A) : store_op A := λ db, (db, r).
Definition query {A} (f : SqliteStore → result SqliteStoreError A) : store_op A := λ db, (db, f db).
(** A statement that cannot violate a constraint. *)
Definition exec (f : SqliteStore → SqliteStore) : store_op unit := λ db, (f db, Ok ()).

(** A statement that can. *)
Definition try_exec (f : SqliteStore → result SqliteStoreError SqliteStore) : store_op unit := λ db,
  match f db with
  | Ok db' => (db', Ok ())
  | Err e => (db, Err e)
  | Panic => (db, Panic)
  end.

(** [unchecked_transaction] .. [commit]: an error rolls back. *)
Definition in_transaction {A} (m : store_op A) : store_op A := λ db,
  match m db with
  | (db', Ok a) => (db', Ok a)
  | (_, r) => (db, r)
  end.

Fixpoint for_each {A} (f : A → store_op unit) (l : list A) : store_op unit :=
  match l with
  | [] => mret ()
  | a :: l => _ ← f a; for_each f l
  end.

(** [INSERT INTO] a table with a primary key. *)
Definition insert_row {K V} `{Countable K} (t : gmap K V) (k : K) (v : V)
    : result SqliteStoreError (gmap K V) :=
  if bool_decide (is_Some (t !! k)) then Err (Sqlite ConstraintViolation) else Ok (<[k := v]> t).

Definition insert_utxo (p : OutPoint * Utxo) : store_op unit :=
  try_exec (λ db, set_active_utxos db
                    <$> insert_row (t_active_utxos db) (utxo_key p.1) (utxo_row p.2)).

Definition insert_mempool_row (p : Txid * Transaction) : store_op unit :=
  bs ← lift (map_err Encode (encode_tx p.2));
  try_exec (λ db, set_mempool_transactions db
                    <$> insert_row (t_mempool_transactions db) (Txid_to_string p.1) bs).

Definition replace_mempool_row (id : Txid) (bs : bytes) : store_op unit :=
  exec (λ db, set_mempool_transactions db
                (<[Txid_to_string id := bs]> (t_mempool_transactions db))).

Definition delete_mempool_transaction_row (id : Txid) : store_op unit :=
  exec (λ db, set_mempool_transactions db
                (delete (Txid_to_string id) (t_mempool_transactions db))).

Definition insert_indexed_row (i : IndexedTransaction) : store_op unit :=
  bs ← lift (map_err Encode (encode_tx (indexed_transaction i)));
  try_exec (λ db, set_transactions db
    <$> insert_row (t_transactions db) (Txid_to_string (indexed_txid i)) (transaction_row bs i)).

Definition upsert_indexed_transaction_row (i : IndexedTransaction) : store_op unit :=
  bs ← lift (map_err Encode (encode_tx (indexed_transaction i)));
  exec (λ db, set_transactions db
                (<[Txid_to_string (indexed_txid i) := transaction_row bs i]> (t_transactions db))).

Definition delete_transaction_key_rows (id : Txid) : store_op unit :=
  exec (λ db, set_transaction_keys db
                (filter (λ r, k_txid r ≠ Txid_to_string id) (t_transaction_keys db))).

Definition insert_transaction_key_row (e : TransactionKeyEdge) : store_op unit :=
  exec (λ db, set_transaction_keys db (t_transaction_keys db ++ [key_row e])).

Definition set_best_tip (best_tip : option BlockHash) : store_op unit :=
  exec (λ db, set_metadata db
    (match best_tip with
     | Some t => <["best_tip" := BlockHash_to_string t]> (t_metadata db)
     | None => delete "best_tip" (t_metadata db)
     end)).

(** The two [INSERT OR REPLACE] of a block and its index entry. *)
Definition put_block (b : Block) (e : ChainIndexEntry) : store_op unit :=
  bs ← lift (map_err Encode (encode_block b));
  exec (λ db, set_chain_entries
    (set_blocks db (<[BlockHash_to_string (block_hash e) := bs]> (t_blocks db)))
    (<[BlockHash_to_string (block_hash e) := chain_row e]> (t_chain_entries db))).

Definition save_block_record (b : Block) (e : ChainIndexEntry) (best_tip : option BlockHash)
    : store_op unit :=
  in_transaction (_ ← put_block b e; set_best_tip best_tip).

Definition load_block (db : SqliteStore) (h : BlockHash) : result SqliteStoreError (option Block) :=
  match t_blocks db !! BlockHash_to_string h with
  | None => Ok None
  | Some bs => p ← map_err Decode (decode_block bs); Ok (Some p.1)
  end.

Definition load_chain_entry (db : SqliteStore) (h : BlockHash)
    : result SqliteStoreError (option ChainIndexEntry) :=
  match t_chain_entries db !! BlockHash_to_string h with
  | None => Ok None
  | Some row =>
      w ← decode_work (c_cumulative_work row);
      par ← transpose parse_block_hash (c_parent_hash row);
      Ok (Some {| block_hash := h; height := as_u64 (c_height row); cumulative_work := w;
                  parent := par |})
  end.

Definition load_best_tip (db : SqliteStore) : result SqliteStoreError (option BlockHash) :=
  transpose parse_block_hash (t_metadata db !! "best_tip").

Definition count_chain_entries (db : SqliteStore) : nat := size (t_chain_entries db).

Definition load_mempool_transaction (db : SqliteStore) (id : Txid)
    : result SqliteStoreError (option Transaction) :=
  match t_mempool_transactions db !! Txid_to_string id with
  | None => Ok None
  | Some bs => p ← map_err Decode (decode_tx bs); Ok (Some p.1)
  end.

Definition save_active_utxos (U : UtxoSet) : store_op unit :=
  in_transaction (
    _ ← exec (λ db, set_active_utxos db ∅);
    for_each insert_utxo (map_to_list U)).

(** One row of [load_active_utxos]. *)
Definition utxo_from_row (row : (string * Z) * UtxoRow) : result SqliteStoreError Utxo :=
  let '((id, vout), r) := row in
  id ← parse_txid id;
  Ok {| outpoint := {| txid := id; vout := as_u32 vout |};
        output := {| value := as_u64 (u_value r); locking_data := u_locking_data r |};
        created_at_height := as_u64 (u_created_at_height r);
        utxo_is_coinbase := bool_decide (u_is_coinbase r ≠ 0) |}.

Definition load_active_utxos (db : SqliteStore) : result SqliteStoreError UtxoSet :=
  try_fold (λ (U : UtxoSet) row, u ← utxo_from_row row; Ok (<[outpoint u := u]> U)) ∅
    (map_to_list (t_active_utxos db)).

Definition save_mempool (mp : Mempool.Mempool) : store_op unit :=
  in_transaction (
    _ ← exec (λ db, set_mempool_transactions db ∅);
    for_each insert_mempool_row (map_to_list mp)).

(** One row of [load_mempool]: the stored bytes must hash to the key. *)
Definition mempool_from_row (row : string * bytes) : result SqliteStoreError (Txid * Transaction) :=
  id ← parse_txid row.1;
  p ← map_err Decode (decode_tx row.2);
  id' ← expect (Transaction_txid p.1);
  if bool_decide (id' ≠ id) then Err (InvalidHashHex row.1) else Ok (id, p.1).

Definition load_mempool (db : SqliteStore) : result SqliteStoreError Mempool.Mempool :=
  txs ← try_fold (λ txs row, p ← mempool_from_row row; Ok (txs ++ [p])) []
          (map_to_list (t_mempool_transactions db));
  Ok (Mempool_from_persisted txs).

Definition insert_peer (p : StoredPeer) : store_op unit :=
  try_exec (λ db, set_peers db <$> insert_row (t_peers db) (peer_addr p) (peer_row p)).

Definition save_peers (peers : list StoredPeer) : store_op unit :=
  in_transaction (_ ← exec (λ db, set_peers db ∅); for_each insert_peer peers).

Definition save_peer (p : StoredPeer) : store_op unit :=
  exec (λ db, set_peers db (<[peer_addr p := peer_row p]> (t_peers db))).

Definition stored_peer_from_row (row : string * PeerRow) : result SqliteStoreError StoredPeer :=
  let '(a, r) := row in
  src ← ok_or (PeerSource_parse (p_source r)) (Sqlite (FromSqlConversionFailure 2));
  th ← in_column 3 (transpose parse_block_hash (p_advertised_tip_hash r));
  score ← (if bool_decide (- 2 ^ 31 ≤ p_behavior_score r < 2 ^ 31) then Ok (p_behavior_score r)
           else Err (Sqlite (IntegralValueOutOfRange 12 (p_behavior_score r))));
  Ok {| peer_addr := a;
        peer_node_name := p_node_name r;
        source := src;
        advertised_tip_hash := th;
        advertised_height := as_u64 <$> p_advertised_height r;
        last_hello_at := p_last_hello_at r;
        last_seen_at := p_last_seen_at r;
        last_connect_at := p_last_connect_at r;
        last_success_at := p_last_success_at r;
        last_error := p_last_error r;
        connections := as_u32 (p_connections r);
        failed_connections := as_u32 (p_failed_connections r);
        behavior_score := score;
        banned_until := p_banned_until r |}.

Definition load_peer (db : SqliteStore) (a : string) : result SqliteStoreError (option StoredPeer) :=
  match t_peers db !! a with
  | None => Ok None
  | Some r => Some <$> stored_peer_from_row (a, r)
  end.

(** [ORDER BY addr ASC]. *)
Definition peer_row_le (p q : string * PeerRow) : Prop := String.le p.1 q.1.
#[global] Instance peer_row_le_dec : RelDecision peer_row_le.
Proof. unfold peer_row_le. intros p q. apply _. Defined.

Definition load_peers (db : SqliteStore) : result SqliteStoreError (list StoredPeer) :=
  try_fold (λ ps row, p ← stored_peer_from_row row; Ok (ps ++ [p])) []
    (merge_sort peer_row_le (map_to_list (t_peers db))).

(** ** Transaction index *)

(** The row closure shared by the index queries. *)
Definition indexed_from_row (row : string * TransactionRow)
    : result SqliteStoreError IndexedTransaction :=
  let '(id, r) := row in
  st ← ok_or (Status_parse (t_status r)) (Sqlite (FromSqlConversionFailure 5));
  id ← in_column 0 (parse_txid id);
  p ← map_err (λ _, Sqlite (FromSqlConversionFailure 1)) (decode_tx (t_transaction_bytes r));
  bh ← in_column 2 (transpose parse_block_hash (t_block_hash r));
  Ok {| indexed_txid := id;
        indexed_transaction := p.1;
        indexed_block_hash := bh;
        indexed_block_height := as_u64 <$> t_block_height r;
        position_in_block := as_u32 <$> t_position_in_block r;
        status := st;
        first_seen_at := t_first_seen_at r;
        last_updated_at := t_last_updated_at r |}.

Definition save_transaction_index (txs : list IndexedTransaction) (edges : list TransactionKeyEdge)
    : store_op unit :=
  in_transaction (
    _ ← exec (λ db, set_transaction_keys (set_transactions db ∅) []);
    _ ← for_each insert_indexed_row txs;
    for_each insert_transaction_key_row edges).

Definition load_indexed_transaction (db : SqliteStore) (id : Txid)
    : result SqliteStoreError (option IndexedTransaction) :=
  match t_transactions db !! Txid_to_string id with
  | None => Ok None
  | Some r => Some <$> indexed_from_row (Txid_to_string id, r)
  end.

(** [ASC NULLS LAST]. *)
Definition nulls_last_lt (a b : option Z) : Prop :=
  match a, b with
  | Some a, Some b => a < b
  | Some _, None => True
  | None, _ => False
  end.
#[global] Instance nulls_last_lt_dec : RelDecision nulls_last_lt.
Proof. intros [a|] [b|]; unfold nulls_last_lt; apply _. Defined.

(** [ORDER BY block_height .., position_in_block .., txid]. *)
Definition transaction_row_le (p q : string * TransactionRow) : Prop :=
  nulls_last_lt (t_block_height p.2) (t_block_height q.2)
  ∨ t_block_height p.2 = t_block_height q.2
    ∧ (nulls_last_lt (t_position_in_block p.2) (t_position_in_block q.2)
       ∨ t_position_in_block p.2 = t_position_in_block q.2 ∧ String.le p.1 q.1).
#[global] Instance transaction_row_le_dec : RelDecision transaction_row_le.
Proof. unfold transaction_row_le. intros p q. apply _. Defined.

Definition load_indexed_transactions (db : SqliteStore)
    : result SqliteStoreError (list IndexedTransaction) :=
  try_fold (λ txs row, i ← indexed_from_row row; Ok (txs ++ [i])) []
    (merge_sort transaction_row_le (map_to_list (t_transactions db))).

(** The rows of the join for one key; a transaction appears once ([DISTINCT]). *)
Definition rows_for_key (db : SqliteStore) (key : bytes) : list (string * TransactionRow) :=
  merge_sort transaction_row_le
    (filter (λ p : string * TransactionRow,
       Exists (λ k, k_txid k = p.1 ∧ k_key_data k = key) (t_transaction_keys db))
       (map_to_list (t_transactions db))).

(** [by_txid.entry(indexed.txid).or_insert(indexed)]. *)
Definition or_insert (m : gmap Txid IndexedTransaction) (i : IndexedTransaction)
    : gmap Txid IndexedTransaction :=
  match m !! indexed_txid i with
  | Some _ => m
  | None => <[indexed_txid i := i]> m
  end.

(** The final [sort_by_key]. *)
Definition indexed_le (i j : IndexedTransaction) : Prop :=
  let hi := default (max_uint 64) (indexed_block_height i) in
  let hj := default (max_uint 64) (indexed_block_height j) in
  let pi := default (max_uint 32) (position_in_block i) in
  let pj := default (max_uint 32) (position_in_block j) in
  hi < hj ∨ hi = hj ∧ (pi < pj ∨ pi = pj
    ∧ String.le (Txid_to_string (indexed_txid i)) (Txid_to_string (indexed_txid j))).
#[global] Instance indexed_le_dec : RelDecision indexed_le.
Proof. unfold indexed_le. intros i j. apply _. Defined.

Definition load_transactions_for_keys (db : SqliteStore) (keys : list bytes)
    : result SqliteStoreError (list IndexedTransaction) :=
  match keys with
  | [] => Ok []
  | _ :: _ =>
      by_txid ← try_fold (λ m key,
        try_fold (λ m row, i ← indexed_from_row row; Ok (or_insert m i)) m (rows_for_key db key))
        ∅ keys;
      Ok (merge_sort indexed_le (map_to_list by_txid).*2)
  end.

(** [ORDER BY key_role ASC, vout ASC NULLS LAST]. *)
Definition key_row_le (k l : KeyRow) : Prop :=
  (String.le (k_key_role k) (k_key_role l) ∧ k_key_role k ≠ k_key_role l)
  ∨ k_key_role k = k_key_role l
    ∧ (nulls_last_lt (k_vout k) (k_vout l) ∨ k_vout k = k_vout l).
#[global] Instance key_row_le_dec : RelDecision key_row_le.
Proof. unfold key_row_le. intros k l. apply _. Defined.

Definition load_transaction_key_edges (db : SqliteStore) (id : Txid)
    : result SqliteStoreError (list TransactionKeyEdge) :=
  try_fold (λ es (k : KeyRow),
    role ← ok_or (Role_parse (k_key_role k)) (Sqlite (FromSqlConversionFailure 0));
    Ok (es ++ [{| edge_txid := id; key_role := role; key_data := k_key_data k;
                  edge_value := as_u64 <$> k_value k; edge_vout := as_u32 <$> k_vout k |}])) []
    (merge_sort key_row_le
       (filter (λ k, k_txid k = Txid_to_string id) (t_transaction_keys db))).

Definition load_output (db : SqliteStore) (o : OutPoint) : result SqliteStoreError (option TxOut) :=
  match t_transactions db !! Txid_to_string (txid o) with
  | None => Ok None
  | Some r =>
      p ← map_err Decode (decode_tx (t_transaction_bytes r));
      Ok (outputs p.1 !! Z.to_nat (vout o))
  end.

Definition input_edge (id : Txid) (o : OutPoint) (prev : TxOut) : TransactionKeyEdge := {|
  edge_txid := id; key_role := Input; key_data := locking_data prev;
  edge_value := Some (value prev); edge_vout := Some (vout o)
|}.

(** The edges of the outputs, [vout as u32] counted from [n]. *)
Fixpoint output_edges (id : Txid) (n : nat) (outs : list TxOut) : list TransactionKeyEdge :=
  match outs with
  | [] => []
  | out :: outs =>
      {| edge_txid := id; key_role := Output; key_data := locking_data out;
         edge_value := Some (value out); edge_vout := Some (as_u32 (Z.of_nat n)) |}
      :: output_edges id (S n) outs
  end.

Definition append_transaction_key_edges (tx : Transaction) (known : gmap OutPoint TxOut)
    (edges : list TransactionKeyEdge) : may_panic (list TransactionKeyEdge) :=
  id ← Transaction_txid tx;
  Some (edges ++ omap (λ i, input_edge id (previous_output i) <$> known !! previous_output i)
                   (inputs tx)
        ++ output_edges id 0 (outputs tx)).

Definition append_transaction_key_edges_with_fallback (db : SqliteStore) (tx : Transaction)
    (known : gmap OutPoint TxOut) (edges : list TransactionKeyEdge)
    : result SqliteStoreError (list TransactionKeyEdge) :=
  id ← expect (Transaction_txid tx);
  edges ← try_fold (λ edges i,
    prev ← (match known !! previous_output i with
            | Some out => Ok (Some out)
            | None => load_output db (previous_output i)
            end);
    Ok (match prev with
        | Some out => edges ++ [input_edge id (previous_output i) out]
        | None => edges
        end)) edges (inputs tx);
  Ok (edges ++ output_edges id 0 (outputs tx)).

Definition build_transaction_key_edges_for_persisted_context (db : SqliteStore) (tx : Transaction)
    : result SqliteStoreError (list TransactionKeyEdge) :=
  id ← expect (Transaction_txid tx);
  edges ← try_fold (λ edges i,
    prev ← load_output db (previous_output i);
    Ok (match prev with
        | Some out => edges ++ [input_edge id (previous_output i) out]
        | None => edges
        end)) [] (inputs tx);
  Ok (edges ++ output_edges id 0 (outputs tx)).

Definition remember_outputs (tx : Transaction) (known : gmap OutPoint TxOut)
    : may_panic (gmap OutPoint TxOut) :=
  id ← Transaction_txid tx;
  Some (foldl (λ m (p : nat * TxOut), <[{| txid := id; vout := as_u32 (Z.of_nat p.1) |} := p.2]> m)
          known (imap pair (outputs tx))).

Definition confirmed_row (id : Txid) (tx : Transaction) (h : BlockHash) (n : Z) (pos : nat)
    : IndexedTransaction := {|
  indexed_txid := id; indexed_transaction := tx; indexed_block_hash := Some h;
  indexed_block_height := Some n; position_in_block := Some (as_u32 (Z.of_nat pos));
  status := Confirmed; first_seen_at := None; last_updated_at := None
|}.

Definition mempool_row (id : Txid) (tx : Transaction) : IndexedTransaction := {|
  indexed_txid := id; indexed_transaction := tx; indexed_block_hash := None;
  indexed_block_height := None; position_in_block := None; status := TxIndex.Mempool;
  first_seen_at := None; last_updated_at := None
|}.

Definition build_confirmed_block_index (db : SqliteStore) (b : Block) (h : BlockHash) (n : Z)
    : result SqliteStoreError (list IndexedTransaction * list TransactionKeyEdge) :=
  r ← try_fold (λ '(txs, edges, known) (p : nat * Transaction),
    id ← expect (Transaction_txid p.2);
    edges ← append_transaction_key_edges_with_fallback db p.2 known edges;
    known ← expect (remember_outputs p.2 known);
    Ok (txs ++ [confirmed_row id p.2 h n p.1], edges, known)) ([], [], ∅)
    (imap pair (transactions b));
  Ok r.1.

Definition merge_confirmed_transaction_metadata (db : SqliteStore) (i : IndexedTransaction)
    : result SqliteStoreError IndexedTransaction :=
  existing ← load_indexed_transaction db (indexed_txid i);
  Ok (match existing with
      | Some e => {| indexed_txid := indexed_txid i; indexed_transaction := indexed_transaction i;
            indexed_block_hash := indexed_block_hash i;
            indexed_block_height := indexed_block_height i;
            position_in_block := position_in_block i; status := status i;
            first_seen_at := first_seen_at e; last_updated_at := last_updated_at i |}
      | None => i
      end).

(** One transaction of a confirmed block. *)
Definition confirm_row (i : IndexedTransaction) : store_op unit :=
  _ ← delete_mempool_transaction_row (indexed_txid i);
  _ ← upsert_indexed_transaction_row i;
  delete_transaction_key_rows (indexed_txid i).

Definition save_confirmed_block_transactions (b : Block) (e : ChainIndexEntry) : store_op unit :=
  p ← query (λ db, build_confirmed_block_index db b (block_hash e) (height e));
  merged ← query (λ db, try_fold (λ l i,
             i ← merge_confirmed_transaction_metadata db i; Ok (l ++ [i])) [] p.1);
  in_transaction (
    _ ← for_each confirm_row merged;
    for_each insert_transaction_key_row p.2).

Definition load_persisted_mempool_txids (db : SqliteStore) : result SqliteStoreError (list Txid) :=
  try_fold (λ ids text, id ← parse_txid text; Ok (ids ++ [id])) []
    (merge_sort String.le (map_to_list (t_mempool_transactions db)).*1).

(** The body of the loop of [delete_stale_mempool_transactions]. *)
Definition delete_stale_row (mp : Mempool.Mempool) (id : Txid) : store_op unit :=
  if bool_decide (is_Some (mp !! id)) then mret ()
  else
    _ ← delete_mempool_transaction_row id;
    _ ← exec (λ db, set_transactions db
          (match t_transactions db !! Txid_to_string id with
           | Some r => if bool_decide (t_status r = "mempool")
                       then delete (Txid_to_string id) (t_transactions db) else t_transactions db
           | None => t_transactions db
           end));
    delete_transaction_key_rows id.

Definition delete_stale_mempool_transactions (mp : Mempool.Mempool) : store_op unit :=
  persisted ← query load_persisted_mempool_txids;
  in_transaction (for_each (delete_stale_row mp) persisted).

Definition save_mempool_transaction (tx : Transaction) : store_op unit :=
  id ← lift (expect (Transaction_txid tx));
  bs ← lift (map_err Encode (encode_tx tx));
  edges ← query (λ db, build_transaction_key_edges_for_persisted_context db tx);
  in_transaction (
    _ ← replace_mempool_row id bs;
    _ ← upsert_indexed_transaction_row (mempool_row id tx);
    _ ← delete_transaction_key_rows id;
    for_each insert_transaction_key_row edges).

(** ** Chain walks *)

(** [fuel] bounds the walk from [cursor]; [None] when it does not end. *)
Fixpoint walk_parents (fuel : nat) (m : gmap BlockHash ChainIndexEntry) (cursor : option BlockHash)
    : option (list ChainIndexEntry) :=
  match cursor with
  | None => Some []
  | Some h =>
      match m !! h with
      | None => Some []
      | Some e =>
          match fuel with
          | O => None
          | S fuel => cons e <$> walk_parents fuel m (parent e)
          end
      end
  end.

(** The chain index has no cycle, so as many steps as there are entries are
    enough ([best_chain_entries_ancestry]). *)
Definition best_chain_entries (s : NodeState) : option (list ChainIndexEntry) :=
  reverse <$> walk_parents (size (entries (chain s))) (entries (chain s)) (best_tip (chain s)).

Definition best_chain_contains (s : NodeState) (h : BlockHash) : option bool :=
  (λ l, existsb (λ e, bool_decide (block_hash e = h)) l) <$> best_chain_entries s.

(** The accumulator of [build_transaction_index]. *)
Record IndexAcc := {
  acc_transactions : list IndexedTransaction;
  acc_edges : list TransactionKeyEdge;
  acc_seen : gset Txid;
  acc_known : gmap OutPoint TxOut
}.

(** One transaction of the index, unless its id has been seen. *)
Definition index_transaction (acc : IndexAcc) (id : Txid) (i : IndexedTransaction)
    : may_panic IndexAcc :=
  if bool_decide (id ∈ acc_seen acc) then Some acc
  else
    edges ← append_transaction_key_edges (indexed_transaction i) (acc_known acc) (acc_edges acc);
    known ← remember_outputs (indexed_transaction i) (acc_known acc);
    Some {| acc_transactions := acc_transactions acc ++ [i]; acc_edges := edges;
            acc_seen := {[ id ]} ∪ acc_seen acc; acc_known := known |}.

(** [sort_by_key(|(txid, _)| txid.to_string())]. *)
Definition by_id_le (p q : Txid * Transaction) : Prop :=
  String.le (Txid_to_string p.1) (Txid_to_string q.1).
#[global] Instance by_id_le_dec : RelDecision by_id_le.
Proof. unfold by_id_le. intros p q. apply _. Defined.

(** The transactions of one block of the best chain. *)
Definition index_block (s : NodeState) (acc : IndexAcc) (e : ChainIndexEntry) : may_panic IndexAcc :=
  match get_block s (block_hash e) with
  | None => Some acc
  | Some b =>
      try_fold (λ acc (p : nat * Transaction),
        id ← Transaction_txid p.2;
        index_transaction acc id (confirmed_row id p.2 (block_hash e) (height e) p.1))
        acc (imap pair (transactions b))
  end.

Definition index_pending (acc : IndexAcc) (p : Txid * Transaction) : may_panic IndexAcc :=
  index_transaction acc p.1 (mempool_row p.1 p.2).

Definition build_transaction_index (s : NodeState)
    : may_panic (list IndexedTransaction * list TransactionKeyEdge) :=
  es ← best_chain_entries s;
  acc ← try_fold (index_block s)
    {| acc_transactions := []; acc_edges := []; acc_seen := ∅; acc_known := ∅ |} es;
  acc ← try_fold index_pending acc (merge_sort by_id_le (map_to_list (mempool s)));
  Some (acc_transactions acc, acc_edges acc).

Definition save_mempool_state (s : NodeState) : store_op unit :=
  p ← lift (expect (build_transaction_index s));
  _ ← save_mempool (mempool s);
  save_transaction_index p.1 p.2.

(** ** Node state *)

Definition save_accepted_block (s : NodeState) (h : BlockHash) : store_op unit :=
  b ← lift (ok_or (get_block s h) (MissingBlockForEntry h));
  e ← lift (ok_or (entries (chain s) !! h) (MissingBlockForEntry h));
  _ ← save_block_record b e (best_tip (chain s));
  on_best ← lift (expect (best_chain_contains s h));
  if negb on_best then mret ()
  else
    _ ← save_active_utxos (active_utxos s);
    _ ← delete_stale_mempool_transactions (mempool s);
    save_confirmed_block_transactions b e.

(** [ORDER BY height ASC, block_hash ASC]. *)
Definition chain_row_le (p q : string * ChainRow) : Prop :=
  c_height p.2 < c_height q.2 ∨ c_height p.2 = c_height q.2 ∧ String.le p.1 q.1.
#[global] Instance chain_row_le_dec : RelDecision chain_row_le.
Proof. unfold chain_row_le. intros p q. apply _. Defined.

(** One row of the [LEFT JOIN] of [chain_entries] with [blocks]. *)
Definition block_from_row (db : SqliteStore) (row : string * ChainRow)
    : result SqliteStoreError Block :=
  h ← parse_block_hash row.1;
  bytes ← ok_or (t_blocks db !! row.1) (MissingBlockForEntry h);
  p ← map_err Decode (decode_block bytes);
  Ok p.1.

Definition load_blocks_in_height_order (db : SqliteStore) : result SqliteStoreError (list Block) :=
  try_fold (λ bs row, b ← block_from_row db row; Ok (bs ++ [b])) []
    (merge_sort chain_row_le (map_to_list (t_chain_entries db))).

Definition utxo_sets_match (left right : UtxoSet) : bool :=
  bool_decide (size left = size right)
  && forallb (λ p : OutPoint * Utxo, bool_decide (right !! p.1 = Some p.2)) (map_to_list left).

Definition mempools_match (left right : Mempool.Mempool) : bool :=
  bool_decide (size left = size right)
  && forallb (λ p : Txid * Transaction, bool_decide (right !! p.1 = Some p.2)) (map_to_list left).

Definition load_node_state (db : SqliteStore) : result SqliteStoreError NodeState :=
  bs ← load_blocks_in_height_order db;
  mp ← load_mempool db;
  persisted_best_tip ← load_best_tip db;
  persisted_utxos ← load_active_utxos db;
  persisted_mempool ← load_mempool db;
  s ← map_err StoreNodeState (from_persisted bs mp);
  if bool_decide (best_tip (chain s) ≠ persisted_best_tip) then
    Err (RebuiltBestTipMismatch (best_tip (chain s)) persisted_best_tip)
  else if negb (utxo_sets_match (active_utxos s) persisted_utxos) then Err RebuiltUtxoMismatch
  else if negb (mempools_match (mempool s) persisted_mempool) then Err RebuiltMempoolMismatch
  else Ok s.

(** [sort_by_key(|entry| (entry.height, entry.block_hash.to_string()))]. *)
Definition entry_le (a b : ChainIndexEntry) : Prop :=
  height a < height b
  ∨ height a = height b
    ∧ String.le (BlockHash_to_string (block_hash a)) (BlockHash_to_string (block_hash b)).
#[global] Instance entry_le_dec : RelDecision entry_le.
Proof. unfold entry_le. intros a b. apply _. Defined.

Definition save_node_state (s : NodeState) : store_op unit :=
  in_transaction (
    _ ← exec (λ _, empty_store);
    _ ← for_each (λ e,
          b ← lift (ok_or (get_block s (block_hash e)) (MissingBlockForEntry (block_hash e)));
          put_block b e) (merge_sort entry_le (map_to_list (entries (chain s))).*2);
    _ ← for_each insert_utxo (map_to_list (active_utxos s));
    _ ← for_each insert_mempool_row (map_to_list (mempool s));
    p ← lift (expect (build_transaction_index s));
    _ ← for_each insert_indexed_row p.1;
    _ ← for_each insert_transaction_key_row p.2;
    match best_tip (chain s) with
    | Some t => set_best_tip (Some t)
    | None => mret ()
    end).

End store.
