(* ===== verification/StoreProofs.v ===== *)
(** * Correctness of sqlite_store.rs

    [stores db s]: the tables that a restart reads hold the node state [s].
    The saves establish and maintain it, the loads read it back, and
    [load_node_state] rebuilds exactly the saved state. *)

From S2P Require Import Prelude Bytes Crypto Types State Consensus Chain Mempool NodeState.
From S2P Require Import Restart Peers TxIndex Store.

(** ** Columns *)

Lemma hex_decode_to_hex bs : hex_decode (to_hex bs) = Some bs.
Proof.
  induction bs as [|b bs IH]; [done|]. cbn [to_hex hex_decode].
  rewrite u8_from_str_radix_16_hex. cbn. by rewrite IH, byte_of_to_Z.
Qed.

Lemma as_u64_i64 z : u64 z → as_u64 (as_i64 z) = z.
Proof.
  intros [H1 H2]. unfold as_u64, as_i64. case_bool_decide.
  - by apply Z.mod_small.
  - replace (z - 2 ^ 64) with (z + (-1) * 2 ^ 64) by lia. rewrite Z.mod_add by lia.
    by apply Z.mod_small.
Qed.

Lemma as_u32_id z : u32 z → as_u32 z = z.
Proof. intros. by apply Z.mod_small. Qed.

#[export] Instance Txid_to_string_inj : Inj (=) (=) Txid_to_string.
Proof. intros [a] [b] H. unfold Txid_to_string in H. cbn in H. by apply (inj to_hex) in H as ->. Qed.
#[export] Instance BlockHash_to_string_inj : Inj (=) (=) BlockHash_to_string.
Proof.
  intros [a] [b] H. unfold BlockHash_to_string in H. cbn in H. by apply (inj to_hex) in H as ->.
Qed.
#[export] Instance utxo_key_inj : Inj (=) (=) utxo_key.
Proof. intros [a v] [b w] [= H ->]. by apply (inj to_hex) in H; destruct a, b; cbn in H; subst. Qed.

Section columns.
Context `{C : Crypto} `{B : Bincode}.

Lemma parse_hash_hex bs : length bs = 32%nat → parse_hash (to_hex bs) = Ok bs.
Proof using.
  intros Hl. unfold parse_hash. rewrite hex_decode_to_hex. cbn.
  by rewrite bool_decide_eq_true_2.
Qed.

Lemma parse_block_hash_to_string h :
  BlockHash_wf h → parse_block_hash (BlockHash_to_string h) = Ok h.
Proof using.
  intros Hh. unfold parse_block_hash, BlockHash_to_string. rewrite parse_hash_hex by done.
  by destruct h.
Qed.

Lemma parse_txid_to_string t : Txid_wf t → parse_txid (Txid_to_string t) = Ok t.
Proof using.
  intros Ht. unfold parse_txid, Txid_to_string. rewrite parse_hash_hex by done. by destruct t.
Qed.

Lemma decode_work_be z : 0 ≤ z < 2 ^ 128 → decode_work (be_bytes 16 z) = Ok z.
Proof using.
  intros Hz. unfold decode_work. rewrite length_be_bytes, bool_decide_eq_true_2 by done.
  rewrite of_be_be_bytes. f_equal. by apply Z.mod_small.
Qed.

Lemma utxo_from_to_row o u :
  outpoint u = o → OutPoint_wf o → TxOut_wf (output u) → u64 (created_at_height u) →
  utxo_from_row (utxo_key o, utxo_row u) = Ok u.
Proof using.
  intros Ho [Ht Hv] Hval Hh. unfold utxo_from_row, utxo_key, utxo_row. cbn.
  rewrite parse_txid_to_string by done. cbn. rewrite as_u32_id, !as_u64_i64 by done.
  destruct u as [o' [v l] c cb], o as [i n]; cbn in *. subst. by destruct cb.
Qed.

Lemma stored_peer_from_to_row p :
  StoredPeer_wf p → stored_peer_from_row (peer_addr p, peer_row p) = Ok p.
Proof using.
  intros (Hh & Hc & Hf & Hs & Ht). unfold stored_peer_from_row, peer_row. cbn.
  rewrite PeerSource_parse_as_str. cbn.
  assert (transpose parse_block_hash (BlockHash_to_string <$> advertised_tip_hash p)
          = Ok (advertised_tip_hash p)) as ->.
  { destruct (advertised_tip_hash p) as [h|]; [|done]. cbn.
    by rewrite parse_block_hash_to_string. }
  cbn. rewrite bool_decide_eq_true_2 by done. cbn. rewrite !as_u32_id by done.
  assert (as_u64 <$> (as_i64 <$> advertised_height p) = advertised_height p) as ->.
  { destruct (advertised_height p); [|done]. cbn. by rewrite as_u64_i64. }
  by destruct p.
Qed.

End columns.

(** ** Loops over rows *)

Lemma try_fold_decode {E A R D} (f : R → result E D) (r : A → R) acc ps xs :
  Forall2 (λ p x, f (r p) = Ok x) ps xs →
  try_fold (λ acc row, x ← f row; Ok (acc ++ [x])) acc (r <$> ps) = Ok (acc ++ xs).
Proof.
  intros Hf. revert acc. induction Hf as [|p x ps xs Hp Hf IH]; intros acc; cbn.
  - by rewrite app_nil_r.
  - rewrite Hp. cbn. rewrite IH. by rewrite <-app_assoc.
Qed.

Lemma try_fold_insert {E A D K} `{Countable K} (f : A → result E D) (g : A → D) (key : D → K)
    (m : gmap K D) l :
  (∀ a, a ∈ l → f a = Ok (g a)) →
  try_fold (λ m a, x ← f a; Ok (<[key x := x]> m)) m l
  = Ok (foldl (λ m x, <[key x := x]> m) m (g <$> l)).
Proof.
  revert m. induction l as [|a l IH]; intros m Hf; cbn; [done|].
  rewrite Hf by by left. cbn. apply IH. intros; apply Hf; by right.
Qed.

Lemma foldl_insert_lookup {K D} `{Countable K} (key : D → K) (m : gmap K D) l k x :
  NoDup (key <$> l) →
  foldl (λ m x, <[key x := x]> m) m l !! k = Some x
  ↔ (x ∈ l ∧ key x = k) ∨ (k ∉ key <$> l ∧ m !! k = Some x).
Proof.
  revert m. induction l as [|y l IH]; intros m Hnd; cbn [foldl fmap list_fmap].
  - set_solver.
  - apply NoDup_cons in Hnd as [Hy Hnd]. rewrite IH by done.
    rewrite lookup_insert_Some, elem_of_cons, not_elem_of_cons. split.
    + intros [[? ?]|[Hk [[? ?]|[? ?]]]]; [auto|subst; auto|right; auto].
    + intros [[[->|?] ?]|[[? ?] ?]]; [subst; right; auto|auto|right; auto].
Qed.

(** Loading a keyed table that was written from a map. *)
Lemma load_keyed {E K K' D R} `{Countable K} `{Countable K'} (kf : K → K') `{!Inj (=) (=) kf}
    (rowf : D → R) (from_row : K' * R → result E D) (key : D → K) (m : gmap K D) :
  (∀ k x, m !! k = Some x → key x = k ∧ from_row (kf k, rowf x) = Ok x) →
  try_fold (λ m' row, x ← from_row row; Ok (<[key x := x]> m')) ∅
    (map_to_list (kmap kf (rowf <$> m) : gmap K' R)) = Ok m.
Proof.
  intros Hm. set (t := kmap kf (rowf <$> m) : gmap K' R).
  assert (∀ row, row ∈ map_to_list t → ∃ k x, row = (kf k, rowf x) ∧ m !! k = Some x) as Hrow.
  { intros [k' r] Hin%elem_of_map_to_list. unfold t in Hin.
    apply lookup_kmap_Some in Hin as (k & -> & Hk); [|done].
    apply lookup_fmap_Some in Hk as (x & <- & Hx). eauto. }
  set (g := λ row : K' * R, match from_row row with Ok x => Some x | _ => None end).
  destruct (decide (m = ∅)) as [->|Hne].
  { unfold t. rewrite fmap_empty, kmap_empty, map_to_list_empty. done. }
  destruct (map_choose m Hne) as (k0 & x0 & Hx0).
  rewrite (try_fold_insert from_row (λ row, default x0 (g row))).
  2: { intros row Hin. destruct (Hrow row Hin) as (k & x & -> & Hx).
       unfold g. by rewrite (proj2 (Hm k x Hx)). }
  f_equal. apply map_eq. intros k. apply option_eq. intros x.
  assert (∀ row, row ∈ map_to_list t →
    ∃ k x, row = (kf k, rowf x) ∧ m !! k = Some x ∧ default x0 (g row) = x ∧ key x = k) as Hrow'.
  { intros row Hin. destruct (Hrow row Hin) as (k1 & x1 & -> & Hx1). exists k1, x1.
    destruct (Hm k1 x1 Hx1) as [? Hf]. unfold g. by rewrite Hf. }
  rewrite foldl_insert_lookup.
  - rewrite lookup_empty. split; [|intros Hk; left].
    + intros [[Hin Hk]|[_ ?]]; [|done].
      apply list_elem_of_fmap in Hin as (row & Hg & Hin).
      destruct (Hrow' row Hin) as (k1 & x1 & -> & Hx1 & Hd & Hkey). congruence.
    + destruct (Hm k x Hk) as [Hkey Hf]. split; [|done].
      apply list_elem_of_fmap. exists (kf k, rowf x). unfold g. rewrite Hf. split; [done|].
      apply elem_of_map_to_list. unfold t. rewrite lookup_kmap by done.
      by rewrite lookup_fmap, Hk.
  - rewrite <-list_fmap_compose. apply (NoDup_fmap_2_strong _ (map_to_list t)).
    + intros r1 r2 (k1 & x1 & -> & H1 & Hd1 & Hk1)%Hrow' (k2 & x2 & -> & H2 & Hd2 & Hk2)%Hrow'.
      cbn. rewrite Hd1, Hd2, Hk1, Hk2. intros <-. congruence.
    + apply NoDup_map_to_list.
Qed.

(** The rows of a table written from a map, in any order. *)
Lemma rows_of_map {K K' D R} `{Countable K} `{Countable K'} (kf : K → K') `{!Inj (=) (=) kf}
    (rowf : D → R) (m : gmap K D) rows :
  rows ≡ₚ map_to_list (kmap kf (rowf <$> m) : gmap K' R) →
  ∃ ps, rows = (λ p, (kf p.1, rowf p.2)) <$> ps ∧ ps ≡ₚ map_to_list m.
Proof.
  intros Hr. assert (rows ≡ₚ (λ p, (kf p.1, rowf p.2)) <$> map_to_list m) as Hr'.
  { rewrite Hr, (map_to_list_kmap kf), map_to_list_fmap, <-list_fmap_compose. done. }
  apply Permutation_map_inv in Hr' as (ps & -> & Hps). by exists ps.
Qed.

Lemma foldl_insert_union {K D} `{Countable K} (m0 : gmap K D) ps :
  NoDup ps.*1 → foldl (λ m p, <[p.1 := p.2]> m) m0 ps = list_to_map ps ∪ m0.
Proof.
  revert m0. induction ps as [|[k x] ps IH]; intros m0 Hnd; cbn.
  - by rewrite map_empty_union.
  - apply NoDup_cons in Hnd as [Hk Hnd]. rewrite IH by done.
    rewrite <-insert_union_r, insert_union_l; [done|]. by apply not_elem_of_list_to_map_1.
Qed.

Lemma foldl_insert_pairs {K D} `{Countable K} (m : gmap K D) ps :
  ps ≡ₚ map_to_list m → foldl (λ m p, <[p.1 := p.2]> m) ∅ ps = m.
Proof.
  intros Hps. assert (NoDup ps.*1) as Hnd by (rewrite Hps; apply NoDup_fst_map_to_list).
  rewrite foldl_insert_union, map_union_empty by done.
  rewrite <-(list_to_map_to_list m). by apply list_to_map_proper.
Qed.

(** ** Reading a stored state *)

Section stored.
Context `{C : Crypto} `{L : !CryptoLaws C} `{B : Bincode} `{BL : !BincodeLaws B}.

Definition block_bytes (b : Block) : bytes := default [] (unwrap (encode_block b)).
Definition tx_bytes (t : Transaction) : bytes := default [] (unwrap (encode_tx t)).

Lemma encode_block_bytes b :
  encode_block b = Ok (block_bytes b) ∧ ∃ n, decode_block (block_bytes b) = Ok (b, n).
Proof using BL.
  destruct (decode_encode_block b) as (bs & n & He & Hd). unfold block_bytes. rewrite He. eauto.
Qed.

Lemma encode_tx_bytes t :
  encode_tx t = Ok (tx_bytes t) ∧ ∃ n, decode_tx (tx_bytes t) = Ok (t, n).
Proof using BL.
  destruct (decode_encode_tx t) as (bs & n & He & Hd). unfold tx_bytes. rewrite He. eauto.
Qed.

(** The tables a restart reads hold [s]. *)
Record stores (db : SqliteStore) (s : NodeState) : Prop := {
  st_chain : t_chain_entries db = kmap BlockHash_to_string (chain_row <$> entries (chain s));
  st_blocks : t_blocks db = kmap BlockHash_to_string (block_bytes <$> blocks s);
  st_utxos : t_active_utxos db = kmap utxo_key (utxo_row <$> active_utxos s);
  st_mempool : t_mempool_transactions db = kmap Txid_to_string (tx_bytes <$> mempool s);
  st_tip : t_metadata db !! "best_tip" = BlockHash_to_string <$> best_tip (chain s)
}.

(** The coins are in the ranges of their columns. *)
Definition coins_in_range (U : UtxoSet) : Prop :=
  map_Forall (λ o u, OutPoint_wf o ∧ u64 (created_at_height u)) U.

#[global] Instance coins_in_range_dec U : Decision (coins_in_range U).
Proof. unfold coins_in_range. apply _. Defined.

Lemma load_active_utxos_table db U :
  t_active_utxos db = kmap utxo_key (utxo_row <$> U) → utxos_wf U → coins_in_range U →
  load_active_utxos db = Ok U.
Proof using.
  intros Hst Hwf Hr. unfold load_active_utxos. rewrite Hst.
  apply (load_keyed utxo_key utxo_row utxo_from_row outpoint).
  intros o u Hu. destruct (Hwf o u Hu) as [Ho Ht], (Hr o u Hu) as [? ?].
  split; [done|]. by apply utxo_from_to_row.
Qed.

Lemma Transaction_txid_wf tx id : Transaction_txid tx = Some id → Txid_wf id.
Proof using L.
  unfold Transaction_txid. destruct (Transaction_encode tx); [|done]. intros [= <-].
  apply double_sha256_length.
Qed.

Lemma header_hash_wf h : BlockHash_wf (header_hash h).
Proof using L. apply double_sha256_length. Qed.

Lemma load_mempool_table db (mp : Mempool.Mempool) :
  t_mempool_transactions db = kmap Txid_to_string (tx_bytes <$> mp) →
  map_Forall (λ id tx, Transaction_txid tx = Some id) mp → load_mempool db = Ok mp.
Proof using L BL.
  intros Hst Hid. unfold load_mempool. rewrite Hst.
  destruct (rows_of_map Txid_to_string tx_bytes mp _ (reflexivity _)) as (ps & Hps & Hperm).
  rewrite Hps.
  assert (∀ p, p ∈ ps → mempool_from_row (Txid_to_string p.1, tx_bytes p.2) = Ok p) as Hrow.
  { intros [id tx] Hin. rewrite Hperm in Hin. apply elem_of_map_to_list in Hin.
    specialize (Hid id tx Hin). cbn beta in Hid. unfold mempool_from_row. cbn [fst snd].
    rewrite parse_txid_to_string by (by eapply Transaction_txid_wf). cbn.
    destruct (encode_tx_bytes tx) as [_ [n ->]]. cbn. rewrite Hid. cbn.
    by case_bool_decide. }
  rewrite (try_fold_decode mempool_from_row _ _ ps ps)
    by (apply Forall_Forall2_diag, Forall_forall; exact Hrow).
  cbn. f_equal. unfold Mempool_from_persisted. by apply foldl_insert_pairs.
Qed.

Lemma load_best_tip_stored db s :
  t_metadata db !! "best_tip" = BlockHash_to_string <$> best_tip (chain s) →
  (∀ t, best_tip (chain s) = Some t → BlockHash_wf t) →
  load_best_tip db = Ok (best_tip (chain s)).
Proof using.
  intros Hmt Ht. unfold load_best_tip. rewrite Hmt.
  destruct (best_tip (chain s)) as [t|]; [|done]. cbn. by rewrite parse_block_hash_to_string by auto.
Qed.

#[local] Instance chain_row_le_total : Total chain_row_le.
Proof using.
  intros [h1 r1] [h2 r2]. unfold chain_row_le; cbn.
  destruct (Z.lt_trichotomy (c_height r1) (c_height r2)) as [?|[?|?]]; [auto| |auto].
  destruct (total String.le h1 h2); auto.
Qed.

#[local] Instance chain_row_le_trans : Transitive chain_row_le.
Proof using.
  intros [h1 r1] [h2 r2] [h3 r3]. unfold chain_row_le; cbn.
  intros [?|[-> ?]] [?|[? ?]]; [left; lia..|]. right. split; [done|]. by etransitivity.
Qed.

(** Blocks sorted by height have their parents first. *)
Lemma sorted_parents_first s ps :
  node_inv s → ps ≡ₚ map_to_list (entries (chain s)) →
  StronglySorted (λ p q : BlockHash * ChainIndexEntry, height p.2 ≤ height q.2) ps →
  parents_first s ps.*1.
Proof using.
  intros Hi Hperm Hsort.
  assert (∀ h e, (h, e) ∈ ps ↔ entries (chain s) !! h = Some e) as Hin.
  { intros h e. rewrite Hperm. apply elem_of_map_to_list. }
  assert (NoDup ps.*1) as Hnd by (rewrite Hperm; apply NoDup_fst_map_to_list).
  clear Hperm. assert (∃ rest, ps ++ rest = ps) as Hpre by (exists []; apply app_nil_r).
  revert Hpre. generalize ps at 1 3. intros pre.
  induction pre as [|[h e] pre IH] using rev_ind; intros [rest Hrest]; cbn; [constructor|].
  rewrite <-app_assoc in Hrest. cbn in Hrest.
  rewrite fmap_app. cbn. assert (entries (chain s) !! h = Some e) as He.
  { apply Hin. rewrite <-Hrest. apply elem_of_app. right. by left. }
  assert (h ∉ pre.*1) as Hh.
  { rewrite <-Hrest, fmap_app, NoDup_app in Hnd. destruct Hnd as (_ & Hd & _). intros Hx.
    apply (Hd h Hx). cbn. by left. }
  apply (parents_first_snoc s pre.*1 h e); [by apply IH; eexists|done|done|].
  pose proof (cw_entries _ (ni_chain s Hi) h e He) as (_ & _ & _ & Hpar).
  assert (∀ q qe, entries (chain s) !! q = Some qe → height qe < height e → q ∈ pre.*1) as Hearlier.
  { intros q qe Hq Hlt. apply Hin in Hq. rewrite <-Hrest in Hq, Hsort.
    apply elem_of_app in Hq as [Hq|Hq]; [by apply (list_elem_of_fmap_2 fst) in Hq|].
    apply StronglySorted_app_1_r, StronglySorted_inv in Hsort as [_ Hall].
    apply elem_of_cons in Hq as [[= -> ->]|Hq]; [lia|].
    rewrite Forall_forall in Hall. specialize (Hall _ Hq). cbn in Hall. lia. }
  unfold next_block. destruct (parent e) as [q|] eqn:Hp.
  - destruct Hpar as (pe & Hpe & Hheight & _). apply (Hearlier q pe Hpe). lia.
  - destruct pre as [|[h0 e0] pre']; [done|exfalso]. apply Hh.
    assert (entries (chain s) !! h0 = Some e0) as He0.
    { apply Hin. rewrite <-Hrest. by left. }
    assert (parent e0 = None) as Hp0.
    { pose proof (cw_entries _ (ni_chain s Hi) h0 e0 He0) as (_ & _ & _ & Hpar0).
      destruct (parent e0) as [q0|]; [exfalso|done]. destruct Hpar0 as (pe & Hpe & Hh0 & _).
      apply Hin in Hpe. rewrite <-Hrest in Hpe, Hsort. cbn in Hpe, Hsort.
      apply StronglySorted_inv in Hsort as [_ Hall].
      apply elem_of_cons in Hpe as [[= -> ->]|Hpe]; [lia|].
      rewrite Forall_forall in Hall. specialize (Hall _ Hpe). cbn in Hall. lia. }
    rewrite (cw_one_genesis _ (ni_chain s Hi) h h0 e e0 He He0 Hp Hp0). by left.
Qed.

Lemma load_blocks_stored db s :
  t_chain_entries db = kmap BlockHash_to_string (chain_row <$> entries (chain s)) →
  t_blocks db = kmap BlockHash_to_string (block_bytes <$> blocks s) → node_inv s → Z.of_nat (size (entries (chain s))) < 2 ^ 63 →
  ∃ hs bs, load_blocks_in_height_order db = Ok bs
    ∧ Forall2 (λ h b, blocks s !! h = Some b) hs bs ∧ parents_first s hs
    ∧ ∀ h, is_Some (entries (chain s) !! h) → h ∈ hs.
Proof using L BL.
  intros Hch Hbk Hi Hsz. unfold load_blocks_in_height_order. rewrite Hch.
  destruct (rows_of_map BlockHash_to_string chain_row (entries (chain s)) _
    (merge_sort_Permutation chain_row_le _)) as (ps & Hps & Hperm).
  pose proof (StronglySorted_merge_sort chain_row_le
    (map_to_list (kmap BlockHash_to_string (chain_row <$> entries (chain s))))) as Hsort.
  rewrite Hps in Hsort |- *.
  assert (∀ p, p ∈ ps → entries (chain s) !! p.1 = Some p.2) as Hin.
  { intros [h e] Hp. rewrite Hperm in Hp. by apply elem_of_map_to_list. }
  destruct (mapM (λ p : BlockHash * ChainIndexEntry, blocks s !! p.1) ps) as [bs|] eqn:Hbs.
  2: { apply mapM_None in Hbs. apply Exists_exists in Hbs as (p & Hp & Hn).
       destruct (proj2 (ni_blocks s Hi p.1)) as [b Hb]; [rewrite Hin by done; eauto|congruence]. }
  apply mapM_Some in Hbs. exists ps.*1, bs.
  split; [|split_and!].
  - rewrite (try_fold_decode _ _ _ ps bs); [done|].
    eapply Forall2_impl; [exact Hbs|]. intros p b Hb. unfold block_from_row. cbn [fst].
    destruct (ni_stored s Hi _ _ Hb) as (Hh & _).
    rewrite parse_block_hash_to_string by (rewrite <-Hh; apply header_hash_wf). cbn.
    rewrite Hbk, lookup_kmap by apply _. rewrite lookup_fmap, Hb. cbn.
    destruct (encode_block_bytes b) as [_ [n ->]]. done.
  - by apply Forall2_fmap_l.
  - apply sorted_parents_first; [done|done|]. clear Hbs.
    assert (∀ p, p ∈ ps → as_i64 (height p.2) = height p.2) as Hh.
    { intros p Hp. destruct (cw_entries _ (ni_chain s Hi) _ _ (Hin p Hp)) as (_ & ? & _).
      unfold as_i64. rewrite bool_decide_eq_true_2; lia. }
    clear -Hsort Hh. induction ps as [|p ps IH]; [constructor|].
    cbn in Hsort. apply StronglySorted_inv in Hsort as [Hs Hall]. constructor.
    + apply IH; [done|]. intros; apply Hh; by right.
    + apply Forall_forall. intros q Hq. rewrite Forall_fmap, Forall_forall in Hall.
      specialize (Hall q Hq). unfold chain_row_le in Hall. cbn in Hall.
      rewrite (Hh p), (Hh q) in Hall by (by constructor). lia.
  - intros h [e He]. apply list_elem_of_fmap. exists (h, e). split; [done|].
    rewrite Hperm. by apply elem_of_map_to_list.
Qed.

Lemma match_refl {K A} `{Countable K} `{EqDecision A} (m : gmap K A) :
  bool_decide (size m = size m)
  && forallb (λ p : K * A, bool_decide (m !! p.1 = Some p.2)) (map_to_list m) = true.
Proof using.
  rewrite bool_decide_eq_true_2 by done. apply forallb_forall. intros [k a] Hin.
  apply bool_decide_eq_true_2. apply elem_of_map_to_list. by apply list_elem_of_In.
Qed.

Lemma utxo_sets_match_eq (U V : UtxoSet) : utxo_sets_match U V = true → U = V.
Proof using.
  intros [Hsz Hall]%andb_prop. apply bool_decide_eq_true_1 in Hsz.
  apply map_subseteq_size_eq; [|lia]. apply map_subseteq_spec. intros o u Hu.
  rewrite forallb_forall in Hall. specialize (Hall (o, u)). cbn in Hall.
  apply (bool_decide_eq_true_1 _), Hall, list_elem_of_In. by apply elem_of_map_to_list.
Qed.

(** The load of a store whose blocks and tip are those of [s], whatever coins
    [U] and pending transactions [mp] it holds. *)
Lemma load_node_state_blocks db s U mp :
  t_chain_entries db = kmap BlockHash_to_string (chain_row <$> entries (chain s)) →
  t_blocks db = kmap BlockHash_to_string (block_bytes <$> blocks s) →
  t_metadata db !! "best_tip" = BlockHash_to_string <$> best_tip (chain s) →
  load_active_utxos db = Ok U → load_mempool db = Ok mp →
  node_inv s → tip_synced s → complete s → unique_tip s →
  Z.of_nat (size (entries (chain s))) < 2 ^ 63 →
  load_node_state db
  = (mp' ← expect (prune_invalid mp (active_utxos s));
     if negb (utxo_sets_match (active_utxos s) U) then Err RebuiltUtxoMismatch
     else if negb (mempools_match mp' mp) then Err RebuiltMempoolMismatch
     else Ok (set_mempool s mp')).
Proof using L BL.
  intros Hch Hbk Hmt HU Hmp Hi Hs Hc Hu Hsz. unfold load_node_state.
  destruct (load_blocks_stored db s Hch Hbk Hi Hsz) as (hs & bs & -> & Hbs & Hpf & Hall).
  rewrite Hmp. cbn [mbind result_bind]. rewrite (load_best_tip_stored db s Hmt).
  2: { intros t Ht. pose proof (cw_best _ (ni_chain s Hi)) as Hb. rewrite Ht in Hb.
       destruct Hb as (te & Hte & _). destruct (proj2 (ni_blocks s Hi t)) as [b Hb]; [eauto|].
       destruct (ni_stored s Hi t b Hb) as (<- & _). apply header_hash_wf. }
  cbn [mbind result_bind]. rewrite HU. cbn [mbind result_bind].
  rewrite (from_persisted_rebuilds s hs bs mp) by (done || lia).
  destruct (prune_invalid mp (active_utxos s)) as [mp'|]; [|done]. cbn.
  by rewrite bool_decide_eq_false_2 by (intros Hne; by apply Hne).
Qed.

(** A store that holds a state loads as that state. *)
Lemma load_node_state_stored db s :
  stores db s → node_inv s → tip_synced s → complete s → unique_tip s →
  coins_in_range (active_utxos s) → Z.of_nat (size (entries (chain s))) < 2 ^ 63 →
  load_node_state db = Ok s.
Proof using L BL.
  intros Hst Hi Hs Hc Hu Hr Hsz.
  rewrite (load_node_state_blocks db s (active_utxos s) (mempool s));
    [|apply Hst|apply Hst|apply Hst|..|done|done|done|done|done].
  - rewrite prune_valid by done. cbn. unfold utxo_sets_match, mempools_match.
    rewrite !match_refl. by destruct s.
  - by apply load_active_utxos_table; [apply Hst|apply active_wf|].
  - apply load_mempool_table; [apply Hst|]. intros id tx Hin. by apply (mo_tx _ _ (ni_mempool s Hi)).
Qed.

End stored.
