(* ===== verification/StoreSave.v ===== *)
(** * Correctness of the saves of sqlite_store.rs

    [save_node_state] always succeeds and leaves a store that holds the state;
    [save_accepted_block] takes a store that holds the old state to
    one that holds the new one. *)

From S2P Require Import Prelude Bytes Crypto Types State Consensus Chain Mempool NodeState NodeMining.
From S2P Require Import Restart Peers TxIndex Store StoreProofs.

Section runs.
Context `{C : Crypto} `{B : Bincode}.

Lemma bind_run {A D} (m : store_op A) (f : A → store_op D) db db1 a :
  m db = (db1, Ok a) → (m ≫= f) db = f a db1.
Proof using. intros Hm. unfold mbind, store_op_bind. by rewrite Hm. Qed.

Lemma transaction_run {A} (m : store_op A) db db1 a :
  m db = (db1, Ok a) → in_transaction m db = (db1, Ok a).
Proof using. intros Hm. unfold in_transaction. by rewrite Hm. Qed.

(** Filling a keyed table row by row, whatever the table. *)
Lemma for_each_insert {K V A} `{Countable K} (get : SqliteStore → gmap K V)
    (set : SqliteStore → gmap K V → SqliteStore) (key : A → K) (row : A → V)
    (op : A → store_op unit) l db :
  (∀ a db, a ∈ l → is_Some (get db !! key a) ∨ op a db = (set db (<[key a := row a]> (get db)), Ok ())) →
  (∀ db t, get (set db t) = t) → (∀ db t t', set (set db t) t' = set db t') →
  (∀ db, set db (get db) = db) →
  NoDup (key <$> l) → (∀ a, a ∈ l → get db !! key a = None) →
  for_each op l db = (set db (foldl (λ m a, <[key a := row a]> m) (get db) l), Ok ()).
Proof using.
  intros Hop Hgs Hss Hsg. revert db. induction l as [|a l IH]; intros db Hnd Hnew; cbn.
  - unfold mret, store_op_ret. by rewrite Hsg.
  - apply NoDup_cons in Hnd as [Ha Hnd].
    destruct (Hop a db ltac:(by left)) as [Hs|Hs]; [rewrite Hnew in Hs by (by left); by destruct Hs|].
    rewrite (bind_run _ _ _ _ _ Hs). rewrite IH; [by rewrite Hgs, Hss| |done|].
    + intros. apply Hop. by right.
    + intros a' Ha'. rewrite Hgs, lookup_insert_ne.
      * apply Hnew. by right.
      * intros Heq. apply Ha. rewrite Heq. by apply list_elem_of_fmap_2.
Qed.

(** Statements that cannot fail. *)
Lemma for_each_exec {A} (f : A → SqliteStore → SqliteStore) (op : A → store_op unit) l db :
  (∀ a db, a ∈ l → op a db = (f a db, Ok ())) →
  for_each op l db = (foldl (λ db a, f a db) db l, Ok ()).
Proof using.
  revert db. induction l as [|a l IH]; intros db Hop; cbn; [done|].
  rewrite (bind_run _ _ _ _ _ (Hop a db ltac:(by left))). apply IH. intros. apply Hop. by right.
Qed.

Lemma insert_row_new {K V} `{Countable K} (t : gmap K V) k v :
  t !! k = None → insert_row t k v = Ok (<[k := v]> t).
Proof using. intros Hk. unfold insert_row. rewrite Hk. by rewrite bool_decide_eq_false_2 by (by intros []). Qed.

End runs.

Lemma fold_rows {K K' D R A} `{Countable K} `{Countable K'} (kf : K → K') `{!Inj (=) (=) kf}
    (rowf : D → R) (m : gmap K D) (key : A → K') (row : A → R) l :
  (λ a, (key a, row a)) <$> l ≡ₚ (λ p, (kf p.1, rowf p.2)) <$> map_to_list m →
  foldl (λ t a, <[key a := row a]> t) ∅ l = (kmap kf (rowf <$> m) : gmap K' R).
Proof.
  intros Hl.
  assert ((λ a, (key a, row a)) <$> l ≡ₚ map_to_list (kmap kf (rowf <$> m) : gmap K' R)) as Hp.
  { rewrite Hl, (map_to_list_kmap kf), map_to_list_fmap, <-list_fmap_compose. done. }
  rewrite <-(foldl_insert_pairs _ _ Hp). clear. generalize (∅ : gmap K' R).
  induction l as [|a l IH]; intros t; cbn; [done|]. apply IH.
Qed.

Section saves.
Context `{C : Crypto} `{L : !CryptoLaws C} `{B : Bincode} `{BL : !BincodeLaws B}.

Lemma insert_utxos_run U db :
  t_active_utxos db = ∅ →
  for_each insert_utxo (map_to_list U) db
  = (set_active_utxos db (kmap utxo_key (utxo_row <$> U)), Ok ()).
Proof using.
  intros Hem. rewrite (for_each_insert t_active_utxos set_active_utxos (utxo_key ∘ fst) (utxo_row ∘ snd)).
  - rewrite Hem. f_equal. f_equal. by apply (fold_rows utxo_key).
  - intros p db' _. destruct (t_active_utxos db' !! utxo_key p.1) eqn:E; [left; by eexists|right].
    unfold insert_utxo, try_exec. by rewrite insert_row_new.
  - done.
  - done.
  - by intros [].
  - rewrite list_fmap_compose. apply (NoDup_fmap_2 utxo_key). apply NoDup_fst_map_to_list.
  - intros p _. by rewrite Hem, lookup_empty.
Qed.

Lemma insert_mempool_run mp db :
  t_mempool_transactions db = ∅ →
  for_each insert_mempool_row (map_to_list mp) db
  = (set_mempool_transactions db (kmap Txid_to_string (tx_bytes <$> mp)), Ok ()).
Proof using BL.
  intros Hem. rewrite (for_each_insert t_mempool_transactions set_mempool_transactions
    (Txid_to_string ∘ fst) (tx_bytes ∘ snd)).
  - rewrite Hem. f_equal. f_equal. by apply (fold_rows Txid_to_string).
  - intros p db' _. destruct (t_mempool_transactions db' !! Txid_to_string p.1) eqn:E;
      [left; by eexists|right].
    unfold insert_mempool_row, try_exec, lift, mbind, store_op_bind.
    destruct (encode_tx_bytes p.2) as [-> _]. cbn [map_err]. by rewrite insert_row_new.
  - done.
  - done.
  - by intros [].
  - rewrite list_fmap_compose. apply (NoDup_fmap_2 Txid_to_string). apply NoDup_fst_map_to_list.
  - intros p _. by rewrite Hem, lookup_empty.
Qed.

(** ** The index stays readable *)

(** Every row of the transaction index decodes. *)
Definition index_ok (db : SqliteStore) : Prop :=
  map_Forall (λ id r, is_ok (indexed_from_row (id, r)) = true) (t_transactions db).

#[global] Instance index_ok_dec db : Decision (index_ok db).
Proof. unfold index_ok. apply _. Defined.

(** What a row of the index may be built from. *)
Definition indexed_wf (i : IndexedTransaction) : Prop :=
  Txid_wf (indexed_txid i)
  ∧ match indexed_block_hash i with Some h => BlockHash_wf h | None => True end.

Lemma transaction_row_decodes i :
  indexed_wf i →
  is_ok (indexed_from_row (Txid_to_string (indexed_txid i),
           transaction_row (tx_bytes (indexed_transaction i)) i)) = true.
Proof using BL.
  intros [Hid Hh]. unfold indexed_from_row, transaction_row. cbn.
  rewrite Status_parse_as_str. cbn. rewrite parse_txid_to_string by done. cbn.
  destruct (encode_tx_bytes (indexed_transaction i)) as [_ [n ->]]. cbn.
  destruct (indexed_block_hash i) as [h|]; cbn; [|done].
  by rewrite parse_block_hash_to_string.
Qed.

Lemma load_output_ok db o : index_ok db → ∃ r, load_output db o = Ok r.
Proof using.
  intros Hdb. unfold load_output. destruct (t_transactions db !! _) as [r|] eqn:E; [|by eexists].
  specialize (Hdb _ _ E). unfold indexed_from_row in Hdb.
  destruct (decode_tx (t_transaction_bytes r)) as [p| |]; [by eexists|exfalso..];
    destruct (Status_parse (t_status r)); [|done|..]; cbn in Hdb; try done;
    destruct (in_column 0 _); cbn in Hdb; done.
Qed.

Lemma load_indexed_ok db id : index_ok db → ∃ r, load_indexed_transaction db id = Ok r.
Proof using.
  intros Hdb. unfold load_indexed_transaction.
  destruct (t_transactions db !! _) as [r|] eqn:E; [|by eexists].
  specialize (Hdb _ _ E). cbn beta in Hdb.
  destruct (indexed_from_row _) as [i| |]; [by eexists|done..].
Qed.

Lemma insert_indexed_run txs db :
  t_transactions db = ∅ → NoDup (indexed_txid <$> txs) → Forall indexed_wf txs →
  ∃ t, for_each insert_indexed_row txs db = (set_transactions db t, Ok ())
    ∧ map_Forall (λ id r, is_ok (indexed_from_row (id, r)) = true) t.
Proof using BL.
  intros Hem Hnd Hwf. eexists. split; [apply (for_each_insert t_transactions set_transactions
    (Txid_to_string ∘ indexed_txid) (λ i, transaction_row (tx_bytes (indexed_transaction i)) i))|].
  - intros i db' _. destruct (t_transactions db' !! Txid_to_string (indexed_txid i)) eqn:E;
      [left; by eexists|right].
    unfold insert_indexed_row, try_exec, lift, mbind, store_op_bind.
    destruct (encode_tx_bytes (indexed_transaction i)) as [-> _]. cbn [map_err].
    by rewrite insert_row_new.
  - done.
  - done.
  - by intros [].
  - rewrite list_fmap_compose. by apply (NoDup_fmap_2 Txid_to_string).
  - intros p _. by rewrite Hem, lookup_empty.
  - rewrite Hem. clear Hnd. assert (map_Forall (λ id r, is_ok (indexed_from_row (id, r)) = true)
      (∅ : gmap string TransactionRow)) as Hm by apply map_Forall_empty.
    revert Hm. generalize (∅ : gmap string TransactionRow).
    induction Hwf as [|i txs Hi Hwf IH]; intros t Ht; cbn; [done|].
    apply IH, map_Forall_insert_2; [by apply transaction_row_decodes|done].
Qed.

Lemma insert_keys_run edges db :
  ∃ t, for_each insert_transaction_key_row edges db = (set_transaction_keys db t, Ok ()).
Proof using.
  revert db. induction edges as [|e edges IH]; intros db; cbn.
  - exists (t_transaction_keys db). by destruct db.
  - rewrite (bind_run _ _ _ _ _ eq_refl).
    destruct (IH (set_transaction_keys db (t_transaction_keys db ++ [key_row e]))) as [t ->].
    by exists t.
Qed.

(** Blocks and entries. *)
Lemma put_blocks_run s es db :
  Forall (λ e, is_Some (get_block s (block_hash e))) es →
  for_each (λ e, b ← lift (ok_or (get_block s (block_hash e)) (MissingBlockForEntry (block_hash e)));
                 put_block b e) es db
  = (set_chain_entries (set_blocks db
       (foldl (λ t e, <[BlockHash_to_string (block_hash e)
                         := default [] (block_bytes <$> get_block s (block_hash e))]> t)
          (t_blocks db) es))
       (foldl (λ t e, <[BlockHash_to_string (block_hash e) := chain_row e]> t)
          (t_chain_entries db) es), Ok ()).
Proof using BL.
  revert db. induction es as [|e es IH]; intros db; cbn; [by destruct db|].
  intros [[b Hb] Hes]%Forall_cons. unfold mbind at 1, store_op_bind at 1.
  unfold mbind at 1, store_op_bind at 1. rewrite Hb. unfold lift at 1. cbn [ok_or].
  unfold put_block, mbind at 1, store_op_bind at 1, lift at 1.
  destruct (encode_block_bytes b) as [-> _]. cbn [map_err exec]. unfold exec at 1.
  rewrite IH by done. done.
Qed.

(** ** The transaction index *)

Lemma walk_parents_ancestry m h l fuel :
  ancestry m h l → (length l ≤ fuel)%nat →
  ∃ es, walk_parents fuel m (Some h) = Some es ∧ Forall2 (λ h e, m !! h = Some e) l es.
Proof using.
  intros Hl. revert fuel.
  induction Hl as [h e He Hp|h e p l He Hp Hl IH]; intros [|fuel] Hf; cbn in Hf; try lia; cbn;
    rewrite He, Hp.
  - exists [e]. split; [by destruct fuel|]. by constructor.
  - destruct (IH fuel ltac:(lia)) as (es & -> & Hes). exists (e :: es). split; [done|]. by constructor.
Qed.

(** The walk from the best tip ends, and lists the best chain from genesis on. *)
Lemma best_chain_entries_ancestry s :
  chain_wf (chain s) →
  ∃ es, best_chain_entries s = Some es
    ∧ match best_tip (chain s) with
      | None => es = []
      | Some t => ∃ l, ancestry (entries (chain s)) t l
          ∧ Forall2 (λ h e, entries (chain s) !! h = Some e) (reverse l) es
      end.
Proof using.
  intros Hwf. unfold best_chain_entries. pose proof (cw_best _ Hwf) as Hb.
  destruct (best_tip (chain s)) as [t|].
  - destruct Hb as (te & Hte & _).
    destruct (ancestry_exists _ t te (cw_entries _ Hwf) Hte) as (l & Hl & Hlen).
    destruct (cw_entries _ Hwf t te Hte) as (_ & Hh & _).
    destruct (walk_parents_ancestry _ t l (size (entries (chain s))) Hl ltac:(lia)) as (es & -> & Hes).
    exists (reverse es). split; [done|]. exists l. split; [done|]. by apply Forall2_reverse.
  - exists []. split; [|done]. by destruct (size (entries (chain s))).
Qed.

Definition acc_ok (acc : IndexAcc) : Prop :=
  NoDup (indexed_txid <$> acc_transactions acc)
  ∧ (∀ i, i ∈ acc_transactions acc → indexed_txid i ∈ acc_seen acc)
  ∧ Forall indexed_wf (acc_transactions acc).

Lemma index_transaction_ok acc id i :
  acc_ok acc → indexed_txid i = id → is_Some (Transaction_txid (indexed_transaction i)) →
  indexed_wf i → ∃ acc', index_transaction acc id i = Some acc' ∧ acc_ok acc'.
Proof using.
  intros (Hnd & Hs & Hwf) Hid [id' Hid'] Hi. unfold index_transaction. case_bool_decide as Hseen; [by eexists|].
  unfold append_transaction_key_edges, remember_outputs. rewrite Hid'. cbn.
  eexists. split; [done|]. split_and!; cbn.
  - rewrite fmap_app. apply NoDup_app. split_and!; [done| |apply NoDup_singleton].
    intros x (j & -> & Hj)%list_elem_of_fmap Hx%list_elem_of_singleton.
    apply Hseen. rewrite <-Hid, <-Hx. by apply Hs.
  - intros j [Hj| ->%list_elem_of_singleton]%elem_of_app; apply elem_of_union; [right; by apply Hs|left].
    by apply elem_of_singleton.
  - apply Forall_app. split; [done|]. by apply Forall_singleton.
Qed.

(** A loop that keeps an invariant and cannot panic. *)
Lemma try_fold_option {A S} (f : S → A → option S) (P : S → Prop) s l :
  P s → (∀ s a, P s → a ∈ l → ∃ s', f s a = Some s' ∧ P s') →
  ∃ s', try_fold f s l = Some s' ∧ P s'.
Proof using.
  revert s. induction l as [|a l IH]; intros s Hs Hf; cbn; [by eexists|].
  destruct (Hf s a Hs ltac:(by left)) as (s1 & -> & Hs1). cbn.
  apply IH; [done|]. intros. apply Hf; [done|by right].
Qed.

Lemma index_block_ok s acc e :
  node_inv s → acc_ok acc → ∃ acc', index_block s acc e = Some acc' ∧ acc_ok acc'.
Proof using L.
  intros Hi Hacc. unfold index_block.
  destruct (get_block s (block_hash e)) as [b|] eqn:Hb; [|by eexists].
  destruct (ni_stored s Hi _ _ Hb) as (Hh & _ & Henc & _).
  apply try_fold_option; [done|]. intros acc' [pos tx] Hacc' Hin. cbn [fst snd].
  apply elem_of_lookup_imap in Hin as (j & tx' & [= -> ->] & Hin).
  assert (is_Some (Transaction_txid tx')) as [id Hid].
  { apply Transaction_txid_is_Some. exact (Forall_lookup_1 _ _ _ _ Henc Hin). }
  rewrite Hid. cbn [mbind option_bind]. apply index_transaction_ok; [done|done|by eexists|].
  split; [by eapply Transaction_txid_wf|]. cbn. rewrite <-Hh. apply header_hash_wf.
Qed.

Lemma build_transaction_index_ok s :
  node_inv s →
  ∃ txs edges, build_transaction_index s = Some (txs, edges) ∧ NoDup (indexed_txid <$> txs)
    ∧ Forall indexed_wf txs.
Proof using L.
  intros Hi. unfold build_transaction_index.
  destruct (best_chain_entries_ancestry s (ni_chain s Hi)) as (es & -> & _). cbn [mbind option_bind].
  destruct (try_fold_option (index_block s) acc_ok
    {| acc_transactions := []; acc_edges := []; acc_seen := ∅; acc_known := ∅ |} es)
    as (acc1 & -> & Hok1).
  { split_and!; cbn; [constructor| |constructor]. intros i Hi'. by apply not_elem_of_nil in Hi'. }
  { intros acc e Hacc _. by apply index_block_ok. }
  cbn [mbind option_bind].
  match goal with |- context [try_fold index_pending acc1 ?l] =>
    destruct (try_fold_option index_pending acc_ok acc1 l) as (acc2 & -> & Hok2); [done| |] end.
  { intros acc [id tx] Hacc Hin. rewrite merge_sort_Permutation in Hin.
    apply elem_of_map_to_list in Hin. cbn.
    destruct (mo_tx _ _ (ni_mempool s Hi) id tx Hin) as (Hid & _).
    apply index_transaction_ok; [done|done|by eexists|]. split; [by eapply Transaction_txid_wf|done]. }
  eexists _, _. split; [done|]. split; apply Hok2.
Qed.

(** ** Saving *)

(** The rows written for the entries of the index. *)
Lemma entry_rows s es :
  node_inv s → es ≡ₚ (map_to_list (entries (chain s))).*2 →
  (λ e, (BlockHash_to_string (block_hash e), chain_row e)) <$> es
  ≡ₚ (λ p, (BlockHash_to_string p.1, chain_row p.2)) <$> map_to_list (entries (chain s)).
Proof using.
  intros Hi ->. rewrite <-list_fmap_compose. apply reflexive_eq, list_fmap_ext.
  intros j [h e] Hj%list_elem_of_lookup_2%elem_of_map_to_list. cbn.
  by destruct (cw_entries _ (ni_chain s Hi) h e Hj) as [-> _].
Qed.

Lemma block_rows s es :
  node_inv s → es ≡ₚ (map_to_list (entries (chain s))).*2 →
  (λ e, (BlockHash_to_string (block_hash e),
         default [] (block_bytes <$> get_block s (block_hash e)))) <$> es
  ≡ₚ (λ p, (BlockHash_to_string p.1, block_bytes p.2)) <$> map_to_list (blocks s).
Proof using.
  intros Hi Hes. assert (∀ e, e ∈ es ↔ entries (chain s) !! block_hash e = Some e) as Hin.
  { intros e. rewrite Hes, list_elem_of_fmap. split.
    - intros ([h e'] & -> & Hj%elem_of_map_to_list). cbn.
      by destruct (cw_entries _ (ni_chain s Hi) h e' Hj) as [-> _].
    - intros He. exists (block_hash e, e). split; [done|]. by apply elem_of_map_to_list. }
  apply NoDup_Permutation.
  - apply (NoDup_fmap_1 fst). rewrite <-list_fmap_compose. cbn.
    rewrite (list_fmap_compose block_hash BlockHash_to_string). apply (NoDup_fmap_2 _).
    rewrite Hes, <-list_fmap_compose.
    rewrite (list_fmap_ext _ fst); [apply NoDup_fst_map_to_list|].
    intros j [h e] Hj%list_elem_of_lookup_2%elem_of_map_to_list. cbn.
    by destruct (cw_entries _ (ni_chain s Hi) h e Hj) as [-> _].
  - apply (NoDup_fmap_1 fst). rewrite <-list_fmap_compose.
    rewrite (list_fmap_ext _ (BlockHash_to_string ∘ fst)), list_fmap_compose by done.
    apply (NoDup_fmap_2 _), NoDup_fst_map_to_list.
  - intros x. rewrite !list_elem_of_fmap. split.
    + intros (e & -> & He%Hin).
      destruct (proj2 (ni_blocks s Hi (block_hash e))) as [b Hb]; [by eexists|].
      exists (block_hash e, b). unfold get_block. rewrite Hb. split; [done|].
      by apply elem_of_map_to_list.
    + intros ([h b] & -> & Hb%elem_of_map_to_list).
      destruct (proj1 (ni_blocks s Hi h)) as [e He]; [by eexists|].
      destruct (cw_entries _ (ni_chain s Hi) h e He) as [Hh _]. subst h. exists e.
      unfold get_block. rewrite Hb. split; [done|]. by apply Hin.
Qed.

Lemma save_node_state_run s db :
  node_inv s → ∃ db', save_node_state s db = (db', Ok ()) ∧ stores db' s ∧ index_ok db'.
Proof using L BL.
  intros Hi. unfold save_node_state.
  set (es := merge_sort entry_le (map_to_list (entries (chain s))).*2).
  assert (es ≡ₚ (map_to_list (entries (chain s))).*2) as Hes by apply merge_sort_Permutation.
  assert (∀ p, p ∈ map_to_list (entries (chain s)) →
    block_hash p.2 = p.1 ∧ is_Some (blocks s !! p.1)) as Hp.
  { intros [h e] Hin%elem_of_map_to_list. split; [by apply (cw_entries _ (ni_chain s Hi))|].
    apply (ni_blocks s Hi). by eexists. }
  destruct (build_transaction_index_ok s Hi) as (txs & edges & Hidx & Hnd & Hwf).
  assert (Forall (λ e, is_Some (get_block s (block_hash e))) es) as Hblk.
  { rewrite Hes. apply Forall_fmap, Forall_forall. intros p Hin. unfold get_block. cbn.
    destruct (Hp p Hin) as [-> ?]. done. }
  set (db1 := set_mempool_transactions (set_active_utxos (set_chain_entries
    (set_blocks empty_store (kmap BlockHash_to_string (block_bytes <$> blocks s)))
    (kmap BlockHash_to_string (chain_row <$> entries (chain s))))
    (kmap utxo_key (utxo_row <$> active_utxos s)))
    (kmap Txid_to_string (tx_bytes <$> mempool s))).
  destruct (insert_indexed_run txs db1 eq_refl Hnd Hwf) as (t1 & Hrun1 & Hok1).
  destruct (insert_keys_run edges (set_transactions db1 t1)) as [t2 Hrun2].
  set (db3 := set_transaction_keys (set_transactions db1 t1) t2) in *.
  exists (match best_tip (chain s) with
          | Some t => set_metadata db3 (<["best_tip" := BlockHash_to_string t]> (t_metadata db3))
          | None => db3
          end).
  split.
  - apply transaction_run.
    erewrite bind_run; [|done]. erewrite bind_run; [|by apply put_blocks_run].
    cbn [t_blocks t_chain_entries empty_store].
    rewrite (fold_rows BlockHash_to_string block_bytes (blocks s)) by (by apply block_rows).
    rewrite (fold_rows BlockHash_to_string chain_row (entries (chain s))) by (by apply entry_rows).
    erewrite bind_run; [|by apply insert_utxos_run].
    erewrite bind_run; [|by apply insert_mempool_run].
    erewrite bind_run; [|unfold lift; by rewrite Hidx].
    erewrite bind_run; [|exact Hrun1]. erewrite bind_run; [|exact Hrun2].
    by destruct (best_tip (chain s)).
  - split; [split|]; by destruct (best_tip (chain s)).
Qed.

(** The tables other than the mempool and the index. *)
Definition same_core (db db' : SqliteStore) : Prop :=
  t_chain_entries db' = t_chain_entries db ∧ t_blocks db' = t_blocks db
  ∧ t_active_utxos db' = t_active_utxos db ∧ t_metadata db' = t_metadata db.

Lemma same_core_trans db1 db2 db3 : same_core db1 db2 → same_core db2 db3 → same_core db1 db3.
Proof using. intros (?&?&?&?) (?&?&?&?). repeat split; congruence. Qed.

Lemma result_fold_inv {E A S} (f : S → A → result E S) (P : S → Prop) s l :
  P s → (∀ s a, P s → a ∈ l → ∃ s', f s a = Ok s' ∧ P s') →
  ∃ s', try_fold f s l = Ok s' ∧ P s'.
Proof using.
  revert s. induction l as [|a l IH]; intros s Hs Hf; cbn; [by eexists|].
  destruct (Hf s a Hs ltac:(by left)) as (s1 & -> & Hs1). cbn.
  apply IH; [done|]. intros. apply Hf; [done|by right].
Qed.

(** The same with the part of the list that has been read. *)
Lemma result_fold_prefix {E A S} (f : S → A → result E S) (P : list A → S → Prop) s l :
  P [] s → (∀ l1 s a, P l1 s → a ∈ l → ∃ s', f s a = Ok s' ∧ P (l1 ++ [a]) s') →
  ∃ s', try_fold f s l = Ok s' ∧ P l s'.
Proof using.
  intros Hs Hf. enough (∀ l1 s, P l1 s → ∃ s', try_fold f s l = Ok s' ∧ P (l1 ++ l) s') as H by by apply H in Hs.
  clear s Hs. induction l as [|a l IH]; intros l1 s Hs; cbn; [rewrite app_nil_r; by eexists|].
  destruct (Hf l1 s a Hs ltac:(by left)) as (s1 & -> & Hs1). cbn.
  destruct (IH ltac:(intros; apply Hf; [done|by right]) (l1 ++ [a]) s1 Hs1) as (s2 & H2 & HP).
  exists s2. split; [done|]. by rewrite <-app_assoc in HP.
Qed.

Lemma load_txids_run db (mp : Mempool.Mempool) :
  t_mempool_transactions db = kmap Txid_to_string (tx_bytes <$> mp) →
  map_Forall (λ id _, Txid_wf id) mp →
  ∃ ids, load_persisted_mempool_txids db = Ok ids ∧ ids ≡ₚ (map_to_list mp).*1.
Proof using.
  intros Hmp Hwf. unfold load_persisted_mempool_txids. rewrite Hmp.
  assert (merge_sort String.le (map_to_list (kmap Txid_to_string (tx_bytes <$> mp))).*1
    ≡ₚ Txid_to_string <$> (map_to_list mp).*1) as Hp.
  { rewrite merge_sort_Permutation, (map_to_list_kmap Txid_to_string), map_to_list_fmap.
    by rewrite <-!list_fmap_compose. }
  apply Permutation_map_inv in Hp as (ids & -> & Hp). exists ids. split; [|done].
  apply (try_fold_decode parse_txid Txid_to_string [] ids ids).
  apply Forall_Forall2_diag, Forall_forall. intros id Hid.
  apply parse_txid_to_string. rewrite <-Hp in Hid.
  apply list_elem_of_fmap in Hid as ([id' tx] & -> & Hid%elem_of_map_to_list). by apply (Hwf id' tx).
Qed.

Lemma delete_stale_row_run mp id db :
  index_ok db →
  ∃ db', delete_stale_row mp id db = (db', Ok ()) ∧ same_core db db' ∧ index_ok db'
    ∧ t_mempool_transactions db'
      = if bool_decide (mp !! id = None) then delete (Txid_to_string id) (t_mempool_transactions db)
        else t_mempool_transactions db.
Proof using.
  intros Hok. unfold delete_stale_row. case_bool_decide as Hid.
  - exists db. rewrite bool_decide_eq_false_2 by (by rewrite eq_None_not_Some; intros Hn; apply Hn).
    by repeat split.
  - apply eq_None_not_Some in Hid. rewrite bool_decide_eq_true_2 by done.
    eexists. split; [done|]. split; [by repeat split|]. split; [|done].
    unfold index_ok; cbn. repeat case_match; [|done..]. by apply map_Forall_delete.
Qed.

Lemma delete_stale_rows_run mp ids db :
  index_ok db →
  ∃ db', for_each (delete_stale_row mp) ids db = (db', Ok ()) ∧ same_core db db' ∧ index_ok db'
    ∧ t_mempool_transactions db' = foldl (λ t k, delete k t) (t_mempool_transactions db)
        (Txid_to_string <$> filter (λ id, mp !! id = None) ids).
Proof using.
  revert db. induction ids as [|id ids IH]; intros db Hok; cbn [for_each].
  { exists db. by repeat split. }
  destruct (delete_stale_row_run mp id db Hok) as (db1 & H1 & Hc1 & Hok1 & Hm1).
  destruct (IH db1 Hok1) as (db' & Hrun & Hcore & Hok' & Hmp).
  exists db'. rewrite (bind_run _ _ _ _ _ H1). split; [done|].
  split; [by eapply same_core_trans|]. split; [done|]. rewrite Hmp, Hm1, filter_cons.
  case_bool_decide as Hid; [by rewrite decide_True|by rewrite decide_False].
Qed.

(** [delete_stale_mempool_transactions] leaves exactly the new mempool. *)
Lemma delete_stale_run db (mp mp' : Mempool.Mempool) :
  t_mempool_transactions db = kmap Txid_to_string (tx_bytes <$> mp) → mp' ⊆ mp →
  map_Forall (λ id _, Txid_wf id) mp → index_ok db →
  ∃ db', delete_stale_mempool_transactions mp' db = (db', Ok ())
    ∧ t_mempool_transactions db' = kmap Txid_to_string (tx_bytes <$> mp')
    ∧ same_core db db' ∧ index_ok db'.
Proof using.
  intros Hmp Hsub Hwf Hidx. unfold delete_stale_mempool_transactions.
  destruct (load_txids_run db mp Hmp Hwf) as (ids & Hids & Hperm).
  erewrite bind_run; [|unfold query; by rewrite Hids].
  destruct (delete_stale_rows_run mp' ids db Hidx) as (db' & Hrun & Hcore & Hok & Hmp').
  exists db'. split; [by apply transaction_run|]. split; [|done]. rewrite Hmp', Hmp.
  apply map_eq. intros k. apply option_eq. intros bs. rewrite foldl_delete_lookup.
  assert (∀ m : Mempool.Mempool, (kmap Txid_to_string (tx_bytes <$> m) : gmap string bytes) !! k = Some bs
    ↔ ∃ id tx, k = Txid_to_string id ∧ m !! id = Some tx ∧ bs = tx_bytes tx) as Hlk.
  { intros m. rewrite lookup_kmap_Some by apply _. setoid_rewrite lookup_fmap_Some. naive_solver. }
  rewrite Hlk. case_bool_decide as Hdel.
  - split; [done|]. intros (id & tx & -> & Htx & _).
    apply list_elem_of_fmap in Hdel as (id' & <-%(inj Txid_to_string) & [Hn _]%list_elem_of_filter).
    congruence.
  - rewrite Hlk. split.
    + intros (id & tx & -> & Htx & ->). exists id, tx. split_and!; [done| |done].
      destruct (mp' !! id) as [tx'|] eqn:E; [by rewrite (lookup_weaken _ _ _ _ E Hsub) in Htx|].
      exfalso. apply Hdel. apply list_elem_of_fmap. exists id. split; [done|].
      apply list_elem_of_filter. split; [done|]. rewrite Hperm. apply list_elem_of_fmap.
      exists (id, tx). split; [done|]. by apply elem_of_map_to_list.
    + intros (id & tx & -> & Htx & ->). exists id, tx. split_and!; [done| |done].
      by eapply lookup_weaken.
Qed.

(** The rows built for a confirmed block: one per transaction. *)
Lemma build_confirmed_ok db b h n :
  index_ok db → Block_encodable b → BlockHash_wf h →
  ∃ txs edges, build_confirmed_block_index db b h n = Ok (txs, edges)
    ∧ Forall indexed_wf txs
    ∧ Some ∘ indexed_txid <$> txs = Transaction_txid <$> transactions b.
Proof using L.
  intros Hdb Henc Hh. unfold build_confirmed_block_index.
  match goal with |- context [try_fold ?f ?s0 ?l] =>
    destruct (result_fold_prefix f (λ (ps : list (nat * Transaction)) s, Forall indexed_wf s.1.1
      ∧ Some ∘ indexed_txid <$> s.1.1 = Transaction_txid <$> ps.*2) s0 l)
      as ([[txs edges] known] & -> & Hwf & Hall) end.
  - by split; [constructor|].
  - intros ps [[txs edges] known] [pos tx] [Hwf Hall] Hin. cbn [fst snd] in *.
    apply elem_of_lookup_imap in Hin as (j & tx' & [= -> ->] & Hin).
    destruct (Transaction_txid_is_Some tx' (Forall_lookup_1 _ _ _ _ Henc Hin)) as [id Hid].
    unfold append_transaction_key_edges_with_fallback, remember_outputs. rewrite Hid.
    cbn [expect mbind result_bind option_bind].
    match goal with |- context [try_fold ?f edges (inputs tx')] =>
      destruct (result_fold_inv f (λ _, True) edges (inputs tx')) as (es & -> & _) end; [done| |].
    { intros es i _ _. destruct (known !! previous_output i); [by eexists|].
      destruct (load_output_ok db (previous_output i) Hdb) as [r ->]. by eexists. }
    cbn. eexists. split; [done|]. cbn. split.
    + apply Forall_app. split; [done|]. apply Forall_singleton. split; [by eapply Transaction_txid_wf|done].
    + rewrite !fmap_app, Hall. cbn. by rewrite Hid.
  - eexists _, _. split; [done|]. split; [done|]. cbn in Hall |- *. rewrite Hall. f_equal.
    clear. generalize (transactions b) as l. intros l. apply list_eq. intros k.
    rewrite list_lookup_fmap, list_lookup_imap. by destruct (l !! k).
Qed.

Lemma merge_metadata_ok db i :
  index_ok db → ∃ i', merge_confirmed_transaction_metadata db i = Ok i'
    ∧ indexed_txid i' = indexed_txid i ∧ (indexed_wf i → indexed_wf i').
Proof using.
  intros Hdb. unfold merge_confirmed_transaction_metadata.
  destruct (load_indexed_ok db (indexed_txid i) Hdb) as [[e|] ->]; by eexists.
Qed.

Lemma confirm_row_run i db :
  indexed_wf i → index_ok db →
  ∃ db', confirm_row i db = (db', Ok ()) ∧ same_core db db' ∧ index_ok db'
    ∧ t_mempool_transactions db'
      = delete (Txid_to_string (indexed_txid i)) (t_mempool_transactions db).
Proof using BL.
  intros Hwf Hdb. unfold confirm_row. erewrite bind_run; [|done].
  unfold upsert_indexed_transaction_row.
  destruct (encode_tx_bytes (indexed_transaction i)) as [He _].
  erewrite bind_run; [|erewrite bind_run; [done|unfold lift; by rewrite He]].
  eexists. split; [done|]. split; [done|]. split; [|done].
  unfold index_ok; cbn. apply map_Forall_insert_2; [by apply transaction_row_decodes|done].
Qed.

Lemma confirm_rows_run rows db :
  Forall indexed_wf rows → index_ok db →
  ∃ db', for_each confirm_row rows db = (db', Ok ()) ∧ same_core db db' ∧ index_ok db'
    ∧ t_mempool_transactions db' = foldl (λ t k, delete k t) (t_mempool_transactions db)
        ((λ i, Txid_to_string (indexed_txid i)) <$> rows).
Proof using BL.
  revert db. induction rows as [|i rows IH]; intros db Hwf Hok; cbn [for_each].
  { exists db. by repeat split. }
  apply Forall_cons in Hwf as [Hi Hwf].
  destruct (confirm_row_run i db Hi Hok) as (db1 & H1 & Hc1 & Hok1 & Hm1).
  destruct (IH db1 Hwf Hok1) as (db' & Hrun & Hcore & Hok' & Hmp).
  exists db'. rewrite (bind_run _ _ _ _ _ H1). split; [done|].
  split; [by eapply same_core_trans|]. split; [done|]. rewrite Hmp, Hm1. done.
Qed.

Lemma delete_ids_filter (ids : list Txid) (mp : Mempool.Mempool) :
  foldl (λ t k, delete k t) (kmap Txid_to_string (tx_bytes <$> mp)) (Txid_to_string <$> ids)
  = (kmap Txid_to_string (tx_bytes <$> filter (λ p : Txid * Transaction, p.1 ∉ ids) mp) : gmap string bytes).
Proof using.
  apply map_eq. intros k. apply option_eq. intros bs. rewrite foldl_delete_lookup, lookup_kmap_Some by apply _.
  setoid_rewrite lookup_fmap_Some. setoid_rewrite map_lookup_filter_Some. cbn. case_bool_decide as Hin.
  - split; [done|]. intros (id & -> & tx & _ & _ & Hn). destruct Hn.
    by apply list_elem_of_fmap in Hin as (id' & ->%(inj Txid_to_string) & ?).
  - rewrite lookup_kmap_Some by apply _. setoid_rewrite lookup_fmap_Some. split.
    + intros (id & -> & tx & Hbs & Hl). exists id. split; [done|]. exists tx. split_and!; [done..|].
      intros Hi. apply Hin, list_elem_of_fmap. by exists id.
    + intros (id & -> & tx & Hbs & Hl & _). eauto.
Qed.

(** The ids of a block's transactions, and what is pending besides them. *)
Definition block_txids (b : Block) : list Txid := omap Transaction_txid (transactions b).
Definition unconfirmed (b : Block) (mp : Mempool.Mempool) : Mempool.Mempool :=
  filter (λ p : Txid * Transaction, p.1 ∉ block_txids b) mp.

Lemma block_txids_rows b (ids : list Txid) :
  Some <$> ids = Transaction_txid <$> transactions b → ids = block_txids b.
Proof using.
  unfold block_txids. revert ids. induction (transactions b) as [|tx txs IH]; intros [|id ids] H; try done.
  cbn in H. injection H as Hid H. cbn. rewrite <-Hid. f_equal. by apply IH.
Qed.

(** Confirming a block deletes the mempool rows of its transactions. *)
Lemma save_confirmed_run b e db :
  index_ok db → Block_encodable b → BlockHash_wf (block_hash e) →
  ∃ db', save_confirmed_block_transactions b e db = (db', Ok ()) ∧ same_core db db' ∧ index_ok db'
    ∧ ∀ mp : Mempool.Mempool,
        t_mempool_transactions db = kmap Txid_to_string (tx_bytes <$> mp) →
        t_mempool_transactions db' = kmap Txid_to_string (tx_bytes <$> unconfirmed b mp).
Proof using L BL.
  intros Hdb Henc Hh. unfold save_confirmed_block_transactions.
  destruct (build_confirmed_ok db b (block_hash e) (height e) Hdb Henc Hh)
    as (txs & edges & Hb & Hwf & Hall).
  erewrite bind_run; [|unfold query; by rewrite Hb]. cbn [fst snd].
  assert (∃ ms, try_fold (λ l i, i ← merge_confirmed_transaction_metadata db i; Ok (l ++ [i])) [] txs
    = Ok ms ∧ Forall indexed_wf ms ∧ indexed_txid <$> ms = indexed_txid <$> txs) as (ms & Hms & Hmw & Hmn).
  { apply (result_fold_prefix _ (λ ps ms, Forall indexed_wf ms ∧ indexed_txid <$> ms = indexed_txid <$> ps));
      [by split; [constructor|]|].
    intros ps ms i [H1 H2] Hi. destruct (merge_metadata_ok db i Hdb) as (i' & -> & Hid & Hw). cbn.
    eexists. split; [done|]. rewrite Forall_app, Forall_singleton, !fmap_app, H2. cbn. rewrite Hid.
    split_and!; try done. apply Hw. by eapply Forall_forall in Hwf. }
  erewrite bind_run; [|unfold query; by rewrite Hms].
  destruct (confirm_rows_run ms db Hmw Hdb) as (db1 & H1 & Hc1 & Hok1 & Hm1).
  destruct (insert_keys_run edges db1) as [t Ht].
  exists (set_transaction_keys db1 t). split.
  - apply transaction_run. erewrite bind_run; [|exact H1]. exact Ht.
  - split; [done|]. split; [done|]. intros mp Hmp. cbn. rewrite Hm1, Hmp.
    replace ((λ i, Txid_to_string (indexed_txid i)) <$> ms) with (Txid_to_string <$> block_txids b).
    2: { rewrite <-(block_txids_rows b (indexed_txid <$> ms)); [by rewrite <-list_fmap_compose|].
         by rewrite Hmn, <-Hall, <-list_fmap_compose. }
    apply delete_ids_filter.
Qed.

(** ** Accepted blocks *)

(** What an accepted block changes of what is stored. *)
Lemma accept_block_delta s b s' :
  node_inv s → Block_wf b → Block_encodable b → Z.of_nat (size (entries (chain s))) < 2 ^ 64 →
  accept_block s b = (s', Ok ()) →
  let h := header_hash (header b) in
  ∃ e b', block_hash e = h ∧ entries (chain s') = <[h := e]> (entries (chain s))
    ∧ blocks s' = <[h := b']> (blocks s) ∧ mempool s' ⊆ mempool s
    ∧ (best_tip (chain s') = Some h
       ∨ active_utxos s' = active_utxos s ∧ mempool s' = mempool s)
    ∧ (blocks s !! h = None → b' = b).
Proof using L.
  intros Hi Hw He Hsz. unfold accept_block.
  destruct (insert_block (chain s) b) as [[chain' e]|ce|] eqn:Hins; [|done..].
  pose proof (insert_step s b chain' e Hi Hw He Hins) as (_ & Hh & _).
  assert (entries chain' = <[block_hash e := e]> (entries (chain s))) as Hent.
  { apply insert_block_inv in Hins as (_ & _ & Hlk & [->|(_ & -> & _)]); [|done|apply Hi|done..].
    by rewrite Hh, insert_id. }
  assert (∃ b', match blocks s !! block_hash e with
                | Some _ => blocks s
                | None => <[block_hash e := b]> (blocks s)
                end = <[block_hash e := b']> (blocks s)
                ∧ (blocks s !! block_hash e = None → b' = b)) as (b' & Hblk & Hnew).
  { destruct (blocks s !! block_hash e) as [b'|] eqn:E; [|by eexists]. exists b'. by rewrite insert_id. }
  rewrite Hblk. destruct (ensure_snapshot _ _ _ _) as [s2 r2] eqn:Hens.
  apply ensure_snapshot_frame in Hens as (Hc & Hb & Ha & Hm). cbn in *.
  destruct r2 as [[]|?|]; [|done..]. cbn zeta. rewrite <-Hh. rewrite Hc. case_bool_decide as Ht.
  - destruct (utxo_snapshots s2 !! block_hash e) as [U|]; [|done].
    destruct (prune_invalid (mempool s2) U) as [mp|] eqn:Hp; [|done]. intros [= <-].
    exists e, b'. cbn. split_and!; [done|done|done| |by left|done].
    rewrite <-Hm. by eapply prune_subseteq.
  - intros [= <-]. exists e, b'. rewrite Hc, Hb, Ha, Hm. split_and!; [done..|by right|done].
Qed.

Lemma put_block_run db b e :
  put_block b e db = (set_chain_entries
    (set_blocks db (<[BlockHash_to_string (block_hash e) := block_bytes b]> (t_blocks db)))
    (<[BlockHash_to_string (block_hash e) := chain_row e]> (t_chain_entries db)), Ok ()).
Proof using BL.
  unfold put_block. destruct (encode_block_bytes b) as [He _].
  erewrite bind_run; [|unfold lift; by rewrite He]. done.
Qed.

Lemma save_active_utxos_run U db :
  save_active_utxos U db = (set_active_utxos db (kmap utxo_key (utxo_row <$> U)), Ok ()).
Proof using.
  unfold save_active_utxos. apply transaction_run. erewrite bind_run; [|done].
  by rewrite insert_utxos_run.
Qed.

(** The block and the tip are recorded; the rest is untouched. *)
Lemma save_block_record_run db b e bt :
  ∃ db', save_block_record b e bt db = (db', Ok ())
    ∧ t_chain_entries db' = <[BlockHash_to_string (block_hash e) := chain_row e]> (t_chain_entries db)
    ∧ t_blocks db' = <[BlockHash_to_string (block_hash e) := block_bytes b]> (t_blocks db)
    ∧ t_metadata db' !! "best_tip" = BlockHash_to_string <$> bt
    ∧ t_active_utxos db' = t_active_utxos db
    ∧ t_mempool_transactions db' = t_mempool_transactions db
    ∧ t_transactions db' = t_transactions db.
Proof using BL.
  unfold save_block_record. eexists. split.
  - apply transaction_run. erewrite bind_run; [|apply put_block_run]. done.
  - cbn. split_and!; try done. destruct bt; cbn; [by rewrite lookup_insert_eq|by rewrite lookup_delete_eq].
Qed.

(** No transaction of the stored block [h] is pending. *)
Definition none_pending (s : NodeState) (h : BlockHash) : Prop :=
  ∀ b, blocks s !! h = Some b →
  Forall (λ tx, ∀ id, Transaction_txid tx = Some id → mempool s !! id = None) (transactions b).

Lemma none_pending_unconfirmed s h b :
  blocks s !! h = Some b → none_pending s h ↔ unconfirmed b (mempool s) = mempool s.
Proof using.
  intros Hb. unfold none_pending, unconfirmed, block_txids. split.
  - intros Hn. apply map_filter_id. intros id tx Htx (t & Ht & Hid)%list_elem_of_omap. cbn in *.
    specialize (Hn b Hb). rewrite Forall_forall in Hn. by rewrite (Hn t Ht id Hid) in Htx.
  - intros Heq b' Hb'. simplify_eq. apply Forall_forall. intros t Ht id Hid. rewrite <-Heq.
    apply map_lookup_filter_None. right. intros tx _ Hn. apply Hn. cbn. apply list_elem_of_omap. eauto.
Qed.

(** [h] is a block of the best chain. *)
Definition on_best_chain (s : NodeState) (h : BlockHash) : Prop :=
  ∃ t l, best_tip (chain s) = Some t ∧ ancestry (entries (chain s)) t l ∧ h ∈ l.

Lemma best_chain_contains_spec s h :
  chain_wf (chain s) → ∃ v, best_chain_contains s h = Some v ∧ (v = true ↔ on_best_chain s h).
Proof using.
  intros Hwf. destruct (best_chain_entries_ancestry s Hwf) as (es & Hes & Hbest).
  unfold best_chain_contains. rewrite Hes. eexists. split; [done|]. cbn beta. rewrite existsb_exists.
  unfold on_best_chain. destruct (best_tip (chain s)) as [t|].
  2: { rewrite Hbest. split; [by intros (? & [] & _)|by intros (? & ? & ? & _)]. }
  destruct Hbest as (l & Hl & Hf). split.
  - intros (e & He%list_elem_of_In & Hh%bool_decide_eq_true_1). exists t, l. split_and!; [done..|].
    apply list_elem_of_lookup in He as [j Hj]. destruct (Forall2_lookup_r _ _ _ _ _ Hf Hj) as (x & Hx & Hxe).
    apply (cw_entries _ Hwf) in Hxe as [Hxe _]. rewrite Hh in Hxe. subst x.
    apply elem_of_reverse. by eapply list_elem_of_lookup_2.
  - intros (t' & l' & [= <-] & Hl' & Hh). assert (l' = l) as -> by by eapply ancestry_det.
    apply elem_of_reverse, list_elem_of_lookup in Hh as [j Hj].
    destruct (Forall2_lookup_l _ _ _ _ _ Hf Hj) as (e & Hje & He). exists e.
    split; [by apply list_elem_of_In; eapply list_elem_of_lookup_2|].
    apply (cw_entries _ Hwf) in He as [-> _]. by apply bool_decide_eq_true_2.
Qed.

Lemma tip_on_best_chain s h :
  chain_wf (chain s) → best_tip (chain s) = Some h → on_best_chain s h.
Proof using.
  intros Hwf Hh. pose proof (cw_best _ Hwf) as Hb. rewrite Hh in Hb. destruct Hb as (e & He & _).
  destruct (ancestry_exists _ h e (cw_entries _ Hwf) He) as (l & Hl & _).
  exists h, l. split_and!; [done..|]. inversion Hl; by left.
Qed.

(** A new block is on the best chain only as its tip. *)
Lemma new_side_block s b s' :
  let h := header_hash (header b) in
  node_inv s → Block_wf b → Block_encodable b → Z.of_nat (size (entries (chain s))) < 2 ^ 64 →
  accept_block s b = (s', Ok ()) → blocks s !! h = None → best_tip (chain s') ≠ Some h →
  ¬ on_best_chain s' h.
Proof using L.
  intros h Hi Hw He Hsz Ha Hnew Ht (t & l & Hbt & Hl & Hin).
  destruct (accept_block_spec s b s' _ Hi Hw He Hsz Ha) as (_ & [e Hins] & _).
  assert (entries (chain s) !! h = None) as Hno.
  { apply eq_None_not_Some. rewrite <-(ni_blocks s Hi). rewrite Hnew. by intros []. }
  destruct (insert_block_inv _ _ _ _ (ni_chain s Hi) Hw Hins)
    as (_ & _ & Hlk & [Hc|(_ & Hc & w & _ & _ & Hh)]); fold h in Hlk; [rewrite Hc in Hlk; congruence|].
  fold h in Hh. assert (best_tip (chain s) = Some t ∧ is_Some (entries (chain s) !! t)) as [Hbt0 [te Hte]].
  { rewrite Hc in Hbt, Ht. cbn in Hbt, Ht. unfold tip_after in Hbt, Ht. rewrite Hh in Hbt, Ht.
    destruct (best_tip (chain s)) as [t0|]; [|done]. cbn in Hbt, Ht.
    destruct (entries (chain s) !! t0) as [te|] eqn:Hte; [|done]. case_bool_decide; [done|].
    injection Hbt as ->. rewrite Hte. by split. }
  destruct (ancestry_exists _ t te (cw_entries _ (ni_chain s Hi)) Hte) as (l0 & Hl0 & _).
  pose proof (ancestry_insert _ h e t l0 Hno Hl0) as Hl1.
  rewrite Hc in Hl. cbn in Hl. rewrite Hh in Hl. rewrite (ancestry_det _ _ _ _ Hl Hl1) in Hin.
  apply (ancestry_elem _ _ _ _ Hl0) in Hin as [x Hx]. congruence.
Qed.

(** The database with the mempool table of a full save. *)
Definition with_mempool_of (db : SqliteStore) (s : NodeState) : SqliteStore :=
  set_mempool_transactions db (kmap Txid_to_string (tx_bytes <$> mempool s)).

Lemma stores_with_mempool db s mp : stores db (set_mempool s mp) → stores (with_mempool_of db s) s.
Proof using. by intros []. Qed.

(** What the incremental save of the block [h] leaves in the mempool table. *)
Definition saved_mempool (s : NodeState) (h : BlockHash) (mp : Mempool.Mempool) : Prop :=
  (on_best_chain s h → ∀ b, blocks s !! h = Some b → mp = unconfirmed b (mempool s))
  ∧ (¬ on_best_chain s h → mp = mempool s).

Lemma save_accepted_block_run db s b s' :
  node_inv s → Block_wf b → Block_encodable b → Z.of_nat (size (entries (chain s))) < 2 ^ 64 →
  stores db s → index_ok db → accept_block s b = (s', Ok ()) →
  ∃ db' mp, save_accepted_block s' (header_hash (header b)) db = (db', Ok ())
    ∧ saved_mempool s' (header_hash (header b)) mp ∧ stores db' (set_mempool s' mp) ∧ index_ok db'.
Proof using L BL.
  intros Hi Hw Henc Hsz Hst Hidx Ha. set (h := header_hash (header b)) in *.
  destruct (accept_block_delta s b s' Hi Hw Henc Hsz Ha) as (e & b' & Heh & Hent & Hblk & Hsub & Hact & _).
  fold h in Heh, Hent, Hblk, Hact.
  pose proof (accept_block_spec s b s' _ Hi Hw Henc Hsz Ha) as (Hi' & _).
  assert (blocks s' !! h = Some b') as Hb' by (by rewrite Hblk, lookup_insert_eq).
  unfold save_accepted_block.
  erewrite bind_run; [|unfold lift, get_block; by rewrite Hb'].
  erewrite bind_run; [|unfold lift; by rewrite Hent, lookup_insert_eq].
  destruct (save_block_record_run db b' e (best_tip (chain s'))) as
    (db1 & Hrec & Hc1 & Hb1 & Ht1 & Hu1 & Hm1 & Hi1).
  erewrite bind_run; [|exact Hrec].
  assert (t_chain_entries db1 = kmap BlockHash_to_string (chain_row <$> entries (chain s'))) as Hc1'.
  { rewrite Hc1, Heh, Hent, fmap_insert, (kmap_insert BlockHash_to_string). by rewrite (st_chain db s Hst). }
  assert (t_blocks db1 = kmap BlockHash_to_string (block_bytes <$> blocks s')) as Hb1'.
  { rewrite Hb1, Heh, Hblk, fmap_insert, (kmap_insert BlockHash_to_string). by rewrite (st_blocks db s Hst). }
  assert (index_ok db1) as Hidx1 by (unfold index_ok; by rewrite Hi1).
  destruct (best_chain_contains_spec s' h (ni_chain s' Hi')) as (v & Hv & Hon).
  erewrite bind_run; [|unfold lift; by rewrite Hv]. destruct v; cbn [negb].
  2: { assert (¬ on_best_chain s' h) as Hoff by (by rewrite <-Hon).
       exists db1, (mempool s'). split; [done|]. split; [by split|]. split; [|done].
       destruct Hact as [Htip|[Hact Hmp]]; [by destruct (Hoff (tip_on_best_chain s' h (ni_chain s' Hi') Htip))|].
       split; [done|done| | |done]; cbn.
       - by rewrite Hu1, Hact, (st_utxos db s Hst).
       - by rewrite Hm1, Hmp, (st_mempool db s Hst). }
  erewrite bind_run; [|apply save_active_utxos_run].
  set (db2 := set_active_utxos db1 _).
  destruct (delete_stale_run db2 (mempool s) (mempool s')) as (db3 & Hdel & Hm3 & Hc3 & Hidx3);
    [by cbn; rewrite Hm1, (st_mempool db s Hst)|done| |done|].
  { intros id tx Htx. eapply Transaction_txid_wf. by apply (mo_tx _ _ (ni_mempool s Hi) id tx). }
  erewrite bind_run; [|exact Hdel].
  destruct (ni_stored s' Hi' h b' Hb') as (_ & _ & Henc' & _).
  destruct (save_confirmed_run b' e db3 Hidx3 Henc') as (db4 & Hcf & Hc4 & Hidx4 & Hm4);
    [rewrite Heh; apply header_hash_wf|].
  exists db4, (unconfirmed b' (mempool s')). split; [done|].
  destruct (same_core_trans _ _ _ Hc3 Hc4) as (Hx1 & Hx2 & Hx3 & Hx4). split; [split|split; [|done]].
  - intros _ b0 Hb0. congruence.
  - intros Hoff. by destruct Hoff; apply Hon.
  - split; cbn; [by rewrite Hx1|by rewrite Hx2|by rewrite Hx3|by apply Hm4|by rewrite Hx4].
Qed.

(** The save covers the whole state if nothing of a block of the best chain is pending. *)
Lemma saved_all s h mp b :
  blocks s !! h = Some b → chain_wf (chain s) → saved_mempool s h mp →
  mp = mempool s ↔ (on_best_chain s h → none_pending s h).
Proof using.
  intros Hb Hwf [Hon Hoff]. rewrite (none_pending_unconfirmed s h b Hb).
  destruct (best_chain_contains_spec s h Hwf) as (v & _ & Hv).
  destruct v.
  - assert (on_best_chain s h) as Ho by by apply Hv. rewrite (Hon Ho b Hb). tauto.
  - assert (¬ on_best_chain s h) as Ho by by rewrite <-Hv. rewrite (Hoff Ho). tauto.
Qed.

Lemma saved_mempool_sub s h mp b :
  blocks s !! h = Some b → chain_wf (chain s) → saved_mempool s h mp → mp ⊆ mempool s.
Proof using.
  intros Hb Hwf [Hon Hoff]. destruct (best_chain_contains_spec s h Hwf) as (v & _ & Hv). destruct v.
  - rewrite (Hon (proj1 Hv eq_refl) b Hb). apply map_filter_subseteq.
  - by rewrite Hoff by by rewrite <-Hv.
Qed.

(** Rewriting the mempool and the index completes a save. *)
Lemma save_mempool_state_run s db :
  node_inv s → stores (with_mempool_of db s) s →
  ∃ db', save_mempool_state s db = (db', Ok ()) ∧ stores db' s ∧ index_ok db'.
Proof using L BL.
  intros Hi Hst. destruct (build_transaction_index_ok s Hi) as (txs & edges & Hidx & Hnd & Hwf).
  set (db1 := with_mempool_of db s).
  assert (save_mempool (mempool s) db = (db1, Ok ())) as Hmp.
  { apply transaction_run. erewrite bind_run; [|done]. by rewrite insert_mempool_run. }
  destruct (insert_indexed_run txs (set_transaction_keys (set_transactions db1 ∅) []) eq_refl Hnd Hwf)
    as (t1 & Hrun1 & Hok1).
  match type of Hrun1 with _ = (?x, _) => destruct (insert_keys_run edges x) as [t2 Hrun2] end.
  eexists. split; [|split].
  - unfold save_mempool_state. erewrite bind_run; [|unfold lift; by rewrite Hidx].
    erewrite bind_run; [|exact Hmp]. apply transaction_run. erewrite bind_run; [|done].
    erewrite bind_run; [|exact Hrun1]. exact Hrun2.
  - by destruct Hst.
  - done.
Qed.

End saves.

(** ** Theorems *)

Section claims.
Context `{C : Crypto} `{L : !CryptoLaws C} `{B : Bincode} `{BL : !BincodeLaws B}.

(** C31: Full snapshot round trip: saving any node state over any database
    succeeds, and loading the database again gives back exactly
    the state that was saved (chain index, best tip, blocks, every cached coin set, active coins,
    mempool), provided every indexed block has been applied and no other block ties with the
    best tip. *)
Theorem save_load_roundtrip (s : NodeState) (db : SqliteStore) :
  node_inv s → tip_synced s → complete s → unique_tip s →
  coins_in_range (active_utxos s) → Z.of_nat (size (entries (chain s))) < 2 ^ 63 →
  ∃ db', save_node_state s db = (db', Ok ()) ∧ load_node_state db' = Ok s.
Proof using L BL.
  intros Hi Hs Hc Hu Hr Hsz. destruct (save_node_state_run s db Hi) as (db' & Hrun & Hst & _).
  exists db'. split; [done|]. by apply load_node_state_stored.
Qed.

(** C32: Incremental save of a block: on a database that holds the state
    before the block, [save_accepted_block] succeeds, and the block, chain and coin tables and the tip are
    exactly those a full snapshot of the new state writes.  So is the mempool table, less the
    transactions of the block itself if the block is on the best chain: the database holds the new
    state if and only if the block is on a side branch or none of its transactions is still pending. *)
Theorem save_accepted_block_correct (db : SqliteStore) (s : NodeState) (b : Block) (s' : NodeState) :
  let h := header_hash (header b) in
  node_inv s → Block_wf b → Block_encodable b → Z.of_nat (size (entries (chain s))) < 2 ^ 64 →
  stores db s → index_ok db → accept_block s b = (s', Ok ()) →
  ∃ db' full b', save_accepted_block s' h db = (db', Ok ())
    ∧ save_node_state s' db = (full, Ok ())
    ∧ index_ok db' ∧ get_block s' h = Some b'
    ∧ t_chain_entries db' = t_chain_entries full ∧ t_blocks db' = t_blocks full
    ∧ t_active_utxos db' = t_active_utxos full
    ∧ load_best_tip db' = load_best_tip full
    ∧ (on_best_chain s' h →
       load_mempool db' = Ok (filter (λ p : Txid * Transaction, p.1 ∉ block_txids b') (mempool s')))
    ∧ (¬ on_best_chain s' h → t_mempool_transactions db' = t_mempool_transactions full)
    ∧ (stores db' s' ↔ (on_best_chain s' h → none_pending s' h)).
Proof using L BL.
  intros h Hi Hw He Hsz Hst Hidx Ha.
  destruct (save_accepted_block_run db s b s' Hi Hw He Hsz Hst Hidx Ha) as (db' & mp & Hrun & Hmp & Hst' & Hidx').
  destruct (accept_block_spec s b s' _ Hi Hw He Hsz Ha) as (Hi' & _).
  destruct (accept_block_delta s b s' Hi Hw He Hsz Ha) as (e & b' & _ & _ & Hblk & _). fold h in Hblk, Hrun, Hmp.
  assert (blocks s' !! h = Some b') as Hb' by (by rewrite Hblk, lookup_insert_eq).
  destruct (save_node_state_run s' db Hi') as (full & Hfull & Hsf & _).
  exists db', full, b'. destruct Hst' as [H1 H2 H3 H4 H5], Hsf as [F1 F2 F3 F4 F5]. cbn in *.
  assert (map_Forall (λ id tx, Transaction_txid tx = Some id) (mempool s')) as Hkeys.
  { intros id tx Htx. by apply (mo_tx _ _ (ni_mempool s' Hi')). }
  assert (map_Forall (λ id tx, Transaction_txid tx = Some id) mp) as Hkeys'.
  { intros id tx Htx. eapply Hkeys, lookup_weaken; [exact Htx|].
    by apply (saved_mempool_sub s' h mp b' Hb' (ni_chain s' Hi')). }
  split_and!; try done; try congruence.
  - unfold load_best_tip. congruence.
  - intros Hon. rewrite (proj1 Hmp Hon b' Hb') in H4, Hkeys'. by apply load_mempool_table.
  - intros Hoff. rewrite (proj2 Hmp Hoff) in H4. congruence.
  - rewrite <-(saved_all s' h mp b' Hb' (ni_chain s' Hi') Hmp). split.
    + intros [_ _ _ G4 _]. apply load_mempool_table in G4, H4; [congruence|done..].
    + intros ->. by split.
Qed.

(** Incremental save of a transaction: [save_mempool_transaction] always succeeds and adds exactly that
    transaction to the stored mempool; the store then holds the node's state if and only if the
    admission displaced no pending transaction: a replaced or evicted one stays stored. *)
Theorem save_mempool_transaction_correct (db : SqliteStore) (s : NodeState) (tx : Transaction)
    (s' : NodeState) (id : Txid) :
  node_inv s → Transaction_wf tx → encodable true tx → stores db s → index_ok db →
  submit_transaction s tx = (s', Ok id) →
  ∃ db', save_mempool_transaction tx db = (db', Ok ()) ∧ index_ok db'
    ∧ load_mempool db' = Ok (<[id := tx]> (mempool s))
    ∧ (stores db' s' ↔ mempool s' = <[id := tx]> (mempool s)).
Proof using L BL.
  intros Hi Hw He Hst Hidx Hsub.
  assert (Transaction_txid tx = Some id ∧ chain s' = chain s ∧ active_utxos s' = active_utxos s
          ∧ blocks s' = blocks s) as (Hid & Hch & Hac & Hbl).
  { unfold submit_transaction in Hsub. destruct (Transaction_txid_is_Some tx He) as [i Hi'].
    pose proof (submit_cases _ (active_wf s Hi) _ tx i (ni_mempool s Hi) Hw He Hi') as Hc.
    destruct (submit _ _ tx) as [[mp i']|e|]; [|done..]. injection Hsub as <- <-.
    by destruct Hc as (-> & _). }
  assert (map_Forall (λ id tx, Transaction_txid tx = Some id) (<[id := tx]> (mempool s))) as Hkeys.
  { apply map_Forall_insert_2; [done|]. intros i t Ht. by apply (mo_tx _ _ (ni_mempool s Hi)). }
  unfold save_mempool_transaction. erewrite bind_run; [|unfold lift; by rewrite Hid].
  destruct (encode_tx_bytes tx) as [Hbs _]. erewrite bind_run; [|unfold lift; by rewrite Hbs].
  assert (∃ edges, build_transaction_key_edges_for_persisted_context db tx = Ok edges) as [edges Hed].
  { unfold build_transaction_key_edges_for_persisted_context. rewrite Hid. cbn.
    match goal with |- context [try_fold ?f [] (inputs tx)] =>
      destruct (result_fold_inv f (λ _, True) [] (inputs tx)) as (es & -> & _) end; [done| |by eexists].
    intros es i _ _. destruct (load_output_ok db (previous_output i) Hidx) as [r ->]. by eexists. }
  erewrite bind_run; [|unfold query; by rewrite Hed].
  set (db1 := set_transaction_keys (set_transactions (set_mempool_transactions db
    (<[Txid_to_string id := tx_bytes tx]> (t_mempool_transactions db)))
    (<[Txid_to_string id := transaction_row (tx_bytes tx) (mempool_row id tx)]> (t_transactions db)))
    (filter (λ r, k_txid r ≠ Txid_to_string id) (t_transaction_keys db))).
  destruct (insert_keys_run edges db1) as [t Ht].
  assert (t_mempool_transactions db1 = kmap Txid_to_string (tx_bytes <$> <[id := tx]> (mempool s))) as Hmp.
  { cbn. by rewrite fmap_insert, (kmap_insert Txid_to_string), (st_mempool db s Hst). }
  exists (set_transaction_keys db1 t). split.
  { apply transaction_run. erewrite bind_run; [|done].
    erewrite bind_run; [|unfold upsert_indexed_transaction_row; erewrite bind_run;
      [done|unfold lift; cbn; by rewrite Hbs]].
    erewrite bind_run; [|done]. exact Ht. }
  assert (load_mempool (set_transaction_keys db1 t) = Ok (<[id := tx]> (mempool s))) as Hload
    by (by apply load_mempool_table).
  split; [|split; [done|split]].
  - unfold index_ok; cbn. apply map_Forall_insert_2; [|done].
    apply (transaction_row_decodes (mempool_row id tx)).
    split; [by eapply Transaction_txid_wf|done].
  - intros [_ _ _ Hm _]. apply (load_mempool_table _ (mempool s')) in Hm; [congruence|].
    apply submit_transaction_inv in Hsub as [Hi' _]; [|done..].
    intros i tx' Htx. by apply (mo_tx _ _ (ni_mempool s' Hi')).
  - intros Heq. destruct Hst as [H1 H2 H3 H4 H5].
    split; rewrite ?Hch, ?Hbl, ?Hac, ?Heq; [exact H1|exact H2|exact H3|exact Hmp|exact H5].
Qed.

(** The block save is not atomic: its first commit already moves the stored tip,
    the stored coins follow in a later one.  If the process stops in between, the database
    cannot be loaded again ([RebuiltUtxoMismatch]). *)
Theorem interrupted_save_refuses_restart (db : SqliteStore) (s : NodeState) (b : Block)
    (s' : NodeState) (e : ChainIndexEntry) (b' : Block) :
  node_inv s → Block_wf b → Block_encodable b → Z.of_nat (size (entries (chain s))) < 2 ^ 62 →
  stores db s → coins_in_range (active_utxos s) → accept_block s b = (s', Ok ()) →
  entries (chain s') !! header_hash (header b) = Some e →
  blocks s' !! header_hash (header b) = Some b' →
  tip_synced s' → complete s' → unique_tip s' → active_utxos s' ≠ active_utxos s →
  ∃ db1, save_block_record b' e (best_tip (chain s')) db = (db1, Ok ())
    ∧ load_node_state db1 = Err RebuiltUtxoMismatch.
Proof using L BL.
  intros Hi Hw Henc Hsz Hst Hr Ha He Hb' Hs Hc Hu Hne.
  pose proof (accept_block_spec s b s' _ Hi Hw Henc ltac:(lia) Ha) as (Hi' & _).
  pose proof (accept_block_size s b s' _ Hi Hw Henc ltac:(lia) Ha) as Hsz'.
  destruct (accept_block_delta s b s' Hi Hw Henc ltac:(lia) Ha) as (e' & b'' & Heh & Hent & Hblk & _).
  cbn zeta in *. rewrite Hent, lookup_insert_eq in He. rewrite Hblk, lookup_insert_eq in Hb'.
  simplify_eq.
  destruct (save_block_record_run db b' e (best_tip (chain s'))) as
    (db1 & Hrec & Hc1 & Hb1 & Ht1 & Hu1 & Hm1 & _).
  exists db1. split; [done|].
  destruct (prune_invalid_spec _ (active_utxos s') (mempool s) (active_wf s' Hi') (ni_mempool s Hi))
    as (mp' & Hpr & _).
  rewrite (load_node_state_blocks db1 s' (active_utxos s) (mempool s)).
  - rewrite Hpr. cbn. destruct (utxo_sets_match _ _) eqn:E; [|done].
    by apply utxo_sets_match_eq in E.
  - rewrite Hc1, Heh, Hent, fmap_insert, (kmap_insert BlockHash_to_string). by rewrite (st_chain db s Hst).
  - rewrite Hb1, Heh, Hblk, fmap_insert, (kmap_insert BlockHash_to_string). by rewrite (st_blocks db s Hst).
  - done.
  - apply load_active_utxos_table; [by rewrite Hu1, (st_utxos db s Hst)|by apply active_wf|done].
  - apply load_mempool_table; [by rewrite Hm1, (st_mempool db s Hst)|].
    intros id tx Htx. by apply (mo_tx _ _ (ni_mempool s Hi)).
  - done.
  - done.
  - done.
  - done.
  - lia.
Qed.

(** A stored peer record comes back field for field (its integers survive the
    signed columns), and saving it touches no other address. *)
Theorem save_peer_roundtrip (p : StoredPeer) (db : SqliteStore) :
  StoredPeer_wf p →
  ∃ db', save_peer p db = (db', Ok ()) ∧ load_peer db' (peer_addr p) = Ok (Some p)
    ∧ ∀ a, a ≠ peer_addr p → load_peer db' a = load_peer db a.
Proof using.
  intros Hp. exists (set_peers db (<[peer_addr p := peer_row p]> (t_peers db))).
  split; [done|]. unfold load_peer. cbn [t_peers set_peers]. split.
  - rewrite lookup_insert_eq. by rewrite stored_peer_from_to_row.
  - intros a Ha. by rewrite lookup_insert_ne.
Qed.

End claims.

(** ** Witnesses *)

Module DemoStore.
#[local] Existing Instance Toy.crypto.
#[local] Existing Instance Toy.laws.

Definition bincode : Bincode := {|
  EncodeError := unit;
  DecodeError := unit;
  encode_block := λ b, Ok (Digits.print (encode b));
  decode_block := λ bs, ok_or ((λ b, (b, length bs)) <$> decode (Digits.parse bs)) ();
  encode_tx := λ t, Ok (Digits.print (encode t));
  decode_tx := λ bs, ok_or ((λ t, (t, length bs)) <$> decode (Digits.parse bs)) ()
|}.

Lemma bincode_laws : BincodeLaws bincode.
Proof. split; intros a; cbn; eexists _, _; (split; [done|]); by rewrite Digits.byte_parse_print, decode_encode. Qed.

#[local] Existing Instance bincode.
#[local] Existing Instance bincode_laws.

(** The database that holds the state with the genesis block. *)
Definition db1 : SqliteStore := (save_node_state DemoNode.s1 empty_store).1.

Lemma db1_stores : stores db1 DemoNode.s1 ∧ index_ok db1.
Proof.
  unfold db1. destruct (save_node_state_run DemoNode.s1 empty_store (proj1 DemoNode.inv1))
    as (db & -> & H). exact H.
Qed.

Definition heavier (s : NodeState) (h : BlockHash) (e : ChainIndexEntry) : bool :=
  match best_tip (chain s) with
  | Some t => bool_decide (h = t)
      || match entries (chain s) !! t with
         | Some te => bool_decide (cumulative_work e < cumulative_work te)
         | None => false
         end
  | None => true
  end.

Lemma heavier_unique s :
  map_Forall (λ h e, heavier s h e = true) (entries (chain s)) → unique_tip s.
Proof.
  intros H. unfold unique_tip. unfold heavier in H. destruct (best_tip (chain s)) as [t|]; [|done].
  intros h e He. specialize (H h e He). cbn beta in H. apply orb_prop in H as [H|H].
  - left. by apply bool_decide_eq_true_1 in H.
  - right. destruct (entries (chain s) !! t) as [te|]; [|done]. exists te.
    split; [done|]. by apply bool_decide_eq_true_1 in H.
Qed.

Definition applied (s : NodeState) (h : BlockHash) : bool :=
  bool_decide (is_Some (utxo_snapshots s !! h)).

Lemma applied_complete s :
  map_Forall (λ h _, applied s h = true) (entries (chain s)) → complete s.
Proof. intros H h e He. by apply H, bool_decide_eq_true_1 in He. Qed.

Lemma s1_complete : complete DemoNode.s1 ∧ unique_tip DemoNode.s1.
Proof. split; [apply applied_complete|apply heavier_unique]; vm_decide. Qed.

Definition s2 : NodeState := (accept_block DemoNode.s1 DemoBlocks.block1).1.
Example accept2 : accept_block DemoNode.s1 DemoBlocks.block1 = (s2, Ok ()).
Proof. unfold s2. apply DemoNode.run_pair. vm_decide. Qed.

Lemma s2_synced : tip_synced s2.
Proof.
  destruct (accept_block_spec DemoNode.s1 DemoBlocks.block1 s2 (Ok ()) (proj1 DemoNode.inv1)
    ltac:(vm_decide) ltac:(vm_decide) ltac:(vm_decide) accept2) as (_ & _ & _ & H).
  apply H, DemoNode.inv1.
Qed.

Lemma s2_complete : complete s2.
Proof. apply applied_complete. vm_decide. Qed.

Lemma s2_unique : unique_tip s2.
Proof. apply heavier_unique. vm_decide. Qed.

Lemma not_pending_dec (s : NodeState) (h : BlockHash) :
  match blocks s !! h with
  | Some b => forallb (λ tx, match Transaction_txid tx with
                             | Some id => bool_decide (mempool s !! id = None)
                             | None => true
                             end) (transactions b)
  | None => true
  end = true →
  ∀ b, blocks s !! h = Some b →
    Forall (λ tx, ∀ id, Transaction_txid tx = Some id → mempool s !! id = None)
      (transactions b).
Proof.
  intros H b Hb. rewrite Hb in H. rewrite forallb_forall in H. apply Forall_forall.
  intros tx Htx id Hid. specialize (H tx (proj1 (list_elem_of_In _ _) Htx)). rewrite Hid in H.
  by apply bool_decide_eq_true_1 in H.
Qed.

Lemma s2_not_pending b :
  blocks s2 !! header_hash (header DemoBlocks.block1) = Some b →
  Forall (λ tx, ∀ id, Transaction_txid tx = Some id → mempool s2 !! id = None) (transactions b).
Proof. apply not_pending_dec. vm_compute. reflexivity. Qed.

Lemma s2_indexed : entries (chain s2) !! header_hash (header DemoBlocks.block1) ≠ None.
Proof. vm_decide. Qed.
Lemma s2_stored : blocks s2 !! header_hash (header DemoBlocks.block1) ≠ None.
Proof. vm_decide. Qed.

(** Two children of the genesis block with equal work; the one whose hash is greater as
    text arrives first. *)
Definition sibling (k : Z) : Block :=
  DemoBlocks.search 64 (DemoBlocks.unsolved (header_hash (header DemoBlocks.genesis)) 3
    [DemoBlocks.reward 50 k]).
Definition first_child : Block := Eval vm_compute in sibling 2.
Definition second_child : Block := Eval vm_compute in sibling 1.
Definition t2 : NodeState := (accept_block DemoNode.s1 first_child).1.
Definition t3 : NodeState := (accept_block t2 second_child).1.

Lemma t3_reach : reach clean_step 3 t3.
Proof.
  apply (reach_step _ 2 t2).
  - eapply reach_step; [exact DemoNode.node_reach1|].
    eapply (cs_accept _ first_child); [vm_decide|vm_decide|].
    unfold t2. apply DemoNode.run_pair. vm_decide.
  - eapply (cs_accept _ second_child); [vm_decide|vm_decide|].
    unfold t3. apply DemoNode.run_pair. vm_decide.
Qed.

Definition t3_db : SqliteStore := (save_node_state t3 empty_store).1.

(** The error of loading a database, if it is a tip mismatch. *)
Definition tip_mismatch (db : SqliteStore) : option (option BlockHash * option BlockHash) :=
  match load_node_state db with
  | Err (RebuiltBestTipMismatch rebuilt persisted) => Some (rebuilt, persisted)
  | _ => None
  end.

End DemoStore.

(** Ties are resolved by arrival in memory and by hash on restart: a node that
    saw only valid blocks and saved its state without error refuses to start again. *)
Theorem restart_refuses_tied_tip :
  reach (clean_step (C:=Toy.crypto)) 3 DemoStore.t3
  ∧ (∃ db, save_node_state (C:=Toy.crypto) (B:=DemoStore.bincode) DemoStore.t3 empty_store = (db, Ok ()))
  ∧ DemoStore.tip_mismatch DemoStore.t3_db
    = Some (Some (header_hash (C:=Toy.crypto) (header DemoStore.second_child)),
            Some (header_hash (C:=Toy.crypto) (header DemoStore.first_child))).
Proof.
  split; [exact DemoStore.t3_reach|]. split.
  - exists DemoStore.t3_db. unfold DemoStore.t3_db. apply DemoNode.run_pair.
    destruct (save_node_state_run (C:=Toy.crypto) (L:=Toy.laws) (B:=DemoStore.bincode)
      (BL:=DemoStore.bincode_laws) DemoStore.t3 empty_store) as (db & -> & _); [|reflexivity].
    refine (proj1 (reach_inv (C:=Toy.crypto) (L:=Toy.laws) 3 DemoStore.t3
      (proj1 (clean_reach_synced (L:=Toy.laws) 3 DemoStore.t3 DemoStore.t3_reach _)) _)); vm_decide.
  - vm_decide.
Qed.

Lemma save_load_roundtrip_witness :
  ∃ db', save_node_state (C:=Toy.crypto) (B:=DemoStore.bincode) DemoNode.s1 empty_store = (db', Ok ())
    ∧ load_node_state (C:=Toy.crypto) (B:=DemoStore.bincode) db' = Ok DemoNode.s1.
Proof.
  refine (save_load_roundtrip (C:=Toy.crypto) (L:=Toy.laws) (B:=DemoStore.bincode)
    (BL:=DemoStore.bincode_laws) DemoNode.s1 empty_store (proj1 DemoNode.inv1) (proj2 DemoNode.inv1)
    (proj1 DemoStore.s1_complete) (proj2 DemoStore.s1_complete) _ _); vm_decide.
Defined.

Lemma save_accepted_block_correct_witness :
  ∃ db' full, save_accepted_block (C:=Toy.crypto) (B:=DemoStore.bincode) DemoStore.s2
      (header_hash (C:=Toy.crypto) (header DemoBlocks.block1)) DemoStore.db1 = (db', Ok ())
    ∧ save_node_state (C:=Toy.crypto) (B:=DemoStore.bincode) DemoStore.s2 DemoStore.db1 = (full, Ok ())
    ∧ t_active_utxos db' = t_active_utxos full ∧ stores (B:=DemoStore.bincode) db' DemoStore.s2.
Proof.
  destruct (save_accepted_block_correct (C:=Toy.crypto) (L:=Toy.laws) (B:=DemoStore.bincode)
    (BL:=DemoStore.bincode_laws) DemoStore.db1 DemoNode.s1 DemoBlocks.block1 DemoStore.s2
    (proj1 DemoNode.inv1) ltac:(vm_decide) ltac:(vm_decide) ltac:(vm_decide)
    (proj1 DemoStore.db1_stores) (proj2 DemoStore.db1_stores) DemoStore.accept2)
    as (db' & full & b' & H1 & H2 & _ & _ & _ & _ & H3 & _ & _ & _ & H4).
  exists db', full. split; [exact H1|]. split; [exact H2|]. split; [exact H3|].
  apply H4. intros _. exact DemoStore.s2_not_pending.
Defined.

Lemma save_mempool_transaction_correct_witness :
  ∃ db', save_mempool_transaction (C:=Toy.crypto) (B:=DemoStore.bincode) Demo.payment DemoStore.db1
      = (db', Ok ())
    ∧ load_mempool (C:=Toy.crypto) (B:=DemoStore.bincode) db'
      = Ok (<[Demo.payment_id := Demo.payment]> (mempool DemoNode.s1)).
Proof.
  destruct (save_mempool_transaction_correct (C:=Toy.crypto) (L:=Toy.laws) (B:=DemoStore.bincode)
    (BL:=DemoStore.bincode_laws) DemoStore.db1 DemoNode.s1 Demo.payment DemoNode.s2 Demo.payment_id
    (proj1 DemoNode.inv1) ltac:(vm_decide) ltac:(vm_decide) (proj1 DemoStore.db1_stores)
    (proj2 DemoStore.db1_stores) DemoNode.submit2) as (db' & H1 & _ & H2 & _).
  exists db'. split; [exact H1|exact H2].
Defined.

Lemma save_peer_roundtrip_witness :
  ∃ db', save_peer (B:=DemoStore.bincode)
      (from_endpoint {| endpoint_addr := "127.0.0.1:9001"; endpoint_node_name := None |} Seed)
      empty_store = (db', Ok ())
    ∧ load_peer (B:=DemoStore.bincode) db' "127.0.0.1:9001"
      = Ok (Some (from_endpoint
          {| endpoint_addr := "127.0.0.1:9001"; endpoint_node_name := None |} Seed)).
Proof.
  destruct (save_peer_roundtrip (B:=DemoStore.bincode)
    (from_endpoint {| endpoint_addr := "127.0.0.1:9001"; endpoint_node_name := None |} Seed)
    empty_store ltac:(vm_decide)) as (db' & H1 & H2 & _).
  exists db'. split; [exact H1|exact H2].
Defined.

Lemma interrupted_save_refuses_restart_witness :
  ∃ b' e db', save_block_record (B:=DemoStore.bincode) b' e (best_tip (chain DemoStore.s2))
      DemoStore.db1 = (db', Ok ())
    ∧ load_node_state (C:=Toy.crypto) (B:=DemoStore.bincode) db' = Err RebuiltUtxoMismatch.
Proof.
  destruct (entries (chain DemoStore.s2) !! header_hash (C:=Toy.crypto) (header DemoBlocks.block1))
    as [e|] eqn:He; [|destruct (DemoStore.s2_indexed He)].
  destruct (blocks DemoStore.s2 !! header_hash (C:=Toy.crypto) (header DemoBlocks.block1))
    as [b'|] eqn:Hb; [|destruct (DemoStore.s2_stored Hb)].
  exists b', e.
  refine (interrupted_save_refuses_restart (C:=Toy.crypto) (L:=Toy.laws) (B:=DemoStore.bincode)
    (BL:=DemoStore.bincode_laws) DemoStore.db1 DemoNode.s1 DemoBlocks.block1 DemoStore.s2 e b'
    (proj1 DemoNode.inv1) _ _ _ (proj1 DemoStore.db1_stores) _ DemoStore.accept2 He Hb
    DemoStore.s2_synced DemoStore.s2_complete DemoStore.s2_unique _); vm_decide.
Defined.
