(* ===== verification/HomeDir.v ===== *)
(** * home.rs: the directory of a node

    The files of a node home and its initialisation, over the disk of [Files].
    Bincode, serde_json and SQLite give the files their meaning: the class
    [FileFormats].  A database is what SQLite reads from the bytes of its file;
    one operation of the store is one transaction.  The connection keeps SQLite's
    default rollback journal, [path-journal]: a transaction that commits deletes
    it, one that the disk interrupts may leave it behind with any contents and,
    when the database was being created, an empty database file beside it.  The
    bytes of an interrupted database file stand for what they mean after the
    rollback, the contents before the transaction. *)

From S2P Require Import Prelude Bytes Crypto Types State Consensus Chain Mempool Wire.
From S2P Require Import NodeState Home Peers Client Files Wallet Aliases TxIndex Store.

Class FileFormats `{B : Bincode} := {
  wallet_v2 :: FileCodec EncodeError DecodeError WalletFileV2;
  wallet_v1 :: FileCodec EncodeError DecodeError WalletFileV1;
  JsonError : Type;
  alias_json :: PrettyJson JsonError AliasFile;
  peers_json :: PrettyJson JsonError (list PeerEndpoint);
  config_json :: PrettyJson JsonError NodeConfig;
  sqlite_image : SqliteStore → bytes;
  sqlite_parse : bytes → option SqliteStore;
  (** A database that lacks tables of the schema, with the missing ones created. *)
  sqlite_migrate : bytes → option SqliteStore
}.

Class FileFormatsLaws `{B : Bincode} (F : FileFormats) : Prop := {
  wallet_v2_laws :: FileCodecLaws wallet_v2;
  wallet_v1_laws :: FileCodecLaws wallet_v1;
  alias_json_laws :: PrettyJsonLaws alias_json;
  peers_json_laws :: PrettyJsonLaws peers_json;
  config_json_laws :: PrettyJsonLaws config_json;
  sqlite_parse_image db : sqlite_parse (sqlite_image db) = Some db
}.

Definition DEFAULT_HOME_DIRNAME : string := ".wobble".
Definition STATE_FILENAME : string := "node.sqlite".
Definition WALLET_FILENAME : string := "wallet.bin".
Definition ALIASES_FILENAME : string := "aliases.json".
Definition PEERS_FILENAME : string := "peers.json".
Definition CONFIG_FILENAME : string := "config.json".
Definition LOGS_DIRNAME : string := "logs".
Definition SERVER_LOG_FILENAME : string := "server.log".

Record NodeHome := { root : string }.

Definition state_path (h : NodeHome) : string := join (root h) STATE_FILENAME.
Definition wallet_path (h : NodeHome) : string := join (root h) WALLET_FILENAME.
Definition aliases_path (h : NodeHome) : string := join (root h) ALIASES_FILENAME.
Definition peers_path (h : NodeHome) : string := join (root h) PEERS_FILENAME.
Definition config_path (h : NodeHome) : string := join (root h) CONFIG_FILENAME.
Definition logs_dir (h : NodeHome) : string := join (root h) LOGS_DIRNAME.
Definition server_log_path (h : NodeHome) : string := join (logs_dir h) SERVER_LOG_FILENAME.

Section home.
Context `{C : Crypto} `{B : Bincode} `{F : !FileFormats}.

#[local] Notation WalletError := (WalletError (EncodeError:=EncodeError) (DecodeError:=DecodeError)).
#[local] Notation AliasError := (AliasError (JsonError:=JsonError)).
#[local] Notation PeerConfigError := (PeerConfigError (JsonError:=JsonError)).

Inductive NodeHomeError :=
| MissingBaseHomeDir
| HomeIo (e : io_Error)
| ConfigParse (e : JsonError)
| ConfigSerialize (e : JsonError)
| HomeSqlite (e : SqliteStoreError)
| HomeWallet (e : WalletError)
| HomeAlias (e : AliasError)
| HomePeers (e : PeerConfigError).

(** [env::var_os("HOME").or_else(..("USERPROFILE"))]. *)
Definition default_home_root (home userprofile : option string) : result NodeHomeError string :=
  match (match home with Some h => Some h | None => userprofile end) with
  | None => Err MissingBaseHomeDir
  | Some h => Ok (join h DEFAULT_HOME_DIRNAME)
  end.

Definition from_default_dir (home userprofile : option string) : result NodeHomeError NodeHome :=
  r ← default_home_root home userprofile; Ok {| root := r |}.

(** [m.map_err(f)] on a disk operation. *)
Definition map_disk {E E' A} (f : E → E') (m : disk_op E A) : disk_op E' A :=
  λ d, let '(d', r) := m d in (d', map_err f r).

(** ** The database file *)

Definition journal_path (path : string) : string := path +:+ "-journal".

(** The files after a transaction on the database at [path] that the disk interrupted. *)
Definition interrupted (path : string) (f : Fault) (files : gmap string bytes) : gmap string bytes :=
  match fault_left f with
  | None => files
  | Some rest => <[journal_path path := rest]> (<[path := default [] (files !! path)]> files)
  end.

(** [SqliteStore::open]: [initialize_schema] creates the tables that are missing, all of them in
    a file that did not exist. *)
Definition SqliteStore_open (path : string) : disk_op SqliteStoreError unit := λ d,
  if bool_decide (path ∈ disk_dirs d) then (after_op d (disk_files d), Err (Sqlite CannotOpen))
  else
    match next_fault d with
    | Some f => (after_op d (interrupted path f (disk_files d)), Err (Sqlite CannotOpen))
    | None =>
        match disk_files d !! path with
        | None => (after_op d (<[path := sqlite_image empty_store]> (disk_files d)), Ok ())
        | Some bs =>
            match sqlite_parse bs, sqlite_migrate bs with
            | Some _, _ => (after_op d (disk_files d), Ok ())
            | None, Some db => (after_op d (<[path := sqlite_image db]> (disk_files d)), Ok ())
            | None, None => (after_op d (disk_files d), Err (Sqlite NotADatabase))
            end
        end
    end.

(** [SqliteStore::open_read_only]: the file must exist; SQLite looks into it at the first
    query only. *)
Definition SqliteStore_open_read_only (path : string) : disk_op SqliteStoreError unit := λ d,
  (after_op d (disk_files d),
   match next_fault d with
   | Some _ => Err (Sqlite CannotOpen)
   | None =>
       if bool_decide (is_Some (disk_files d !! path)) then Ok () else Err (Sqlite CannotOpen)
   end).

(** One operation on the open database. *)
Definition on_store {A} (path : string) (op : store_op A) : disk_op SqliteStoreError A := λ d,
  match next_fault d, disk_files d !! path ≫= sqlite_parse with
  | Some f, _ => (after_op d (interrupted path f (disk_files d)), Err (Sqlite DiskIoError))
  | None, None => (after_op d (disk_files d), Err (Sqlite NotADatabase))
  | None, Some db =>
      let '(db', r) := op db in
      (after_op d (<[path := sqlite_image db']> (disk_files d)), r)
  end.

(** A query. *)
Definition query_store {A} (path : string) (q : SqliteStore → result SqliteStoreError A)
    : disk_op SqliteStoreError A := λ d,
  (after_op d (disk_files d),
   match next_fault d, disk_files d !! path ≫= sqlite_parse with
   | Some _, _ => Err (Sqlite DiskIoError)
   | None, None => Err (Sqlite NotADatabase)
   | None, Some db => q db
   end).

(** ** The configuration file *)

Definition load_config (h : NodeHome) : disk_op NodeHomeError NodeConfig :=
  contents ← map_io HomeIo (fs_read_to_string (config_path h));
  Files.lift (map_err ConfigParse (from_text contents)).

Definition save_config (h : NodeHome) (c : NodeConfig) : disk_op NodeHomeError unit :=
  contents ← Files.lift (map_err ConfigSerialize (to_string_pretty c));
  map_io HomeIo (fs_write (config_path h) contents).

(** ** Initialisation *)

(** [if !path.exists() { create }]. *)
Definition unless_exists {E} (path : string) (create : disk_op E unit) : disk_op E unit :=
  present ← path_exists path;
  if (present : bool) then mret () else create.

Definition initialize (h : NodeHome) (fresh : SigningKey) : disk_op NodeHomeError unit :=
  _ ← map_io HomeIo (create_dir_all (root h));
  _ ← unless_exists (state_path h) (map_disk HomeSqlite (
        _ ← SqliteStore_open (state_path h);
        on_store (state_path h) (save_node_state NodeState_new)));
  _ ← unless_exists (wallet_path h) (map_disk HomeWallet
        (save_wallet (wallet_path h) (Wallet_generate fresh)));
  _ ← unless_exists (aliases_path h) (map_disk HomeAlias
        (save_alias_book (aliases_path h) AliasBook_new));
  _ ← unless_exists (peers_path h) (map_disk HomePeers (save_peer_endpoints (peers_path h) []));
  _ ← unless_exists (config_path h) (save_config h NodeConfig_default);
  map_io HomeIo (create_dir_all (logs_dir h)).

End home.
