(* ===== verification/HomeProofs.v ===== *)
(** * Initialising a node home

    On a disk that lets operations through, [NodeHome::initialize] creates what
    is missing, keeps what is there, and is idempotent; a fresh home loads as
    an empty node with a one-key wallet. *)

From S2P Require Import Prelude Bytes Crypto Types State Consensus Chain Mempool Wire.
From S2P Require Import NodeState Home Peers Client Files Wallet Aliases TxIndex Store HomeDir.

(** The five files. *)
Definition home_files (h : NodeHome) : list string :=
  [state_path h; wallet_path h; aliases_path h; peers_path h; config_path h].

(** Closes [p ∈ home_files h] for one of the five. *)
Ltac home_file := unfold home_files; repeat first [by left | right].

Lemma string_length_app (a b : string) :
  String.length (a +:+ b) = (String.length a + String.length b)%nat.
Proof. induction a as [|c a IH]; [done|].
  change (S (String.length (a +:+ b)) = S (String.length a + String.length b)). by rewrite IH.
Qed.

Lemma join_longer r p : is_absolute p = false → p ≠ EmptyString → join r p ≠ r.
Proof.
  unfold join. intros -> Hp. assert (String.length p ≠ 0%nat) as Hl by by destruct p.
  destruct (_ || _); intros Heq%(f_equal String.length);
    rewrite ?string_length_app in Heq; cbn in Heq; rewrite ?string_length_app in Heq; lia.
Qed.

Lemma home_files_NoDup h : NoDup (logs_dir h :: home_files h).
Proof.
  unfold home_files, logs_dir, state_path, wallet_path, aliases_path, peers_path, config_path.
  change (NoDup (join (root h) <$> [LOGS_DIRNAME; STATE_FILENAME; WALLET_FILENAME; ALIASES_FILENAME;
    PEERS_FILENAME; CONFIG_FILENAME])).
  apply NoDup_fmap_2_strong; [|by apply (bool_decide_eq_true_1 _)].
  intros p q Hp Hq. apply join_inj.
  - revert p Hp. apply Forall_forall. by repeat constructor.
  - revert q Hq. apply Forall_forall. by repeat constructor.
Qed.

Lemma home_files_not_root h p : p ∈ logs_dir h :: home_files h → p ≠ root h.
Proof.
  intros Hp. revert p Hp. apply Forall_forall. unfold home_files.
  repeat constructor; by apply join_longer.
Qed.

(** A healthy disk with one more file, or one more directory. *)
Definition with_file (d : Disk) (p : string) (bs : bytes) : Disk :=
  {| disk_files := <[p := bs]> (disk_files d); disk_dirs := disk_dirs d; disk_faults := [] |}.
Definition with_dir (d : Disk) (p : string) : Disk :=
  {| disk_files := disk_files d; disk_dirs := {[ p ]} ∪ disk_dirs d; disk_faults := [] |}.

Definition occupied (d : Disk) (p : string) : bool :=
  bool_decide (is_Some (disk_files d !! p)) || bool_decide (p ∈ disk_dirs d).

(** [m] writes one file. *)
Definition creates {E} (m : disk_op E unit) (p : string) (bs : bytes) : Prop :=
  ∀ d, healthy d → occupied d p = false → m d = (with_file d p bs, Ok ()).

Lemma healthy_after d fs : healthy d → after_op d fs = {| disk_files := fs; disk_dirs := disk_dirs d; disk_faults := [] |}.
Proof. unfold healthy, after_op. by intros ->. Qed.

Lemma healthy_same d : healthy d → after_op d (disk_files d) = d.
Proof. destruct d as [fs ds fl]. unfold healthy. cbn. by intros ->. Qed.

Lemma healthy_fault d : healthy d → next_fault d = None.
Proof. unfold healthy, next_fault. by intros ->. Qed.

(** One guarded step of [initialize]. *)
Definition ensured (d : Disk) (p : string) (bs : bytes) : Disk :=
  if occupied d p then d else with_file d p bs.

Lemma unless_exists_run {E} (m : disk_op E unit) p bs d :
  creates m p bs → healthy d → unless_exists p m d = (ensured d p bs, Ok ()).
Proof.
  intros Hm Hd. unfold unless_exists, path_exists, mbind, disk_bind, ensured.
  rewrite healthy_fault, healthy_same by done. fold (occupied d p).
  destruct (occupied d p) eqn:Ho; [done|]. by apply Hm.
Qed.

Lemma map_disk_creates {E E'} (f : E → E') m p bs : creates m p bs → creates (map_disk f m) p bs.
Proof. intros Hm d Hd Ho. unfold map_disk. by rewrite Hm. Qed.

Lemma write_creates {E} (f : io_Error → E) p bs : creates (map_io f (fs_write p bs)) p bs.
Proof. intros d Hd _. unfold map_io. by rewrite fs_write_healthy. Qed.

(** What the whole initialisation leaves. *)
Definition initialized (h : NodeHome) (b1 b2 b3 b4 b5 : bytes) (d : Disk) : Disk :=
  with_dir (ensured (ensured (ensured (ensured (ensured (with_dir d (root h))
    (state_path h) b1) (wallet_path h) b2) (aliases_path h) b3) (peers_path h) b4) (config_path h) b5)
    (logs_dir h).

Lemma ensured_healthy d p bs : healthy d → healthy (ensured d p bs).
Proof. unfold ensured. by destruct (occupied d p). Qed.

Lemma create_dir_run d p :
  healthy d → disk_files d !! p = None → create_dir_all p d = (with_dir d p, Ok ()).
Proof.
  intros Hd Hp. unfold create_dir_all, with_dir. rewrite healthy_fault, Hp by done.
  unfold healthy in Hd. by rewrite Hd.
Qed.

Lemma ensured_lookup d p bs q :
  disk_files (ensured d p bs) !! q = if negb (occupied d p) && bool_decide (q = p) then Some bs
                                     else disk_files d !! q.
Proof.
  unfold ensured. destruct (occupied d p); cbn; [done|]. case_bool_decide as Hq.
  - subst q. apply lookup_insert_eq.
  - by apply lookup_insert_ne.
Qed.

Lemma ensured_keeps d p bs q x :
  disk_files d !! q = Some x → disk_files (ensured d p bs) !! q = Some x.
Proof.
  intros Hq. rewrite ensured_lookup. case_bool_decide as Hqp; [|by rewrite andb_false_r].
  subst q. unfold occupied. by rewrite Hq.
Qed.

Lemma ensured_None d p bs q : q ≠ p → disk_files (ensured d p bs) !! q = disk_files d !! q.
Proof. intros Hq. rewrite ensured_lookup. by rewrite bool_decide_eq_false_2, andb_false_r. Qed.

Lemma ensured_dirs d p bs : disk_dirs (ensured d p bs) = disk_dirs d.
Proof. unfold ensured. by destruct (occupied d p). Qed.

Lemma ensured_occupied d p bs : occupied (ensured d p bs) p = true.
Proof.
  unfold ensured. destruct (occupied d p) eqn:Ho; [done|]. unfold occupied. cbn.
  by rewrite lookup_insert_eq.
Qed.

Lemma occupied_mono d p bs q : occupied d q = true → occupied (ensured d p bs) q = true.
Proof.
  unfold occupied. rewrite ensured_dirs. intros [H|H]%orb_prop; apply orb_true_iff; [left|by right].
  apply bool_decide_eq_true_1 in H as [x Hx]. by rewrite (ensured_keeps _ _ _ _ _ Hx).
Qed.

Lemma ensured_id d p bs : occupied d p = true → ensured d p bs = d.
Proof. unfold ensured. by intros ->. Qed.

Lemma with_dir_id d p : healthy d → p ∈ disk_dirs d → with_dir d p = d.
Proof.
  destruct d as [fs ds fl]. unfold healthy, with_dir. cbn. intros -> Hp. f_equal.
  clear -Hp. set_solver.
Qed.

Section outcome.
Context (h : NodeHome) (b1 b2 b3 b4 b5 : bytes).

Lemma initialized_keeps d p x :
  disk_files d !! p = Some x → disk_files (initialized h b1 b2 b3 b4 b5 d) !! p = Some x.
Proof. intros Hp. unfold initialized. cbn. by repeat apply ensured_keeps. Qed.

Lemma initialized_only d p :
  p ∉ home_files h → disk_files (initialized h b1 b2 b3 b4 b5 d) !! p = disk_files d !! p.
Proof.
  intros Hp. unfold home_files in Hp. unfold initialized. cbn [with_dir disk_files].
  rewrite !ensured_None by set_solver. done.
Qed.

Lemma initialized_dirs d :
  disk_dirs (initialized h b1 b2 b3 b4 b5 d) = {[ logs_dir h ]} ∪ ({[ root h ]} ∪ disk_dirs d).
Proof. unfold initialized. cbn [with_dir disk_dirs]. by rewrite !ensured_dirs. Qed.

Lemma initialized_occupied d p :
  p ∈ home_files h → occupied (initialized h b1 b2 b3 b4 b5 d) p = true.
Proof.
  intros Hp. unfold initialized. set (d' := ensured _ (config_path h) b5).
  assert (occupied d' p = true) as Ho.
  { unfold d', home_files in *. repeat (apply elem_of_cons in Hp as [->|Hp]);
      [..|by apply elem_of_nil in Hp];
      repeat first [apply ensured_occupied|apply occupied_mono]. }
  unfold occupied in *. cbn. apply orb_true_iff. apply orb_prop in Ho as [Ho|Ho]; [by left|right].
  apply bool_decide_eq_true_1 in Ho. apply bool_decide_eq_true_2. apply elem_of_union; by right.
Qed.

(** Initialising again changes nothing, whatever would be written. *)
Lemma initialized_again c1 c2 c3 c4 c5 d :
  initialized h c1 c2 c3 c4 c5 (initialized h b1 b2 b3 b4 b5 d) = initialized h b1 b2 b3 b4 b5 d.
Proof.
  pose proof (initialized_occupied d) as Ho. pose proof (initialized_dirs d) as Hds.
  assert (healthy (initialized h b1 b2 b3 b4 b5 d)) as Hh by done.
  generalize dependent (initialized h b1 b2 b3 b4 b5 d). intros d' Ho Hds Hh.
  assert (root h ∈ disk_dirs d' ∧ logs_dir h ∈ disk_dirs d') as [Hr Hl].
  { rewrite Hds. clear. split; set_solver. }
  unfold initialized. rewrite (with_dir_id d' (root h)) by done.
  rewrite (ensured_id d' (state_path h)) by (apply Ho; home_file).
  rewrite (ensured_id d' (wallet_path h)) by (apply Ho; home_file).
  rewrite (ensured_id d' (aliases_path h)) by (apply Ho; home_file).
  rewrite (ensured_id d' (peers_path h)) by (apply Ho; home_file).
  rewrite (ensured_id d' (config_path h)) by (apply Ho; home_file).
  by apply with_dir_id.
Qed.

(** A file that was missing gets its initial contents. *)
Lemma initialized_new d :
  (∀ p, p ∈ home_files h → occupied d p = false) →
  let fs := disk_files (initialized h b1 b2 b3 b4 b5 d) in
  fs !! state_path h = Some b1 ∧ fs !! wallet_path h = Some b2 ∧ fs !! aliases_path h = Some b3
  ∧ fs !! peers_path h = Some b4 ∧ fs !! config_path h = Some b5.
Proof.
  intros Hfree fs. subst fs. unfold initialized. cbn [with_dir disk_files].
  pose proof (home_files_NoDup h) as Hnd. unfold home_files in *.
  repeat (apply NoDup_cons in Hnd as [? Hnd]).
  repeat match goal with H : _ ∉ _ :: _ |- _ => apply not_elem_of_cons in H as [? H] end.
  assert (∀ p, p ∈ [state_path h; wallet_path h; aliases_path h; peers_path h; config_path h] →
    occupied (with_dir d (root h)) p = false) as Hfree'.
  { intros p Hp. specialize (Hfree p Hp). unfold occupied in *. cbn.
    apply orb_false_iff. apply orb_false_elim in Hfree as [-> Hd]. split; [done|].
    apply bool_decide_eq_false_1 in Hd. apply bool_decide_eq_false_2.
    pose proof (home_files_not_root h p ltac:(right; exact Hp)). set_solver. }
  assert (∀ d p q bs, p ≠ q → occupied (ensured d p bs) q = occupied d q) as Hoth.
  { intros d0 p q bs Hpq. unfold occupied. by rewrite ensured_dirs, ensured_None. }
  assert (∀ d p bs, occupied d p = false → disk_files (ensured d p bs) !! p = Some bs) as Hhit.
  { intros d0 p bs Ho. rewrite ensured_lookup, Ho, bool_decide_eq_true_2 by done. done. }
  split_and!; rewrite ?ensured_None by first [assumption | by apply not_eq_sym]; apply Hhit;
    rewrite ?Hoth by first [assumption | by apply not_eq_sym]; apply Hfree'; home_file.
Qed.

End outcome.

Section proofs.
Context `{C : Crypto} `{L : !CryptoLaws C} `{B : Bincode}.
Context `{F : !FileFormats} `{FL : !FileFormatsLaws F}.

Lemma save_new_state : save_node_state NodeState_new empty_store = (empty_store, Ok ()).
Proof using. reflexivity. Qed.

Lemma load_new_state : load_node_state empty_store = Ok NodeState_new.
Proof using. reflexivity. Qed.

Lemma state_creates p :
  creates (_ ← SqliteStore_open p; on_store p (save_node_state NodeState_new)) p
    (sqlite_image empty_store).
Proof using FL.
  intros d Hd Ho. unfold occupied in Ho. apply orb_false_elim in Ho as [Hf Hdir].
  apply bool_decide_eq_false_1, eq_None_not_Some in Hf. apply bool_decide_eq_false_1 in Hdir.
  unfold mbind, disk_bind, SqliteStore_open. rewrite (bool_decide_eq_false_2 (p ∈ disk_dirs d)) by done.
  rewrite healthy_fault, Hf, healthy_after by done.
  unfold on_store. cbn. rewrite lookup_insert_eq. cbn. rewrite sqlite_parse_image. cbn.
  rewrite save_new_state. unfold with_file. cbn. by rewrite insert_insert_eq.
Qed.

Lemma wallet_creates p sk :
  ∃ bs, creates (save_wallet p (Wallet_generate sk)) p bs
    ∧ ∀ d, healthy d → disk_files d !! p = Some bs → load_wallet p d = (d, Ok (Wallet_generate sk)).
Proof using L FL.
  pose proof (wallet_inv_generate sk) as Hi.
  destruct (file_decode_encode (wallet_file (Wallet_generate sk))) as (bs & n & He & Hdec).
  exists bs. split.
  - intros d Hd _. unfold save_wallet, mbind, disk_bind, Files.lift, map_io.
    rewrite (proj2 (validate_Ok (EncodeError:=EncodeError) (DecodeError:=DecodeError) _) Hi), He. cbn. by rewrite fs_write_healthy.
  - intros d Hd Hf. unfold load_wallet, mbind, disk_bind, Files.lift, map_io.
    rewrite (fs_read_healthy _ bs) by done. cbn. by rewrite Hdec, wallet_of_wallet_file.
Qed.

(** A JSON file that is written with [to_string_pretty]. *)
Lemma json_creates {E A} `{J : !PrettyJson JsonError A} `{!PrettyJsonLaws J} (f : JsonError → E)
    (g : io_Error → E) p (a : A) :
  ∃ bs, creates (contents ← Files.lift (map_err f (to_string_pretty a)); map_io g (fs_write p contents)) p bs
    ∧ utf8_valid bs = true ∧ from_text bs = Ok a.
Proof using.
  destruct (from_text_pretty a) as (s & He & Hu & Hd). exists s. split; [|done].
  intros d Hh Ho. unfold mbind, disk_bind, Files.lift. rewrite He. cbn. by apply write_creates.
Qed.

(** Steps the initialisation is made of, with what each file gets. *)
Lemma initialize_run h sk :
  ∃ b2 b3 b4 b5,
    (∀ d, healthy d → disk_files d !! wallet_path h = Some b2 →
       load_wallet (wallet_path h) d = (d, Ok (Wallet_generate sk)))
    ∧ (utf8_valid b3 = true ∧ from_text b3 = Ok (alias_file AliasBook_new))
    ∧ (utf8_valid b4 = true ∧ from_text b4 = Ok (@nil PeerEndpoint))
    ∧ (utf8_valid b5 = true ∧ from_text b5 = Ok NodeConfig_default)
    ∧ ∀ d, healthy d → disk_files d !! root h = None → disk_files d !! logs_dir h = None →
        initialize h sk d = (initialized h (sqlite_image empty_store) b2 b3 b4 b5 d, Ok ()).
Proof using L FL.
  destruct (wallet_creates (wallet_path h) sk) as (b2 & Hw & Hlw).
  destruct (json_creates AliasSerialize AliasIo (aliases_path h) (alias_file AliasBook_new))
    as (b3 & Ha & Ha').
  destruct (json_creates PeersParse PeersRead (peers_path h) (@nil PeerEndpoint)) as (b4 & Hp & Hp').
  destruct (json_creates ConfigSerialize HomeIo (config_path h) NodeConfig_default) as (b5 & Hc & Hc').
  exists b2, b3, b4, b5. split_and!; [done|apply Ha'|apply Ha'|apply Hp'|apply Hp'|apply Hc'|apply Hc'|].
  intros d Hd Hr Hl. unfold initialize.
  erewrite disk_bind_run; [|apply map_io_Ok; by apply create_dir_run].
  erewrite disk_bind_run; [|by apply unless_exists_run; [apply map_disk_creates, state_creates|]].
  erewrite disk_bind_run; [|by apply unless_exists_run; [by apply map_disk_creates|apply ensured_healthy]].
  erewrite disk_bind_run;
    [|by apply unless_exists_run; [by apply map_disk_creates|repeat apply ensured_healthy]].
  erewrite disk_bind_run;
    [|by apply unless_exists_run; [by apply map_disk_creates|repeat apply ensured_healthy]].
  erewrite disk_bind_run; [|by apply unless_exists_run; [done|repeat apply ensured_healthy]].
  pose proof (home_files_NoDup h) as [Hnl _]%NoDup_cons. unfold home_files in Hnl.
  apply map_io_Ok, create_dir_run; [by repeat apply ensured_healthy|].
  rewrite !ensured_None by set_solver. done.
Qed.

(** What a home without any of the files loads as afterwards. *)
Lemma initialized_loads h sk b2 b3 b4 b5 d :
  (∀ d, healthy d → disk_files d !! wallet_path h = Some b2 →
     load_wallet (wallet_path h) d = (d, Ok (Wallet_generate sk))) →
  utf8_valid b3 = true ∧ from_text b3 = Ok (alias_file AliasBook_new) →
  utf8_valid b4 = true ∧ from_text b4 = Ok (@nil PeerEndpoint) →
  utf8_valid b5 = true ∧ from_text b5 = Ok NodeConfig_default →
  (∀ p, p ∈ home_files h → occupied d p = false) →
  let d' := initialized h (sqlite_image empty_store) b2 b3 b4 b5 d in
  query_store (state_path h) load_node_state d' = (d', Ok NodeState_new)
  ∧ load_wallet (wallet_path h) d' = (d', Ok (Wallet_generate sk))
  ∧ load_alias_book (aliases_path h) d' = (d', Ok AliasBook_new)
  ∧ load_peer_endpoints (peers_path h) d' = (d', Ok [])
  ∧ load_config h d' = (d', Ok NodeConfig_default).
Proof using L FL.
  intros Hw [Hu3 Ha] [Hu4 Hp] [Hu5 Hc] Hfree d'. assert (healthy d') as Hd' by done.
  destruct (initialized_new h (sqlite_image empty_store) b2 b3 b4 b5 d Hfree) as (H1 & H2 & H3 & H4 & H5).
  fold d' in H1, H2, H3, H4, H5. split_and!.
  - unfold query_store. rewrite healthy_fault, healthy_same, H1 by done. cbn.
    by rewrite sqlite_parse_image, load_new_state.
  - by apply Hw.
  - unfold load_alias_book, mbind, disk_bind, map_io, Files.lift.
    rewrite (fs_read_to_string_healthy _ b3) by done. cbn [map_err]. rewrite Ha. cbn [map_err].
    done.
  - unfold load_peer_endpoints, mbind, disk_bind, map_io, Files.lift.
    rewrite (fs_read_to_string_healthy _ b4) by done. cbn [map_err]. by rewrite Hp.
  - unfold load_config, mbind, disk_bind, map_io, Files.lift.
    rewrite (fs_read_to_string_healthy _ b5) by done. cbn [map_err]. by rewrite Hc.
Qed.

(** A fresh home, ready to serve. *)
Lemma initialize_fresh h sk d :
  healthy d → disk_files d !! root h = None → disk_files d !! logs_dir h = None →
  (∀ p, p ∈ home_files h → occupied d p = false) →
  ∃ d', initialize h sk d = (d', Ok ()) ∧ healthy d'
    ∧ disk_files d' !! state_path h = Some (sqlite_image empty_store) ∧ state_path h ∉ disk_dirs d'
    ∧ load_wallet (wallet_path h) d' = (d', Ok (Wallet_generate sk))
    ∧ load_peer_endpoints (peers_path h) d' = (d', Ok [])
    ∧ load_config h d' = (d', Ok NodeConfig_default)
    ∧ disk_files d' !! logs_dir h = None.
Proof using L FL.
  intros Hd Hr Hl Hfree.
  destruct (initialize_run h sk) as (b2 & b3 & b4 & b5 & Hw & Ha & Hp & Hc & Hrun).
  destruct (initialized_loads h sk b2 b3 b4 b5 d Hw Ha Hp Hc Hfree) as (_ & Hlw & _ & Hlp & Hlc).
  destruct (initialized_new h (sqlite_image empty_store) b2 b3 b4 b5 d Hfree) as (H1 & _).
  pose proof (home_files_NoDup h) as [Hnl _]%NoDup_cons.
  eexists. split; [by apply Hrun|]. split_and!; [done|done| |done..|by rewrite initialized_only].
  rewrite initialized_dirs.
  assert (state_path h ∈ home_files h) as Hin by home_file.
  pose proof (home_files_not_root h (state_path h) ltac:(by right)) as Hnr.
  assert (state_path h ∉ disk_dirs d) as Hnd.
  { apply Hfree in Hin. apply orb_false_elim in Hin as [_ Hin]. by apply bool_decide_eq_false_1 in Hin. }
  assert (state_path h ≠ logs_dir h) by congruence.
  rewrite !elem_of_union, !elem_of_singleton. tauto.
Qed.

(** C39: [NodeHome::initialize] is safe to repeat.  On a disk that lets operations through, and where
    neither the home nor its log directory is a file, it succeeds; every file that was there keeps its
    bytes; only the five files of a home can be new, and each is there afterwards; initialising again, with
    any other key, changes nothing; and a home without any of the files comes up as an empty node with a
    one-key wallet, an empty alias book, no peers and the default configuration. *)
Theorem initialize_correct (h : NodeHome) (sk : SigningKey) (d : Disk) :
  healthy d → disk_files d !! root h = None → disk_files d !! logs_dir h = None →
  ∃ d', initialize h sk d = (d', Ok ()) ∧ healthy d'
    ∧ (∀ p bs, disk_files d !! p = Some bs → disk_files d' !! p = Some bs)
    ∧ (∀ p, p ∉ home_files h → disk_files d' !! p = disk_files d !! p)
    ∧ (∀ p, p ∈ home_files h → occupied d' p = true)
    ∧ (∀ sk', initialize h sk' d' = (d', Ok ()))
    ∧ ((∀ p, p ∈ home_files h → occupied d p = false) →
       query_store (state_path h) load_node_state d' = (d', Ok NodeState_new)
       ∧ load_wallet (wallet_path h) d' = (d', Ok (Wallet_generate sk))
       ∧ load_alias_book (aliases_path h) d' = (d', Ok AliasBook_new)
       ∧ load_peer_endpoints (peers_path h) d' = (d', Ok [])
       ∧ load_config h d' = (d', Ok NodeConfig_default)).
Proof using L FL.
  intros Hd Hr Hl.
  destruct (initialize_run h sk) as (b2 & b3 & b4 & b5 & Hw & Ha & Hp & Hc & Hrun).
  exists (initialized h (sqlite_image empty_store) b2 b3 b4 b5 d).
  set (d' := initialized _ _ _ _ _ _ d). assert (healthy d') as Hd' by done.
  split_and!; [by apply Hrun|done|apply initialized_keeps|apply initialized_only
    |apply initialized_occupied| |].
  - intros sk'. destruct (initialize_run h sk') as (c2 & c3 & c4 & c5 & _ & _ & _ & _ & Hrun').
    assert (root h ∉ home_files h ∧ logs_dir h ∉ home_files h) as [Hnr Hnl].
    { split; [intros Hin; by apply (home_files_not_root h (root h)); [right|]|].
      by pose proof (home_files_NoDup h) as [? _]%NoDup_cons. }
    rewrite Hrun'; [|done|unfold d'; by rewrite initialized_only..].
    unfold d'. by rewrite initialized_again.
  - by apply initialized_loads.
Qed.

End proofs.
