(* ===== verification/Runtime.v ===== *)
(** * server.rs: the server's runtime state, its effects and its peer records

    A server operation runs on a [World]: the server and the log of what it did
    to the outside (dials, requests, announcements, clock readings, miner commands).
    The outside is the class [Environment]: its answer to each request may
    depend on everything that was logged before it, so a theorem over all
    environments covers every behaviour of the network and the clock.

    [server_op E A] is the monad of the handlers: the world after the operation and
    its result.  [Err (Some e)] is an error of the code, [Err None] an operation
    that is still running when its fuel is used up. *)

From Stdlib Require Import DecimalString DecimalN.
From S2P Require Import Prelude Bytes Crypto Types State Consensus Chain Mempool Wire.
From S2P Require Import Mining NodeState Home Peers Client Peer TxIndex Store.

(** ** State *)

Inductive PeerSyncState := Idle | Syncing.

#[export] Instance PeerSyncState_eq_dec : EqDecision PeerSyncState.
Proof. solve_decision. Defined.

(** A [PeerHandle] is named by the position of its dial in the log. *)
Definition PeerHandle : Type := nat.

Record RuntimePeer := {
  rp_endpoint : PeerEndpoint;
  stored : StoredPeer;
  session : option PeerHandle;
  last_tip_sync_hint : option TipSummary;
  sync_state : PeerSyncState
}.

#[export] Instance RuntimePeer_eq_dec : EqDecision RuntimePeer.
Proof. solve_decision. Defined.

Definition new_peer (e : PeerEndpoint) (p : StoredPeer) : RuntimePeer := {|
  rp_endpoint := e; stored := p; session := None; last_tip_sync_hint := None; sync_state := Idle
|}.

Definition set_session (p : RuntimePeer) (h : option PeerHandle) : RuntimePeer := {|
  rp_endpoint := rp_endpoint p; stored := stored p; session := h;
  last_tip_sync_hint := last_tip_sync_hint p; sync_state := sync_state p
|}.
Definition set_endpoint (p : RuntimePeer) (e : PeerEndpoint) : RuntimePeer := {|
  rp_endpoint := e; stored := stored p; session := session p;
  last_tip_sync_hint := last_tip_sync_hint p; sync_state := sync_state p
|}.
Definition set_stored (p : RuntimePeer) (s : StoredPeer) : RuntimePeer := {|
  rp_endpoint := rp_endpoint p; stored := s; session := session p;
  last_tip_sync_hint := last_tip_sync_hint p; sync_state := sync_state p
|}.
Definition set_hint (p : RuntimePeer) (t : TipSummary) : RuntimePeer := {|
  rp_endpoint := rp_endpoint p; stored := stored p; session := session p;
  last_tip_sync_hint := Some t; sync_state := sync_state p
|}.
Definition set_sync_state (p : RuntimePeer) (s : PeerSyncState) : RuntimePeer := {|
  rp_endpoint := rp_endpoint p; stored := stored p; session := session p;
  last_tip_sync_hint := last_tip_sync_hint p; sync_state := s
|}.

Definition attach_session (p : RuntimePeer) (h : PeerHandle) : RuntimePeer := set_session p (Some h).
Definition begin_sync (p : RuntimePeer) : RuntimePeer := set_sync_state p Syncing.
Definition finish_sync (p : RuntimePeer) : RuntimePeer := set_sync_state p Idle.
Definition sync_in_progress (p : RuntimePeer) : bool := bool_decide (sync_state p = Syncing).

(** The fields of a stored peer that the handlers assign. *)
Definition set_peer_name (p : StoredPeer) (n : option string) : StoredPeer := {|
  peer_addr := peer_addr p; peer_node_name := n; source := source p;
  advertised_tip_hash := advertised_tip_hash p; advertised_height := advertised_height p;
  last_hello_at := last_hello_at p; last_seen_at := last_seen_at p;
  last_connect_at := last_connect_at p; last_success_at := last_success_at p;
  last_error := last_error p; connections := connections p;
  failed_connections := failed_connections p; behavior_score := behavior_score p;
  banned_until := banned_until p
|}.
Definition set_tip (p : StoredPeer) (t : option BlockHash) (h : option Z) : StoredPeer := {|
  peer_addr := peer_addr p; peer_node_name := peer_node_name p; source := source p;
  advertised_tip_hash := t; advertised_height := h;
  last_hello_at := last_hello_at p; last_seen_at := last_seen_at p;
  last_connect_at := last_connect_at p; last_success_at := last_success_at p;
  last_error := last_error p; connections := connections p;
  failed_connections := failed_connections p; behavior_score := behavior_score p;
  banned_until := banned_until p
|}.
Definition set_times (p : StoredPeer) (hello seen connect success : option string) : StoredPeer := {|
  peer_addr := peer_addr p; peer_node_name := peer_node_name p; source := source p;
  advertised_tip_hash := advertised_tip_hash p; advertised_height := advertised_height p;
  last_hello_at := hello; last_seen_at := seen;
  last_connect_at := connect; last_success_at := success;
  last_error := last_error p; connections := connections p;
  failed_connections := failed_connections p; behavior_score := behavior_score p;
  banned_until := banned_until p
|}.
Definition set_outcome (p : StoredPeer) (e : option string) (ok failed : Z) : StoredPeer := {|
  peer_addr := peer_addr p; peer_node_name := peer_node_name p; source := source p;
  advertised_tip_hash := advertised_tip_hash p; advertised_height := advertised_height p;
  last_hello_at := last_hello_at p; last_seen_at := last_seen_at p;
  last_connect_at := last_connect_at p; last_success_at := last_success_at p;
  last_error := e; connections := ok; failed_connections := failed;
  behavior_score := behavior_score p; banned_until := banned_until p
|}.

(** The runtime, the loopback handle and the miner are present or not; the commands
    given to the miner are effects. *)
Record Server `{C : Crypto} := {
  config : NodeConfig;
  state : NodeState;
  peers : gmap string RuntimePeer;
  connected_peers : gset string;
  sqlite_store : option SqliteStore;
  runtime_handle : bool;
  server_handle : bool;
  channel_capacity : Z;
  bootstrap_sync : bool;
  mining : option MiningConfig;
  miner : bool
}.

(** What the server does to the outside. *)
Inductive Effect :=
| Dial (addr : string) (hello : HelloMessage)
| AskTip (h : PeerHandle)
| AskBlock (h : PeerHandle) (hash : BlockHash)
| Tell (addr : string) (h : PeerHandle) (m : WireMessage)
| CloseSession (h : PeerHandle)
| ReadClock
| SubmitCandidate (candidate : Block)
| CancelCandidate
| StopMiner.

#[export] Instance Effect_eq_dec : EqDecision Effect.
Proof. solve_decision. Defined.

Inductive SyncError `{B : Bincode} :=
| SyncHandshake (e : ClientError)
| SyncRequest (e : RequestError)
| MissingRemoteBlock (h : BlockHash)
| AcceptBlock (e : NodeStateError)
| SyncPersist (e : SqliteStoreError).

Inductive ServerError `{B : Bincode} :=
| ServerPeer (e : PeerError)
| SqlitePersist (e : SqliteStoreError)
| ServerSync (e : SyncError).

(** Peers, sockets and the clock; [*_text] is the [{:?}] of an error. *)
Class Environment `{B : Bincode} := {
  on_dial : list Effect → string → HelloMessage → result ClientError HelloMessage;
  on_tip : list Effect → PeerHandle → result RequestError TipSummary;
  on_block : list Effect → PeerHandle → BlockHash → result RequestError (option Block);
  on_tell : list Effect → PeerHandle → WireMessage → result io_Error unit;
  on_clock : list Effect → Z;
  sync_error_text : SyncError → string;
  server_error_text : ServerError → string
}.

(** A tip as a decoded message carries it: a 32-byte hash, a [u64] height. *)
Definition tip_in_range (t : option BlockHash) (h : option Z) : Prop :=
  match h with Some z => u64 z | None => True end
  ∧ match t with Some t => length (BlockHash_as_bytes t) = 32%nat | None => True end.

(** What arrives over a decoded transport has the ranges of its types. *)
Class EnvironmentLaws `{B : Bincode} (N : Environment) : Prop := {
  dial_in_range l a h r : on_dial l a h = Ok r → tip_in_range (hello_tip r) (hello_height r);
  answer_in_range l h t : on_tip l h = Ok t → tip_in_range (tip t) (tip_height t);
  block_in_range l h x b : on_block l h x = Ok (Some b) → Block_wf b ∧ Block_encodable b
}.

(** ** Time stamps *)

Definition format_timestamp_string (seconds : Z) : string :=
  String.append "unix:" (NilZero.string_of_uint (N.to_uint (Z.to_N seconds))).

Definition strip_prefix (p s : string) : option string :=
  if String.prefix p s then Some (String.substring (String.length p) (String.length s) s) else None.

(** [str::parse::<u64>]: an optional plus sign and at least one digit. *)
Definition parse_u64 (s : string) : option Z :=
  let digits := match s with
                | String c rest => if bool_decide (c = Ascii.ascii_of_nat 43) then rest else s
                | EmptyString => s
                end in
  u ← NilZero.uint_of_string digits;
  let z := Z.of_N (N.of_uint u) in
  if bool_decide (z < 2 ^ 64) then Some z else None.

Definition parse_timestamp_string (value : string) : option Z :=
  rest ← strip_prefix "unix:" value;
  parse_u64 rest.

Lemma substring_all n s : (String.length s ≤ n)%nat → String.substring 0 n s = s.
Proof. revert n. induction s as [|c s IH]; intros [|n] Hn; cbn in *; try lia; f_equal; auto with lia. Qed.

Lemma strip_prefix_app p s : strip_prefix p (String.append p s) = Some s.
Proof.
  assert (∀ n, String.substring (String.length p) n (String.append p s) = String.substring 0 n s) as Hsub.
  { intros n. induction p as [|c p IH]; [done|].
    change (String.append (String c p) s) with (String c (String.append p s)). exact IH. }
  assert (String.prefix p (String.append p s) = true ∧
    (String.length s ≤ String.length (String.append p s))%nat) as [Hp Hl].
  { clear Hsub. induction p as [|c p [IH1 IH2]]; [split; [by destruct s|done]|].
    change (String.append (String c p) s) with (String c (String.append p s)). cbn.
    destruct (Ascii.ascii_dec c c); [|done]. split; [done|lia]. }
  unfold strip_prefix. rewrite Hp, Hsub. by rewrite substring_all.
Qed.

(** A stamp that was written is read back. *)
Lemma parse_format_timestamp z : u64 z → parse_timestamp_string (format_timestamp_string z) = Some z.
Proof.
  intros [Hz0 Hz]. unfold parse_timestamp_string, format_timestamp_string.
  set (u := N.to_uint (Z.to_N z)). rewrite strip_prefix_app. cbn [mbind option_bind]. unfold parse_u64.
  assert (u ≠ Decimal.Nil) as Hu.
  { intros Hn. unfold u in Hn. apply (f_equal N.of_uint) in Hn as Hz'. rewrite Unsigned.of_to in Hz'.
    cbn in Hz'. rewrite Hz' in Hn. done. }
  replace (match NilZero.string_of_uint u with
           | EmptyString => NilZero.string_of_uint u
           | String c rest => if bool_decide (c = Ascii.ascii_of_nat 43) then rest
                              else NilZero.string_of_uint u
           end) with (NilZero.string_of_uint u) by (by destruct u).
  rewrite NilZero.usu by done. cbn. unfold u. rewrite Unsigned.of_to, Z2N.id by done.
  by rewrite bool_decide_eq_true_2.
Qed.

(** ** Operations *)

Section runtime.
Context `{C : Crypto} `{B : Bincode} `{N : !Environment}.

Record World := { server : Server; log : list Effect }.

Definition server_op (E A : Type) : Type := World → World * result (option E) A.

#[global] Instance server_op_ret {E} : MRet (server_op E) := λ A a w, (w, Ok a).
#[global] Instance server_op_bind {E} : MBind (server_op E) := λ A D f m w,
  match m w with
  | (w, Ok a) => f a w
  | (w, Err e) => (w, Err e)
  | (w, Panic) => (w, Panic)
  end.

Definition raise {E A} (e : E) : server_op E A := λ w, (w, Err (Some e)).
Definition out_of_fuel {E A} : server_op E A := λ w, (w, Err None).
Definition panic {E A} : server_op E A := λ w, (w, Panic).

Definition lift_result {E A} (r : result E A) : server_op E A := λ w, (w, map_err Some r).
(** A call that can only panic, and [Option::expect]. *)
Definition expecting {E A} (o : may_panic A) : server_op E A := λ w, (w, expect o).

Definition gets {E A} (f : Server → A) : server_op E A := λ w, (w, Ok (f (server w))).
Definition modify {E} (f : Server → Server) : server_op E unit := λ w,
  ({| server := f (server w); log := log w |}, Ok ()).

(** A [match] on the result of an operation. *)
Definition attempt {E F A D} (m : server_op E A) (k : result E A → server_op F D) : server_op F D :=
  λ w,
  match m w with
  | (w, Ok a) => k (Ok a) w
  | (w, Err (Some e)) => k (Err e) w
  | (w, Err None) => (w, Err None)
  | (w, Panic) => (w, Panic)
  end.

(** [let _ = m]. *)
Definition ignore {E F A} (m : server_op E A) : server_op F unit := attempt m (λ _, mret ()).
(** [m.map_err(f)?]. *)
Definition map_error {E F A} (f : E → F) (m : server_op E A) : server_op F A :=
  attempt m (λ r, lift_result (map_err f r)).

(** An action on the outside and its answer. *)
Definition act {E A} (e : Effect) (answer : list Effect → A) : server_op E A := λ w,
  ({| server := server w; log := log w ++ [e] |}, Ok (answer (log w))).
Definition emit {E} (e : Effect) : server_op E unit := act e (λ _, ()).

Fixpoint for_all_do {E A} (f : A → server_op E unit) (l : list A) : server_op E unit :=
  match l with
  | [] => mret ()
  | a :: l => _ ← f a; for_all_do f l
  end.

(** [Iterator::find] with a predicate that reads the clock. *)
Fixpoint find_do {E A} (f : A → server_op E bool) (l : list A) : server_op E (option A) :=
  match l with
  | [] => mret None
  | a :: l => b ← f a; if (b : bool) then mret (Some a) else find_do f l
  end.

Definition set_state (s : Server) (x : NodeState) : Server := {|
  config := config s; state := x; peers := peers s; connected_peers := connected_peers s;
  sqlite_store := sqlite_store s; runtime_handle := runtime_handle s;
  server_handle := server_handle s; channel_capacity := channel_capacity s;
  bootstrap_sync := bootstrap_sync s; mining := mining s; miner := miner s
|}.
Definition set_runtime_peers (s : Server) (x : gmap string RuntimePeer) : Server := {|
  config := config s; state := state s; peers := x; connected_peers := connected_peers s;
  sqlite_store := sqlite_store s; runtime_handle := runtime_handle s;
  server_handle := server_handle s; channel_capacity := channel_capacity s;
  bootstrap_sync := bootstrap_sync s; mining := mining s; miner := miner s
|}.
Definition set_connected (s : Server) (x : gset string) : Server := {|
  config := config s; state := state s; peers := peers s; connected_peers := x;
  sqlite_store := sqlite_store s; runtime_handle := runtime_handle s;
  server_handle := server_handle s; channel_capacity := channel_capacity s;
  bootstrap_sync := bootstrap_sync s; mining := mining s; miner := miner s
|}.
Definition set_store (s : Server) (x : SqliteStore) : Server := {|
  config := config s; state := state s; peers := peers s; connected_peers := connected_peers s;
  sqlite_store := Some x; runtime_handle := runtime_handle s;
  server_handle := server_handle s; channel_capacity := channel_capacity s;
  bootstrap_sync := bootstrap_sync s; mining := mining s; miner := miner s
|}.
Definition set_bootstrap (s : Server) (x : bool) : Server := {|
  config := config s; state := state s; peers := peers s; connected_peers := connected_peers s;
  sqlite_store := sqlite_store s; runtime_handle := runtime_handle s;
  server_handle := server_handle s; channel_capacity := channel_capacity s;
  bootstrap_sync := x; mining := mining s; miner := miner s
|}.
Definition set_mining (s : Server) (x : MiningConfig) : Server := {|
  config := config s; state := state s; peers := peers s; connected_peers := connected_peers s;
  sqlite_store := sqlite_store s; runtime_handle := runtime_handle s;
  server_handle := server_handle s; channel_capacity := channel_capacity s;
  bootstrap_sync := bootstrap_sync s; mining := Some x; miner := miner s
|}.
Definition take_miner (s : Server) : Server := {|
  config := config s; state := state s; peers := peers s; connected_peers := connected_peers s;
  sqlite_store := sqlite_store s; runtime_handle := runtime_handle s;
  server_handle := server_handle s; channel_capacity := channel_capacity s;
  bootstrap_sync := bootstrap_sync s; mining := mining s; miner := false
|}.

(** A method of the node state. *)
Definition node_do {E A} (f : NodeState → NodeState * result (option E) A) : server_op E A := λ w,
  let '(s, r) := f (state (server w)) in
  ({| server := set_state (server w) s; log := log w |}, r).

(** A method of the store, with the [expect] that there is one. *)
Definition store_do {A} (op : store_op A) : server_op SqliteStoreError A := λ w,
  match sqlite_store (server w) with
  | None => (w, Panic)
  | Some db =>
      let '(db, r) := op db in
      ({| server := set_store (server w) db; log := log w |}, map_err Some r)
  end.

Definition has_store {E} : server_op E bool :=
  gets (λ s, bool_decide (is_Some (sqlite_store s))).

(** [if let Some(peer) = self.peers.get_mut(addr) { .. }] *)
Definition update_peer {E} (addr : string) (f : RuntimePeer → RuntimePeer) : server_op E unit :=
  modify (λ s, set_runtime_peers s (alter f addr (peers s))).

Definition current_unix_seconds {E} : server_op E Z := act ReadClock on_clock.

Definition now_timestamp_string {E} : server_op E string :=
  seconds ← current_unix_seconds;
  mret (format_timestamp_string seconds).

(** ** Peer records *)

Definition ensure_runtime_peer {E} (e : PeerEndpoint) (src : PeerSource) : server_op E unit :=
  modify (λ s, match peers s !! endpoint_addr e with
               | Some _ => s
               | None => set_runtime_peers s
                           (<[endpoint_addr e := new_peer e (from_endpoint e src)]> (peers s))
               end).

(** [entry(..).and_modify(..).or_insert_with(..)]. *)
Definition put_peer (s : Server) (p : StoredPeer) : Server :=
  set_runtime_peers s (<[peer_addr p :=
    match peers s !! peer_addr p with
    | Some runtime => set_stored (set_endpoint runtime (endpoint p)) p
    | None => new_peer (endpoint p) p
    end]> (peers s)).

Definition update_persisted_peer (e : PeerEndpoint) (src : PeerSource)
    (update : StoredPeer → server_op SqliteStoreError StoredPeer)
    : server_op SqliteStoreError unit :=
  loaded ← store_do (query (λ db, load_peer db (endpoint_addr e)));
  let peer := default (from_endpoint e src) loaded in
  let peer := if endpoint_node_name e then set_peer_name peer (endpoint_node_name e) else peer in
  peer ← update peer;
  _ ← modify (λ s, put_peer s peer);
  store_do (save_peer peer).

(** The tip a stored peer advertised, seen at [now]. *)
Definition saw_tip (p : StoredPeer) (t : option BlockHash) (h : option Z) (now : string) : StoredPeer :=
  set_times (set_tip p t h) (last_hello_at p) (Some now) (last_connect_at p) (last_success_at p).
Definition saw_hello (p : StoredPeer) (h : HelloMessage) (now : string) : StoredPeer :=
  set_times (set_tip p (hello_tip h) (hello_height h)) (Some now) (Some now) (last_connect_at p)
    (last_success_at p).

(** [record_inbound_hello], called with no socket address. *)
Definition record_inbound_hello (remote : HelloMessage) : server_op SqliteStoreError unit :=
  let e := {| endpoint_addr := default "unknown" (advertised_addr remote);
              endpoint_node_name := hello_node_name remote |} in
  now ← now_timestamp_string;
  st ← has_store;
  if (st : bool) then update_persisted_peer e Hello (λ p, mret (saw_hello p remote now))
  else
    _ ← ensure_runtime_peer e Hello;
    update_peer (endpoint_addr e) (λ r,
      set_stored (set_endpoint r e) (saw_hello (stored r) remote now)).

(** The order in which [HashMap::values] yields is not specified; the model
    takes the order of [map_to_list]. *)
Definition sync_peer_from_origin (s : Server) (o : PeerAddr) : option PeerEndpoint :=
  match origin_addr o with
  | Some a => Some {| endpoint_addr := a; endpoint_node_name := origin_node_name o |}
  | None =>
      name ← origin_node_name o;
      p ← List.find (λ p : string * RuntimePeer,
            bool_decide (endpoint_node_name (rp_endpoint p.2) = Some name)) (map_to_list (peers s));
      Some (rp_endpoint p.2)
  end.

Definition record_inbound_tip (o : option PeerAddr) (summary : TipSummary)
    : server_op SqliteStoreError unit :=
  s ← gets id;
  let found := o ≫= sync_peer_from_origin s in
  let advertised :=
    o ← o; a ← origin_addr o;
    Some {| endpoint_addr := a; endpoint_node_name := origin_node_name o |} in
  match (match found with Some e => Some e | None => advertised end) with
  | None => mret ()
  | Some e =>
      now ← now_timestamp_string;
      st ← has_store;
      if (st : bool) then
        update_persisted_peer e Hello (λ p, mret (saw_tip p (tip summary) (tip_height summary) now))
      else
        _ ← ensure_runtime_peer e Hello;
        update_peer (endpoint_addr e) (λ r,
          set_stored r (saw_tip (stored r) (tip summary) (tip_height summary) now))
  end.

Definition record_peer_connect_attempt (e : PeerEndpoint) : server_op SqliteStoreError unit :=
  st ← has_store;
  if negb st then mret ()
  else
    update_persisted_peer e Seed (λ p,
      now ← now_timestamp_string;
      mret (set_times p (last_hello_at p) (last_seen_at p) (Some now) (last_success_at p))).

Definition record_peer_connect_success (e : PeerEndpoint) (remote : HelloMessage)
    : server_op SqliteStoreError unit :=
  st ← has_store;
  if negb st then mret ()
  else
    update_persisted_peer e Seed (λ p,
      let p := set_peer_name p (match hello_node_name remote with
                                | Some n => Some n
                                | None => peer_node_name p
                                end) in
      let p := set_tip p (hello_tip remote) (hello_height remote) in
      hello ← now_timestamp_string;
      seen ← now_timestamp_string;
      connect ← now_timestamp_string;
      success ← now_timestamp_string;
      let p := set_times p (Some hello) (Some seen) (Some connect) (Some success) in
      mret (set_outcome p None (saturating_add 32 (connections p) 1) (failed_connections p))).

Definition record_peer_connect_failure (e : PeerEndpoint) (err : SyncError)
    : server_op SqliteStoreError unit :=
  st ← has_store;
  if negb st then mret ()
  else
    update_persisted_peer e Seed (λ p,
      now ← now_timestamp_string;
      let p := set_times p (last_hello_at p) (last_seen_at p) (Some now) (last_success_at p) in
      mret (set_outcome p (Some (sync_error_text err)) (connections p)
              (saturating_add 32 (failed_connections p) 1))).

(** ** Outbound sessions *)

(** [RuntimePeer::disconnect] of the peer at an address. *)
Definition disconnect_peer {E} (addr : string) : server_op E unit :=
  s ← gets id;
  match peers s !! addr ≫= session with
  | None => mret ()
  | Some h =>
      _ ← update_peer addr (λ p, set_session p None);
      emit (CloseSession h)
  end.

Definition ensure_peer_connected (e : PeerEndpoint) : server_op SyncError PeerHandle :=
  _ ← ensure_runtime_peer e Seed;
  s ← gets id;
  match peers s !! endpoint_addr e ≫= session with
  | Some h => mret h
  | None =>
      _ ← ignore (record_peer_connect_attempt e);
      s ← gets id;
      _ ← expecting (if runtime_handle s then Some () else None);
      let hello := local_hello (config s) (state s) in
      answer ← act (Dial (endpoint_addr e) hello)
                 (λ l, (length l, on_dial l (endpoint_addr e) hello));
      match answer.2 with
      | Ok remote =>
          _ ← map_error SyncPersist (record_peer_connect_success e remote);
          s ← gets id;
          _ ← expecting (peers s !! endpoint_addr e);
          _ ← update_peer (endpoint_addr e) (λ p, attach_session p answer.1);
          mret answer.1
      | Err err =>
          let sync_err := SyncHandshake err in
          _ ← ignore (record_peer_connect_failure e sync_err);
          raise sync_err
      | Panic => panic
      end
  end.

(** The [for attempt in 0..2] loop of [request_tip_from_peer]. *)
Fixpoint request_tip_attempts (e : PeerEndpoint) (attempts : list nat)
    : server_op SyncError TipSummary :=
  match attempts with
  | [] => panic
  | attempt :: attempts =>
      h ← ensure_peer_connected e;
      request ← act (AskTip h) (λ l, on_tip l h);
      match request with
      | Ok summary =>
          st ← has_store;
          _ ← (if (st : bool) then
                 map_error SyncPersist (update_persisted_peer e Seed (λ p,
                   now ← now_timestamp_string;
                   let p := saw_tip p (tip summary) (tip_height summary) now in
                   mret (set_outcome p None (connections p) (failed_connections p))))
               else
                 s ← gets id;
                 match peers s !! endpoint_addr e with
                 | None => mret ()
                 | Some _ =>
                     now ← now_timestamp_string;
                     update_peer (endpoint_addr e) (λ r,
                       let p := saw_tip (stored r) (tip summary) (tip_height summary) now in
                       set_stored r (set_outcome p None (connections p) (failed_connections p)))
                 end);
          mret summary
      | Err err =>
          if bool_decide (attempt = 0%nat) then
            _ ← disconnect_peer (endpoint_addr e); request_tip_attempts e attempts
          else raise (SyncRequest err)
      | Panic => panic
      end
  end.

Definition request_tip_from_peer (e : PeerEndpoint) : server_op SyncError TipSummary :=
  request_tip_attempts e (seq 0 2).

Fixpoint request_block_attempts (e : PeerEndpoint) (hash : BlockHash) (attempts : list nat)
    : server_op SyncError (option Block) :=
  match attempts with
  | [] => panic
  | attempt :: attempts =>
      h ← ensure_peer_connected e;
      request ← act (AskBlock h hash) (λ l, on_block l h hash);
      match request with
      | Ok block => mret block
      | Err err =>
          if bool_decide (attempt = 0%nat) then
            _ ← disconnect_peer (endpoint_addr e); request_block_attempts e hash attempts
          else raise (SyncRequest err)
      | Panic => panic
      end
  end.

Definition request_block_from_peer (e : PeerEndpoint) (hash : BlockHash)
    : server_op SyncError (option Block) :=
  request_block_attempts e hash (seq 0 2).

Definition announce_to_peer_once (e : PeerEndpoint) (m : WireMessage) : server_op io_Error unit :=
  h ← map_error (λ err, io_error Other (sync_error_text err)) (ensure_peer_connected e);
  r ← act (Tell (endpoint_addr e) h m) (λ l, on_tell l h m);
  lift_result r.

Definition RELAY_CONNECT_ATTEMPTS : nat := 3.

Fixpoint announce_attempts (e : PeerEndpoint) (m : WireMessage) (attempts : nat)
    (last_error : option io_Error) : server_op io_Error unit :=
  match attempts with
  | O =>
      err ← expecting last_error;
      raise err
  | S attempts =>
      attempt (announce_to_peer_once e m) (λ r,
        match r with
        | Ok _ => mret ()
        | Err err =>
            _ ← disconnect_peer (endpoint_addr e);
            announce_attempts e m attempts (Some err)
        | Panic => panic
        end)
  end.

Definition announce_to_peer_best_effort (e : PeerEndpoint) (m : WireMessage)
    : server_op io_Error unit :=
  announce_attempts e m RELAY_CONNECT_ATTEMPTS None.

(** [sort_by] address. *)
Definition endpoint_le (a b : PeerEndpoint) : Prop := String.le (endpoint_addr a) (endpoint_addr b).
#[global] Instance endpoint_le_dec : RelDecision endpoint_le.
Proof. unfold endpoint_le. intros a b. apply _. Defined.

Definition peer_endpoints (s : Server) : list PeerEndpoint :=
  merge_sort endpoint_le ((λ p : string * RuntimePeer, rp_endpoint p.2) <$> map_to_list (peers s)).

Definition peer_matches_origin (e : PeerEndpoint) (o : option PeerAddr) : bool :=
  match o with
  | None => false
  | Some o =>
      match origin_addr o with
      | Some a => bool_decide (endpoint_addr e = a)
      | None => bool_decide (endpoint_node_name e = origin_node_name o)
      end
  end.

Definition relay_best_effort {E} (m : WireMessage) (o : option PeerAddr) : server_op E unit :=
  es ← gets peer_endpoints;
  for_all_do (λ e, if peer_matches_origin e o then mret ()
                   else ignore (announce_to_peer_best_effort e m)) es.

End runtime.
