(* ===== verification/Server.v ===== *)
(** * server.rs: the event loop, message handlers, sync, relay and persistence policy

    The handlers of the server over the operations of [Runtime].  [fuel] bounds
    the two unbounded loops, the nonce search of [mine_pending] and the walk from an advertised tip to a
    known ancestor; an operation that exhausts it is still running ([Err None]).
    Logging is left out. *)

From S2P Require Import Prelude Bytes Crypto Types State Consensus Chain Mempool Wire.
From S2P Require Import Admin Mining NodeState Home Peers Client Peer TxIndex Store Runtime.

(** The reply channels of the source are the replies of [handle_event]. *)
Inductive ServerEvent :=
| BootstrapEvent
| PeerConnected (peer_id : string)
| PeerMessage (origin : option PeerAddr) (message : WireMessage)
| PeerDisconnected (peer_id : string)
| AdminEvent (request : AdminRequest)
| TipSync (origin : PeerAddr) (summary : TipSummary)
| SyncTick
| MinedCandidate (block : Block)
| StopEvent.

Inductive ServerReply `{B : Bincode} :=
| NoReply
| BootstrapReply
| MessageReply (r : result ServerError (list WireMessage))
| AdminReply (r : AdminResponse).

Definition CONFIGURED_PEER_SYNC_COOLDOWN : Z := 5.

Definition mempool_txids (mp : Mempool.Mempool) : gset Txid := dom mp.

(** [replies.iter().find_map(..)] of the mined block's hash. *)
Fixpoint mined_block_hash (replies : list WireMessage) : option BlockHash :=
  match replies with
  | [] => None
  | WMinedBlock r :: _ => Some (mined_hash r)
  | _ :: replies => mined_block_hash replies
  end.

Definition announced_block_needs_ancestor_sync (err : NodeStateError) (parent_hash : BlockHash)
    : bool :=
  match err with
  | NChain (MissingParent _) | NChain GenesisHasParent =>
      bool_decide (parent_hash ≠ BlockHash_default)
  | _ => false
  end.

Section server.
Context `{C : Crypto} `{B : Bincode} `{N : !Environment}.
Context (fuel : nat).

Record ServerOptions := {
  opt_config : NodeConfig;
  opt_state : NodeState;
  opt_peers : list PeerEndpoint;
  (** The database at [sqlite_path], opened. *)
  opt_store : option SqliteStore;
  opt_bootstrap_sync : bool;
  opt_mining : option MiningConfig;
  opt_channel_capacity : Z
}.

Definition ServerOptions_new (c : NodeConfig) (s : NodeState) : ServerOptions := {|
  opt_config := c; opt_state := s; opt_peers := []; opt_store := None;
  opt_bootstrap_sync := false; opt_mining := None; opt_channel_capacity := 64
|}.

Definition Server_new (o : ServerOptions) : Server := {|
  config := opt_config o;
  state := opt_state o;
  peers := foldl (λ m e, <[endpoint_addr e := new_peer e (from_endpoint e Seed)]> m) ∅ (opt_peers o);
  connected_peers := ∅;
  sqlite_store := opt_store o;
  runtime_handle := false;
  server_handle := false;
  channel_capacity := opt_channel_capacity o;
  bootstrap_sync := opt_bootstrap_sync o;
  mining := opt_mining o;
  miner := false
|}.

Definition saved_block_hash (m : WireMessage) : option BlockHash :=
  match m with
  | WAnnounceBlock b => Some (header_hash (header b))
  | _ => None
  end.

(** Whether a summary advertises chain data the node does not know. *)
Definition tip_summary_advances_local_state (s : NodeState) (t : TipSummary) : bool :=
  match tip t with
  | Some h => bool_decide (get_block s h = None)
  | None => false
  end
  || bool_decide (default 0 (tip_height (tip_summary s)) < default 0 (tip_height t)).

(** ** Persistence *)

Definition block_save_requires_mempool_index_refresh (s : NodeState) (h : BlockHash)
    (previous_best_tip : option BlockHash) (previous_txids : gset Txid) : may_panic bool :=
  match entries (chain s) !! h with
  | None => Some true
  | Some entry =>
      if bool_decide (best_tip (chain s) ≠ Some h) then Some false
      else
        let extends_previous_tip :=
          match previous_best_tip, parent entry with
          | None, None => true
          | Some previous, Some p => bool_decide (p = previous)
          | _, _ => false
          end in
        if negb extends_previous_tip then Some true
        else
          match get_block s h with
          | None => Some true
          | Some b =>
              ids ← mapM Transaction_txid (tail (transactions b));
              Some (bool_decide (previous_txids ∖ mempool_txids (mempool s)
                                 ≠ list_to_set (C:=gset Txid) ids))
          end
  end.

Definition save_accepted_block_state (h : BlockHash) (previous_best_tip : option BlockHash)
    (previous_txids : gset Txid) : server_op SqliteStoreError unit :=
  st ← has_store;
  if negb st then mret ()
  else
    s ← gets state;
    _ ← store_do (save_accepted_block s h);
    refresh ← expecting
      (block_save_requires_mempool_index_refresh s h previous_best_tip previous_txids);
    if (refresh : bool) then store_do (save_mempool_state s) else mret ().

Definition save_sqlite (m : WireMessage) (request_block_hash previous_best_tip : option BlockHash)
    (previous_txids : gset Txid) (replies : list WireMessage) : server_op SqliteStoreError unit :=
  st ← has_store;
  if negb st then mret ()
  else
    match m with
    | WAnnounceTx tx => store_do (save_mempool_transaction tx)
    | _ =>
        s ← gets state;
        match (match request_block_hash with
               | Some h => Some h
               | None => mined_block_hash replies
               end) with
        | None =>
            _ ← store_do (save_active_utxos (active_utxos s));
            store_do (save_mempool (mempool s))
        | Some h =>
            refresh ← expecting
              (block_save_requires_mempool_index_refresh s h previous_best_tip previous_txids);
            if (refresh : bool) then save_accepted_block_state h previous_best_tip previous_txids
            else store_do (save_accepted_block s h)
        end
    end.

(** ** Mining *)

Definition build_mining_candidate {E} : server_op E (option Block) :=
  s ← gets id;
  match mining s with
  | None => mret None
  | Some cfg =>
      if Mempool_is_empty (mempool (state s)) then mret None
      else
        let '(cfg, request) := next_request cfg in
        _ ← modify (λ s, set_mining s cfg);
        let prev := default BlockHash_default (best_tip (chain (state s))) in
        sel ← expecting (collect_valid (mempool (state s)) (active_utxos (state s))
                           (max_transactions request));
        let pending := sel.1 in
        if bool_decide (pending = []) then mret None
        else
          match try_fold (λ total tx,
                  f ← transaction_fee (active_utxos (state s)) tx;
                  ok_or (checked_add 64 total f) InputValueOverflow) 0 pending with
          | Panic => panic
          | Err _ => mret None
          | Ok total_fees =>
              match parse_verifying_key (miner_public_key request) with
              | None => mret None
              | Some miner_key =>
                  amount ← expecting (add_or_panic 64 (reward request) total_fees);
                  candidate ← expecting (build_candidate prev amount miner_key
                    (uniqueness request) (request_bits request) pending);
                  mret (Some candidate)
              end
          end
  end.

Definition refresh_mining_candidate {E} : server_op E unit :=
  s ← gets id;
  match mining s with
  | None => mret ()
  | Some _ =>
      candidate ← build_mining_candidate;
      if negb (miner s) then mret ()
      else
        match candidate with
        | None => emit CancelCandidate
        | Some c => emit (SubmitCandidate c)
        end
  end.

Definition maybe_refresh_mining {E} (previous_best_tip : option BlockHash)
    (previous_txids : gset Txid) : server_op E unit :=
  s ← gets state;
  if bool_decide (best_tip (chain s) = previous_best_tip)
     && bool_decide (mempool_txids (mempool s) = previous_txids)
  then mret ()
  else refresh_mining_candidate.

(** ** Relay *)

Definition relay_message_before_handle (s : NodeState) (m : WireMessage)
    : may_panic (option WireMessage) :=
  match m with
  | WAnnounceTx tx =>
      id ← Transaction_txid tx;
      Some (if mempool s !! id then None else Some m)
  | WAnnounceBlock b =>
      Some (if get_block s (header_hash (header b)) then None else Some m)
  | WAnnounceTip t => Some (if tip_summary_advances_local_state s t then Some m else None)
  | _ => Some None
  end.

(** [replies.iter().find_map(..)] of a mined block the node has. *)
Fixpoint relay_message_from_replies (s : NodeState) (replies : list WireMessage)
    : option WireMessage :=
  match replies with
  | [] => None
  | WMinedBlock r :: replies =>
      match get_block s (mined_hash r) with
      | Some b => Some (WAnnounceBlock b)
      | None => relay_message_from_replies s replies
      end
  | _ :: replies => relay_message_from_replies s replies
  end.

Definition relay_new_best_tip_if_advanced {E} (previous_best_tip : option BlockHash)
    (o : option PeerAddr) : server_op E unit :=
  s ← gets state;
  if bool_decide (best_tip (chain s) = previous_best_tip) then mret ()
  else relay_best_effort (WAnnounceTip (tip_summary s)) o.

(** What every handler that changed the state does once the message succeeded:
    save, relay the object, announce the new tip, refresh the miner. *)
Definition save_and_relay (m : WireMessage) (block_hash previous_best_tip : option BlockHash)
    (previous_txids : gset Txid) (relay : option WireMessage) (replies : list WireMessage)
    (o : option PeerAddr) : server_op ServerError unit :=
  _ ← map_error SqlitePersist (save_sqlite m block_hash previous_best_tip previous_txids replies);
  s ← gets state;
  _ ← (match (match relay with
              | Some r => Some r
              | None => relay_message_from_replies s replies
              end) with
       | Some r => relay_best_effort r o
       | None => mret ()
       end);
  _ ← relay_new_best_tip_if_advanced previous_best_tip o;
  maybe_refresh_mining previous_best_tip previous_txids.

(** ** Sync *)

(** The request loop of [sync_to_advertised_tip]: the blocks fetched, tip first. *)
Fixpoint fetch_missing (n : nat) (e : PeerEndpoint) (next_hash : BlockHash) (missing : list Block)
    : server_op SyncError (list Block) :=
  s ← gets state;
  if bool_decide (is_Some (get_block s next_hash)) then mret missing
  else
    match n with
    | O => out_of_fuel
    | S n =>
        reply ← request_block_from_peer e next_hash;
        block ← lift_result (ok_or reply (MissingRemoteBlock next_hash));
        let parent_hash := prev_blockhash (header block) in
        let missing := missing ++ [block] in
        if bool_decide (parent_hash = BlockHash_default) then mret missing
        else fetch_missing n e parent_hash missing
    end.

Definition accept_synced_block (b : Block) (previous_best_tip : option BlockHash)
    (previous_txids : gset Txid) : server_op SyncError (option Block) :=
  let h := header_hash (header b) in
  s ← gets state;
  if bool_decide (is_Some (get_block s h)) then mret None
  else
    _ ← map_error AcceptBlock (node_do (λ s, let '(s, r) := accept_block s b in (s, map_err Some r)));
    _ ← map_error SyncPersist (save_accepted_block_state h previous_best_tip previous_txids);
    mret (Some b).

Fixpoint accept_synced_blocks (bs accepted : list Block) : server_op SyncError (list Block) :=
  match bs with
  | [] => mret accepted
  | b :: bs =>
      s ← gets state;
      r ← accept_synced_block b (best_tip (chain s)) (mempool_txids (mempool s));
      accept_synced_blocks bs (accepted ++ option_list r)
  end.

Definition sync_to_advertised_tip (e : PeerEndpoint) (t : TipSummary)
    : server_op SyncError (list Block) :=
  match tip t with
  | None => mret []
  | Some remote_tip =>
      s ← gets state;
      if bool_decide (is_Some (get_block s remote_tip)) then mret []
      else
        missing ← fetch_missing fuel e remote_tip [];
        accept_synced_blocks (reverse missing) []
  end.

Definition sync_from_peer (e : PeerEndpoint) : server_op SyncError (list Block) :=
  _ ← update_peer (endpoint_addr e) begin_sync;
  attempt (t ← request_tip_from_peer e; sync_to_advertised_tip e t) (λ r : result SyncError _,
    _ ← update_peer (endpoint_addr e) finish_sync;
    lift_result r).

Definition peer_is_ready_for_sync {E} (p : StoredPeer) : server_op E bool :=
  match last_connect_at p ≫= parse_timestamp_string with
  | None => mret true
  | Some seconds =>
      now ← current_unix_seconds;
      mret (bool_decide (CONFIGURED_PEER_SYNC_COOLDOWN ≤ saturating_sub now seconds))
  end.

Definition peer_endpoint_is_ready_for_sync {E} (e : PeerEndpoint) : server_op E bool :=
  s ← gets id;
  match peers s !! endpoint_addr e with
  | Some r => peer_is_ready_for_sync (stored r)
  | None => mret true
  end.

(** Highest advertised tip first, then by address. *)
Definition sync_candidate_le (a b : StoredPeer) : Prop :=
  default 0 (advertised_height b) < default 0 (advertised_height a)
  ∨ default 0 (advertised_height b) = default 0 (advertised_height a)
    ∧ String.le (peer_addr a) (peer_addr b).
#[global] Instance sync_candidate_le_dec : RelDecision sync_candidate_le.
Proof. unfold sync_candidate_le. intros a b. apply _. Defined.

(** Whether a peer advertised something the node does not have. *)
Definition peer_is_ahead (s : NodeState) (p : StoredPeer) : bool :=
  bool_decide (default 0 (tip_height (tip_summary s)) < default 0 (advertised_height p))
  || match advertised_tip_hash p with
     | Some h => bool_decide (get_block s h = None)
     | None => false
     end.

Definition select_sync_peers {E} : server_op E (list PeerEndpoint) :=
  s ← gets id;
  let candidates := merge_sort sync_candidate_le
    ((λ p : string * RuntimePeer, stored p.2) <$> map_to_list (peers s)) in
  best ← find_do (λ p,
           ready ← peer_is_ready_for_sync p;
           mret ((ready : bool) && peer_is_ahead (state s) p)) candidates;
  match best with
  | Some p => mret [endpoint p]
  | None =>
      found ← find_do (λ e,
        if (match peers s !! endpoint_addr e with
            | Some r => bool_decide (advertised_height (stored r) = None)
            | None => true
            end) then peer_endpoint_is_ready_for_sync e else mret false) (peer_endpoints s);
      mret (option_list found)
  end.

Definition sync_known_peers_best_effort {E} : server_op E unit :=
  es ← select_sync_peers;
  for_all_do (λ e,
    attempt (sync_from_peer e) (λ r,
      match r with
      | Err err => ignore (record_peer_connect_failure e err)
      | _ => mret ()
      end)) es.

Definition peer_sync_in_progress (s : Server) (addr : string) : bool :=
  match peers s !! addr with
  | Some p => sync_in_progress p
  | None => false
  end.

Definition peer_tip_sync_is_duplicate (s : Server) (addr : string) (t : TipSummary) : bool :=
  bool_decide (peers s !! addr ≫= last_tip_sync_hint = Some t).

Definition remember_tip_sync_hint {E} (addr : string) (t : TipSummary) : server_op E unit :=
  update_peer addr (λ p, set_hint p t).

Definition handle_tip_sync {E} (o : PeerAddr) (t : TipSummary) : server_op E unit :=
  s ← gets id;
  if negb (tip_summary_advances_local_state (state s) t) then mret ()
  else
    match sync_peer_from_origin s o with
    | None => mret ()
    | Some e =>
        if peer_tip_sync_is_duplicate s (endpoint_addr e) t then mret ()
        else if peer_sync_in_progress s (endpoint_addr e) then mret ()
        else
          _ ← remember_tip_sync_hint (endpoint_addr e) t;
          let previous_best_tip := best_tip (chain (state s)) in
          let previous_txids := mempool_txids (mempool (state s)) in
          _ ← update_peer (endpoint_addr e) begin_sync;
          attempt (sync_to_advertised_tip e t) (λ r,
            let accepted := match r with Ok bs => bs | _ => [] end in
            _ ← update_peer (endpoint_addr e) finish_sync;
            _ ← for_all_do (λ b, relay_best_effort (WAnnounceBlock b) (Some o)) accepted;
            _ ← relay_new_best_tip_if_advanced previous_best_tip (Some o);
            maybe_refresh_mining previous_best_tip previous_txids)
    end.

Definition handle_sync_tick {E} : server_op E unit :=
  pending ← gets bootstrap_sync;
  if (pending : bool) then mret () else sync_known_peers_best_effort.

(** ** Peer messages *)

Definition handle_peer_hello (remote : HelloMessage) : server_op ServerError (list WireMessage) :=
  _ ← map_error SqlitePersist (record_inbound_hello remote);
  s ← gets id;
  if bool_decide (network remote ≠ config_network (config s)) then
    raise (ServerPeer (NetworkMismatch (config_network (config s)) (network remote)))
  else if bool_decide (hello_version remote ≠ PROTOCOL_VERSION) then
    raise (ServerPeer (UnsupportedVersion (hello_version remote)))
  else mret [WHello (local_hello (config s) (state s))].

Definition handle_peer_get_tip : server_op ServerError (list WireMessage) :=
  s ← gets state;
  mret [WTip (tip_summary s)].

Definition handle_peer_get_block (h : BlockHash) : server_op ServerError (list WireMessage) :=
  s ← gets state;
  mret [WBlock (get_block s h)].

Definition handle_peer_announce_tip (t : TipSummary) (o : option PeerAddr)
    : server_op ServerError (list WireMessage) :=
  _ ← map_error SqlitePersist (record_inbound_tip o t);
  mret [].

(** The two state changes of [handle_state_mutating_peer_message]. *)
Definition apply_announcement (m : WireMessage) : server_op ServerError (list WireMessage) :=
  match m with
  | WAnnounceTx tx =>
      attempt (node_do (λ s, let '(s, r) := submit_transaction s tx in (s, map_err Some r)))
        (λ r, match r with
              | Ok _ | Err (NMempool (DuplicateTransaction _)) => mret []
              | Err err => raise (ServerPeer (TransactionRejected err))
              | Panic => panic
              end)
  | WAnnounceBlock b =>
      _ ← map_error (ServerPeer ∘ BlockRejected)
            (node_do (λ s, let '(s, r) := accept_block s b in (s, map_err Some r)));
      mret []
  | _ => panic
  end.

Definition handle_state_mutating_peer_message (m : WireMessage) (o : option PeerAddr)
    (save_block_hash : option BlockHash) : server_op ServerError (list WireMessage) :=
  s ← gets state;
  let previous_best_tip := best_tip (chain s) in
  let previous_txids := mempool_txids (mempool s) in
  relay ← expecting (relay_message_before_handle s m);
  replies ← apply_announcement m;
  _ ← save_and_relay m save_block_hash previous_best_tip previous_txids relay replies o;
  mret replies.

Definition handle_peer_announce_tx (tx : Transaction) (o : option PeerAddr)
    : server_op ServerError (list WireMessage) :=
  handle_state_mutating_peer_message (WAnnounceTx tx) o None.

(** [peer::handle_message] on the server's own configuration and state. *)
Definition peer_handle_message (m : WireMessage) : server_op PeerError (list WireMessage) := λ w,
  node_do (λ s, handle_message fuel (config (server w)) s m) w.

Definition try_handle_announced_block_with_sync (b : Block) (o : option PeerAddr)
    : server_op ServerError (option (list WireMessage)) :=
  let m := WAnnounceBlock b in
  let h := header_hash (header b) in
  let parent_hash := prev_blockhash (header b) in
  s ← gets id;
  match o ≫= sync_peer_from_origin s with
  | None => mret None
  | Some e =>
      relay ← expecting (relay_message_before_handle (state s) m);
      let previous_best_tip := best_tip (chain (state s)) in
      let previous_txids := mempool_txids (mempool (state s)) in
      let finish replies :=
        _ ← save_and_relay m (Some h) previous_best_tip previous_txids relay replies o;
        mret (Some replies) in
      attempt (peer_handle_message m) (λ r,
        match r with
        | Panic => panic
        | Ok replies => finish replies
        | Err (BlockRejected err) =>
            if announced_block_needs_ancestor_sync err parent_hash then
              _ ← ignore (sync_from_peer e);
              replies ← map_error ServerPeer (peer_handle_message m);
              finish replies
            else raise (ServerPeer (BlockRejected err))
        | Err err => raise (ServerPeer err)
        end)
  end.

Definition handle_peer_announce_block (b : Block) (o : option PeerAddr)
    : server_op ServerError (list WireMessage) :=
  recovered ← try_handle_announced_block_with_sync b o;
  match recovered with
  | Some replies => mret replies
  | None =>
      handle_state_mutating_peer_message (WAnnounceBlock b) o (saved_block_hash (WAnnounceBlock b))
  end.

Definition handle_peer_mine_pending (request : MinePendingRequest) (o : option PeerAddr)
    : server_op ServerError (list WireMessage) :=
  s ← gets state;
  let previous_best_tip := best_tip (chain s) in
  let previous_txids := mempool_txids (mempool s) in
  vk ← lift_result (ok_or (parse_verifying_key (miner_public_key request))
                      (ServerPeer InvalidMinerPublicKey));
  h ← map_error (ServerPeer ∘ MiningRejected)
        (node_do (λ s, NodeState_mine_block fuel s (reward request) vk (uniqueness request)
                         (request_bits request) (max_transactions request)));
  let replies := [WMinedBlock {| mined_hash := h |}] in
  _ ← save_and_relay (WMinePending request) None previous_best_tip previous_txids None replies o;
  mret replies.

Definition handle_peer_message (o : option PeerAddr) (m : WireMessage)
    : server_op ServerError (list WireMessage) :=
  match m with
  | WHello remote => handle_peer_hello remote
  | WGetTip => handle_peer_get_tip
  | WGetBlock h => handle_peer_get_block h
  | WAnnounceTip t => handle_peer_announce_tip t o
  | WAnnounceTx tx => handle_peer_announce_tx tx o
  | WAnnounceBlock b => handle_peer_announce_block b o
  | WMinePending r => handle_peer_mine_pending r o
  | WTip _ | WBlock _ | WMinedBlock _ => mret []
  end.

Definition Server_handle_message (m : WireMessage) : server_op ServerError (list WireMessage) :=
  handle_peer_message None m.

Definition handle_mined_candidate {E} (b : Block) : server_op E unit :=
  s ← gets state;
  if bool_decide (prev_blockhash (header b) ≠ default BlockHash_default (best_tip (chain s)))
  then mret ()
  else ignore (handle_peer_announce_block b None).

(** ** Admin requests *)

Definition bootstrap_request (public_key : bytes) (u : Z) : WireMessage :=
  WMinePending {| reward := BLOCK_SUBSIDY; miner_public_key := public_key; uniqueness := u;
                  request_bits := 0x207fffff; max_transactions := 0 |}.

(** The [for offset in 0..blocks] loop, with [n] blocks still to mine. *)
Fixpoint bootstrap_blocks {E} (public_key : bytes) (start blocks offset : Z) (n : nat)
    (last : option BlockHash) : server_op E AdminResponse :=
  match n with
  | O => mret (Bootstrapped {| blocks_mined := blocks; last_block_hash := last |})
  | S n =>
      attempt (Server_handle_message
                 (bootstrap_request public_key (saturating_add 32 start offset)))
        (λ r, match r with
              | Ok replies =>
                  bootstrap_blocks public_key start blocks (offset + 1) n (mined_block_hash replies)
              | Err err => mret (Error (server_error_text err))
              | Panic => panic
              end)
  end.

Definition handle_admin_request {E} (request : AdminRequest) : server_op E AdminResponse :=
  match request with
  | GetStatus =>
      s ← gets id;
      let t := tip_summary (state s) in
      mret (Status {|
        status_tip := tip t;
        status_height := tip_height t;
        status_branch_count := branch_count (chain (state s));
        mempool_size := Mempool_len (mempool (state s));
        peer_count := size (connected_peers s);
        mining_enabled := bool_decide (is_Some (mining s))
      |})
  | GetBalance public_key =>
      match parse_verifying_key public_key with
      | None => mret (Error "invalid public key")
      | Some owner =>
          s ← gets state;
          a ← expecting (balance_for_key s owner);
          mret (Balance {| amount := a |})
      end
  | Bootstrap public_key blocks =>
      match parse_verifying_key public_key with
      | None => mret (Error "invalid public key")
      | Some _ =>
          s ← gets state;
          let start := default 0 (h ← tip_height (tip_summary s); try_from 32 (saturating_add 64 h 1)) in
          bootstrap_blocks public_key start blocks 0 (Z.to_nat blocks) None
      end
  | SubmitTransaction transaction =>
      id ← expecting (Transaction_txid transaction);
      attempt (Server_handle_message (WAnnounceTx transaction)) (λ r,
        match r with
        | Ok _ => mret (Submitted id)
        | Err err => mret (Error (server_error_text err))
        | Panic => panic
        end)
  end.

(** ** Events *)

(** One event; the flag says whether the loop goes on. *)
Definition handle_event (ev : ServerEvent) : server_op Empty_set (bool * ServerReply) :=
  match ev with
  | BootstrapEvent =>
      pending ← gets bootstrap_sync;
      _ ← (if (pending : bool) then
             _ ← sync_known_peers_best_effort;
             modify (λ s, set_bootstrap s false)
           else mret ());
      _ ← refresh_mining_candidate;
      mret (true, BootstrapReply)
  | PeerConnected peer_id =>
      _ ← modify (λ s, set_connected s ({[ peer_id ]} ∪ connected_peers s));
      mret (true, NoReply)
  | PeerMessage o m =>
      attempt (handle_peer_message o m) (λ r, mret (true, MessageReply r))
  | PeerDisconnected peer_id =>
      _ ← modify (λ s, set_connected s (connected_peers s ∖ {[ peer_id ]}));
      mret (true, NoReply)
  | AdminEvent request =>
      response ← handle_admin_request request;
      mret (true, AdminReply response)
  | TipSync o t =>
      _ ← handle_tip_sync o t;
      mret (true, NoReply)
  | SyncTick =>
      _ ← handle_sync_tick;
      mret (true, NoReply)
  | MinedCandidate b =>
      _ ← handle_mined_candidate b;
      mret (true, NoReply)
  | StopEvent => mret (false, NoReply)
  end.

(** [Server::disconnect]. *)
Definition Server_disconnect {E} : server_op E unit :=
  s ← gets id;
  _ ← (if miner s then _ ← modify take_miner; emit StopMiner else mret ());
  for_all_do (λ p : string * RuntimePeer, disconnect_peer p.1) (map_to_list (peers s)).

(** The events received before the channel closes, each with the value of
    [stop_requested] after it. *)
Fixpoint run_event_loop (evs : list (ServerEvent * bool)) : server_op Empty_set (list ServerReply) :=
  match evs with
  | [] => _ ← Server_disconnect; mret []
  | (ev, stop) :: evs =>
      r ← handle_event ev;
      if negb r.1 || stop then _ ← Server_disconnect; mret [r.2]
      else rs ← run_event_loop evs; mret (r.2 :: rs)
  end.

End server.
