(* ===== verification/ServerLogic.v ===== *)
(** * The server invariant

    A unary program logic for [server_op] and, with it, the invariant of the
    server under every event and every behaviour of the network. *)

From S2P Require Import Prelude Bytes Crypto Types State Consensus Chain Mempool Wire.
From S2P Require Import Admin Mining NodeState Home Peers Client Peer TxIndex Store StoreProofs.
From S2P Require Import Runtime Server.

Section logic.
Context `{C : Crypto} `{B : Bincode} `{N : !Environment}.

(** From a world in [I] the operation returns in [I], a value satisfies [Q]; a panic
    or an operation still running leaves a world in [J]. *)
Definition keeps (I J : World → Prop) {E A} (m : server_op E A) (Q : A → Prop) : Prop :=
  ∀ w w' r, I w → m w = (w', r) →
  match r with
  | Ok a => I w' ∧ Q a
  | Err (Some _) => I w'
  | Err None | Panic => J w'
  end.

Definition any {A} (a : A) : Prop := True.

Section rules.
Context (I J : World → Prop) (HIJ : ∀ w, I w → J w).

Lemma keeps_weaken {E A} (m : server_op E A) (P Q : A → Prop) :
  keeps I J m P → (∀ a, P a → Q a) → keeps I J m Q.
Proof using. intros Hm HPQ w w' r Hw Hr. specialize (Hm w w' r Hw Hr). destruct r as [|[]|]; naive_solver. Qed.

Lemma keeps_ret {E A} (a : A) (Q : A → Prop) : Q a → keeps (E:=E) I J (mret a) Q.
Proof using. by intros HQ w w' r Hw [= <- <-]. Qed.

Lemma keeps_bind {E A D} (m : server_op E A) (f : A → server_op E D) P Q :
  keeps I J m P → (∀ a, P a → keeps I J (f a) Q) → keeps I J (m ≫= f) Q.
Proof using.
  intros Hm Hf w w' r Hw. unfold mbind, server_op_bind. destruct (m w) as [w1 [a|[e|]|]] eqn:E1;
    specialize (Hm _ _ _ Hw E1); [|by intros [= <- <-]..].
  destruct Hm as [Hw1 Ha]. by apply Hf.
Qed.

Lemma keeps_attempt {E F A D} (m : server_op E A) (k : result E A → server_op F D) P Q :
  keeps I J m P → (∀ r, (∀ a, r = Ok a → P a) → r ≠ Panic → keeps I J (k r) Q) →
  keeps I J (attempt m k) Q.
Proof using.
  intros Hm Hk w w' r Hw. unfold attempt. destruct (m w) as [w1 [a|[e|]|]] eqn:E1;
    specialize (Hm _ _ _ Hw E1); [| |by intros [= <- <-]..].
  - destruct Hm as [Hw1 Ha]. apply Hk; [|done..]. by intros ? [= <-].
  - by apply Hk.
Qed.

Lemma keeps_raise {E A} (e : E) (Q : A → Prop) : keeps I J (raise e) Q.
Proof using. by intros w w' r Hw [= <- <-]. Qed.

Lemma keeps_stuck {E A} (Q : A → Prop) :
  keeps (E:=E) I J panic Q ∧ keeps (E:=E) I J out_of_fuel Q.
Proof using HIJ. split; intros w w' r Hw [= <- <-]; auto. Qed.

Lemma keeps_lift {E A} (r : result E A) (Q : A → Prop) :
  (∀ a, r = Ok a → Q a) → keeps I J (lift_result r) Q.
Proof using HIJ. intros HQ w w' r' Hw [= <- <-]. destruct r; cbn; auto. Qed.

Lemma keeps_expecting {E A} (o : option A) : keeps (E:=E) I J (expecting o) (λ a, o = Some a).
Proof using HIJ. intros w w' r Hw [= <- <-]. destruct o; cbn; auto. Qed.

Lemma keeps_gets {E A} (f : Server → A) :
  keeps (E:=E) I J (gets f) (λ a, ∃ w, I w ∧ a = f (server w)).
Proof using. intros w w' r Hw [= <- <-]. eauto. Qed.

Lemma keeps_modify {E} (f : Server → Server) :
  (∀ w, I w → I {| server := f (server w); log := log w |}) → keeps (E:=E) I J (modify f) any.
Proof using. intros Hf w w' r Hw [= <- <-]. split; [auto|done]. Qed.

Lemma keeps_act {E A} e (f : list Effect → A) (Q : A → Prop) :
  (∀ w, I w → I {| server := server w; log := log w ++ [e] |} ∧ Q (f (log w))) →
  keeps (E:=E) I J (act e f) Q.
Proof using. intros Hf w w' r Hw [= <- <-]. by apply Hf. Qed.

Lemma keeps_for_all {E A} (f : A → server_op E unit) l :
  (∀ a, a ∈ l → keeps I J (f a) any) → keeps I J (for_all_do f l) any.
Proof using.
  induction l as [|a l IH]; intros Hf; cbn; [by apply keeps_ret|].
  eapply keeps_bind; [apply Hf; left|]. intros _ _. apply IH. intros b Hb. apply Hf. by right.
Qed.

Lemma keeps_find {E A} (f : A → server_op E bool) l :
  (∀ a, keeps I J (f a) any) → keeps I J (find_do f l) (λ o, ∀ a, o = Some a → a ∈ l).
Proof using.
  intros Hf. induction l as [|a l IH]; cbn; [by apply keeps_ret|].
  eapply keeps_bind; [apply Hf|]. intros [] _; [apply keeps_ret; intros ? [= <-]; left|].
  eapply keeps_weaken; [exact IH|]. intros o Ho b Hb. right. by apply Ho.
Qed.

Lemma keeps_ignore {E F A} (m : server_op E A) Q :
  keeps I J m Q → keeps (E:=F) I J (ignore m) any.
Proof using. intros Hm. eapply keeps_attempt; [exact Hm|]. intros r _ _. by apply keeps_ret. Qed.

Lemma keeps_map_error {E F A} (f : E → F) (m : server_op E A) Q :
  keeps I J m Q → keeps I J (map_error f m) Q.
Proof using HIJ.
  intros Hm. eapply keeps_attempt; [exact Hm|]. intros r Hr _. apply keeps_lift.
  destruct r; cbn; naive_solver.
Qed.

End rules.
End logic.

(** Takes the operation apart; what is left are the calls. *)
Ltac keeps_step :=
  match goal with
  | |- keeps _ _ (mbind _ (gets _)) _ => eapply keeps_bind; [apply keeps_gets|intros ? (? & ? & ->)]
  | |- keeps _ _ (mbind _ has_store) _ => eapply keeps_bind; [apply keeps_gets|intros ? _]
  | |- keeps _ _ (mbind _ (expecting _)) _ =>
      eapply keeps_bind; [apply keeps_expecting; assumption|intros ? ?]
  | |- keeps _ _ (mret _) _ => apply keeps_ret
  | |- keeps _ _ (raise _) _ => apply keeps_raise
  | |- keeps _ _ panic _ => apply keeps_stuck; assumption
  | |- keeps _ _ out_of_fuel _ => apply keeps_stuck; assumption
  | |- keeps _ _ (if ?b then _ else _) _ => destruct b eqn:?
  | |- keeps _ _ (match ?x with _ => _ end) _ => destruct x eqn:?
  end.

(** ** The invariant *)

Section invariant.
Context `{C : Crypto} `{L : !CryptoLaws C} `{B : Bincode} `{N : !Environment} `{NL : !EnvironmentLaws N}.

(** A peer is filed under its own address, with a record of the column types; a sync walk is
    active for [busy] only. *)
Definition peer_ok (busy : option string) (a : string) (p : RuntimePeer) : Prop :=
  endpoint_addr (rp_endpoint p) = a ∧ peer_addr (stored p) = a ∧ StoredPeer_wf (stored p)
  ∧ (sync_state p = Idle ∨ busy = Some a).

Record server_inv (busy : option string) (s : Server) : Prop := {
  sv_node : node_inv (state s);
  sv_peers : map_Forall (peer_ok busy) (peers s)
}.

Definition inv (busy : option string) (w : World) : Prop := server_inv busy (server w).
Definition node_ok (w : World) : Prop := node_inv (state (server w)).

Lemma inv_node_ok busy w : inv busy w → node_ok w.
Proof using. apply sv_node. Qed.
#[local] Hint Resolve inv_node_ok : core.

Section keeping.
Context (busy : option string).
#[local] Notation kept := (keeps (inv busy) node_ok).

Lemma kept_update_peer {E} a f :
  (∀ p, peer_ok busy a p → peer_ok busy a (f p)) → kept (update_peer (E:=E) a f) any.
Proof using.
  intros Hf. apply keeps_modify. intros w [Hn Hp]. split; [done|]. cbn.
  intros a' p [[<- (q & Hq & ->)]|[Hne Hq]]%lookup_alter_Some; [apply Hf|]; by apply Hp.
Qed.

Lemma kept_act {E A} e (f : list Effect → A) (Q : A → Prop) :
  (∀ l, Q (f l)) → kept (act (E:=E) e f) Q.
Proof using. intros HQ. apply keeps_act. intros w Hw. by split. Qed.

Lemma kept_store {A} (op : store_op A) (Q : A → Prop) :
  (∀ db db' a, op db = (db', Ok a) → Q a) → kept (store_do op) Q.
Proof using.
  intros HQ w w' r [Hn Hp]. unfold store_do.
  destruct (sqlite_store (server w)) as [db|]; [|by intros [= <- <-]].
  destruct (op db) as [db' r'] eqn:Hop. intros [= <- <-].
  destruct r' as [a| |]; cbn; [|by split|done]. split; [by split|]. by eapply HQ.
Qed.

Lemma kept_now {E} : kept (now_timestamp_string (E:=E)) any.
Proof using. eapply keeps_bind; [by apply (kept_act _ _ any)|]. intros ? _. by apply keeps_ret. Qed.

Lemma kept_ensure {E} e src : kept (ensure_runtime_peer (E:=E) e src) any.
Proof using.
  apply keeps_modify. intros w [Hn Hp]. unfold inv; cbn.
  destruct (peers (server w) !! endpoint_addr e); [by split|]. split; [done|].
  apply map_Forall_insert_2; [|done]. split_and!; [done|done| |by left].
  split_and!; cbn; by try split.
Qed.

(** A record of the store decodes to the column types. *)
Lemma load_peer_wf db a p :
  load_peer db a = Ok (Some p) → peer_addr p = a ∧ StoredPeer_wf p.
Proof using.
  unfold load_peer. destruct (t_peers db !! a) as [r|]; [|done]. unfold stored_peer_from_row.
  intros Hl. inv_result. case_bool_decide as Hs; inv_result. split; [done|].
  split_and!; cbn; [|by apply Z.mod_pos_bound..|apply Hs|apply Hs|].
  - destruct (p_advertised_height r); cbn; [by apply Z.mod_pos_bound|done].
  - unfold in_column in H1. apply map_err_Ok in H1. unfold transpose in H1.
    destruct (p_advertised_tip_hash r) as [t|]; [|by simplify_eq/=].
    unfold parse_block_hash, parse_hash in H1. inv_result. by case_bool_decide; inv_result.
Qed.

Definition record_ok (a : string) (p : StoredPeer) : Prop := peer_addr p = a ∧ StoredPeer_wf p.

Lemma record_ok_new e src : record_ok (endpoint_addr e) (from_endpoint e src).
Proof using. split; [done|]. split_and!; cbn; by try split. Qed.

Lemma record_ok_name a p n : record_ok a p → record_ok a (set_peer_name p n).
Proof using. done. Qed.

Lemma record_ok_tip a p t h now :
  record_ok a p → tip_in_range t h → record_ok a (saw_tip p t h now).
Proof using. intros [Ha (H1 & H2 & H3 & H4 & H5)] [Hh Ht]. by split_and!. Qed.

Lemma record_ok_hello a p h now :
  record_ok a p → tip_in_range (hello_tip h) (hello_height h) → record_ok a (saw_hello p h now).
Proof using. intros [Ha (H1 & H2 & H3 & H4 & H5)] [Hh Ht]. by split_and!. Qed.

Lemma saturating_u32 z : u32 z → u32 (saturating_add 32 z 1).
Proof using. unfold uint, saturating_add, max_uint. lia. Qed.

Lemma kept_update_persisted e src update :
  (∀ p, record_ok (endpoint_addr e) p → kept (update p) (record_ok (endpoint_addr e))) →
  kept (update_persisted_peer e src update) any.
Proof using.
  intros Hu. eapply keeps_bind.
  { apply (kept_store _ (λ o, record_ok (endpoint_addr e) (default (from_endpoint e src) o))).
    intros db db' [p|] [= <- Hl]; [by eapply load_peer_wf|apply record_ok_new]. }
  intros o Ho. cbn zeta. eapply keeps_bind.
  { apply Hu. by destruct (endpoint_node_name e). }
  intros p [Hpa Hpw]. eapply keeps_bind; [|intros ? _; by apply kept_store].
  apply keeps_modify. intros w [Hn Hp]. split; [done|]. cbn. rewrite Hpa.
  apply map_Forall_insert_2; [|done]. destruct (peers (server w) !! endpoint_addr e) as [q|] eqn:Hq.
  - specialize (Hp _ _ Hq) as (_ & _ & _ & Hs). by split_and!.
  - split_and!; [done..|by left].
Qed.

Lemma kept_record_hello remote :
  tip_in_range (hello_tip remote) (hello_height remote) → kept (record_inbound_hello remote) any.
Proof using.
  intros Hr. eapply keeps_bind; [apply kept_now|]. intros now _. keeps_step.
  destruct a; [apply kept_update_persisted; intros p Hp; by apply keeps_ret, record_ok_hello|].
  eapply keeps_bind; [apply kept_ensure|]. intros _ _. apply kept_update_peer.
  intros p (H1 & H2 & H3 & H4).
  destruct (record_ok_hello _ (stored p) remote now (conj H2 H3) Hr) as [Ha Hw]. by split_and!.
Qed.

Lemma kept_record_tip o t : tip_in_range (tip t) (tip_height t) → kept (record_inbound_tip o t) any.
Proof using.
  intros Ht. unfold record_inbound_tip. keeps_step. cbn zeta.
  match goal with |- keeps _ _ (match ?x with _ => _ end) _ => destruct x as [e|] end;
    [|by apply keeps_ret].
  eapply keeps_bind; [apply kept_now|]. intros now _. keeps_step.
  destruct a; [apply kept_update_persisted; intros p Hp; by apply keeps_ret, record_ok_tip|].
  eapply keeps_bind; [apply kept_ensure|]. intros _ _. apply kept_update_peer.
  intros p (H1 & H2 & H3 & H4).
  destruct (record_ok_tip _ (stored p) (tip t) (tip_height t) now (conj H2 H3) Ht) as [Ha Hw].
  by split_and!.
Qed.

Lemma kept_connect_attempt e : kept (record_peer_connect_attempt e) any.
Proof using.
  unfold record_peer_connect_attempt. keeps_step. destruct a; cbn; [|by apply keeps_ret].
  apply kept_update_persisted. intros p Hp. eapply keeps_bind; [apply kept_now|].
  intros ? _. by apply keeps_ret.
Qed.

Lemma kept_connect_success e remote :
  tip_in_range (hello_tip remote) (hello_height remote) →
  kept (record_peer_connect_success e remote) any.
Proof using.
  intros [Hh Ht]. unfold record_peer_connect_success. keeps_step. destruct a; cbn; [|by apply keeps_ret].
  apply kept_update_persisted. intros p [Ha (H1 & H2 & H3 & H4 & H5)].
  do 4 (eapply keeps_bind; [apply kept_now|intros ? _]). apply keeps_ret.
  split; [done|]. split_and!; try done; [by apply saturating_u32|apply H4..].
Qed.

Lemma kept_connect_failure e err : kept (record_peer_connect_failure e err) any.
Proof using.
  unfold record_peer_connect_failure. keeps_step. destruct a; cbn; [|by apply keeps_ret].
  apply kept_update_persisted. intros p [Ha (H1 & H2 & H3 & H4 & H5)].
  eapply keeps_bind; [apply kept_now|intros ? _]. apply keeps_ret.
  split; [done|]. split_and!; try done; [by apply saturating_u32|apply H4..].
Qed.

Lemma kept_disconnect {E} a : kept (disconnect_peer (E:=E) a) any.
Proof using.
  unfold disconnect_peer. keeps_step. destruct (_ ≫= session); [|by apply keeps_ret].
  eapply keeps_bind; [by apply kept_update_peer|]. intros _ _. by apply kept_act.
Qed.

Lemma kept_connected e : kept (ensure_peer_connected e) any.
Proof using NL.
  eapply keeps_bind; [apply kept_ensure|]. intros _ _. keeps_step.
  destruct (_ ≫= session); [by apply keeps_ret|].
  eapply keeps_bind; [eapply keeps_ignore, kept_connect_attempt|]. intros _ _. keeps_step.
  eapply keeps_bind; [apply keeps_expecting; eauto|]. intros _ _. cbn zeta.
  eapply keeps_bind.
  { apply (kept_act _ _ (λ a, ∀ r, a.2 = Ok r → tip_in_range (hello_tip r) (hello_height r))).
    intros l r Hr. by eapply dial_in_range. }
  intros [h [remote|err|]] Hr; cbn [fst snd] in *.
  - eapply keeps_bind; [eapply keeps_map_error; [eauto|]; by apply kept_connect_success, Hr|].
    intros _ _. keeps_step. eapply keeps_bind; [apply keeps_expecting; eauto|]. intros _ _.
    eapply keeps_bind; [by apply kept_update_peer|]. intros _ _. by apply keeps_ret.
  - eapply keeps_bind; [eapply keeps_ignore, kept_connect_failure|]. intros _ _. apply keeps_raise.
  - apply keeps_stuck; eauto.
Qed.

Definition block_ok (b : Block) : Prop := Block_wf b ∧ Block_encodable b.

Lemma kept_request_tip e ns :
  kept (request_tip_attempts e ns) (λ t, tip_in_range (tip t) (tip_height t)).
Proof using NL.
  induction ns as [|n ns IH]; cbn; [apply keeps_stuck; eauto|].
  eapply keeps_bind; [apply kept_connected|]. intros h _. eapply keeps_bind.
  { apply (kept_act _ _ (λ r, ∀ t, r = Ok t → tip_in_range (tip t) (tip_height t))).
    intros l t Ht. by eapply answer_in_range. }
  intros [t|err|] Ht; [| |apply keeps_stuck; eauto].
  - specialize (Ht t eq_refl). keeps_step.
    eapply keeps_bind; [|intros ? _; by apply keeps_ret]. destruct a.
    + eapply keeps_map_error; [eauto|]. apply kept_update_persisted. intros p Hp.
      eapply keeps_bind; [apply kept_now|]. intros now _. apply keeps_ret.
      by destruct (record_ok_tip _ _ _ _ now Hp Ht).
    + keeps_step. destruct (_ !! _); [|by apply keeps_ret].
      eapply keeps_bind; [apply kept_now|]. intros now _. apply kept_update_peer.
      intros p (H1 & H2 & H3 & H4).
      destruct (record_ok_tip _ _ (tip t) (tip_height t) now (conj H2 H3) Ht) as [? ?]. by split_and!.
  - case_bool_decide; [|apply keeps_raise].
    eapply keeps_bind; [apply kept_disconnect|]. by intros _ _.
Qed.

Lemma kept_request_block e h ns :
  kept (request_block_attempts e h ns) (λ ob, ∀ b, ob = Some b → block_ok b).
Proof using NL.
  induction ns as [|n ns IH]; cbn; [apply keeps_stuck; eauto|].
  eapply keeps_bind; [apply kept_connected|]. intros hd _. eapply keeps_bind.
  { apply (kept_act _ _ (λ r, ∀ b, r = Ok (Some b) → block_ok b)).
    intros l b Hb. by eapply block_in_range. }
  intros [ob|err|] Hb; [| |apply keeps_stuck; eauto].
  - apply keeps_ret. intros b ->. by apply Hb.
  - case_bool_decide; [|apply keeps_raise].
    eapply keeps_bind; [apply kept_disconnect|]. by intros _ _.
Qed.

Lemma kept_announce e m n last : kept (announce_attempts e m n last) any.
Proof using NL.
  revert last. induction n as [|n IH]; intros last; cbn.
  - eapply keeps_bind; [apply keeps_expecting; eauto|]. intros ? _. apply keeps_raise.
  - eapply keeps_attempt.
    { eapply keeps_bind; [eapply keeps_map_error; [eauto|apply kept_connected]|]. intros h _.
      eapply keeps_bind; [by apply (kept_act _ _ any)|]. intros r _. by apply (keeps_lift _ _ (inv_node_ok busy) _ any). }
    intros [?|err|] _ Hr; [by apply keeps_ret| |done].
    eapply keeps_bind; [apply kept_disconnect|]. intros _ _. apply IH.
Qed.

Lemma kept_relay {E} m o : kept (relay_best_effort (E:=E) m o) any.
Proof using NL.
  unfold relay_best_effort. keeps_step. apply keeps_for_all. intros e _.
  destruct (peer_matches_origin e o); [by apply keeps_ret|]. eapply keeps_ignore, kept_announce.
Qed.

Lemma kept_node {E A} (f : NodeState → NodeState * result (option E) A) :
  (∀ s s' r, node_inv s → f s = (s', r) → node_inv s') → kept (node_do f) any.
Proof using.
  intros Hf w w' r [Hn Hp]. unfold node_do. destruct (f (state (server w))) as [s' r'] eqn:Hs.
  intros [= <- <-]. apply Hf in Hs; [|done].
  destruct r' as [|[]|]; [split; [by split|done]|by split|done..].
Qed.

Lemma kept_accept b :
  block_ok b → kept (node_do (λ s, let '(s, r) := accept_block s b in (s, map_err Some r))) any.
Proof using L.
  intros [Hw He]. apply kept_node. intros s s' r Hi.
  destruct (accept_block s b) as [s1 r1] eqn:Ha. intros [= <- <-].
  by apply accept_block_any in Ha as [? _].
Qed.

Lemma kept_submit tx :
  Transaction_wf tx → encodable true tx →
  kept (node_do (λ s, let '(s, r) := submit_transaction s tx in (s, map_err Some r))) any.
Proof using.
  intros Hw He. apply kept_node. intros s s' r Hi.
  destruct (submit_transaction s tx) as [s1 r1] eqn:Ha. intros [= <- <-].
  by apply submit_transaction_inv in Ha as [? _].
Qed.

Lemma kept_save_block_state h bt ids : kept (save_accepted_block_state h bt ids) any.
Proof using.
  unfold save_accepted_block_state. keeps_step. destruct a; cbn; [|by apply keeps_ret].
  keeps_step. eapply keeps_bind; [by apply (kept_store _ any)|]. intros _ _.
  eapply keeps_bind; [apply keeps_expecting; eauto|]. intros [] _; [by apply kept_store|by apply keeps_ret].
Qed.

Lemma kept_save_sqlite m h bt ids rs : kept (save_sqlite m h bt ids rs) any.
Proof using.
  assert (kept (s ← gets state;
    match (match h with Some h => Some h | None => mined_block_hash rs end) with
    | None => _ ← store_do (save_active_utxos (active_utxos s)); store_do (save_mempool (mempool s))
    | Some h =>
        refresh ← expecting (block_save_requires_mempool_index_refresh s h bt ids);
        if (refresh : bool) then save_accepted_block_state h bt ids
        else store_do (save_accepted_block s h)
    end) any) as Hother.
  { keeps_step. destruct (match h with Some _ => _ | None => _ end).
    - eapply keeps_bind; [apply keeps_expecting; eauto|]. intros [] _;
        [apply kept_save_block_state|by apply kept_store].
    - eapply keeps_bind; [by apply (kept_store _ any)|]. intros _ _. by apply kept_store. }
  unfold save_sqlite. keeps_step. destruct a; cbn; [|by apply keeps_ret].
  destruct m; try exact Hother. by apply kept_store.
Qed.

Lemma kept_refresh {E} : kept (refresh_mining_candidate (E:=E)) any.
Proof using.
  unfold refresh_mining_candidate. keeps_step. destruct (mining _); [|by apply keeps_ret].
  eapply (keeps_bind _ _ _ _ any).
  2: { intros oc _. destruct (miner _); cbn [negb]; [|by apply keeps_ret].
       destruct oc; by apply (kept_act _ _ any). }
  unfold build_mining_candidate. keeps_step. destruct (mining _); [|by apply keeps_ret].
  destruct (Mempool_is_empty _); [by apply keeps_ret|]. destruct (next_request _) as [cfg q].
  eapply keeps_bind; [apply keeps_modify; intros w' [? ?]; by split|]. intros _ _.
  eapply keeps_bind; [apply keeps_expecting; eauto|]. intros sel _. case_bool_decide; [by apply keeps_ret|].
  destruct (try_fold _ _ _); [|by apply keeps_ret|apply keeps_stuck; eauto].
  destruct (parse_verifying_key _); [|by apply keeps_ret].
  eapply keeps_bind; [apply keeps_expecting; eauto|]. intros ? _.
  eapply keeps_bind; [apply keeps_expecting; eauto|]. intros ? _. by apply keeps_ret.
Qed.

Lemma kept_maybe_refresh {E} bt ids : kept (maybe_refresh_mining (E:=E) bt ids) any.
Proof using. unfold maybe_refresh_mining. keeps_step. destruct (_ && _); [by apply keeps_ret|apply kept_refresh]. Qed.

Lemma kept_relay_tip {E} bt o : kept (relay_new_best_tip_if_advanced (E:=E) bt o) any.
Proof using NL.
  unfold relay_new_best_tip_if_advanced. keeps_step. case_bool_decide; [by apply keeps_ret|apply kept_relay].
Qed.

Lemma kept_save_and_relay m h bt ids relay rs o : kept (save_and_relay m h bt ids relay rs o) any.
Proof using NL.
  eapply keeps_bind; [eapply keeps_map_error; [eauto|apply kept_save_sqlite]|]. intros _ _. keeps_step.
  eapply keeps_bind; [destruct (match relay with Some _ => _ | None => _ end);
    [apply kept_relay|by apply (keeps_ret _ _ _ any)]|]. intros _ _.
  eapply keeps_bind; [apply kept_relay_tip|]. intros _ _. apply kept_maybe_refresh.
Qed.

Lemma kept_fetch n e h acc :
  Forall block_ok acc → kept (fetch_missing n e h acc) (Forall block_ok).
Proof using NL.
  revert h acc. induction n as [|n IH]; intros h acc Hacc; cbn [fetch_missing]; keeps_step;
    (case_bool_decide; [by apply keeps_ret|]); [apply keeps_stuck; eauto|].
  eapply keeps_bind; [apply kept_request_block|]. intros ob Hob.
  eapply keeps_bind; [apply (keeps_lift _ _ (inv_node_ok busy) _ block_ok)|].
  { intros b Hb. apply ok_or_Ok in Hb. by apply Hob. }
  intros b Hb. assert (Forall block_ok (acc ++ [b])) by (apply Forall_app; auto).
  case_bool_decide; [by apply keeps_ret|by apply IH].
Qed.

Lemma kept_accept_blocks bs acc :
  Forall block_ok bs → kept (accept_synced_blocks bs acc) any.
Proof using L.
  intros Hbs. revert acc. induction Hbs as [|b bs Hb Hbs IH]; intros acc; cbn; [by apply keeps_ret|].
  keeps_step. eapply keeps_bind; [|intros r _; apply IH].
  unfold accept_synced_block. keeps_step. case_bool_decide; [by apply (keeps_ret _ _ _ any)|].
  eapply keeps_bind; [eapply keeps_map_error; [eauto|by apply kept_accept]|]. intros _ _.
  eapply keeps_bind; [eapply keeps_map_error; [eauto|apply kept_save_block_state]|].
  intros _ _. by apply keeps_ret.
Qed.

Lemma kept_sync_to n e t : kept (sync_to_advertised_tip n e t) any.
Proof using L NL.
  unfold sync_to_advertised_tip. destruct (tip t); [|by apply keeps_ret]. keeps_step.
  case_bool_decide; [by apply keeps_ret|]. eapply keeps_bind; [by apply kept_fetch|].
  intros bs Hbs. apply kept_accept_blocks. by apply Forall_reverse.
Qed.
End keeping.

#[local] Notation kept := (keeps (inv None) node_ok).

(** A peer is marked busy around a sync walk and released after it. *)
Lemma kept_bracket {E F A D} a (m : server_op E A) (k : result E A → server_op F D) Q :
  keeps (inv (Some a)) node_ok m any → (∀ r, r ≠ Panic → kept (k r) Q) →
  kept (_ ← update_peer a begin_sync; attempt m (λ r, _ ← update_peer a finish_sync; k r)) Q.
Proof using.
  intros Hm Hk w w' r [Hn Hp]. unfold mbind at 1, server_op_bind at 1. cbn [update_peer modify].
  unfold update_peer at 1, modify at 1. cbn [fst snd].
  set (w1 := {| server := _; log := _ |}).
  assert (inv (Some a) w1) as Hw1.
  { split; [done|]. cbn. intros a' p [[<- (q & Hq & ->)]|[Hne Hq]]%lookup_alter_Some;
      destruct (Hp _ _ Hq) as (? & ? & ? & _); split_and!; try done; [by right|].
    destruct (Hp _ _ Hq) as (_ & _ & _ & [?|?]); [by left|done]. }
  assert (∀ w2 r', inv (Some a) w2 → r' ≠ Panic →
    ∀ w3 r3, (_ ← update_peer a finish_sync; k r') w2 = (w3, r3) →
    match r3 with Ok d => inv None w3 ∧ Q d | Err (Some _) => inv None w3 | _ => node_ok w3 end) as Hend.
  { intros w2 r' [Hn2 Hp2] Hr' w3 r3. unfold mbind, server_op_bind, update_peer, modify. apply Hk; [done|].
    split; [done|]. cbn. intros a' p [[<- (q & Hq & ->)]|[Hne Hq]]%lookup_alter_Some;
      destruct (Hp2 _ _ Hq) as (? & ? & ? & Hs); split_and!; try done; [by left|].
    destruct Hs as [?|[= ?]]; [by left|congruence]. }
  clearbody w1. unfold attempt. destruct (m w1) as [w2 [x|[e|]|]] eqn:Hr;
    specialize (Hm _ _ _ Hw1 Hr); cbn in Hm; [..|by intros [= <- <-]|by intros [= <- <-]].
  - by apply Hend; [apply Hm|].
  - by apply Hend.
Qed.

Section events.
Context (fuel : nat).

Lemma kept_sync_from e : kept (sync_from_peer fuel e) any.
Proof using L NL.
  apply kept_bracket.
  - eapply keeps_bind; [apply kept_request_tip|]. intros t _. apply kept_sync_to.
  - intros r Hr. by apply (keeps_lift _ _ (inv_node_ok None) _ any).
Qed.

Lemma kept_ready {E} p : kept (peer_is_ready_for_sync (E:=E) p) any.
Proof using.
  unfold peer_is_ready_for_sync. destruct (_ ≫= _); [|by apply keeps_ret].
  eapply keeps_bind; [by apply (kept_act _ _ _ any)|]. intros ? _. by apply keeps_ret.
Qed.

Lemma kept_select {E} : kept (select_sync_peers (E:=E)) any.
Proof using.
  unfold select_sync_peers. keeps_step. eapply keeps_bind; [apply keeps_find|].
  { intros p. eapply keeps_bind; [apply kept_ready|]. intros ? _. by apply keeps_ret. }
  intros [p|] _; [by apply keeps_ret|]. eapply keeps_bind; [apply keeps_find|intros ? _; by apply keeps_ret].
  intros e. destruct (match _ with Some _ => _ | None => true end); [|by apply keeps_ret].
  unfold peer_endpoint_is_ready_for_sync. keeps_step. destruct (_ !! _); [apply kept_ready|by apply keeps_ret].
Qed.

Lemma kept_sync_known {E} : kept (sync_known_peers_best_effort fuel (E:=E)) any.
Proof using L NL.
  eapply keeps_bind; [apply kept_select|]. intros es _. apply keeps_for_all. intros e _.
  eapply keeps_attempt; [apply kept_sync_from|]. intros [?|err|] _ _; [by apply keeps_ret| |by apply keeps_ret].
  eapply keeps_ignore, kept_connect_failure.
Qed.

Lemma kept_tip_sync {E} o t : kept (handle_tip_sync fuel (E:=E) o t) any.
Proof using L NL.
  unfold handle_tip_sync. keeps_step. destruct (negb _); [by apply keeps_ret|].
  destruct (sync_peer_from_origin _ _) as [e|]; [|by apply keeps_ret].
  destruct (peer_tip_sync_is_duplicate _ _ _); [by apply keeps_ret|].
  destruct (peer_sync_in_progress _ _); [by apply keeps_ret|].
  eapply keeps_bind; [by apply kept_update_peer|]. intros _ _. cbn zeta.
  apply kept_bracket; [apply kept_sync_to|]. intros r _.
  eapply keeps_bind; [apply keeps_for_all; intros b _; apply kept_relay|]. intros _ _.
  eapply keeps_bind; [apply kept_relay_tip|]. intros _ _. apply kept_maybe_refresh.
Qed.

(** The field ranges of a decoded message, the advertised tips included. *)
Definition message_ok (m : WireMessage) : Prop :=
  WireMessage_wf m ∧
  match m with
  | WHello h => tip_in_range (hello_tip h) (hello_height h)
  | WAnnounceTip t => tip_in_range (tip t) (tip_height t)
  | _ => True
  end.

Lemma kept_mutating m o h :
  WireMessage_wf m → kept (handle_state_mutating_peer_message m o h) any.
Proof using L NL.
  intros Hw. unfold handle_state_mutating_peer_message. keeps_step. cbn zeta.
  eapply keeps_bind; [apply keeps_expecting; eauto|]. intros relay _.
  eapply (keeps_bind _ _ _ _ any).
  { destruct m; try (apply keeps_stuck; eauto); destruct Hw as [Hw He].
    - eapply keeps_attempt; [by apply kept_submit|].
      intros [?|[| | |[]| | |]|] _ _; try (by apply keeps_ret); try apply keeps_raise.
      apply keeps_stuck; eauto.
    - eapply keeps_bind; [eapply keeps_map_error; [eauto|by apply kept_accept]|].
      intros _ _. by apply keeps_ret. }
  intros rs _. eapply keeps_bind; [apply kept_save_and_relay|]. intros _ _. by apply keeps_ret.
Qed.

Lemma kept_peer_handle m : WireMessage_wf m → kept (peer_handle_message fuel m) any.
Proof using L.
  intros Hw w w' r Hi. apply (kept_node None); [|done].
  intros s s' r' Hs. by apply handle_message_keeps.
Qed.

Lemma kept_announce_block b o : block_ok b → kept (handle_peer_announce_block fuel b o) any.
Proof using L NL.
  intros Hb. unfold handle_peer_announce_block. eapply (keeps_bind _ _ _ _ any).
  2: { intros [rs|] _; [by apply keeps_ret|]. by apply kept_mutating. }
  unfold try_handle_announced_block_with_sync. keeps_step.
  destruct (_ ≫= _) as [e|]; [|by apply keeps_ret].
  eapply keeps_bind; [apply keeps_expecting; eauto|]. intros relay _. cbn zeta.
  assert (∀ rs, kept (_ ← save_and_relay (WAnnounceBlock b) (Some (header_hash (header b)))
    (best_tip (chain (state (server x)))) (mempool_txids (mempool (state (server x)))) relay rs o;
    mret (Some rs)) any) as Hfin.
  { intros rs. eapply keeps_bind; [apply kept_save_and_relay|]. intros _ _. by apply keeps_ret. }
  eapply keeps_attempt; [by apply kept_peer_handle|].
  intros [rs|err|] _ Hr; [apply Hfin| |done].
  destruct err; try apply keeps_raise. destruct (announced_block_needs_ancestor_sync _ _);
    [|apply keeps_raise].
  eapply keeps_bind; [eapply keeps_ignore, kept_sync_from|]. intros _ _.
  eapply keeps_bind; [eapply keeps_map_error; [eauto|by apply kept_peer_handle]|].
  intros rs _. apply Hfin.
Qed.

Lemma kept_mine_pending q o :
  WireMessage_wf (WMinePending q) → kept (handle_peer_mine_pending fuel q o) any.
Proof using L NL.
  intros (Hr & Hu & Hb & Hm). unfold handle_peer_mine_pending. keeps_step. cbn zeta.
  eapply keeps_bind; [by apply (keeps_lift _ _ (inv_node_ok None) _ any)|]. intros vk _.
  eapply keeps_bind; [eapply keeps_map_error; [eauto|]; apply kept_node|].
  { intros s s' r Hs Hrun. exact (NodeState_mine_block_keeps _ _ _ _ _ _ _ _ _ Hs Hr Hu Hb Hm Hrun). }
  intros h _. eapply keeps_bind; [apply kept_save_and_relay|]. intros _ _. by apply keeps_ret.
Qed.

Lemma kept_message o m : message_ok m → kept (handle_peer_message fuel o m) any.
Proof using L NL.
  intros [Hw Ht]. destruct m; cbn [handle_peer_message]; try (by apply keeps_ret).
  - eapply keeps_bind; [eapply keeps_map_error; [eauto|by apply kept_record_hello]|].
    intros _ _. keeps_step. repeat case_bool_decide; try apply keeps_raise. by apply keeps_ret.
  - unfold handle_peer_get_tip. keeps_step. by apply keeps_ret.
  - eapply keeps_bind; [eapply keeps_map_error; [eauto|by apply kept_record_tip]|].
    intros _ _. by apply keeps_ret.
  - by apply kept_mutating.
  - by apply kept_announce_block.
  - unfold handle_peer_get_block. keeps_step. by apply keeps_ret.
  - by apply kept_mine_pending.
Qed.

Definition event_ok (ev : ServerEvent) : Prop :=
  match ev with
  | PeerMessage _ m => message_ok m
  | AdminEvent (SubmitTransaction tx) => Transaction_wf tx ∧ encodable true tx
  | MinedCandidate b => block_ok b
  | _ => True
  end.

Lemma kept_bootstrap {E} key start blocks off n last :
  0 ≤ start → 0 ≤ off → kept (bootstrap_blocks fuel (E:=E) key start blocks off n last) any.
Proof using L NL.
  intros Hst. revert off last. induction n as [|n IH]; intros off last Hoff;
    cbn [bootstrap_blocks]; [by apply keeps_ret|].
  eapply keeps_attempt.
  { apply kept_message. split; [|done]. cbn. split_and!; try (unfold uint, BLOCK_SUBSIDY; lia).
    unfold uint, saturating_add, max_uint. lia. }
  intros [rs|err|] _ Hr; [apply IH; lia|by apply keeps_ret|done].
Qed.

Lemma tip_height_nonneg s h : node_inv s → tip_height (tip_summary s) = Some h → 0 ≤ h.
Proof using.
  intros Hi Hh. unfold tip_summary in Hh. destruct (best_tip (chain s)) as [t|]; [|done].
  cbn in Hh. destruct (entries (chain s) !! t) as [e|] eqn:He; [|done]. injection Hh as <-.
  destruct (cw_entries _ (ni_chain s Hi) _ _ He) as (_ & [? _] & _). done.
Qed.

Lemma kept_admin {E} q : event_ok (AdminEvent q) → kept (handle_admin_request fuel (E:=E) q) any.
Proof using L NL.
  intros Hq. destruct q as [|key|key n|tx]; cbn [handle_admin_request].
  - keeps_step. by apply keeps_ret.
  - destruct (parse_verifying_key key); [|by apply keeps_ret]. keeps_step.
    eapply keeps_bind; [apply keeps_expecting; eauto|]. intros ? _. by apply keeps_ret.
  - destruct (parse_verifying_key key); [|by apply keeps_ret]. keeps_step.
    apply kept_bootstrap; [|done]. destruct (tip_height _) as [h|] eqn:Hh; cbn; [|done].
    unfold try_from. case_bool_decide; cbn; [|done].
    apply (tip_height_nonneg (state (server x))) in Hh; [|by apply (sv_node None)].
    unfold saturating_add, max_uint. lia.
  - eapply keeps_bind; [apply keeps_expecting; eauto|]. intros ? _.
    eapply keeps_attempt; [by apply kept_message|].
    intros [rs|err|] _ Hr; [by apply keeps_ret..|done].
Qed.

Lemma kept_event ev : event_ok ev → kept (handle_event fuel ev) any.
Proof using L NL.
  intros Hev. destruct ev; cbn [handle_event]; try (by apply keeps_ret).
  - keeps_step. eapply (keeps_bind _ _ _ _ any).
    { destruct (bootstrap_sync _); [|by apply keeps_ret].
      eapply keeps_bind; [apply kept_sync_known|]. intros _ _. apply keeps_modify. intros w' [? ?]. by split. }
    intros _ _. eapply keeps_bind; [apply kept_refresh|]. intros _ _. by apply keeps_ret.
  - eapply keeps_bind; [|intros _ _; by apply keeps_ret]. apply keeps_modify. intros w' [? ?]. by split.
  - eapply keeps_attempt; [by apply kept_message|]. intros r _ _. by apply keeps_ret.
  - eapply keeps_bind; [|intros _ _; by apply keeps_ret]. apply keeps_modify. intros w' [? ?]. by split.
  - eapply keeps_bind; [by apply kept_admin|]. intros ? _. by apply keeps_ret.
  - eapply keeps_bind; [apply kept_tip_sync|]. intros ? _. by apply keeps_ret.
  - eapply keeps_bind; [|intros ? _; by apply keeps_ret]. unfold handle_sync_tick. keeps_step.
    destruct (bootstrap_sync _); [by apply (keeps_ret _ _ _ any)|apply kept_sync_known].
  - eapply keeps_bind; [|intros ? _; by apply keeps_ret]. unfold handle_mined_candidate. keeps_step.
    case_bool_decide; [by apply (keeps_ret _ _ _ any)|]. by eapply keeps_ignore, kept_announce_block.
Qed.

Lemma kept_shutdown {E} : kept (Server_disconnect (E:=E)) any.
Proof using.
  unfold Server_disconnect. keeps_step. eapply (keeps_bind _ _ _ _ any).
  { destruct (miner _); [|by apply keeps_ret].
    eapply keeps_bind; [apply keeps_modify; intros w' [? ?]; by split|].
    intros _ _. by apply (kept_act _ _ _ any). }
  intros _ _. apply keeps_for_all. intros p _. apply kept_disconnect.
Qed.

Lemma kept_loop evs : Forall (λ p, event_ok p.1) evs → kept (run_event_loop fuel evs) any.
Proof using L NL.
  induction 1 as [|[ev stop] evs Hev Hevs IH]; cbn [run_event_loop].
  - eapply keeps_bind; [apply kept_shutdown|]. intros _ _. by apply keeps_ret.
  - eapply keeps_bind; [by apply kept_event|]. intros [go rep] _.
    destruct (negb _ || stop).
    + eapply keeps_bind; [apply kept_shutdown|]. intros _ _. by apply keeps_ret.
    + eapply keeps_bind; [exact IH|]. intros rs _. by apply keeps_ret.
Qed.

(** C33: The event loop is safe: from a server in good order, any sequence of events (peer
    messages, admin requests, ticks, mined blocks), with any behaviour of the network, of
    other peers and of the clock, keeps the node invariant even if an event panics or does not end;
    and when the events have been handled, every peer is filed
    under its own address with a record in the column ranges and no peer is left marked as syncing. *)
Theorem server_loop_safe (evs : list (ServerEvent * bool)) (w w' : World)
    (r : result (option Empty_set) (list ServerReply)) :
  server_inv None (server w) → Forall (λ p, event_ok p.1) evs →
  run_event_loop fuel evs w = (w', r) →
  node_inv (state (server w')) ∧ (is_ok r = true → server_inv None (server w')).
Proof using L NL.
  intros Hi Hevs Hrun. pose proof (kept_loop evs Hevs w w' r Hi Hrun) as Hk.
  destruct r as [rs|[[]|]|]; [|by split..]. split; [apply Hk|]. intros _. apply Hk.
Qed.

End events.
End invariant.
