(* ===== verification/ServerRelay.v ===== *)
(** * What the server tells its peers

    Every operation is bounded by a preorder on worlds; the peer bookkeeping is
    inside every preorder that ignores peer records and effects other than
    announcements ([Bookkeeping]).  With it: which announcements a handler
    can make. *)

From S2P Require Import Prelude Bytes Crypto Types State Consensus Chain Mempool Wire.
From S2P Require Import Admin Mining NodeState Home Peers Client Peer TxIndex Store.
From S2P Require Import Runtime Server.

Section steps.
Context `{C : Crypto} `{B : Bincode} `{N : !Environment}.

Definition steps (R : World → World → Prop) {E A} (m : server_op E A) : Prop :=
  ∀ w w' r, m w = (w', r) → R w w'.

Definition with_server (w : World) (s : Server) : World := {| server := s; log := log w |}.
Definition logged (w : World) (e : Effect) : World := {| server := server w; log := log w ++ [e] |}.
Definition is_tell (e : Effect) : bool := match e with Tell _ _ _ => true | _ => false end.

(** Peer records, peer rows and unspoken effects are of no concern to [R]. *)
Class Bookkeeping (R : World → World → Prop) : Prop := {
  bk_pre :: PreOrder R;
  bk_peers w ps : R w (with_server w (set_runtime_peers (server w) ps));
  bk_effect w e : is_tell e = false → R w (logged w e);
  bk_peer_row w db p : sqlite_store (server w) = Some db →
    R w (with_server w (set_store (server w) (set_peers db p)))
}.

Section rules.
Context (R : World → World → Prop) `{HR : !PreOrder R}.

Lemma steps_ret {E A} (a : A) : steps R (mret (M:=server_op E) a).
Proof using HR. by intros w w' r [= <- <-]. Qed.
Lemma steps_raise {E A} (e : E) : steps (A:=A) R (raise e).
Proof using HR. by intros w w' r [= <- <-]. Qed.
Lemma steps_panic {E A} : steps (E:=E) (A:=A) R panic.
Proof using HR. by intros w w' r [= <- <-]. Qed.
Lemma steps_fuel {E A} : steps (E:=E) (A:=A) R out_of_fuel.
Proof using HR. by intros w w' r [= <- <-]. Qed.
Lemma steps_lift {E A} (x : result E A) : steps R (lift_result x).
Proof using HR. by intros w w' r [= <- <-]. Qed.
Lemma steps_expecting {E A} (o : option A) : steps (E:=E) R (expecting o).
Proof using HR. by intros w w' r [= <- <-]. Qed.
Lemma steps_gets {E A} (f : Server → A) : steps (E:=E) R (gets f).
Proof using HR. by intros w w' r [= <- <-]. Qed.

Lemma steps_bind {E A D} (m : server_op E A) (f : A → server_op E D) :
  steps R m → (∀ a, steps R (f a)) → steps R (m ≫= f).
Proof using HR.
  intros Hm Hf w w' r. unfold mbind, server_op_bind. destruct (m w) as [w1 [a|e|]] eqn:E1;
    apply Hm in E1; [|by intros [= <- <-]..]. intros H2. etransitivity; [done|]. by eapply Hf.
Qed.

Lemma steps_attempt {E F A D} (m : server_op E A) (k : result E A → server_op F D) :
  steps R m → (∀ r, steps R (k r)) → steps R (attempt m k).
Proof using HR.
  intros Hm Hk w w' r. unfold attempt. destruct (m w) as [w1 [a|[e|]|]] eqn:E1;
    apply Hm in E1; [..|by intros [= <- <-]|by intros [= <- <-]];
    intros H2; (etransitivity; [done|]); by eapply Hk.
Qed.

Lemma steps_for_all {E A} (f : A → server_op E unit) l :
  (∀ a, a ∈ l → steps R (f a)) → steps R (for_all_do f l).
Proof using HR.
  induction l as [|a l IH]; intros Hf; cbn; [apply steps_ret|].
  apply steps_bind; [apply Hf; left|]. intros _. apply IH. intros b Hb. apply Hf. by right.
Qed.

Lemma steps_find {E A} (f : A → server_op E bool) l :
  (∀ a, steps R (f a)) → steps R (find_do f l).
Proof using HR.
  intros Hf. induction l as [|a l IH]; cbn; [apply steps_ret|].
  apply steps_bind; [apply Hf|]. intros []; [apply steps_ret|exact IH].
Qed.

Lemma steps_ignore {E F A} (m : server_op E A) : steps R m → steps (E:=F) R (ignore m).
Proof using HR. intros Hm. apply steps_attempt; [done|]. intros r. apply steps_ret. Qed.
Lemma steps_map_error {E F A} (f : E → F) (m : server_op E A) : steps R m → steps R (map_error f m).
Proof using HR. intros Hm. apply steps_attempt; [done|]. intros r. apply steps_lift. Qed.

End rules.
End steps.

Create HintDb steps.
#[export] Hint Resolve steps_ret steps_raise steps_panic steps_fuel steps_lift steps_expecting
  steps_gets steps_ignore steps_map_error : steps.

(** Takes a handler apart down to its calls. *)
Ltac steps_tac :=
  repeat match goal with
  | |- PreOrder _ => apply _
  | |- steps _ (_ ≫= _) => apply steps_bind; [apply _| |intros ?]
  | |- steps _ (attempt _ _) => apply steps_attempt; [apply _| |intros ?]
  | |- steps _ (for_all_do _ _) => apply steps_for_all; [apply _|intros ? _]
  | |- steps _ (find_do _ _) => apply steps_find; [apply _|intros ?]
  | |- steps _ (ignore _) => apply steps_ignore; [apply _|]
  | |- steps _ (map_error _ _) => apply steps_map_error; [apply _|]
  | |- steps _ (if ?b then _ else _) => destruct b
  | |- steps _ (match ?x with _ => _ end) => destruct x
  | |- steps _ (let '(_, _) := ?x in _) => destruct x
  | |- steps _ _ => solve [eauto with steps typeclass_instances]
  end.

Section bookkeeping.
Context `{C : Crypto} `{B : Bincode} `{N : !Environment}.
Context (R : World → World → Prop) `{HR : !Bookkeeping R}.

Lemma steps_act {E A} e (f : list Effect → A) : is_tell e = false → steps (E:=E) R (act e f).
Proof using HR. intros He w w' r [= <- <-]. by apply bk_effect. Qed.

Lemma steps_update_peer {E} a f : steps (E:=E) R (update_peer a f).
Proof using HR. intros w w' r [= <- <-]. apply bk_peers. Qed.

Lemma steps_query {A} (f : SqliteStore → result SqliteStoreError A) : steps R (store_do (query f)).
Proof using HR.
  intros w w' r. unfold store_do, query. destruct (sqlite_store (server w)) as [db|] eqn:E;
    intros [= <- <-]; [|done].
  destruct w as [[] ?]. cbn in *. subst. reflexivity.
Qed.

Lemma steps_save_peer p : steps R (store_do (save_peer p)).
Proof using HR.
  intros w w' r. unfold store_do. destruct (sqlite_store (server w)) as [db|] eqn:E;
    intros [= <- <-]; [|done]. by apply bk_peer_row.
Qed.

Lemma steps_put_peer {E} p : steps (E:=E) R (modify (λ s, put_peer s p)).
Proof using HR. intros w w' r [= <- <-]. apply bk_peers. Qed.

Lemma steps_ensure {E} e src : steps (E:=E) R (ensure_runtime_peer e src).
Proof using HR.
  intros w w' r [= <- <-]. destruct (peers (server w) !! _); [by destruct w|apply bk_peers].
Qed.

Lemma steps_now {E} : steps (E:=E) R now_timestamp_string.
Proof using HR. apply steps_bind; [apply _|by apply steps_act|]. intros ?. apply steps_ret, _. Qed.

#[local] Hint Resolve steps_act steps_update_peer steps_query steps_save_peer steps_put_peer
  steps_ensure steps_now : steps.

Lemma steps_update_persisted e src f :
  (∀ p, steps R (f p)) → steps R (update_persisted_peer e src f).
Proof using HR. intros Hf. unfold update_persisted_peer. steps_tac. Qed.
#[local] Hint Extern 1 (steps _ (update_persisted_peer _ _ _)) =>
  apply steps_update_persisted; intros ?; steps_tac : steps.

Lemma steps_record_hello h : steps R (record_inbound_hello h).
Proof using HR. unfold record_inbound_hello, has_store. steps_tac. Qed.
Lemma steps_record_tip o t : steps R (record_inbound_tip o t).
Proof using HR. unfold record_inbound_tip, has_store. steps_tac. Qed.
Lemma steps_connect_attempt e : steps R (record_peer_connect_attempt e).
Proof using HR. unfold record_peer_connect_attempt, has_store. steps_tac. Qed.
Lemma steps_connect_success e h : steps R (record_peer_connect_success e h).
Proof using HR. unfold record_peer_connect_success, has_store. steps_tac. Qed.
Lemma steps_connect_failure e err : steps R (record_peer_connect_failure e err).
Proof using HR. unfold record_peer_connect_failure, has_store. steps_tac. Qed.
Lemma steps_disconnect {E} a : steps (E:=E) R (disconnect_peer a).
Proof using HR. unfold disconnect_peer, emit. steps_tac. Qed.
#[local] Hint Resolve steps_connect_attempt steps_connect_success steps_connect_failure
  steps_disconnect : steps.

Lemma steps_connected e : steps R (ensure_peer_connected e).
Proof using HR. unfold ensure_peer_connected. steps_tac. Qed.
#[local] Hint Resolve steps_connected : steps.

Lemma steps_request_tip e ns : steps R (request_tip_attempts e ns).
Proof using HR. induction ns as [|n ns IH]; cbn [request_tip_attempts]; unfold has_store; steps_tac. Qed.
Lemma steps_request_block e h ns : steps R (request_block_attempts e h ns).
Proof using HR. induction ns as [|n ns IH]; cbn [request_block_attempts]; steps_tac. Qed.
#[local] Hint Resolve steps_request_tip steps_request_block : steps.

Lemma steps_announce e m n last :
  (∀ w h, R w (logged w (Tell (endpoint_addr e) h m))) → steps R (announce_attempts e m n last).
Proof using HR.
  intros Ht. revert last. induction n as [|n IH]; intros last; cbn [announce_attempts]; [steps_tac|].
  unfold announce_to_peer_once. steps_tac. intros w w' r [= <- <-]. apply Ht.
Qed.

Lemma steps_relay {E} m o :
  (∀ e w h, peer_matches_origin e o = false → R w (logged w (Tell (endpoint_addr e) h m))) →
  steps (E:=E) R (relay_best_effort m o).
Proof using HR.
  intros Ht. unfold relay_best_effort, announce_to_peer_best_effort. apply steps_bind; [apply _|apply steps_gets, _|].
  intros es. apply steps_for_all; [apply _|]. intros e _. destruct (peer_matches_origin e o) eqn:He;
    [apply steps_ret, _|]. apply steps_ignore, steps_announce; [apply _|]. intros w h. by apply Ht.
Qed.

(** The mining commands, when the miner's configuration is of no concern. *)
Lemma steps_refresh {E} :
  (∀ w c, R w (with_server w (set_mining (server w) c))) → steps (E:=E) R refresh_mining_candidate.
Proof using HR.
  intros Hm. unfold refresh_mining_candidate, build_mining_candidate, emit. steps_tac.
  intros w w' r [= <- <-]. apply Hm.
Qed.

End bookkeeping.

(** ** Announcements *)

Section announcements.
Context `{C : Crypto} `{L : !CryptoLaws C} `{B : Bincode} `{N : !Environment}.

(** The announcements of [l] satisfy [P]. *)
Definition tells (P : string → WireMessage → Prop) (l : list Effect) : Prop :=
  ∀ a h m, Tell a h m ∈ l → P a m.

Definition speaks (P : string → WireMessage → Prop) (w w' : World) : Prop :=
  ∃ new, log w' = log w ++ new ∧ tells P new.

(** The same without touching the node state. *)
Definition talks (P : string → WireMessage → Prop) (w w' : World) : Prop :=
  state (server w') = state (server w) ∧ speaks P w w'.

Lemma speaks_log (P : string → WireMessage → Prop) w w' : log w' = log w → speaks P w w'.
Proof using.
  intros Hl. exists []. split; [by rewrite Hl, app_nil_r|]. by intros ? ? ? ?%not_elem_of_nil.
Qed.

Lemma speaks_mono (P Q : string → WireMessage → Prop) w w' :
  (∀ a m, P a m → Q a m) → speaks P w w' → speaks Q w w'.
Proof using. intros HPQ (new & Hl & Ht). exists new. split; [done|]. intros a h m Hin. by eapply HPQ, Ht. Qed.

Lemma speaks_nothing (P : string → WireMessage → Prop) w w' :
  speaks (λ _ _, False) w w' → speaks P w w'.
Proof using. by apply speaks_mono. Qed.

Lemma speaks_effect (P : string → WireMessage → Prop) w e :
  match e with Tell a _ m => P a m | _ => True end → speaks P w (logged w e).
Proof using.
  intros He. exists [e]. split; [done|]. intros a h m Hin%list_elem_of_singleton. by subst e.
Qed.

#[global] Instance speaks_preorder P : PreOrder (speaks P).
Proof using.
  split.
  - intros w. by apply speaks_log.
  - intros w1 w2 w3 (n1 & H1 & T1) (n2 & H2 & T2). exists (n1 ++ n2).
    split; [by rewrite H2, H1, app_assoc|]. intros a h m [Hin|Hin]%elem_of_app; eauto.
Qed.

#[global] Instance talks_preorder P : PreOrder (talks P).
Proof using.
  split; [by intros w; split|].
  intros w1 w2 w3 [S1 T1] [S2 T2]. split; [congruence|by etransitivity].
Qed.

#[global] Instance speaks_bookkeeping P : Bookkeeping (speaks P).
Proof using.
  split; [apply _|intros; by apply speaks_log|intros w e He; apply speaks_effect; by destruct e|].
  intros; by apply speaks_log.
Qed.

#[global] Instance talks_bookkeeping P : Bookkeeping (talks P).
Proof using.
  split; [apply _| | |].
  - intros w ps. split; [done|by apply speaks_log].
  - intros w e He. split; [done|]. apply speaks_effect. by destruct e.
  - intros w db p _. split; [done|by apply speaks_log].
Qed.

Lemma steps_store_talks P {A} (op : store_op A) : steps (talks P) (store_do op).
Proof using.
  intros w w' r. unfold store_do. destruct (sqlite_store (server w)) as [db|];
    [destruct (op db)|]; intros [= <- <-]; [|done]. split; [done|by apply speaks_log].
Qed.

Lemma steps_node_speaks P {E A} (f : NodeState → NodeState * result (option E) A) :
  steps (speaks P) (node_do f).
Proof using.
  intros w w' r. unfold node_do. destruct (f _). intros [= <- <-]. by apply speaks_log.
Qed.

Lemma steps_talks_speaks P {E A} (m : server_op E A) : steps (talks P) m → steps (speaks P) m.
Proof using. intros Hm w w' r Hr. by eapply Hm. Qed.

#[local] Hint Resolve steps_store_talks steps_node_speaks : steps.

Lemma steps_save_block_state P h bt ids : steps (talks P) (save_accepted_block_state h bt ids).
Proof using. unfold save_accepted_block_state, has_store. steps_tac. Qed.
#[local] Hint Resolve steps_save_block_state : steps.

Lemma steps_save P m h bt ids rs : steps (talks P) (save_sqlite m h bt ids rs).
Proof using. unfold save_sqlite, has_store. steps_tac. Qed.
#[local] Hint Resolve steps_save : steps.

(** A sync walk announces nothing. *)
Lemma steps_sync_to P n e t : steps (speaks P) (sync_to_advertised_tip n e t).
Proof using.
  assert (∀ n h acc, steps (speaks P) (fetch_missing n e h acc)) as Hf.
  { clear n. induction n as [|n IH]; intros h acc; cbn [fetch_missing]; unfold request_block_from_peer; steps_tac;
      apply steps_request_block, _. }
  assert (∀ bs acc, steps (speaks P) (accept_synced_blocks bs acc)) as Ha.
  { induction bs as [|b bs IH]; intros acc; cbn [accept_synced_blocks]; unfold accept_synced_block; steps_tac;
      apply steps_talks_speaks, steps_save_block_state. }
  unfold sync_to_advertised_tip. steps_tac.
Qed.

Lemma steps_sync_from P n e : steps (speaks P) (sync_from_peer n e).
Proof using.
  unfold sync_from_peer, request_tip_from_peer. steps_tac;
    first [apply steps_update_peer, _|apply steps_request_tip, _|apply steps_sync_to].
Qed.

(** From a world whose node state is [s]. *)
Definition talks_from (s : NodeState) P {E A} (m : server_op E A) : Prop :=
  ∀ w w' r, state (server w) = s → m w = (w', r) → talks P w w'.

Lemma talks_from_steps s P {E A} (m : server_op E A) : steps (talks P) m → talks_from s P m.
Proof using. intros Hm w w' r _. apply Hm. Qed.

Lemma talks_from_bind s P {E A D} (m : server_op E A) (f : A → server_op E D) :
  talks_from s P m → (∀ a, talks_from s P (f a)) → talks_from s P (m ≫= f).
Proof using.
  intros Hm Hf w w' r Hs. unfold mbind, server_op_bind. destruct (m w) as [w1 [a|e|]] eqn:E1;
    apply Hm in E1; try done; [|by intros [= <- <-]..].
  intros H2. etransitivity; [done|]. eapply Hf; [|done]. destruct E1 as [-> _]. done.
Qed.

Lemma talks_from_gets s P {E D} (f : NodeState → server_op E D) :
  talks_from s P (f s) → talks_from s P (s ← gets state; f s).
Proof using. intros Hf w w' r Hs. unfold mbind, server_op_bind, gets. rewrite Hs. by apply Hf. Qed.

(** To whom and what the code after a successful state change may say. *)
Definition may_tell (s : NodeState) (bt : option BlockHash) (relay : option WireMessage)
    (rs : list WireMessage) (o : option PeerAddr) (a : string) (m : WireMessage) : Prop :=
  (∃ e, endpoint_addr e = a ∧ peer_matches_origin e o = false)
  ∧ (relay = Some m ∨ relay = None ∧ relay_message_from_replies s rs = Some m
     ∨ m = WAnnounceTip (tip_summary s) ∧ best_tip (chain s) ≠ bt).

Lemma save_and_relay_talks m h bt ids relay rs o s :
  talks_from s (may_tell s bt relay rs o) (save_and_relay m h bt ids relay rs o).
Proof using.
  assert (∀ m', (relay = Some m' ∨ relay = None ∧ relay_message_from_replies s rs = Some m'
     ∨ m' = WAnnounceTip (tip_summary s) ∧ best_tip (chain s) ≠ bt) →
    steps (E:=ServerError) (talks (may_tell s bt relay rs o)) (relay_best_effort m' o)) as Hrelay.
  { intros m' Hm'. apply steps_relay; [apply _|]. intros e w hd He. split; [done|].
    apply speaks_effect. split; eauto. }
  unfold save_and_relay. apply talks_from_bind.
  { apply talks_from_steps, steps_map_error, steps_save. apply _. }
  intros _. apply talks_from_gets. apply talks_from_bind.
  { apply talks_from_steps. destruct relay as [r|]; [by apply Hrelay; left|].
    destruct (relay_message_from_replies s rs) as [r|] eqn:Er; [apply Hrelay; eauto|apply steps_ret, _]. }
  intros _. apply talks_from_bind.
  { apply talks_from_gets. apply talks_from_steps. case_bool_decide; [apply steps_ret, _|].
    apply Hrelay. eauto. }
  intros _. apply talks_from_steps. unfold maybe_refresh_mining. apply steps_bind; [apply _|apply steps_gets, _|].
  intros ?. destruct (_ && _); [apply steps_ret, _|]. apply steps_refresh; [apply _|].
  intros w c. split; [done|by apply speaks_log].
Qed.

(** The object a message announces is already there. *)
Definition known (s : NodeState) (m : WireMessage) : Prop :=
  match m with
  | WAnnounceTx tx => ∃ id, Transaction_txid tx = Some id ∧ is_Some (mempool s !! id)
  | WAnnounceBlock b => is_Some (get_block s (header_hash (header b)))
  | _ => False
  end.

(** What a node may say about an announcement it received. *)
Definition news (s s' : NodeState) (m : WireMessage) (o : option PeerAddr) (a : string)
    (m' : WireMessage) : Prop :=
  (∃ e, endpoint_addr e = a ∧ peer_matches_origin e o = false)
  ∧ (m' = m ∧ ¬ known s m
     ∨ m' = WAnnounceTip (tip_summary s') ∧ best_tip (chain s') ≠ best_tip (chain s)).

Lemma relay_before_handle_known s m r :
  relay_message_before_handle s m = Some (Some r) →
  match m with WAnnounceTx _ | WAnnounceBlock _ => r = m ∧ ¬ known s m | _ => True end.
Proof using.
  destruct m; cbn; try done.
  - destruct (Transaction_txid tx) as [id|] eqn:Hid; cbn; [|done].
    destruct (mempool s !! id) eqn:E; [done|]. intros [= <-]. split; [done|].
    intros (id' & Hid' & [x Hk]). congruence.
  - destruct (get_block s _) eqn:E; [done|]. intros [= <-]. split; [done|]. intros [x Hk].
    congruence.
Qed.

(** After the state change of an announcement, everything said is news. *)
Lemma save_and_relay_news m h ids relay o s s' :
  match m with WAnnounceTx _ | WAnnounceBlock _ => True | _ => False end →
  relay_message_before_handle s m = Some relay →
  ∀ w w' r, state (server w) = s' →
  save_and_relay m h (best_tip (chain s)) ids relay [] o w = (w', r) →
  state (server w') = s' ∧ speaks (news s s' m o) w w'.
Proof using.
  intros Hm Hr w w' r Hs Hrun. apply (save_and_relay_talks _ _ _ _ _ _ _ s') in Hrun as [Hst Hsp]; [|done].
  split; [congruence|]. eapply speaks_mono; [|exact Hsp]. intros a m' [He Hm']. split; [done|].
  destruct Hm' as [->|[[_ ?]|?]]; [left|done|by right].
  apply relay_before_handle_known in Hr. by destruct m.
Qed.

Lemma run_bind {E A D} (m : server_op E A) (f : A → server_op E D) w w' r :
  (m ≫= f) w = (w', r) →
  (∃ w1 a, m w = (w1, Ok a) ∧ f a w1 = (w', r)) ∨ (∃ r1, m w = (w', r1) ∧ is_ok r = false).
Proof using.
  unfold mbind, server_op_bind. destruct (m w) as [w1 [a|e|]]; [by left; eauto|right..];
    simplify_eq; eauto.
Qed.

Lemma run_expecting {E A} (o : option A) w w' r :
  expecting (E:=E) o w = (w', r) → w' = w ∧ ∀ a, r = Ok a → o = Some a.
Proof using. intros [= <- <-]. split; [done|]. intros a. apply expect_Ok. Qed.

(** A block the node has changes nothing of the chain, and is not an orphan. *)
Lemma accept_block_known s b s' r :
  node_inv s → is_Some (get_block s (header_hash (header b))) → accept_block s b = (s', r) →
  chain s' = chain s
  ∧ ∀ e p, r = Err e → announced_block_needs_ancestor_sync e p = false.
Proof using.
  intros Hi Hk. apply (ni_blocks s Hi) in Hk as [en Hen]. unfold accept_block, insert_block.
  destruct (map_err InvalidBlock (validate_block b)) as [[]|ce|] eqn:Hv; cbn [mbind result_bind].
  - rewrite Hen. cbn zeta. destruct (ensure_snapshot _ _ _ _) as [s2 r2] eqn:Hens.
    pose proof Hens as (Hc & _)%ensure_snapshot_frame. cbn in Hc.
    assert (∀ e p, r2 = Err e → announced_block_needs_ancestor_sync e p = false) as Hne.
    { intros e p ->. destruct e as [ce| | | | | |]; try done. by apply ensure_snapshot_not_chain in Hens. }
    destruct r2 as [[]|e|]; [|intros [= <- <-]; split; [done|exact Hne]
      |by intros [= <- <-]].
    case_bool_decide; [|by intros [= <- <-]]. 
    destruct (utxo_snapshots s2 !! _);
      [|intros [= <- <-]; split; [done|by intros ? ? [= <-]]].
    destruct (prune_invalid _ _); by intros [= <- <-].
  - apply map_err_Err in Hv as (ce' & _ & ->). intros [= <- <-]. split; [done|]. by intros ? ? [= <-].
  - by intros [= <- <-].
Qed.

(** The conclusion for one handler. *)
Definition says_news (m : WireMessage) (o : option PeerAddr) (w w' : World) : Prop :=
  speaks (news (state (server w)) (state (server w')) m o) w w'
  ∧ (node_inv (state (server w)) → known (state (server w)) m →
     chain (state (server w')) = chain (state (server w))).

Lemma says_news_same m o w w' :
  log w' = log w →
  (node_inv (state (server w)) → known (state (server w)) m →
     chain (state (server w')) = chain (state (server w))) → says_news m o w w'.
Proof using. intros Hl Hc. split; [by apply speaks_log|done]. Qed.

(** The state change of an announcement, and what it does not change. *)
Lemma apply_announcement_run m w w' r :
  apply_announcement m w = (w', r) →
  log w' = log w
  ∧ (node_inv (state (server w)) → known (state (server w)) m →
     chain (state (server w')) = chain (state (server w)))
  ∧ ∀ rs, r = Ok rs → rs = [].
Proof using.
  destruct m; cbn [apply_announcement]; try (by intros [= <- <-]).
  - unfold attempt, node_do. destruct (submit_transaction _ _) as [s1 r1] eqn:Hs.
    assert (chain s1 = chain (state (server w))) as Hc.
    { unfold submit_transaction in Hs. destruct (submit _ _ _) as [[]| |]; by injection Hs as <- _. }
    destruct r1 as [id|e|]; cbn [map_err]; [| |by intros [= <- <-]];
      [|destruct e as [| | |[]| | |]]; intros [= <- <-]; split_and!; try done; naive_solver.
  - unfold map_error, attempt, node_do, mbind, server_op_bind.
    destruct (accept_block _ _) as [s1 r1] eqn:Ha.
    assert (node_inv (state (server w)) → known (state (server w)) (WAnnounceBlock b) →
      chain s1 = chain (state (server w))) as Hc.
    { intros Hi Hk. by destruct (accept_block_known _ _ _ _ Hi Hk Ha). }
    destruct r1 as [[]|e|]; cbn [map_err]; intros [= <- <-]; split_and!; try done; naive_solver.
Qed.

Lemma mutating_says_news m o h w w' r :
  match m with WAnnounceTx _ | WAnnounceBlock _ => True | _ => False end →
  handle_state_mutating_peer_message m o h w = (w', r) → says_news m o w w'.
Proof using.
  intros Hm. unfold handle_state_mutating_peer_message.
  intros [(w1 & s & [= <- <-] & Hrun)|(r1 & [= <- <-] & _)]%run_bind; [|by apply says_news_same].
  apply run_bind in Hrun as [(w1 & relay & Hrel & Hrun)|(r1 & Hrel & _)];
    apply run_expecting in Hrel as [-> Hrel]; [|by apply says_news_same].
  specialize (Hrel relay eq_refl).
  apply run_bind in Hrun as [(w1 & rs & Happ & Hrun)|(r1 & Happ & _)];
    apply apply_announcement_run in Happ as (Hl & Hc & Hrs); [|by apply says_news_same].
  rewrite (Hrs rs eq_refl) in Hrun.
  assert (∃ r1, save_and_relay m h (best_tip (chain (state (server w))))
    (mempool_txids (mempool (state (server w)))) relay [] o w1 = (w', r1)) as [r1 Hsr].
  { apply run_bind in Hrun as [(w2 & [] & Hsr & [= <- <-])|(r1 & Hsr & _)]; eauto. }
  apply (save_and_relay_news m h _ relay o (state (server w)) (state (server w1))) in Hsr as [Hs Hsp];
    [|done..].
  split; [|by rewrite Hs]. rewrite Hs. etransitivity; [by apply speaks_log|exact Hsp].
Qed.

(** The dispatcher on an announced block: only the node state changes. *)
Lemma peer_handle_block_run fuel b w w' r :
  peer_handle_message fuel (WAnnounceBlock b) w = (w', r) →
  log w' = log w
  ∧ (∀ rs, r = Ok rs → rs = [])
  ∧ (node_inv (state (server w)) → known (state (server w)) (WAnnounceBlock b) →
     chain (state (server w')) = chain (state (server w))
     ∧ ∀ e p, r = Err (Some (BlockRejected e)) → announced_block_needs_ancestor_sync e p = false).
Proof using.
  unfold peer_handle_message, node_do. cbn [handle_message].
  destruct (accept_block _ _) as [s1 r1] eqn:Ha.
  assert (node_inv (state (server w)) → known (state (server w)) (WAnnounceBlock b) →
    chain s1 = chain (state (server w))
    ∧ ∀ e p, r1 = Err e → announced_block_needs_ancestor_sync e p = false) as Hk.
  { intros Hi Hk. by eapply accept_block_known. }
  destruct r1 as [[]|e|]; intros [= <- <-]; (split; [done|split; [by intros ? [= <-]|]]);
    intros Hi Hkn; destruct (Hk Hi Hkn) as [Hc He]; (split; [done|]); [done| |done].
  intros e' p [= <-]. by apply He.
Qed.

(** The ancestor sync and the second attempt say nothing. *)
Lemma resync_run fuel e b {D} (k : list WireMessage → server_op ServerError D) w w' r :
  (_ ← ignore (sync_from_peer fuel e);
   rs ← map_error ServerPeer (peer_handle_message fuel (WAnnounceBlock b)); k rs) w = (w', r) →
  (∃ w1, speaks (λ _ _, False) w w1 ∧ k [] w1 = (w', r))
  ∨ speaks (λ _ _, False) w w' ∧ is_ok r = false.
Proof using.
  intros [(w1 & [] & Hsync & Hrun)|(r2 & Hsync & Hno)]%run_bind;
    apply (steps_ignore _ _ (steps_sync_from (λ _ _, False) fuel e)) in Hsync; [|by right].
  assert (∀ w2 r2, map_error ServerPeer (peer_handle_message fuel (WAnnounceBlock b)) w1 = (w2, r2) →
    speaks (λ _ _, False) w w2 ∧ ∀ rs, r2 = Ok rs → rs = []) as Hmsg.
  { intros w2 r2. unfold map_error, attempt.
    destruct (peer_handle_message fuel _ w1) as [w3 r3] eqn:Hp3.
    apply peer_handle_block_run in Hp3 as (Hl3 & Hrs3 & _).
    assert (speaks (λ _ _, False) w w3) by (etransitivity; [exact Hsync|by apply speaks_log]).
    destruct r3 as [rs|[err|]|]; intros [= <- <-]; split; try done. intros ? [= <-]. by apply Hrs3. }
  apply run_bind in Hrun as [(w2 & rs & Hp & Hrun)|(r3 & Hp & Hno)]; apply Hmsg in Hp as [Hw2 Hrs].
  - left. exists w2. split; [done|]. by rewrite (Hrs rs eq_refl) in Hrun.
  - by right.
Qed.

Lemma try_says_news fuel b o w w' r :
  try_handle_announced_block_with_sync fuel b o w = (w', r) →
  says_news (WAnnounceBlock b) o w w' ∧ (r = Ok None → w' = w).
Proof using.
  set (m := WAnnounceBlock b). set (s := state (server w)). unfold try_handle_announced_block_with_sync.
  assert (∀ relay rs w1 w2 r2, relay_message_before_handle s m = Some relay → rs = [] →
    speaks (λ _ _, False) w w1 →
    (node_inv s → known s m → chain (state (server w1)) = chain s) →
    (_ ← save_and_relay m (Some (header_hash (header b))) (best_tip (chain s))
       (mempool_txids (mempool s)) relay rs o; mret (Some rs)) w1 = (w2, r2) →
    says_news m o w w2 ∧ (r2 = Ok None → w2 = w)) as Hfin.
  { intros relay rs w1 w2 r2 Hrel -> Hw1 Hc Hrun.
    assert (∃ r1, save_and_relay m (Some (header_hash (header b))) (best_tip (chain s))
      (mempool_txids (mempool s)) relay [] o w1 = (w2, r1) ∧ r2 ≠ Ok None) as (r1 & Hsr & Hne).
    { apply run_bind in Hrun as [(w3 & [] & Hsr & [= <- <-])|(r1 & Hsr & ?)]; eexists; (split; [done|]);
        [done|]. by intros ->. }
    split; [|done].
    apply (save_and_relay_news m _ _ relay o s (state (server w1))) in Hsr as [Hs Hsp]; [|done..].
    split; [|by rewrite Hs]. rewrite Hs. etransitivity; [|exact Hsp]. by apply speaks_nothing. }
  intros [(w1 & s0 & [= <- <-] & Hrun)|(r1 & [= <- <-] & _)]%run_bind;
    [|split; [by apply says_news_same|done]].
  cbn [id] in Hrun. destruct (o ≫= sync_peer_from_origin (server w)) as [e|];
    [|injection Hrun as <- <-; split; [by apply says_news_same|done]].
  apply run_bind in Hrun as [(w1 & relay & Hrel & Hrun)|(r1 & Hrel & Hno)];
    apply run_expecting in Hrel as [-> Hrel]; [|split; [by apply says_news_same|by intros ->]].
  specialize (Hrel relay eq_refl). cbn zeta in Hrun.
  unfold attempt in Hrun. destruct (peer_handle_message fuel (WAnnounceBlock b) w) as [w1 r1] eqn:Hp.
  pose proof (peer_handle_block_run _ _ _ _ _ Hp) as (Hl & Hrs & Hk).
  assert (∀ w2 r2, w2 = w1 → is_ok r2 = false →
    (w2, r2) = (w', r) → says_news m o w w' ∧ (r = Ok None → w' = w)) as Hstop.
  { intros w2 r2 -> Hr2 [= <- <-]. split; [|by intros ->]. apply says_news_same; [done|].
    intros Hi Hkn. by apply Hk. }
  destruct r1 as [rs|[err|]|]; [| |by apply (Hstop w1 (Err None))|by apply (Hstop w1 Panic)].
  { eapply Hfin; [done|by apply Hrs|by apply speaks_log|intros Hi Hkn; by apply Hk|exact Hrun]. }
  destruct err; try (eapply Hstop; [| |exact Hrun]; done).
  destruct (announced_block_needs_ancestor_sync e0 _) eqn:Hneed;
    [|eapply Hstop; [| |exact Hrun]; done].
  assert (¬ (node_inv s ∧ known s m)) as Hunk.
  { intros [Hi Hkn]. destruct (Hk Hi Hkn) as [_ Hno]. by rewrite (Hno _ _ eq_refl) in Hneed. }
  assert (∀ w2, speaks (λ _ _, False) w w2 → says_news m o w w2) as Hsil.
  { intros w2 Hw2. split; [by apply speaks_nothing|]. intros Hi Hkn. by destruct Hunk. }
  assert (speaks (λ _ _, False) w w1) as Hw1 by by apply speaks_log.
  apply resync_run in Hrun as [(w2 & Hw2 & Hrun)|[Hw2 Hno]].
  - eapply Hfin; [done|done| |intros Hi Hkn; by destruct Hunk|exact Hrun]. by etransitivity.
  - split; [apply Hsil; by etransitivity|by intros ->].
Qed.

Lemma announce_block_says_news fuel b o w w' r :
  handle_peer_announce_block fuel b o w = (w', r) → says_news (WAnnounceBlock b) o w w'.
Proof using.
  intros [(w1 & orec & Ht & Hrun)|(r1 & Ht & _)]%run_bind; apply try_says_news in Ht as [Hn Hw1]; [|done].
  destruct orec as [rs|]; [by injection Hrun as <- _|]. rewrite (Hw1 eq_refl) in Hrun.
  by apply mutating_says_news in Hrun.
Qed.

(** *** The sender of an announcement *)

(** Peers are recorded under their own address. *)
Definition filed (s : Server) : Prop :=
  map_Forall (λ a p, endpoint_addr (rp_endpoint p) = a) (peers s).

(** [e] is where an announcement came from: by the address its sender advertised or, when it advertised
    none, by its node name. *)
Definition is_sender (o : PeerAddr) (e : PeerEndpoint) : Prop :=
  (∃ a, origin_addr o = Some a ∧ endpoint_addr e = a)
  ∨ origin_addr o = None ∧ endpoint_node_name e = origin_node_name o.

Lemma not_sender e oa : peer_matches_origin e (Some oa) = false → ¬ is_sender oa e.
Proof using.
  unfold peer_matches_origin. intros H [(a & Ha & He)|[Ha He]]; rewrite Ha in H;
    by apply bool_decide_eq_false_1 in H.
Qed.

(** The recorded peers of [s] other than the sender. *)
Definition others (s : Server) (o : option PeerAddr) (a : string) : Prop :=
  ∃ p, peers s !! a = Some p ∧ ∀ oa, o = Some oa → ¬ is_sender oa (rp_endpoint p).

Lemma relay_avoids_sender {E} m o w w' (r : result (option E) unit) :
  filed (server w) → relay_best_effort m o w = (w', r) → speaks (λ a m', others (server w) o a ∧ m' = m) w w'.
Proof using.
  intros Hf. unfold relay_best_effort, mbind at 1, server_op_bind, gets. cbv beta iota.
  revert w'. revert r. set (P := λ a m', others (server w) o a ∧ m' = m).
  enough (steps (E:=E) (speaks P) (for_all_do (λ e, if peer_matches_origin e o then mret ()
    else ignore (announce_to_peer_best_effort e m)) (peer_endpoints (server w)))) as Hs
    by (intros r w' Hr; by eapply Hs).
  apply steps_for_all; [apply _|]. intros e He. destruct (peer_matches_origin e o) eqn:Hm; [apply steps_ret, _|].
  apply steps_ignore, steps_announce; [apply _..|]. intros w1 h. apply speaks_effect. split; [|done].
  unfold peer_endpoints in He. rewrite merge_sort_Permutation in He.
  apply list_elem_of_fmap in He as ([a p] & -> & Hin%elem_of_map_to_list). cbn in *.
  exists p. rewrite (Hf a p Hin). split; [done|]. intros oa ->. by apply not_sender.
Qed.

(** Up to the relay of a transaction the peer records stay as they are. *)
Definition same_peers (w w' : World) : Prop :=
  peers (server w') = peers (server w) ∧ speaks (λ _ _, False) w w'.

#[local] Instance same_peers_preorder : PreOrder same_peers.
Proof using.
  split; [by intros w; split|]. intros w1 w2 w3 [S1 T1] [S2 T2]. split; [congruence|by etransitivity].
Qed.

Lemma steps_store_peers {A} (op : store_op A) : steps same_peers (store_do op).
Proof using.
  intros w w' r. unfold store_do. destruct (sqlite_store (server w)) as [db|];
    [destruct (op db)|]; intros [= <- <-]; [|done]. split; [done|by apply speaks_log].
Qed.

Lemma steps_save_tx_peers tx bt ids rs : steps same_peers (save_sqlite (WAnnounceTx tx) None bt ids rs).
Proof using.
  unfold save_sqlite, has_store. steps_tac; apply steps_store_peers.
Qed.

Lemma apply_tx_run tx w w' r :
  apply_announcement (WAnnounceTx tx) w = (w', r) →
  same_peers w w' ∧ chain (state (server w')) = chain (state (server w)) ∧ ∀ rs, r = Ok rs → rs = [].
Proof using.
  cbn [apply_announcement]. unfold attempt, node_do. destruct (submit_transaction _ _) as [s1 r1] eqn:Hs.
  assert (chain s1 = chain (state (server w))) as Hc.
  { unfold submit_transaction in Hs. destruct (submit _ _ _) as [[]| |]; by injection Hs as <- _. }
  destruct r1 as [id|e|]; cbn [map_err]; [|destruct e as [| | |[]| | |]|]; intros [= <- <-];
    (split; [split; [done|by apply speaks_log]|split; [done|naive_solver]]).
Qed.

Lemma relay_tip_unchanged {E} bt o w :
  best_tip (chain (state (server w))) = bt →
  relay_new_best_tip_if_advanced (E:=E) bt o w = (w, Ok ()).
Proof using.
  intros Hb. unfold relay_new_best_tip_if_advanced, mbind, server_op_bind, gets. cbv beta iota.
  by rewrite bool_decide_eq_true_2.
Qed.

Lemma steps_maybe_refresh P {E} bt ids : steps (E:=E) (speaks P) (maybe_refresh_mining bt ids).
Proof using.
  unfold maybe_refresh_mining. steps_tac. apply steps_refresh; [apply _|]. intros w c. by apply speaks_log.
Qed.

(** After the save of a transaction, which leaves the chain alone. *)
Lemma save_and_relay_tx tx ids relay o w w' r :
  filed (server w) →
  save_and_relay (WAnnounceTx tx) None (best_tip (chain (state (server w)))) ids relay [] o w = (w', r) →
  speaks (λ a _, others (server w) o a) w w'.
Proof using.
  intros Hf. unfold save_and_relay.
  intros [(w1 & [] & Hsave & Hrun)|(r1 & Hsave & _)]%run_bind;
    pose proof (steps_map_error _ SqlitePersist _ (steps_save_tx_peers tx _ _ _) _ _ _ Hsave) as [Hp1 Hs1];
    [|by apply speaks_nothing].
  apply (steps_map_error _ SqlitePersist _ (steps_save (λ _ _, True) _ _ _ _ _)) in Hsave as [Hst1 _].
  etransitivity; [by apply speaks_nothing|].
  assert (filed (server w1)) as Hf1 by (unfold filed; by rewrite Hp1).
  apply run_bind in Hrun as [(w2 & s & [= <- <-] & Hrun)|(r1 & [= <- <-] & _)]; [|by apply speaks_log].
  assert (∀ w2 r2, match (match relay with Some m => Some m | None => None end) with
      | Some m => relay_best_effort (E:=ServerError) m o | None => mret () end w1 = (w2, r2) →
    speaks (λ a _, others (server w) o a) w1 w2 ∧ state (server w2) = state (server w1)) as Hrelay.
  { intros w2 r2. destruct relay as [m|]; [|intros [= <- <-]; by split; [apply speaks_log|]].
    intros Hr. pose proof Hr as Hs%(relay_avoids_sender m o w1 w2 r2 Hf1). split.
    - eapply speaks_mono; [|exact Hs]. intros a m' [(p & Hp2 & Hn) _]. exists p. by rewrite <-Hp1.
    - apply (steps_relay (talks (λ _ _, True))) in Hr as [? _]; [done|].
      intros e wa h _. split; [done|by apply speaks_effect]. }
  apply run_bind in Hrun as [(w2 & [] & Hr & Hrun)|(r1 & Hr & _)]; apply Hrelay in Hr as [Hs2 Hst2]; [|done].
  etransitivity; [exact Hs2|].
  assert (relay_new_best_tip_if_advanced (E:=ServerError) (best_tip (chain (state (server w)))) o w2 = (w2, Ok ()))
    as Htip by (apply relay_tip_unchanged; congruence).
  unfold mbind, server_op_bind in Hrun. rewrite Htip in Hrun. by eapply steps_maybe_refresh.
Qed.

Lemma announce_tx_avoids_sender tx o w w' r :
  filed (server w) → handle_peer_announce_tx tx o w = (w', r) →
  speaks (λ a _, others (server w) o a) w w'.
Proof using.
  intros Hf. unfold handle_peer_announce_tx, handle_state_mutating_peer_message.
  intros [(w1 & s & [= <- <-] & Hrun)|(r1 & [= <- <-] & _)]%run_bind; [|by apply speaks_log].
  apply run_bind in Hrun as [(w1 & relay & Hrel & Hrun)|(r1 & Hrel & _)];
    apply run_expecting in Hrel as [-> _]; [|by apply speaks_log].
  apply run_bind in Hrun as [(w1 & rs & Ha & Hrun)|(r1 & Ha & _)];
    apply apply_tx_run in Ha as ([Hp Hs] & Hc & Hrs); [|by apply speaks_nothing].
  rewrite (Hrs rs eq_refl), <-Hc in Hrun. etransitivity; [by apply speaks_nothing|].
  assert (∃ r1, save_and_relay (WAnnounceTx tx) None (best_tip (chain (state (server w1))))
    (mempool_txids (mempool (state (server w)))) relay [] o w1 = (w', r1)) as [r1 Hsr].
  { apply run_bind in Hrun as [(w2 & [] & Hsr & [= <- <-])|(r1 & Hsr & _)]; eauto. }
  apply save_and_relay_tx in Hsr; [|unfold filed; by rewrite Hp].
  eapply speaks_mono; [|exact Hsr]. intros a _ (p & Hp' & Hn). exists p. by rewrite <-Hp.
Qed.

(** C34: Gossip discipline: handling an announced transaction or block, whatever the
    network does meanwhile, the node says to its peers only two things, the announced object itself, if it did not have it before, and
    its new best tip, if it changed; it says nothing to the address the sender advertised, nor, when
    it relays a transaction, to any recorded peer that is the sender, which goes by the node name if no address was
    advertised; the same holds of every relay, by the peers recorded when it starts; and an announcement of something it already has makes
    it say nothing at all, so gossip dies out. *)
Theorem relay_only_news (fuel : nat) (o : option PeerAddr) (m : WireMessage) (w w' : World)
    (r : result (option ServerError) (list WireMessage)) :
  match m with WAnnounceTx _ | WAnnounceBlock _ => True | _ => False end →
  handle_peer_message fuel o m w = (w', r) →
  (∃ new, log w' = log w ++ new
   ∧ (∀ a h m', Tell a h m' ∈ new →
        (m' = m ∧ ¬ known (state (server w)) m
         ∨ m' = WAnnounceTip (tip_summary (state (server w')))
           ∧ best_tip (chain (state (server w'))) ≠ best_tip (chain (state (server w))))
        ∧ ∀ oa, o = Some oa → origin_addr oa ≠ Some a)
   ∧ (∀ tx, m = WAnnounceTx tx → filed (server w) → ∀ a h m', Tell a h m' ∈ new →
        ∃ p, peers (server w) !! a = Some p ∧ ∀ oa, o = Some oa → ¬ is_sender oa (rp_endpoint p))
   ∧ (node_inv (state (server w)) → known (state (server w)) m → ∀ a h m', Tell a h m' ∉ new))
  ∧ (∀ m1 w1 w2 (r1 : result (option ServerError) unit),
       filed (server w1) → relay_best_effort m1 o w1 = (w2, r1) →
       ∃ new, log w2 = log w1 ++ new ∧ ∀ a h m', Tell a h m' ∈ new →
         m' = m1 ∧ ∃ p, peers (server w1) !! a = Some p
                    ∧ ∀ oa, o = Some oa → ¬ is_sender oa (rp_endpoint p)).
Proof using.
  intros Hm Hrun. split.
  2: { intros m1 w1 w2 r1 Hf Hr. destruct (relay_avoids_sender m1 o w1 w2 r1 Hf Hr) as (new & Hl & Ht).
       exists new. split; [done|]. intros a h m' Hin. by destruct (Ht a h m' Hin) as [? ->]. }
  assert (says_news m o w w') as [(new & Hl & Ht) Hc].
  { destruct m; try done; cbn [handle_peer_message] in Hrun;
      [by apply mutating_says_news in Hrun|by apply announce_block_says_news in Hrun]. }
  exists new. split; [done|]. split_and!.
  - intros a h m' Hin. destruct (Ht a h m' Hin) as [(e & <- & He) Hn]. split; [done|].
    intros oa -> Ha. cbn in He. rewrite Ha in He. by apply bool_decide_eq_false_1 in He.
  - intros tx -> Hf a h m' Hin. cbn [handle_peer_message] in Hrun.
    destruct (announce_tx_avoids_sender tx o w w' r Hf Hrun) as (new' & Hl' & Ht').
    rewrite Hl in Hl'. apply app_inv_head in Hl' as <-. by apply Ht' in Hin.
  - intros Hi Hk a h m' Hin. destruct (Ht a h m' Hin) as [_ [[_ ?]|[_ Hne]]]; [done|].
    by rewrite (Hc Hi Hk) in Hne.
Qed.


End announcements.
