(* ===== verification/ServerStore.v ===== *)
(** * The database keeps up with the server

    What [save_sqlite] writes for an accepted block, and that nothing the server does
    afterwards (relay, peer records, miner) disturbs it. *)

From S2P Require Import Prelude Bytes Crypto Types State Consensus Chain Mempool Wire.
From S2P Require Import Admin Mining NodeState Home Peers Client Peer Restart TxIndex Store.
From S2P Require Import StoreProofs StoreSave Runtime Server ServerLogic ServerRelay.

Section persistence.
Context `{C : Crypto} `{L : !CryptoLaws C} `{B : Bincode} `{BL : !BincodeLaws B} `{N : !Environment}.

(** The coinbase of the stored block [h] is not pending. *)
Definition coinbase_not_pending (s : NodeState) (h : BlockHash) : Prop :=
  ∀ b tx txs id, blocks s !! h = Some b → transactions b = tx :: txs →
  Transaction_txid tx = Some id → mempool s !! id = None.

(** No transaction of a block of the best chain is still pending; for a new
    best tip this is known of all but the coinbase.  A side branch needs nothing. *)
Definition save_covers (s : NodeState) (h : BlockHash) : Prop :=
  if bool_decide (best_tip (chain s) = Some h) then coinbase_not_pending s h
  else on_best_chain s h → none_pending s h.

Lemma refresh_returns s h bt ids :
  node_inv s → ∃ v, block_save_requires_mempool_index_refresh s h bt ids = Some v.
Proof using.
  intros Hi. unfold block_save_requires_mempool_index_refresh.
  destruct (entries (chain s) !! h) as [e|]; [|by eexists]. case_bool_decide; [by eexists|].
  destruct (negb _); [by eexists|]. destruct (get_block s h) as [b|] eqn:Hb; [|by eexists].
  destruct (ni_stored s Hi h b Hb) as (_ & _ & Henc & _).
  assert (∃ l, mapM Transaction_txid (tail (transactions b)) = Some l) as [l ->]; [|by eexists].
  apply mapM_is_Some. destruct (transactions b) as [|tx txs] eqn:Ht; [constructor|]. cbn.
  unfold Block_encodable in Henc. rewrite Ht in Henc. apply Forall_cons in Henc as [_ Henc].
  eapply Forall_impl; [exact Henc|]. intros t. apply Transaction_txid_is_Some.
Qed.

(** When the code decides against the refresh, none of the block's transactions is
    pending: exactly those left the mempool. *)
Lemma no_refresh_covers s h bt ids :
  node_inv s → save_covers s h → is_Some (entries (chain s) !! h) →
  block_save_requires_mempool_index_refresh s h bt ids = Some false →
  on_best_chain s h → none_pending s h.
Proof using.
  intros Hi Hcov [e He]. unfold save_covers in Hcov. unfold block_save_requires_mempool_index_refresh.
  rewrite He. destruct (bool_decide (best_tip (chain s) = Some h)) eqn:Hbt; [|done].
  apply bool_decide_eq_true_1 in Hbt. rewrite bool_decide_eq_false_2 by (by intros []).
  destruct (negb _); [done|]. intros Href _ b Hb. unfold get_block in Href. rewrite Hb in Href.
  destruct (transactions b) as [|tx txs] eqn:Ht; [constructor|]. cbn in Href.
  destruct (mapM Transaction_txid txs) as [l|] eqn:Hl; [|done]. cbn in Href.
  injection Href as Href. apply bool_decide_eq_false_1, dec_stable in Href.
  apply Forall_cons. split; [intros id Hid; by eapply (Hcov b)|].
  apply Forall_forall. intros t Hin id Hid. apply mapM_Some in Hl.
  assert (id ∈ l) as Hidl.
  { apply list_elem_of_lookup in Hin as [j Hj]. destruct (Forall2_lookup_l _ _ _ _ _ Hl Hj) as (id' & Hj' & ?).
    simplify_eq. by eapply list_elem_of_lookup_2. }
  apply (elem_of_list_to_set (C:=gset Txid)) in Hidl. rewrite <-Href in Hidl.
  apply elem_of_difference in Hidl as [_ Hid']. unfold mempool_txids in Hid'.
  by apply not_elem_of_dom in Hid'.
Qed.

Lemma store_do_run {A} (op : store_op A) w db db' a :
  sqlite_store (server w) = Some db → op db = (db', Ok a) →
  store_do op w = (with_server w (set_store (server w) db'), Ok a).
Proof using. intros Hdb Hop. unfold store_do. by rewrite Hdb, Hop. Qed.

Lemma bind_returns {E A D} (m : server_op E A) (f : A → server_op E D) w w1 a :
  m w = (w1, Ok a) → (m ≫= f) w = f a w1.
Proof using. intros Hm. unfold mbind, server_op_bind. by rewrite Hm. Qed.

(** The database of a world holds its node state. *)
Definition db_holds (w : World) : Prop :=
  ∃ db, sqlite_store (server w) = Some db ∧ stores db (state (server w)) ∧ index_ok db.

Section accepted.
Context (s : NodeState) (b : Block) (s' : NodeState) (db : SqliteStore) (w : World).
Context (Hi : node_inv s) (Hb : block_ok b) (Hsz : Z.of_nat (size (entries (chain s))) < 2 ^ 64).
Context (Hst : stores db s) (Hidx : index_ok db) (Ha : accept_block s b = (s', Ok ())).
Context (Hcov : save_covers s' (header_hash (header b))).
Context (Hs : state (server w) = s') (Hdb : sqlite_store (server w) = Some db).

(** The incremental save alone, and what is left to do for it. *)
Lemma accepted_saved :
  node_inv s' ∧ ∃ db1, save_accepted_block s' (header_hash (header b)) db = (db1, Ok ())
    ∧ stores (with_mempool_of db1 s') s' ∧ index_ok db1
    ∧ ∀ bt ids, block_save_requires_mempool_index_refresh s' (header_hash (header b)) bt ids
                = Some false → stores db1 s'.
Proof using L BL Hi Hb Hsz Hst Hidx Ha Hcov Hs Hdb.
  destruct Hb as [Hw He].
  destruct (save_accepted_block_run db s b s' Hi Hw He Hsz Hst Hidx Ha) as (db1 & mp & Hrun & Hmp & Hst1 & Hidx1).
  destruct (accept_block_delta s b s' Hi Hw He Hsz Ha) as (e & b' & _ & Hent & Hblk & _). cbn zeta in Hent, Hblk.
  destruct (accept_block_any s b s' _ Hi Hw He Ha) as [Hi' _]. split; [done|].
  exists db1. split_and!; [done|by eapply stores_with_mempool|done|]. intros bt ids Hv.
  assert (mp = mempool s') as ->; [|by destruct Hst1].
  eapply (saved_all s' _ mp b'); [by rewrite Hblk, lookup_insert_eq|apply Hi'|done|].
  eapply no_refresh_covers; [done..| |exact Hv]. rewrite Hent, lookup_insert_eq. by eexists.
Qed.

Lemma save_state_holds bt ids :
  ∃ w', save_accepted_block_state (header_hash (header b)) bt ids w = (w', Ok ())
    ∧ server w' = set_store (server w) (default db (sqlite_store (server w')))
    ∧ db_holds w'.
Proof using L BL Hi Hb Hsz Hst Hidx Ha Hcov Hs Hdb.
  destruct accepted_saved as (Hi' & db1 & Hrun & Hst1 & Hidx1 & Hnp).
  destruct (refresh_returns s' (header_hash (header b)) bt ids Hi') as [v Hv].
  unfold save_accepted_block_state, has_store. erewrite bind_returns; [|done]. rewrite Hdb.
  rewrite bool_decide_eq_true_2 by by eexists. cbn [negb].
  erewrite bind_returns; [|done]. rewrite Hs.
  erewrite bind_returns; [|by apply (store_do_run _ w db)].
  erewrite bind_returns; [|unfold expecting; by rewrite Hv]. destruct v.
  - destruct (save_mempool_state_run s' db1 Hi' Hst1) as (db2 & Hrun2 & Hst2 & Hidx2).
    eexists. split; [by eapply (store_do_run _ _ db1)|]. split; [done|].
    exists db2. cbn. by rewrite Hs.
  - eexists. split; [done|]. split; [done|]. exists db1. cbn. rewrite Hs.
    split_and!; [done| |done]. by eapply Hnp.
Qed.

Lemma save_block_holds bt ids rs :
  ∃ w', save_sqlite (WAnnounceBlock b) (Some (header_hash (header b))) bt ids rs w = (w', Ok ())
    ∧ state (server w') = s' ∧ db_holds w'.
Proof using L BL Hi Hb Hsz Hst Hidx Ha Hcov Hs Hdb.
  destruct accepted_saved as (Hi' & db1 & Hrun & Hst1 & Hidx1 & Hnp).
  destruct (refresh_returns s' (header_hash (header b)) bt ids Hi') as [v Hv].
  unfold save_sqlite, has_store. erewrite bind_returns; [|done]. rewrite Hdb. cbn [negb].
  rewrite bool_decide_eq_true_2 by by eexists. cbn [negb].
  erewrite bind_returns; [|done]. rewrite Hs.
  erewrite bind_returns; [|unfold expecting; by rewrite Hv]. destruct v.
  - destruct (save_state_holds bt ids) as (w' & Hrun' & Hw' & Hh). exists w'.
    split; [done|]. split; [|done]. by rewrite Hw'.
  - eexists. split; [by apply (store_do_run _ w db)|]. split; [done|].
    exists db1. cbn. rewrite Hs. split_and!; [done| |done]. by eapply Hnp.
Qed.

End accepted.

(** What comes after the save leaves the node state and its rows alone. *)
Definition keeps_db (w w' : World) : Prop :=
  state (server w') = state (server w) ∧ (db_holds w → db_holds w').

#[global] Instance keeps_db_bookkeeping : Bookkeeping keeps_db.
Proof using.
  split.
  - split; [done|]. intros w1 w2 w3 [S1 T1] [S2 T2]. split; [congruence|auto].
  - by intros w ps.
  - by intros w e.
  - intros w db p Hdb. split; [done|]. intros (db' & Hdb' & Hst & Hidx). assert (db' = db) as -> by congruence.
    exists (set_peers db p). split; [done|]. split; [|done]. by destruct Hst.
Qed.

Lemma save_and_relay_after m h bt ids relay rs o w w1 w' r :
  save_sqlite m h bt ids rs w = (w1, Ok ()) →
  save_and_relay m h bt ids relay rs o w = (w', r) → keeps_db w1 w'.
Proof using.
  intros Hsave. unfold save_and_relay.
  erewrite bind_returns; [|unfold map_error, attempt; by rewrite Hsave].
  assert (∀ m', steps (E:=ServerError) keeps_db (relay_best_effort m' o)) as Hrelay.
  { intros m'. apply steps_relay; [apply _|]. by intros e w2 hd _. }
  revert w1 w' r Hsave. intros w1 w' r _. revert w1 w' r.
  match goal with |- ∀ w w' r, ?m w = (w', r) → keeps_db w w' => change (steps keeps_db m) end.
  unfold relay_new_best_tip_if_advanced, maybe_refresh_mining. steps_tac.
  all: by apply steps_refresh; [apply _|]; intros w2 c.
Qed.

(** Both ways to handle a block that is accepted end in the same call. *)
Lemma announce_block_accepts fuel b o w w' r s' :
  accept_block (state (server w)) b = (s', Ok ()) →
  handle_peer_announce_block fuel b o w = (w', r) →
  ∃ bt ids relay r1,
    save_and_relay (WAnnounceBlock b) (Some (header_hash (header b))) bt ids relay [] o
      (with_server w (set_state (server w) s')) = (w', r1).
Proof using.
  intros Ha. unfold handle_peer_announce_block, try_handle_announced_block_with_sync. cbn zeta.
  assert (∀ {A D} (m : server_op ServerError A) (a : D) w1 r1,
    (_ ← m; mret a) w1 = (w', r1) → ∃ r2, m w1 = (w', r2)) as Hlast.
  { intros A D m a w1 r1 [(w2 & x & Hm & [= <- <-])|(r2 & Hm & _)]%run_bind; eauto. }
  destruct (o ≫= sync_peer_from_origin (server w)) as [e|] eqn:Ho.
  - intros Hrun.
    assert (∃ relay r2, (_ ← save_and_relay (WAnnounceBlock b) (Some (header_hash (header b)))
      (best_tip (chain (state (server w)))) (mempool_txids (mempool (state (server w)))) relay [] o;
      mret (Some ([] : list WireMessage))) (with_server w (set_state (server w) s')) = (w', r2)) as (relay & r2 & H2).
    { eexists. unfold mbind at 1, server_op_bind at 1 in Hrun.
      erewrite (bind_returns (gets id)) in Hrun; [|done]. cbn [id] in Hrun. rewrite Ho in Hrun.
      erewrite (bind_returns (expecting _)) in Hrun; [|done].
      unfold attempt at 1, peer_handle_message at 1, node_do at 1 in Hrun.
      cbn [handle_message] in Hrun. rewrite Ha in Hrun.
      destruct ((_ ← save_and_relay _ _ _ _ _ _ _; _) _) as [w1 [[rs|]|e1|]] eqn:Hs in Hrun;
        [| |injection Hrun as <- _; by eexists|injection Hrun as <- _; by eexists].
      - injection Hrun as <- _. by eexists.
      - exfalso. by apply run_bind in Hs as [(w2 & x & _ & [= _ ?])|(r1 & _ & ?)]. }
    apply Hlast in H2 as [r1 H1]. eauto.
  - intros Hrun. rewrite (bind_returns _ _ w w None) in Hrun.
    2: { erewrite (bind_returns (gets id)); [|done]. cbn [id]. by rewrite Ho. }
    unfold handle_state_mutating_peer_message in Hrun.
    erewrite (bind_returns (gets state)) in Hrun; [|done]. cbn zeta in Hrun.
    erewrite (bind_returns (expecting _)) in Hrun; [|done].
    erewrite (bind_returns (apply_announcement _) _ w (with_server w (set_state (server w) s')) []) in Hrun.
    2: { unfold apply_announcement. erewrite bind_returns; [done|].
         unfold map_error, attempt, node_do. by rewrite Ha. }
    apply Hlast in Hrun as [r1 H1]. eauto.
Qed.

(** C35: Persistence of announced blocks.  Let the node accept an announced block, its database hold its
    state, and let no transaction of the block still be pending if it comes to lie on the best chain, which for a new best tip
    only its coinbase can be.  Then, however the block reached the server and whatever the network does
    during the relay, the handler leaves the server in the new state with a database that holds exactly this
    state; so the decision when to rewrite the mempool tables is sound.  If moreover the active view was in step with the
    tip, every indexed block has its coins and no other tip ties with the best one, then a restart
    from the database gives the new state back. *)
Theorem announced_block_persisted (fuel : nat) (o : option PeerAddr) (b : Block) (w w' : World)
    (s' : NodeState) (r : result (option ServerError) (list WireMessage)) :
  let s := state (server w) in
  node_inv s → block_ok b → Z.of_nat (size (entries (chain s))) < 2 ^ 63 - 1 → db_holds w →
  accept_block s b = (s', Ok ()) → save_covers s' (header_hash (header b)) →
  handle_peer_message fuel o (WAnnounceBlock b) w = (w', r) →
  state (server w') = s'
  ∧ ∃ db, sqlite_store (server w') = Some db ∧ stores db s' ∧ index_ok db
    ∧ (tip_synced s → complete s' → unique_tip s' → coins_in_range (active_utxos s') →
       load_node_state db = Ok s').
Proof using L BL.
  intros s Hi Hb Hsz (db & Hdb & Hst & Hidx) Ha Hcov Hrun. pose proof Hb as [Hw He].
  assert (Z.of_nat (size (entries (chain s))) < 2 ^ 64) as Hsz64 by lia.
  destruct (announce_block_accepts fuel b o w w' r s' Ha Hrun) as (bt & ids & relay & r1 & Hsr).
  destruct (save_block_holds s b s' db (with_server w (set_state (server w) s')) Hi Hb Hsz64 Hst Hidx
    Ha Hcov eq_refl Hdb bt ids []) as (w1 & Hsave & Hs1 & Hh1).
  destruct (save_and_relay_after _ _ _ _ _ _ _ _ _ _ _ Hsave Hsr) as [Hs' Hh].
  rewrite Hs1 in Hs'. split; [done|]. destruct (Hh Hh1) as (db' & Hdb' & Hst' & Hidx').
  rewrite Hs' in Hst'. exists db'. split_and!; [done..|].
  intros Hsy Hc Hu Hr. pose proof (accept_block_size _ _ _ _ Hi Hw He Hsz64 Ha).
  apply accept_block_spec in Ha as (Hi' & _ & _ & Hsy'); [|done..].
  apply load_node_state_stored; auto. lia.
Qed.

End persistence.
