(* ===== verification/ServerReturns.v ===== *)
(** * Server operations that return

    Nothing a server does to its peers and their records can fail in a way that
    stops the event loop: an operation in [returning] neither panics nor runs for ever, whatever the
    network answers. *)

From S2P Require Import Prelude Bytes Crypto Types State Consensus Chain Mempool Wire.
From S2P Require Import Admin Mining NodeState Home Peers Client Peer TxIndex Store.
From S2P Require Import StoreProofs StoreSave Runtime Server ServerLogic ServerRelay ServerStore.

(** A call on the network fails with an error, it does not panic. *)
Class EnvironmentReturns `{B : Bincode} (N : Environment) : Prop := {
  dial_returns l a h : on_dial l a h ≠ Panic;
  tell_returns l h m : on_tell l h m ≠ Panic
}.

Section returning.
Context `{C : Crypto} `{B : Bincode} `{N : !Environment} `{NR : !EnvironmentReturns N}.

(** A serving node with a database and without a miner, in which [es] have a record. *)
Definition up (es : list PeerEndpoint) (w : World) : Prop :=
  runtime_handle (server w) = true ∧ is_Some (sqlite_store (server w)) ∧ mining (server w) = None
  ∧ Forall (λ e, is_Some (peers (server w) !! endpoint_addr e)) es.

Section up.
Context (es : list PeerEndpoint).
#[local] Notation returning := (keeps (up es) (λ _, False)).

Lemma returning_act {E A} e (f : list Effect → A) (Q : A → Prop) :
  (∀ l, Q (f l)) → returning (act (E:=E) e f) Q.
Proof using. intros HQ. apply keeps_act. intros w Hw. by split. Qed.

Lemma returning_now {E} : returning (now_timestamp_string (E:=E)) any.
Proof using.
  eapply keeps_bind; [by apply (returning_act _ _ any)|]. intros ? _. by apply keeps_ret.
Qed.

Lemma returning_update_peer {E} a f : returning (update_peer (E:=E) a f) any.
Proof using.
  apply keeps_modify. intros w (Hr & Hs & Hm & Hp). split_and!; [done..|]. cbn.
  eapply Forall_impl; [exact Hp|]. cbn. intros e [x He]. destruct (decide (endpoint_addr e = a)) as [<-|Hne].
  - rewrite lookup_alter_eq, He. by eexists.
  - rewrite lookup_alter_ne by congruence. by eexists.
Qed.

Lemma up_insert w a p :
  up es w → up es {| server := set_runtime_peers (server w) (<[a := p]> (peers (server w))); log := log w |}.
Proof using.
  intros (Hr & Hs & Hm & Hp). split_and!; [done..|]. cbn. eapply Forall_impl; [exact Hp|].
  cbn. intros e He. destruct (decide (endpoint_addr e = a)) as [->|Hne].
  - rewrite lookup_insert_eq. by eexists.
  - by rewrite lookup_insert_ne by congruence.
Qed.

Lemma returning_ensure {E} e src : returning (ensure_runtime_peer (E:=E) e src) any.
Proof using.
  apply keeps_modify. intros w Hw. destruct (peers (server w) !! endpoint_addr e).
  - by destruct w.
  - by apply up_insert.
Qed.

Lemma returning_store {A} (op : store_op A) :
  (∀ db, (op db).2 ≠ Panic) → returning (store_do op) any.
Proof using.
  intros Hop w w' r (Hr & [db Hs] & Hm & Hp). unfold store_do. rewrite Hs. specialize (Hop db).
  destruct (op db) as [db' [a|e|]]; intros [= <- <-]; cbn; [split; [|done]|..|done]; by split_and!.
Qed.

Lemma load_peer_returns a db : (query (λ db, load_peer db a) db).2 ≠ Panic.
Proof using.
  cbn. unfold load_peer. destruct (t_peers db !! a) as [r|]; [|done].
  unfold stored_peer_from_row, in_column. destruct (PeerSource_parse (p_source r)); [|done]. cbn.
  destruct (transpose parse_block_hash (p_advertised_tip_hash r)) as [th|e|] eqn:Ht; cbn; [|done|].
  - by case_bool_decide.
  - exfalso. destruct (p_advertised_tip_hash r) as [v|]; [|done]. cbn in Ht.
    unfold parse_block_hash, parse_hash in Ht. destruct (hex_decode v); [|done]. cbn in Ht.
    by case_bool_decide.
Qed.

Lemma returning_update_persisted e src (update : StoredPeer → server_op SqliteStoreError StoredPeer) :
  (∀ p, returning (update p) any) → returning (update_persisted_peer e src update) any.
Proof using.
  intros Hu. unfold update_persisted_peer.
  eapply keeps_bind; [apply returning_store, load_peer_returns|]. intros loaded _. cbn zeta.
  eapply keeps_bind; [apply Hu|]. intros p _.
  eapply keeps_bind; [apply (keeps_modify _ _ (λ s, put_peer s p)); intros w Hw; by apply up_insert|].
  intros _ _. by apply returning_store.
Qed.

(** A record is written, or there is nothing to write to. *)
Lemma returning_record e src (update : StoredPeer → server_op SqliteStoreError StoredPeer) :
  (∀ p, returning (update p) any) →
  returning (st ← has_store; if negb st then mret () else update_persisted_peer e src update) any.
Proof using.
  intros Hu. eapply keeps_bind; [apply keeps_gets|]. intros st _.
  destruct (negb st); [by apply keeps_ret|by apply returning_update_persisted].
Qed.

Lemma returning_attempt_record e : returning (record_peer_connect_attempt e) any.
Proof using.
  apply returning_record. intros p. eapply keeps_bind; [apply returning_now|]. intros ? _.
  by apply keeps_ret.
Qed.

Lemma returning_success_record e r : returning (record_peer_connect_success e r) any.
Proof using.
  apply returning_record. intros p. cbn zeta.
  repeat (eapply keeps_bind; [apply returning_now|intros ? _]). by apply keeps_ret.
Qed.

Lemma returning_failure_record e err : returning (record_peer_connect_failure e err) any.
Proof using.
  apply returning_record. intros p. eapply keeps_bind; [apply returning_now|]. intros ? _.
  by apply keeps_ret.
Qed.

Lemma returning_disconnect {E} a : returning (disconnect_peer (E:=E) a) any.
Proof using.
  eapply keeps_bind; [apply keeps_gets|]. intros s _. destruct (peers s !! a ≫= session).
  - eapply keeps_bind; [apply returning_update_peer|]. intros _ _. by apply (returning_act _ _ any).
  - by apply keeps_ret.
Qed.

Lemma returning_map_error {E F A} (f : E → F) (m : server_op E A) Q :
  returning m Q → returning (map_error f m) Q.
Proof using.
  intros Hm. eapply keeps_attempt; [exact Hm|]. intros r Hr Hp w w' r' Hw [= <- <-].
  destruct r; cbn; [by split; [|apply Hr]|done|done].
Qed.

End up.

(** [ensure_peer_connected] once the peer has a record. *)
Lemma returning_connected e : keeps (up []) (λ _, False) (ensure_peer_connected e) any.
Proof using NR.
  intros w w' r Hw. unfold ensure_peer_connected.
  set (rest := λ _ : unit, _ ≫= _). unfold ensure_runtime_peer, mbind at 1, server_op_bind at 1, modify at 1.
  set (w1 := {| server := _ |}). assert (up [e] w1) as Hw1.
  { destruct Hw as (Hr & Hs & Hm & _). unfold w1. destruct (peers (server w) !! endpoint_addr e) eqn:Hp.
    - split_and!; [done..|]. apply Forall_singleton. cbn. rewrite Hp. by eexists.
    - split_and!; [done..|]. apply Forall_singleton. cbn. rewrite lookup_insert_eq. by eexists. }
  assert (keeps (up [e]) (λ _, False) (rest ()) any) as Hrest.
  { unfold rest. eapply keeps_bind; [apply keeps_gets|]. intros s (w0 & Hw0 & ->).
    destruct (peers (id (server w0)) !! endpoint_addr e ≫= session); [by apply keeps_ret|].
    eapply keeps_bind; [eapply keeps_ignore, returning_attempt_record|]. intros _ _.
    eapply keeps_bind; [apply keeps_gets|]. intros s (w2 & Hw2 & ->). unfold id.
    rewrite (proj1 Hw2). eapply keeps_bind; [by apply (keeps_ret _ _ () any)|]. intros _ _. cbn zeta.
    eapply keeps_bind; [apply (returning_act _ _ _ (λ a, a.2 ≠ Panic)); intros l; apply dial_returns|].
    intros [hd [remote|err|]] Hnp; cbn [fst snd] in *; [|..|done].
    - eapply keeps_bind; [apply returning_map_error, returning_success_record|]. intros _ _.
      intros wa wb rb Hwa. unfold mbind at 1, server_op_bind at 1, gets, id.
      assert (is_Some (peers (server wa) !! endpoint_addr e)) as [p Hp]
        by (apply (Forall_singleton (λ e, is_Some (peers (server wa) !! endpoint_addr e))), Hwa).
      unfold expecting at 1. unfold mbind at 1, server_op_bind at 1. rewrite Hp. cbn [expect].
      revert wa wb rb Hwa Hp. intros wa wb rb Hwa _. revert wa wb rb Hwa.
      match goal with |- ∀ wa wb rb, _ → ?m wa = _ → _ => change (keeps (up [e]) (λ _, False) m any) end.
      eapply keeps_bind; [apply returning_update_peer|]. intros _ _. by apply keeps_ret.
    - eapply keeps_bind; [eapply keeps_ignore, returning_failure_record|]. intros _ _. apply keeps_raise. }
  intros Hrun. specialize (Hrest w1 w' r Hw1 Hrun).
  destruct r as [a|[err|]|]; [destruct Hrest as [Hrest _]; split; [|done]|..|done|done];
    destruct Hrest as (? & ? & ? & _); by split_and!.
Qed.

Lemma returning_announce e m n last :
  (n = 0%nat → is_Some last) → keeps (up []) (λ _, False) (announce_attempts e m n last) any.
Proof using NR.
  revert last. induction n as [|n IH]; intros last Hl; cbn [announce_attempts].
  - destruct (Hl eq_refl) as [err ->]. eapply keeps_bind; [by apply (keeps_ret _ _ err any)|].
    intros. apply keeps_raise.
  - eapply (keeps_attempt _ _ _ _ any).
    + unfold announce_to_peer_once.
      eapply keeps_bind; [apply returning_map_error, returning_connected|]. intros hd _.
      eapply keeps_bind; [apply (returning_act _ _ _ (λ r, r ≠ Panic)); intros l; apply tell_returns|].
      intros r Hr w w' r' Hw [= <- <-]. by destruct r.
    + intros [[]|err|] _ Hnp; [by apply keeps_ret| |done].
      eapply keeps_bind; [apply returning_disconnect|]. intros _ _. apply IH. intros _. by eexists.
Qed.

(** Relaying succeeds, whatever the peers do. *)
Lemma relay_returns {E} m o w :
  up [] w → ∃ w', relay_best_effort (E:=E) m o w = (w', Ok ()) ∧ up [] w'.
Proof using NR.
  intros Hw. unfold relay_best_effort. erewrite bind_returns by done.
  generalize (peer_endpoints (server w)). intros es. revert w Hw.
  induction es as [|e es IH]; intros w Hw; cbn [for_all_do]; [by exists w|].
  assert (∃ w1, (if peer_matches_origin e o then mret ()
    else ignore (announce_to_peer_best_effort e m) : server_op E unit) w = (w1, Ok ()) ∧ up [] w1)
    as (w1 & H1 & Hw1).
  { destruct (peer_matches_origin e o); [by exists w|].
    unfold ignore, attempt, announce_to_peer_best_effort.
    destruct (announce_attempts e m RELAY_CONNECT_ATTEMPTS None w) as [w1 r] eqn:Hr.
    pose proof (returning_announce e m RELAY_CONNECT_ATTEMPTS None ltac:(done) w w1 r Hw Hr) as H1.
    destruct r as [a|[err|]|]; [destruct H1 as [H1 _]| |done..]; by exists w1. }
  erewrite bind_returns by exact H1. by apply IH.
Qed.

(** Relaying leaves the node and its rows alone. *)
Lemma relay_quiet {E} m o w :
  up [] w → ∃ w', relay_best_effort (E:=E) m o w = (w', Ok ()) ∧ up [] w' ∧ keeps_db w w'.
Proof using NR.
  intros Hw. destruct (relay_returns (E:=E) m o w Hw) as (w' & Hrun & Hw'). exists w'.
  split_and!; [done..|]. eapply (steps_relay keeps_db m o); [|exact Hrun]. by intros e w2 hd _.
Qed.

Lemma relay_all_quiet {E A} (f : A → WireMessage) o l w :
  up [] w → ∃ w', for_all_do (λ a, relay_best_effort (E:=E) (f a) o) l w = (w', Ok ())
    ∧ up [] w' ∧ keeps_db w w'.
Proof using NR.
  revert w. induction l as [|a l IH]; intros w Hw; cbn [for_all_do]; [by exists w; split_and!; [..|by split]|].
  destruct (relay_quiet (E:=E) (f a) o w Hw) as (w1 & H1 & Hw1 & [Hs1 Hh1]).
  destruct (IH w1 Hw1) as (w2 & H2 & Hw2 & [Hs2 Hh2]).
  exists w2. erewrite bind_returns by exact H1. split_and!; [done|done|split; [congruence|auto]].
Qed.

Lemma relay_tip_quiet {E} bt o w :
  up [] w → ∃ w', relay_new_best_tip_if_advanced (E:=E) bt o w = (w', Ok ()) ∧ up [] w' ∧ keeps_db w w'.
Proof using NR.
  intros Hw. unfold relay_new_best_tip_if_advanced. erewrite bind_returns by done.
  case_bool_decide; [by exists w; split_and!; [..|by split]|by apply relay_quiet].
Qed.

(** There is no miner to refresh. *)
Lemma refresh_quiet {E} bt ids w : up [] w → maybe_refresh_mining (E:=E) bt ids w = (w, Ok ()).
Proof using.
  intros (_ & _ & Hm & _). unfold maybe_refresh_mining. erewrite bind_returns by done.
  destruct (_ && _); [done|]. unfold refresh_mining_candidate. erewrite bind_returns by done. unfold id.
  by rewrite Hm.
Qed.

End returning.
