(* ===== verification/ServerSync.v ===== *)
(** * Sync walks

    What [sync_to_advertised_tip] does over a live session: with a peer that
    serves its chain it brings the node to the advertised tip; with one that always
    answers with a block below another unknown one, it does not end. *)

From S2P Require Import Prelude Bytes Crypto Types State Consensus Chain Mempool Wire.
From S2P Require Import Admin Mining NodeState Home Peers Client Peer Restart TxIndex Store.
From S2P Require Import StoreProofs StoreSave Runtime Server ServerLogic ServerRelay ServerStore.

Section sync.
Context `{C : Crypto} `{L : !CryptoLaws C} `{B : Bincode} `{BL : !BincodeLaws B} `{N : !Environment}.

(** The outbound session to [e] is open with handle [h]. *)
Definition live (s : Server) (e : PeerEndpoint) (h : PeerHandle) : Prop :=
  peers s !! endpoint_addr e ≫= session = Some h.

Lemma connected_live e h w : live (server w) e h → ensure_peer_connected e w = (w, Ok h).
Proof using.
  unfold live. intros Hl. unfold ensure_peer_connected.
  erewrite (bind_returns _ _ w w ()).
  2: { unfold ensure_runtime_peer, modify. destruct (peers (server w) !! endpoint_addr e) eqn:E; [|done].
       by destruct w. }
  erewrite bind_returns; [|done]. cbn [id]. by rewrite Hl.
Qed.

Lemma request_block_live e h x w ob :
  live (server w) e h → on_block (log w) h x = Ok ob →
  request_block_from_peer e x w = (logged w (AskBlock h x), Ok ob).
Proof using.
  intros Hl Ho. unfold request_block_from_peer. cbn [seq request_block_attempts].
  erewrite bind_returns; [|by apply connected_live]. erewrite bind_returns; [|done]. by rewrite Ho.
Qed.

(** One round of the walk. *)
Lemma fetch_step n e h x acc w b :
  live (server w) e h → get_block (state (server w)) x = None → on_block (log w) h x = Ok (Some b) →
  fetch_missing (S n) e x acc w =
    (if bool_decide (prev_blockhash (header b) = BlockHash_default) then mret (acc ++ [b])
     else fetch_missing n e (prev_blockhash (header b)) (acc ++ [b])) (logged w (AskBlock h x)).
Proof using.
  intros Hl Hx Ho. cbn [fetch_missing]. erewrite bind_returns; [|done].
  rewrite bool_decide_eq_false_2 by (rewrite Hx; by intros []).
  erewrite bind_returns; [|by apply request_block_live]. by erewrite bind_returns.
Qed.

Lemma fetch_known n e x acc w :
  is_Some (get_block (state (server w)) x) → fetch_missing n e x acc w = (w, Ok acc).
Proof using.
  intros Hx. destruct n; cbn [fetch_missing]; (erewrite bind_returns; [|done]);
    by rewrite bool_decide_eq_true_2.
Qed.

(** The blocks, tip first, between [x] and what a node in state [s] knows, in
    what a peer serves. *)
Inductive segment (s : NodeState) (remote : BlockHash → option Block) : BlockHash → list Block → Prop :=
| segment_known x : is_Some (get_block s x) → segment s remote x []
| segment_genesis x b : get_block s x = None → remote x = Some b →
    prev_blockhash (header b) = BlockHash_default → segment s remote x [b]
| segment_child x b bs : get_block s x = None → remote x = Some b →
    prev_blockhash (header b) ≠ BlockHash_default → segment s remote (prev_blockhash (header b)) bs →
    segment s remote x (b :: bs).

Lemma segment_det s remote x bs bs' : segment s remote x bs → segment s remote x bs' → bs = bs'.
Proof using.
  intros Hs. revert bs'. induction Hs as [x Hx|x b Hx Hr Hp|x b bs Hx Hr Hp Hs IH]; intros bs' H';
    inversion H'; simplify_eq; try done;
    try (match goal with H : is_Some _ |- _ => destruct H; congruence end).
  f_equal. by apply IH.
Qed.

(** An honest peer serves a block under its own hash; the walk then meets no hash
    twice. *)
Definition honest (remote : BlockHash → option Block) : Prop :=
  ∀ x b, remote x = Some b → header_hash (header b) = x.

Lemma segment_suffix s remote x bs y :
  honest remote → segment s remote x bs → y ∈ (λ b, header_hash (header b)) <$> bs →
  get_block s y = None ∧ ∃ bs', segment s remote y bs' ∧ (length bs' ≤ length bs)%nat.
Proof using.
  intros Hh Hs. induction Hs as [x Hx|x b Hx Hr Hp|x b bs Hx Hr Hp Hs IH]; cbn; intros Hy.
  - by apply not_elem_of_nil in Hy.
  - apply list_elem_of_singleton in Hy as ->. rewrite (Hh _ _ Hr). split; [done|].
    exists [b]. split; [by constructor|done].
  - apply elem_of_cons in Hy as [->|Hy].
    + rewrite (Hh _ _ Hr). split; [done|]. exists (b :: bs). split; [by constructor|done].
    + destruct (IH Hy) as (? & bs' & ? & ?). split; [done|]. exists bs'. split; [done|lia].
Qed.

Lemma segment_nodup s remote x bs :
  honest remote → segment s remote x bs → NoDup ((λ b, header_hash (header b)) <$> bs).
Proof using.
  intros Hh Hs. induction Hs as [x Hx|x b Hx Hr Hp|x b bs Hx Hr Hp Hs IH]; cbn.
  - constructor.
  - apply NoDup_singleton.
  - apply NoDup_cons. split; [|done]. rewrite (Hh _ _ Hr). intros Hin.
    destruct (segment_suffix _ _ _ _ _ Hh Hs Hin) as (_ & bs' & Hs' & Hlen).
    assert (bs' = b :: bs) as -> by (eapply segment_det; [done|by constructor]). cbn in Hlen. lia.
Qed.

(** The blocks of a segment are blocks of the peer. *)
Lemma segment_served s remote x bs b : segment s remote x bs → b ∈ bs → ∃ y, remote y = Some b.
Proof using.
  induction 1 as [|x b0 Hx Hr Hp|x b0 bs Hx Hr Hp _ IH]; intros Hin.
  - by apply not_elem_of_nil in Hin.
  - apply list_elem_of_singleton in Hin as ->. by exists x.
  - apply elem_of_cons in Hin as [->|Hin]; [by exists x|by apply IH].
Qed.

Lemma fetch_segment s remote e h x bs n acc w :
  segment s remote x bs → (∀ l y, on_block l h y = Ok (remote y)) → (length bs ≤ n)%nat →
  live (server w) e h → state (server w) = s →
  ∃ w', fetch_missing n e x acc w = (w', Ok (acc ++ bs)) ∧ server w' = server w.
Proof using.
  intros Hs Ho. revert n acc w. induction Hs as [x Hx|x b Hx Hr Hp|x b bs Hx Hr Hp Hs IH];
    intros n acc w Hn Hl Hst; cbn in Hn.
  - exists w. rewrite app_nil_r. split; [|done]. apply fetch_known. by rewrite Hst.
  - destruct n as [|n]; [lia|]. rewrite (fetch_step n e h x acc w b); [|done|by rewrite Hst|by rewrite Ho, Hr].
    rewrite bool_decide_eq_true_2 by done. by eexists.
  - destruct n as [|n]; [lia|]. rewrite (fetch_step n e h x acc w b); [|done|by rewrite Hst|by rewrite Ho, Hr].
    rewrite bool_decide_eq_false_2 by done.
    destruct (IH n (acc ++ [b]) (logged w (AskBlock h x)) ltac:(lia) Hl Hst) as (w' & Hrun & Hw').
    exists w'. by rewrite <-app_assoc in Hrun.
Qed.

(** No coinbase of [bs] is pending. *)
Definition coinbases_not_pending (mp : Mempool.Mempool) (bs : list Block) : Prop :=
  ∀ b tx txs id, b ∈ bs → transactions b = tx :: txs → Transaction_txid tx = Some id → mp !! id = None.

Lemma empty_not_pending mp bs : mp = ∅ → coinbases_not_pending mp bs.
Proof using. intros -> b tx txs id _ _ _. apply lookup_empty. Qed.

(** The server keeps no database, or one that holds its state while no coinbase of the
    blocks to come is pending. *)
Definition persisting (bs : list Block) (w : World) : Prop :=
  sqlite_store (server w) = None
  ∨ db_holds w ∧ coinbases_not_pending (mempool (state (server w))) bs.

(** Nothing but the node state and its rows has changed. *)
Definition same_setup (w w' : World) : Prop :=
  peers (server w') = peers (server w) ∧ runtime_handle (server w') = runtime_handle (server w)
  ∧ mining (server w') = mining (server w).

#[local] Instance same_setup_preorder : PreOrder same_setup.
Proof using.
  split; [done|]. intros w1 w2 w3 (? & ? & ?) (? & ? & ?). split_and!; congruence.
Qed.

(** A new block whose coinbase is not pending is saved whole. *)
Lemma covers_new s b s' :
  node_inv s → block_ok b → Z.of_nat (size (entries (chain s))) < 2 ^ 64 →
  accept_block s b = (s', Ok ()) → get_block s (header_hash (header b)) = None →
  coinbases_not_pending (mempool s') [b] → save_covers s' (header_hash (header b)).
Proof using L.
  intros Hi [Hw He] Hsz Ha Hnew Hq. unfold save_covers. case_bool_decide as Ht.
  - destruct (accept_block_delta s b s' Hi Hw He Hsz Ha) as (_ & b' & _ & _ & Hblk & _ & _ & Hb').
    rewrite (Hb' Hnew) in Hblk. intros b0 tx txs id. rewrite Hblk, lookup_insert_eq. intros [= <-].
    apply Hq. by apply list_elem_of_singleton.
  - intros Hon. exfalso. by eapply new_side_block.
Qed.

Lemma accept_synced_run b bs bt ids w s' :
  let s := state (server w) in
  node_inv s → block_ok b → Z.of_nat (size (entries (chain s))) < 2 ^ 64 → persisting (b :: bs) w →
  get_block s (header_hash (header b)) = None → accept_block s b = (s', Ok ()) →
  ∃ w', accept_synced_block b bt ids w = (w', Ok (Some b)) ∧ state (server w') = s'
    ∧ persisting bs w' ∧ (db_holds w → db_holds w') ∧ same_setup w w'.
Proof using L BL.
  intros s Hi Hb Hsz Hper Hnew Ha. unfold accept_synced_block.
  erewrite bind_returns; [|done]. rewrite bool_decide_eq_false_2 by (fold s; rewrite Hnew; by intros []).
  set (w1 := with_server w (set_state (server w) s')).
  erewrite (bind_returns _ _ w w1 ()).
  2: { unfold map_error, attempt, node_do. fold s. by rewrite Ha. }
  destruct Hper as [Hno|[(db & Hdb & Hst & Hidx) Hm]].
  - exists w1. split; [|split_and!; [done|by left|intros (db & ? & _); congruence|done]].
    erewrite bind_returns; [done|]. unfold map_error, attempt, save_accepted_block_state, has_store.
    erewrite bind_returns; [|done]. cbn. by rewrite Hno.
  - destruct (accept_block_delta s b s' Hi (proj1 Hb) (proj2 Hb) Hsz Ha) as (_ & _ & _ & _ & _ & Hsub & _).
    assert (coinbases_not_pending (mempool s') (b :: bs)) as Hm'.
    { intros b0 tx txs id Hb0 Htx Hid. eapply lookup_weaken_None; [|exact Hsub]. by eapply Hm. }
    assert (save_covers s' (header_hash (header b))) as Hcov.
    { apply (covers_new s); [done..|]. intros b0 tx txs id ->%list_elem_of_singleton. apply Hm'. by left. }
    destruct (save_state_holds s b s' db w1 Hi Hb Hsz Hst Hidx Ha Hcov eq_refl Hdb bt ids)
      as (w2 & Hrun & Hw2 & Hh2).
    assert (state (server w2) = s') as Hs2 by by rewrite Hw2.
    exists w2. split; [|split; [done|split; [right; split; [done|]|split; [done|]]]].
    + erewrite bind_returns; [done|]. unfold map_error, attempt. by rewrite Hrun.
    + rewrite Hs2. intros b0 tx txs id Hb0. apply Hm'. by right.
    + unfold same_setup. by rewrite Hw2.
Qed.

(** Accepting a segment parent first is [accept_blocks]. *)
Lemma accept_synced_all bs acc w s' :
  let s := state (server w) in
  node_inv s → Forall block_ok bs → Z.of_nat (size (entries (chain s)) + length bs) < 2 ^ 64 →
  persisting bs w → NoDup ((λ b, header_hash (header b)) <$> bs) →
  (∀ b, b ∈ bs → get_block s (header_hash (header b)) = None) → accept_blocks s bs = (s', Ok ()) →
  ∃ w', accept_synced_blocks bs acc w = (w', Ok (acc ++ bs)) ∧ state (server w') = s'
    ∧ (db_holds w → db_holds w') ∧ same_setup w w'.
Proof using L BL.
  intros s Hi Hbs. revert w s Hi acc. induction Hbs as [|b bs Hb Hbs IH]; intros w s Hi acc; cbn;
    intros Hsz Hper Hnd Hnew Ha.
  - exists w. rewrite app_nil_r. by injection Ha as <-.
  - apply NoDup_cons in Hnd as [Hnin Hnd]. destruct (accept_block s b) as [s1 r1] eqn:Ha1.
    destruct r1 as [[]|?|]; [|done..]. pose proof Hb as [Hw He].
    destruct (accept_block_any s b s1 _ Hi Hw He Ha1) as [Hi1 _].
    pose proof (accept_block_size s b s1 _ Hi Hw He ltac:(lia) Ha1) as Hsz1.
    destruct (accept_block_delta s b s1 Hi Hw He ltac:(lia) Ha1) as (_ & b' & _ & _ & Hblk & _).
    destruct (accept_synced_run b bs (best_tip (chain s)) (mempool_txids (mempool s)) w s1)
      as (w1 & Hrun & Hs1 & Hper1 & Hh1 & Hset1); [done|done|fold s; lia|done|apply Hnew; left|done|].
    destruct (IH w1) with (acc := acc ++ [b]) as (w' & Hrun' & Hs' & Hh' & Hset');
      [by rewrite Hs1|rewrite Hs1; lia|done|done| |by rewrite Hs1|].
    { intros b2 Hb2. rewrite Hs1. unfold get_block. rewrite Hblk, lookup_insert_ne.
      - apply Hnew. by right.
      - intros Heq. apply Hnin. rewrite Heq. by apply (list_elem_of_fmap_2 (λ b, header_hash (header b))). }
    exists w'. split; [|split_and!; [done|auto|by etransitivity]]. erewrite bind_returns; [|done]. erewrite bind_returns; [|exact Hrun].
    cbn [option_list]. by rewrite <-app_assoc in Hrun'.
Qed.

(** An accepted block can be fetched afterwards. *)
Lemma accept_blocks_has s bs s' x :
  node_inv s → Forall block_ok bs → Z.of_nat (size (entries (chain s)) + length bs) < 2 ^ 64 →
  accept_blocks s bs = (s', Ok ()) →
  is_Some (get_block s x) ∨ x ∈ (λ b, header_hash (header b)) <$> bs → is_Some (get_block s' x).
Proof using L.
  intros Hi Hbs. revert s Hi. induction Hbs as [|b bs Hb Hbs IH]; intros s Hi; cbn; intros Hsz Ha.
  - injection Ha as <-. by intros [?|?%not_elem_of_nil].
  - destruct (accept_block s b) as [s1 r1] eqn:Ha1. destruct r1 as [[]|?|]; [|done..].
    pose proof Hb as [Hw He].
    pose proof (accept_block_size s b s1 _ Hi Hw He ltac:(lia) Ha1) as Hsz1.
    destruct (accept_block_delta s b s1 Hi Hw He ltac:(lia) Ha1) as (_ & b' & _ & _ & Hblk & _).
    apply accept_block_any in Ha1 as [Hi1 _]; [|done..]. intros Hx. apply (IH s1); [done|lia|done|].
    unfold get_block. rewrite Hblk, lookup_insert_is_Some'.
    destruct Hx as [?|[->|?]%elem_of_cons]; auto.
Qed.

(** Sync catches up: over a live session with a peer that serves the blocks of its chain, the walk
    from the advertised tip ends within as many requests as blocks are missing, and the
    node is then in the state that applying the missing segment parent first gives, with the advertised tip known, exactly the
    missing blocks reported as accepted and, if it keeps a database and no coinbase of the missing blocks is
    pending, the database in step. *)
Theorem sync_catches_up (fuel : nat) (e : PeerEndpoint) (t : TipSummary) (x : BlockHash) (w : World)
    (h : PeerHandle) (remote : BlockHash → option Block) (bs : list Block) (s' : NodeState) :
  let s := state (server w) in
  live (server w) e h → (∀ l y, on_block l h y = Ok (remote y)) → honest remote →
  tip t = Some x → segment s remote x bs → Forall block_ok bs → (length bs ≤ fuel)%nat →
  node_inv s → Z.of_nat (size (entries (chain s)) + length bs) < 2 ^ 64 → persisting bs w →
  accept_blocks s (reverse bs) = (s', Ok ()) →
  ∃ w', sync_to_advertised_tip fuel e t w = (w', Ok (reverse bs))
    ∧ state (server w') = s' ∧ is_Some (get_block s' x) ∧ (db_holds w → db_holds w')
    ∧ same_setup w w'.
Proof using L BL.
  intros s Hl Ho Hh Ht Hseg Hok Hfuel Hi Hsz Hper Ha. unfold sync_to_advertised_tip. rewrite Ht.
  erewrite bind_returns; [|done]. fold s. case_bool_decide as Hx.
  { assert (bs = []) as -> by (eapply segment_det; [done|by constructor]).
    exists w. injection Ha as <-. by split_and!. }
  destruct (fetch_segment s remote e h x bs fuel [] w Hseg Ho Hfuel Hl eq_refl) as (w1 & Hf & Hw1).
  rewrite (bind_returns _ _ _ _ _ Hf). cbn [app].
  destruct (accept_synced_all (reverse bs) [] w1 s') as (w' & Hrun & Hs' & Hh' & Hset);
    [rewrite Hw1; done|by apply Forall_reverse|rewrite Hw1, length_reverse; done| | | |by rewrite Hw1|].
  - destruct Hper as [?|[Hdb Hq]]; [left; by rewrite Hw1|right]. unfold db_holds in *. rewrite Hw1.
    split; [done|]. intros b tx txs id Hb. apply Hq. by apply elem_of_reverse.
  - rewrite fmap_reverse, reverse_Permutation. by eapply segment_nodup.
  - intros b Hb. rewrite elem_of_reverse in Hb. rewrite Hw1.
    destruct (segment_suffix s remote x bs (header_hash (header b)) Hh Hseg) as [? _]; [|done].
    apply list_elem_of_fmap. by exists b.
  - exists w'. unfold same_setup in *. rewrite Hw1 in Hset. split; [done|split; [done|split; [|split; [|done]]]].
    + apply (accept_blocks_has s (reverse bs)); [done|by apply Forall_reverse|by rewrite length_reverse|done|].
      right. rewrite fmap_reverse, elem_of_reverse.
      destruct Hseg as [x Hk|x b _ Hr _|x b bs _ Hr _ _]; [done|..]; cbn; rewrite (Hh _ _ Hr); left.
    + intros Hdb. apply Hh'. unfold db_holds in *. by rewrite Hw1.
Qed.

(** C36: A sync walk can be kept going forever: if every block a peer returns points to yet another block the node does not have
    (nothing checks the hash of what comes back, its work, or how many blocks have been fetched), then
    after any number of requests the walk is still asking for the next one, every fetched block is held, and
    the event loop serves nobody else. *)
Theorem sync_walk_diverges (fuel : nat) (e : PeerEndpoint) (t : TipSummary) (x : BlockHash)
    (w : World) (h : PeerHandle) :
  live (server w) e h → tip t = Some x → get_block (state (server w)) x = None →
  (∀ l y, ∃ b, on_block l h y = Ok (Some b) ∧ prev_blockhash (header b) ≠ BlockHash_default
               ∧ get_block (state (server w)) (prev_blockhash (header b)) = None) →
  ∃ asked, sync_to_advertised_tip fuel e t w
           = ({| server := server w; log := log w ++ (AskBlock h <$> asked) |}, Err None)
    ∧ length asked = fuel.
Proof using.
  intros Hl Ht Hx Hb. unfold sync_to_advertised_tip. rewrite Ht. erewrite bind_returns; [|done].
  rewrite bool_decide_eq_false_2 by (rewrite Hx; by intros []).
  assert (∀ n x acc w1, server w1 = server w → get_block (state (server w)) x = None →
    ∃ asked, fetch_missing n e x acc w1
             = ({| server := server w; log := log w1 ++ (AskBlock h <$> asked) |}, Err None)
      ∧ length asked = n) as Hwalk.
  { induction n as [|n IH]; intros y acc w1 Hw1 Hy.
    - exists []. split; [|done]. cbn [fetch_missing]. erewrite bind_returns; [|done].
      rewrite Hw1, bool_decide_eq_false_2 by (rewrite Hy; by intros []). rewrite app_nil_r.
      destruct w1. cbn in *. by subst.
    - destruct (Hb (log w1) y) as (b & Hob & Hp & Hpn).
      rewrite (fetch_step n e h y acc w1 b) by (by rewrite ?Hw1). rewrite bool_decide_eq_false_2 by done.
      destruct (IH (prev_blockhash (header b)) (acc ++ [b]) (logged w1 (AskBlock h y)) Hw1 Hpn)
        as (asked & -> & Hlen).
      exists (y :: asked). cbn. rewrite <-app_assoc. by rewrite Hlen. }
  destruct (Hwalk fuel x [] w eq_refl Hx) as (asked & Hrun & Hlen). exists asked.
  unfold mbind, server_op_bind. by rewrite Hrun.
Qed.

(** A tip the peer has pushed before is not acted on again. *)
Lemma tip_sync_duplicate fuel o e t w :
  sync_peer_from_origin (server w) o = Some e →
  peer_tip_sync_is_duplicate (server w) (endpoint_addr e) t = true →
  handle_event fuel (TipSync o t) w = (w, Ok (true, NoReply)).
Proof using.
  intros He Hd. cbn [handle_event]. erewrite bind_returns; [done|]. unfold handle_tip_sync.
  erewrite bind_returns by done. unfold id. rewrite He, Hd. by destruct (negb _).
Qed.

End sync.
