(* ===== verification/Convergence.v ===== *)
(** * Two nodes converge

    A node that syncs from a peer which answers with the dispatcher of peer.rs
    over its own state: what the node ends up with, in terms of the two states only, and what
    both have when each has synced from the other.  Blocks are named by hashes and no
    collision resistance is assumed, so that two nodes never hold different blocks
    under one hash is a hypothesis ([compatible]). *)

From S2P Require Import Prelude Bytes Crypto Types State Consensus Chain Mempool Wire.
From S2P Require Import Admin Mining NodeState NodeMining Home Peers Client Peer Restart TxIndex Store.
From S2P Require Import StoreProofs StoreSave Runtime Server ServerLogic ServerRelay ServerStore.
From S2P Require Import ServerReturns ServerSync.

(** ** Ancestors *)

Lemma ancestry_root m h l :
  ancestry m h l → ∃ g e, g ∈ l ∧ m !! g = Some e ∧ parent e = None.
Proof.
  induction 1 as [h e He Hp|h e p l He Hp Hl (g & ge & Hg & ? & ?)]; [by exists h, e; split; [left|]|].
  exists g, ge. split; [by right|done].
Qed.

Section agreement.
Context `{C : Crypto} `{L : !CryptoLaws C}.

(** A node in which every indexed block has been applied. *)
Record sound_node (s : NodeState) : Prop := {
  sn_inv : node_inv s;
  sn_synced : tip_synced s;
  sn_complete : complete s
}.

(** A node is sound as long as no block failed after it was indexed. *)
Lemma clean_reach_sound n s : reach clean_step n s → Z.of_nat n < 2 ^ 64 → sound_node s.
Proof using L.
  intros Hr Hn. destruct (clean_reach_synced n s Hr Hn) as [Hr' Hs].
  split; [by apply (reach_inv n s)|done|]. clear Hs Hr'. induction Hr as [|n s s' Hr IH Hstep]; [done|].
  destruct (clean_reach_synced n s Hr ltac:(lia)) as [Hr' _].
  destruct (reach_inv n s Hr' ltac:(lia)) as [Hi Hsz]. specialize (IH ltac:(lia)). clear Hr Hr'. revert Hi Hsz IH.
  destruct Hstep as [s b s' Hw He Ha|s b s' e Hw He Ha|s tx s' r Hw He Ha|s ids]; intros Hi Hsz IH; [..|done].
  - destruct (accept_block_delta s b s' Hi Hw He ltac:(lia) Ha) as (e & _ & _ & Hent & _).
    pose proof (accept_block_snapshots _ _ _ _ Ha) as Hsub.
    apply accept_block_spec in Ha as (_ & _ & Hnew & _); [|done..|lia].
    intros h x. rewrite Hent. intros [[<- _]|[_ Hx]]%lookup_insert_Some; [done|].
    destruct (IH h x Hx) as [U HU]. eapply lookup_weaken in HU; [|done]. by eexists.
  - apply accept_block_spec in Ha as (_ & -> & _); [done..|lia].
  - destruct (submit_transaction_inv _ _ _ _ Hi Hw He Ha) as (_ & _ & Hc & _ & Hsn).
    unfold complete. by rewrite Hc, Hsn.
Qed.

(** The work of the best chain. *)
Definition best_work (s : NodeState) : Z :=
  match best_tip (chain s) ≫= λ t, entries (chain s) !! t with
  | Some e => cumulative_work e
  | None => 0
  end.

(** Two nodes of one network: the same block under the same hash, none under the
    hash that stands for no parent, and a common block unless one of them is empty. *)
Record compatible (a b : NodeState) : Prop := {
  co_same h x y : get_block a h = Some x → get_block b h = Some y → x = y;
  co_zero_a : get_block a BlockHash_default = None;
  co_zero_b : get_block b BlockHash_default = None;
  co_meet : entries (chain a) = ∅ ∨ entries (chain b) = ∅
            ∨ ∃ h, is_Some (get_block a h) ∧ is_Some (get_block b h)
}.

Lemma compatible_sym a b : compatible a b → compatible b a.
Proof using.
  intros [Hs Hza Hzb Hm]. split; [|done|done|].
  - intros h x y Hx Hy. symmetry. by eapply Hs.
  - destruct Hm as [?|[?|(h & ? & ?)]]; eauto.
Qed.

Lemma entry_block s h e :
  node_inv s → entries (chain s) !! h = Some e →
  ∃ x, get_block s h = Some x ∧ entry_of (entries (chain s)) x e ∧ block_hash e = h.
Proof using.
  intros Hi He. destruct (proj2 (ni_blocks s Hi h)) as [x Hx]; [by eexists|].
  destruct (ni_stored s Hi h x Hx) as (_ & _ & _ & _ & Hof).
  exists x. split_and!; [done|by apply Hof|]. by destruct (cw_entries _ (ni_chain s Hi) h e He) as (? & _).
Qed.

(** The parent of a block is in its index and under the hash of its header. *)
Lemma entry_parent s h e x q :
  node_inv s → entries (chain s) !! h = Some e → get_block s h = Some x → parent e = Some q →
  q = prev_blockhash (header x) ∧ is_Some (get_block s q).
Proof using.
  intros Hi He Hx Hq. destruct (entry_block s h e Hi He) as (x' & Hx' & (w & _ & Hof) & _).
  rewrite Hq in Hof. destruct Hof as (-> & pe & Hpe & _). simplify_eq.
  split; [done|]. apply (ni_blocks s Hi). by eexists.
Qed.

(** Common blocks have the same entries and the same coins. *)
Lemma same_entry a b h ea eb :
  node_inv a → node_inv b → compatible a b →
  entries (chain a) !! h = Some ea → entries (chain b) !! h = Some eb → ea = eb.
Proof using.
  intros Ha Hb Hco Hea. pose proof Hea as Hanc.
  apply (ancestry_exists _ _ _ (cw_entries _ (ni_chain a Ha))) in Hanc as (l & Hl & _).
  revert ea eb Hea. induction Hl as [h e0 He0 Hp|h e0 p l He0 Hp Hl IH]; intros ea eb Hea Heb;
    assert (e0 = ea) as -> by congruence;
    destruct (entry_block a h ea Ha Hea) as (x & Hx & (wa & Hwa & Hoa) & Hha);
    destruct (entry_block b h eb Hb Heb) as (y & Hy & (wb & Hwb & Hob) & Hhb);
    assert (x = y) as <- by (by eapply (co_same a b Hco));
    assert (wa = wb) as <- by congruence; rewrite Hp in Hoa.
  - destruct (parent eb) as [q|] eqn:Hq.
    + exfalso. destruct Hoa as (Hz & _). destruct (entry_parent b h eb x q Hb Heb Hy Hq) as (-> & [z Hz']).
      rewrite Hz, (co_zero_b a b Hco) in Hz'. done.
    + destruct ea, eb; cbn in *. destruct Hoa as (_ & -> & ->), Hob as (_ & -> & ->). by subst.
  - destruct Hoa as (-> & pe & Hpe & Hh & Hc). destruct (parent eb) as [q|] eqn:Hq.
    + destruct Hob as (-> & pe' & Hpe' & Hh' & Hc'). assert (pe = pe') as <- by eauto.
      destruct ea, eb; cbn in *. subst. by f_equal.
    + exfalso. destruct Hob as (Hz & _).
      destruct (proj2 (ni_blocks a Ha (prev_blockhash (header x)))) as [z Hz']; [by eexists|].
      pose proof (co_zero_a a b Hco) as Hza. unfold get_block in Hza. congruence.
Qed.

Lemma same_coins a b h Ua Ub :
  node_inv a → node_inv b → compatible a b →
  utxo_snapshots a !! h = Some Ua → utxo_snapshots b !! h = Some Ub → Ua = Ub.
Proof using.
  intros Ha Hb Hco HUa. destruct (ni_snapshot a Ha h Ua HUa) as (e & x0 & He & _).
  apply (ancestry_exists _ _ _ (cw_entries _ (ni_chain a Ha))) in He as (l & Hl & _).
  revert Ua Ub HUa. induction Hl as [h e0 He0 Hp|h e0 p l He0 Hp Hl IH]; intros Ua Ub HUa HUb;
    destruct (ni_snapshot a Ha h Ua HUa) as (ea & x & Hea & Hx & Happ & _);
    destruct (ni_snapshot b Hb h Ub HUb) as (eb & y & Heb & Hy & Happ' & _);
    assert (x = y) as <- by (by eapply (co_same a b Hco));
    assert (ea = eb) as <- by (by eapply (same_entry a b));
    assert (e0 = ea) as -> by congruence; rewrite Hp in Happ, Happ'; [congruence|].
  destruct Happ as (U1 & HU1 & Happ), Happ' as (U2 & HU2 & Happ').
  assert (U1 = U2) as <- by eauto. congruence.
Qed.

(** The blocks of every chain of [b] go down to a block that [a] has. *)
Lemma branch_meets a b x l :
  node_inv a → node_inv b → compatible a b → ancestry (entries (chain b)) x l →
  entries (chain a) = ∅ ∨ ∃ h, h ∈ l ∧ is_Some (get_block a h).
Proof using.
  intros Ha Hb Hco Hl. destruct (co_meet a b Hco) as [?|[Hem|(h & Hah & Hbh)]]; [by left|..].
  { destruct Hl; by rewrite Hem in *. }
  right. destruct (ancestry_root _ _ _ Hl) as (g & ge & Hg & Hge & Hpg). exists g. split; [done|].
  apply (ni_blocks b Hb) in Hbh as [eb Heb]. apply (ni_blocks a Ha) in Hah as [ea Hea].
  destruct (ancestry_exists _ _ _ (cw_entries _ (ni_chain a Ha)) Hea) as (la & Hla & _).
  destruct (ancestry_root _ _ _ Hla) as (ga & gea & Hga & Hgea & Hpga).
  assert (ga = g) as ->; [|apply (ni_blocks a Ha); by eexists].
  assert (∀ l' h', ancestry (entries (chain a)) h' l' → is_Some (entries (chain b) !! h') → ga ∈ l' →
    is_Some (entries (chain b) !! ga)) as Hdown.
  { induction 1 as [h' e' He' Hp'|h' e' p' l' He' Hp' Hl' IH]; intros [e2 He2] Hin.
    - apply list_elem_of_singleton in Hin as ->. by eexists.
    - apply elem_of_cons in Hin as [->|Hin]; [by eexists|]. apply IH; [|done].
      assert (e' = e2) as <- by (by eapply (same_entry a b)).
      destruct (cw_entries _ (ni_chain b Hb) _ _ He2) as (_ & _ & _ & Hpar). rewrite Hp' in Hpar.
      destruct Hpar as (pe & Hpe & _). by eexists. }
  destruct (Hdown la h Hla) as [gb Hgb]; [by eexists|done|].
  assert (gea = gb) as <- by (by eapply (same_entry a b)).
  by eapply (cw_one_genesis _ (ni_chain b Hb)).
Qed.

(** ** Adopting a branch *)

(** [p] is [a] with blocks of [b] up to [x]. *)
Record joined (a b : NodeState) (x : BlockHash) (p : NodeState) : Prop := {
  jn_sound : sound_node p;
  jn_compatible : compatible p b;
  jn_entries : entries (chain a) ⊆ entries (chain p);
  jn_snapshots : utxo_snapshots a ⊆ utxo_snapshots p;
  jn_has : is_Some (entries (chain p) !! x);
  jn_new h e xe : entries (chain p) !! h = Some e → entries (chain b) !! x = Some xe →
    is_Some (entries (chain a) !! h) ∨ h = x ∨ cumulative_work e < cumulative_work xe;
  jn_tip xe : entries (chain b) !! x = Some xe → cumulative_work xe ≤ best_work a →
    best_tip (chain p) = best_tip (chain a)
}.

Lemma joined_self a b x :
  sound_node a → compatible a b → is_Some (get_block a x) → joined a b x a.
Proof using.
  intros Ha Hco Hx. split; try done; [by apply (ni_blocks a (sn_inv a Ha))|]. intros h e xe He _. left. by eexists.
Qed.

Lemma tip_keeps a p e :
  chain_wf (chain a) → entries (chain a) ⊆ entries (chain p) → best_tip (chain p) = best_tip (chain a) →
  1 ≤ cumulative_work e ≤ best_work a → tip_after (chain p) e = best_tip (chain a).
Proof using.
  intros Hw Hsub Hbt Hc. unfold best_work, tip_after in *. rewrite Hbt. pose proof (cw_best _ Hw) as Hb.
  destruct (best_tip (chain a)) as [t|]; cbn in *; [|lia].
  destruct Hb as (te & Hte & _). rewrite Hte in Hc. eapply lookup_weaken in Hte; [|done].
  rewrite Hte. case_bool_decide; [lia|done].
Qed.

Lemma joined_extend a b p x e y U p' :
  node_inv a → node_inv b → compatible p b → sound_node p' → extended p e y U p' →
  entries (chain a) ⊆ entries (chain p) → utxo_snapshots a ⊆ utxo_snapshots p →
  entries (chain p) !! x = None → utxo_snapshots p !! x = None →
  entries (chain b) !! x = Some e → get_block b x = Some y →
  (∀ h e', entries (chain p) !! h = Some e' →
     is_Some (entries (chain a) !! h) ∨ cumulative_work e' < cumulative_work e) →
  (cumulative_work e ≤ best_work a → best_tip (chain p) = best_tip (chain a)) →
  joined a b x p'.
Proof using.
  intros Hia Hib Hco Hs' (Hch & Hbl & Hsn & _) Hent Hsnap Hnew HnewU He Hy Hold Htip.
  destruct (cw_entries _ (ni_chain b Hib) x e He) as (Hx & _ & Hcw & _).
  rewrite Hx in Hbl, Hsn. split; [done|..]; rewrite ?Hch, ?Hsn; cbn; rewrite ?Hx.
  - destruct Hco as [Hsame Hza Hzb _]. unfold get_block in *. split; unfold get_block; rewrite ?Hbl; [| |done|].
    + intros h u v [[<- <-]|[? Hu]]%lookup_insert_Some Hv; [congruence|by eapply Hsame].
    + rewrite lookup_insert_ne; [done|]. intros ->. congruence.
    + right. right. exists x. rewrite lookup_insert_eq. split; by eexists.
  - by apply insert_subseteq_r; [eapply lookup_weaken_None|].
  - by apply insert_subseteq_r; [eapply lookup_weaken_None|].
  - rewrite lookup_insert_eq. by eexists.
  - intros h e' xe [[<- <-]|[? Hu]]%lookup_insert_Some Hxe; [by right; left|].
    assert (xe = e) as -> by congruence. destruct (Hold h e' Hu); auto.
  - intros xe Hxe Hle. assert (xe = e) as -> by congruence.
    apply tip_keeps; [apply Hia|done|by apply Htip|lia].
Qed.

(** One more block of [b]. *)
Lemma join_step a b p x e y U :
  node_inv a → node_inv b → sound_node p → compatible p b → same_parent b p e →
  entries (chain a) ⊆ entries (chain p) → utxo_snapshots a ⊆ utxo_snapshots p →
  entries (chain p) !! x = None → Z.of_nat (size (entries (chain p))) < 2 ^ 64 →
  entries (chain b) !! x = Some e → get_block b x = Some y → utxo_snapshots b !! x = Some U →
  (∀ h e', entries (chain p) !! h = Some e' →
     is_Some (entries (chain a) !! h) ∨ cumulative_work e' < cumulative_work e) →
  (cumulative_work e ≤ best_work a → best_tip (chain p) = best_tip (chain a)) →
  ∃ p', accept_block p y = (p', Ok ()) ∧ joined a b x p'
    ∧ size (entries (chain p')) = S (size (entries (chain p))).
Proof using L.
  intros Hia Hib Hp Hco Hpar Hent Hsnap Hnew Hsz He Hy HU Hold Htip. pose proof (sn_inv p Hp) as Hip.
  destruct (accept_same_block b p x e y U Hib Hip Hnew Hpar He Hy HU Hsz) as (p' & Hacc & Hext & Hi' & Hs').
  exists p'. split_and!; [done| |].
  - eapply (joined_extend a b p); try done.
    + split; [done|apply Hs', Hp|]. eapply complete_extended; [apply Hp|done].
    + apply eq_None_not_Some. intros [V HV]. destruct (ni_snapshot p Hip x V HV) as (? & ? & ? & _). congruence.
  - destruct Hext as (-> & _), (cw_entries _ (ni_chain b Hib) x e He) as (Hx & _).
    cbn. rewrite Hx. by rewrite map_size_insert_None.
Qed.

(** A child of what has been joined. *)
Lemma join_child a b p q x e y U :
  node_inv a → node_inv b → joined a b q p → parent e = Some q → get_block a x = None →
  Z.of_nat (size (entries (chain p))) < 2 ^ 64 →
  entries (chain b) !! x = Some e → get_block b x = Some y → utxo_snapshots b !! x = Some U →
  ∃ p', accept_block p y = (p', Ok ()) ∧ joined a b x p'
    ∧ size (entries (chain p')) = S (size (entries (chain p))).
Proof using L.
  intros Hia Hib [Hsp Hcp Hent Hsnap [pq Hpq] Hnew Htip] Hp Hax Hsz He Hy HU. pose proof (sn_inv p Hsp) as Hip.
  destruct (cw_entries _ (ni_chain b Hib) x e He) as (_ & _ & _ & Hpar). rewrite Hp in Hpar.
  destruct Hpar as (pe & Hpe & _ & Hlt).
  destruct (ni_snapshot b Hib x U HU) as (e' & y' & He' & _ & Happ & _). assert (e' = e) as -> by congruence.
  rewrite Hp in Happ. destruct Happ as (Uq & HUq & _).
  assert (pq = pe) as -> by (by eapply (same_entry p b)).
  destruct (sn_complete p Hsp q pe Hpq) as [Vq HVq].
  assert (Vq = Uq) as -> by (by eapply (same_coins p b)).
  eapply (join_step a b p x e y U); try done.
  - unfold same_parent. rewrite Hp, Hpq, Hpe, HVq, HUq. split_and!; [by eexists|done|done].
  - apply eq_None_not_Some. intros [ex Hex]. assert (ex = e) as -> by (by eapply (same_entry p b)).
    destruct (Hnew x e pe Hex Hpe) as [Hold|[->|Hless]]; [|simplify_eq; lia|lia].
    apply (ni_blocks a Hia) in Hold as [? ?]. unfold get_block in Hax. congruence.
  - intros h e' Hu. destruct (Hnew h e' pe Hu Hpe) as [?|[->|?]]; [by left| |right; lia].
    right. assert (e' = pe) as -> by congruence. done.
  - intros Hle. apply (Htip pe); [done|lia].
Qed.

(** The blocks [a] lacks of a branch of [b] are accepted one after the other. *)
Lemma join_branch a b x l :
  sound_node a → node_inv b → compatible a b → ancestry (entries (chain b)) x l →
  entries (chain a) = ∅ ∨ (∃ h, h ∈ l ∧ is_Some (get_block a h)) →
  is_Some (utxo_snapshots b !! x) → Z.of_nat (size (entries (chain a)) + length l) < 2 ^ 64 →
  ∃ bs p, segment a (get_block b) x bs ∧ Forall block_ok bs ∧ (length bs ≤ length l)%nat
    ∧ accept_blocks a (reverse bs) = (p, Ok ()) ∧ joined a b x p
    ∧ (size (entries (chain p)) ≤ size (entries (chain a)) + length bs)%nat.
Proof using L.
  intros Ha Hb Hco. pose proof (sn_inv a Ha) as Hia.
  induction 1 as [x e He Hp|x e q l He Hp Hl IH]; intros Hmeet [U HU] Hsz; cbn [length] in *;
    (destruct (get_block a x) as [y0|] eqn:Hax;
      [exists [], a; split_and!; [apply segment_known; rewrite Hax; by eexists|constructor|cbn; lia|done
        |apply joined_self; [done|done|rewrite Hax; by eexists]|lia]|]);
    destruct (entry_block b x e Hb He) as (y & Hy & (w & _ & Hof) & _); rewrite Hp in Hof;
    destruct (ni_stored b Hb x y Hy) as (_ & Hwf & Henc & _).
  - destruct Hmeet as [Hem|(h & ->%list_elem_of_singleton & Hh)]; [|by rewrite Hax in Hh; destruct Hh].
    destruct (join_step a b a x e y U) as (p & Hacc & Hj & Hszp); try done.
    { unfold same_parent. by rewrite Hp. }
    { by rewrite Hem. }
    { lia. }
    { intros h e'. by rewrite Hem. }
    exists [y], p. split_and!; [constructor; [done|done|apply Hof]|by constructor|done|cbn; by rewrite Hacc|done|cbn; lia].
  - destruct Hof as (-> & _). destruct (entry_parent b x e y _ Hb He Hy Hp) as (_ & Hbq).
    destruct (ni_snapshot b Hb x U HU) as (e' & y' & He' & _ & Happ & _). assert (e' = e) as -> by congruence.
    rewrite Hp in Happ. destruct Happ as (Uq & HUq & _).
    destruct IH as (bs & p & Hseg & Hok & Hlen & Hacc & Hj & Hszp); [|by eexists|lia|].
    { destruct Hmeet as [?|(h & [->|Hh]%elem_of_cons & Hk)]; [by left| |by right; eauto].
      rewrite Hax in Hk. by destruct Hk. }
    destruct (join_child a b p _ x e y U Hia Hb Hj Hp Hax ltac:(lia) He Hy HU) as (p' & Hacc' & Hj' & Hszp').
    exists (y :: bs), p'. split_and!; [|by constructor|cbn; lia| |done|cbn; lia].
    + constructor; [done|done| |done]. intros Hz. rewrite Hz, (co_zero_b a b Hco) in Hbq. by destruct Hbq.
    + rewrite reverse_cons, (accept_blocks_app _ _ _ _ Hacc). cbn. by rewrite Hacc'.
Qed.

(** ** The outcome *)

(** What [a] has become by syncing from [b]: the chain with more work, its own in a tie. *)
Record converged (a b a' : NodeState) : Prop := {
  cv_sound : sound_node a';
  cv_compatible : compatible a' b;
  cv_entries : entries (chain a) ⊆ entries (chain a');
  cv_work : best_work a' = Z.max (best_work a) (best_work b);
  cv_best : if bool_decide (best_work b ≤ best_work a)
            then best_tip (chain a') = best_tip (chain a) ∧ active_utxos a' = active_utxos a
            else best_tip (chain a') = best_tip (chain b) ∧ active_utxos a' = active_utxos b
}.

Lemma best_work_tip s t :
  node_inv s → best_tip (chain s) = Some t →
  ∃ e, entries (chain s) !! t = Some e ∧ best_work s = cumulative_work e
    ∧ ∀ h e', entries (chain s) !! h = Some e' → cumulative_work e' ≤ best_work s.
Proof using.
  intros Hi Ht. pose proof (cw_best _ (ni_chain s Hi)) as Hb. rewrite Ht in Hb.
  destruct Hb as (te & Hte & Hmax). exists te. unfold best_work. rewrite Ht. cbn. by rewrite Hte.
Qed.

Lemma best_work_none s : node_inv s → best_tip (chain s) = None → best_work s = 0.
Proof using. intros Hi Ht. unfold best_work. by rewrite Ht. Qed.

Lemma best_work_nonneg s : node_inv s → 0 ≤ best_work s.
Proof using.
  intros Hi. unfold best_work. destruct (best_tip (chain s) ≫= _) as [e|] eqn:E; [|done].
  apply bind_Some in E as (t & _ & He). destruct (cw_entries _ (ni_chain s Hi) t e He) as (_ & _ & ? & _). lia.
Qed.

(** Equal tips and equal coin caches give equal coins. *)
Lemma same_active s s' t :
  tip_synced s → tip_synced s' → best_tip (chain s) = Some t → best_tip (chain s') = Some t →
  (∀ U U', utxo_snapshots s !! t = Some U → utxo_snapshots s' !! t = Some U' → U = U') →
  active_utxos s = active_utxos s'.
Proof using. unfold tip_synced. intros Hs Hs' Ht Ht' HU. rewrite Ht in Hs. rewrite Ht' in Hs'. by apply HU. Qed.

Lemma joined_converged a b x p :
  sound_node a → sound_node b → best_tip (chain b) = Some x → joined a b x p → converged a b p.
Proof using.
  intros [Hia Hta _] [Hib Htb _] Hx [Hp Hco Hent Hsnap [xe' Hxp] Hnew Htip].
  pose proof (sn_inv p Hp) as Hip.
  destruct (best_work_tip b x Hib Hx) as (xe & Hxe & Hwb & _).
  assert (xe' = xe) as -> by (by eapply (same_entry p b)).
  destruct (cw_entries _ (ni_chain b Hib) x xe Hxe) as (_ & _ & Hpos & _).
  case (decide (best_work b ≤ best_work a)) as [Hle|Hgt].
  - specialize (Htip xe Hxe ltac:(lia)).
    destruct (best_tip (chain a)) as [t|] eqn:Ht; [|rewrite (best_work_none a Hia Ht) in Hle; lia].
    destruct (best_work_tip a t Hia Ht) as (te & Hte & Hwa & _).
    destruct (best_work_tip p t Hip Htip) as (te' & Hte' & Hwp & _).
    assert (te' = te) as -> by (eapply lookup_weaken in Hte; [|done]; congruence).
    split; [done|done|done|lia|]. rewrite bool_decide_eq_true_2, Ht by done. split; [done|].
    apply (same_active p a t); [apply Hp|done|done|done|]. intros U U' HU HU'.
    eapply lookup_weaken in HU'; [|done]. congruence.
  - assert (best_tip (chain p) = Some x) as Hxt.
    { pose proof (cw_best _ (ni_chain p Hip)) as Hb. destruct (best_tip (chain p)) as [t|].
      - destruct Hb as (te & Hte & Hmax). specialize (Hmax x xe Hxp).
        destruct (Hnew t te xe Hte Hxe) as [[te' Hte']|[->|?]]; [|done|lia].
        assert (te' = te) as -> by (eapply lookup_weaken in Hte'; [|done]; congruence).
        destruct (best_tip (chain a)) as [ta|] eqn:Hta'.
        + destruct (best_work_tip a ta Hia Hta') as (_ & _ & _ & Hm). specialize (Hm t te Hte'). lia.
        + pose proof (cw_best _ (ni_chain a Hia)) as Hba. rewrite Hta' in Hba. by rewrite Hba in Hte'.
      - by rewrite Hb in Hxp. }
    destruct (best_work_tip p x Hip Hxt) as (xe' & Hxe' & Hwp & _). assert (xe' = xe) as -> by congruence.
    split; [done|done|done|lia|]. rewrite bool_decide_eq_false_2, Hx by done. split; [done|].
    apply (same_active p b x); [apply Hp|done|done|done|]. intros U U' HU HU'. by eapply (same_coins p b).
Qed.

Lemma converged_empty a b :
  sound_node a → node_inv b → compatible a b → best_tip (chain b) = None → converged a b a.
Proof using.
  intros Ha Hb Hco Hx. pose proof (best_work_nonneg a (sn_inv a Ha)).
  pose proof (best_work_none b Hb Hx). split; [done..|lia|]. by rewrite bool_decide_eq_true_2 by lia.
Qed.

(** A node that adopts and one that is adopted from end up together. *)
Lemma converged_both a b a' b' :
  converged a b a' → converged b a' b' → best_work a ≠ best_work b →
  best_tip (chain a') = best_tip (chain b') ∧ active_utxos a' = active_utxos b'.
Proof using.
  intros [_ _ _ Hw Hb] [_ _ _ _ Hb'] Hne. rewrite Hw in Hb'. revert Hb Hb'.
  repeat case_bool_decide; try lia; intros [-> ->] [-> ->]; done.
Qed.

End agreement.

(** ** Over the wire *)

Section sync.
Context `{C : Crypto} `{L : !CryptoLaws C} `{B : Bincode} `{BL : !BincodeLaws B} `{N : !Environment}.

(** The block requests on the session [h] are answered by the dispatcher of a node in the state [b]. *)
Definition serves (cfg : NodeConfig) (h : PeerHandle) (b : NodeState) : Prop :=
  ∀ l x, ∃ ob, handle_message 0 cfg b (WGetBlock x) = (b, Ok [WBlock ob]) ∧ on_block l h x = Ok ob.

Lemma serves_blocks cfg h b l x : serves cfg h b → on_block l h x = Ok (get_block b x).
Proof using. intros Hs. destruct (Hs l x) as (ob & [= <-] & Hob). exact Hob. Qed.

(** The server keeps no database, or one that holds its state while no coinbase of a block of [b] is
    pending. *)
Definition holds_for (b : NodeState) (w : World) : Prop :=
  sqlite_store (server w) = None
  ∨ db_holds w ∧ ∀ x blk, get_block b x = Some blk →
      coinbases_not_pending (mempool (state (server w))) [blk].

Lemma sync_adopts fuel e h cfg b w :
  let a := state (server w) in
  sound_node a → sound_node b → compatible a b → live (server w) e h → serves cfg h b →
  (size (entries (chain b)) ≤ fuel)%nat →
  Z.of_nat (size (entries (chain a)) + size (entries (chain b))) < 2 ^ 64 → holds_for b w →
  ∃ w' bs, sync_to_advertised_tip fuel e (tip_summary b) w = (w', Ok bs)
    ∧ converged a b (state (server w')) ∧ (db_holds w → db_holds w') ∧ same_setup w w'.
Proof using L BL.
  intros a Ha Hb Hco Hl Hser Hfuel Hsz Hper. pose proof (sn_inv b Hb) as Hib.
  destruct (best_tip (chain b)) as [x|] eqn:Hx.
  2: { exists w, []. unfold sync_to_advertised_tip, tip_summary. rewrite Hx. split_and!; [done| |done|done..].
       by apply converged_empty. }
  destruct (best_work_tip b x Hib Hx) as (xe & Hxe & _).
  destruct (ancestry_exists _ x xe (cw_entries _ (ni_chain b Hib)) Hxe) as (l & Hanc & Hlen).
  destruct (cw_entries _ (ni_chain b Hib) x xe Hxe) as (_ & Hh & _).
  destruct (join_branch a b x l) as (bs & p & Hseg & Hok & Hbs & Hacc & Hj & _); try done.
  { apply (branch_meets a b x); [apply Ha|done..]. }
  { exact (sn_complete b Hb x xe Hxe). }
  { lia. }
  destruct (sync_catches_up fuel e (tip_summary b) x w h (get_block b) bs p)
    as (w' & Hrun & Hs' & _ & Hdb & Hset); try done; [..|apply Ha| | |].
  - intros l' y. by apply (serves_blocks cfg).
  - intros y blk Hy. by destruct (ni_stored b Hib y blk Hy).
  - unfold tip_summary. by rewrite Hx.
  - lia.
  - fold a. lia.
  - destruct Hper as [?|[Hh' Hq]]; [by left|right]. split; [done|]. intros blk tx txs id Hin.
    destruct (segment_served _ _ _ _ blk Hseg Hin) as [y Hy]. apply (Hq y blk Hy). by apply list_elem_of_singleton.
  - exists w', (reverse bs). split_and!; [done| |done|apply Hset..]. rewrite Hs'. by eapply joined_converged.
Qed.

Lemma update_peer_run {E} addr f w :
  update_peer (E:=E) addr f w
  = (with_server w (set_runtime_peers (server w) (alter f addr (peers (server w)))), Ok ()).
Proof using. done. Qed.

(** A record update that leaves the session alone. *)
Lemma alter_live f addr e h w :
  (∀ p, session (f p) = session p) → live (server w) e h →
  live (server (with_server w (set_runtime_peers (server w) (alter f addr (peers (server w)))))) e h.
Proof using.
  intros Hf. unfold live. cbn. destruct (decide (addr = endpoint_addr e)) as [->|Hne].
  - rewrite lookup_alter_eq. destruct (peers (server w) !! endpoint_addr e); cbn; [|done]. by rewrite Hf.
  - by rewrite lookup_alter_ne.
Qed.

Lemma alter_up f addr w :
  up [] w → up [] (with_server w (set_runtime_peers (server w) (alter f addr (peers (server w))))).
Proof using. intros (? & ? & ? & _). by split_and!. Qed.

(** A serving node without a miner, whose database holds its state and which has no
    coinbase of a block of [b] pending, and that hears from [o], with which it has a session that a
    node in the state [b] answers, a tip it has not acted on before. *)
Record can_sync (fuel : nat) (cfg : NodeConfig) (o : PeerAddr) (w : World) (b : NodeState) : Prop := {
  ts_up : up [] w;
  ts_db : db_holds w;
  ts_quiet x blk : get_block b x = Some blk →
    coinbases_not_pending (mempool (state (server w))) [blk];
  ts_peer : ∃ e h, sync_peer_from_origin (server w) o = Some e ∧ live (server w) e h ∧ serves cfg h b
    ∧ peer_tip_sync_is_duplicate (server w) (endpoint_addr e) (tip_summary b) = false
    ∧ peer_sync_in_progress (server w) (endpoint_addr e) = false;
  ts_fuel : (size (entries (chain b)) ≤ fuel)%nat;
  ts_size : Z.of_nat (size (entries (chain (state (server w)))) + size (entries (chain b))) < 2 ^ 64
}.

(** A tip that does not advance the node is one it has. *)
Lemma not_advancing a b :
  sound_node a → sound_node b → compatible a b →
  tip_summary_advances_local_state a (tip_summary b) = false → converged a b a.
Proof using.
  intros Ha Hb Hco. unfold tip_summary_advances_local_state. intros [Htip _]%orb_false_iff.
  destruct (best_tip (chain b)) as [x|] eqn:Hx; [|by apply (converged_empty a b Ha (sn_inv b Hb) Hco)].
  unfold tip_summary in Htip. rewrite Hx in Htip. cbn in Htip. apply bool_decide_eq_false in Htip.
  apply (joined_converged a b x); [done..|]. apply joined_self; [done..|]. by apply not_eq_None_Some.
Qed.

Lemma tip_sync_run fuel cfg o w b `{NR : !EnvironmentReturns N} :
  let a := state (server w) in
  sound_node a → sound_node b → compatible a b → can_sync fuel cfg o w b →
  ∃ w', handle_event fuel (TipSync o (tip_summary b)) w = (w', Ok (true, NoReply))
    ∧ converged a b (state (server w')) ∧ db_holds w'.
Proof using L BL.
  intros a Ha Hb Hco [Hup Hdb Hmp (e & h & He & Hl & Hser & Hdup & Hprog) Hfuel Hsz].
  assert (∃ w', handle_tip_sync fuel (E:=Empty_set) o (tip_summary b) w = (w', Ok ())
    ∧ converged a b (state (server w')) ∧ db_holds w') as (w' & Hrun & Hw').
  2: { exists w'. split; [|done]. cbn. by erewrite bind_returns. }
  unfold handle_tip_sync. erewrite bind_returns by done. unfold id. fold a.
  destruct (tip_summary_advances_local_state a (tip_summary b)) eqn:Hadv; cbn [negb].
  2: { exists w. split_and!; [done| |done]. by apply not_advancing. }
  rewrite He, Hdup, Hprog. unfold remember_tip_sync_hint.
  erewrite bind_returns by apply update_peer_run.
  set (w1 := with_server w _). cbn zeta.
  assert (live (server w1) e h) as Hl1 by (by apply alter_live). assert (up [] w1) as Hup1 by by apply alter_up.
  erewrite bind_returns by apply update_peer_run. set (w2 := with_server w1 _).
  assert (live (server w2) e h) as Hl2 by (by apply alter_live). assert (up [] w2) as Hup2 by by apply alter_up.
  assert (db_holds w2) as Hdb2 by exact Hdb.
  destruct (sync_adopts fuel e h cfg b w2 Ha Hb Hco Hl2 Hser Hfuel Hsz (or_intror (conj Hdb2 Hmp)))
    as (w3 & bs & Hsync & Hcv & Hdb3 & (_ & Hrt & Hmin)).
  unfold attempt. rewrite Hsync. cbn zeta. erewrite bind_returns by apply update_peer_run.
  specialize (Hdb3 Hdb2). set (w4 := with_server w3 _).
  assert (up [] w4) as Hup4.
  { apply alter_up. destruct Hup2 as (? & _ & ? & _), Hdb3 as (db & Hs & _).
    split_and!; [congruence|by eexists|congruence|done]. }
  destruct (relay_all_quiet (E:=Empty_set) WAnnounceBlock (Some o) bs w4 Hup4) as (w5 & H5 & Hup5 & [Hs5 Hh5]).
  erewrite bind_returns by exact H5.
  destruct (relay_tip_quiet (E:=Empty_set) (best_tip (chain a)) (Some o) w5 Hup5) as (w6 & H6 & Hup6 & [Hs6 Hh6]).
  erewrite bind_returns by exact H6. exists w6. split_and!; [by apply refresh_quiet| |by apply Hh6, Hh5].
  by rewrite Hs6, Hs5.
Qed.

End sync.

(** ** Theorems *)

Section claims.
Context `{C : Crypto} `{L : !CryptoLaws C} `{B : Bincode} `{BL : !BincodeLaws B}.

(** C5: A pushed tip brings a node to the chain with the most work, under these conditions.  Both nodes satisfy the
    node invariant, have every indexed block applied and the active coins in step with the tip, have the same block under the same hash, and share a
    block unless one of them is empty.  The node serves, does not mine, and its database holds its
    state; none of the peer's coinbases is pending with it; it has a live session with the peer, which answers block requests with the
    dispatcher of peer.rs in the state [b]; it is in no other sync with the peer and the peer has not pushed this tip before (a repeated
    tip is ignored even if the first sync failed); calls on the network fail with errors, not panics, and the two
    indexes together have fewer than 2^64 blocks.  Then the event loop returns from the event, and the node has: all its blocks, the
    work of the heavier of the two best chains, with the tip and the coins of [b] if [b] has strictly more
    work and its own otherwise; still every block applied; and a database that holds the new state. *)
Theorem tip_sync_converges `{N : !Environment} `{NR : !EnvironmentReturns N} (fuel : nat) (cfg : NodeConfig)
    (o : PeerAddr) (w : World) (b : NodeState) :
  let a := state (server w) in
  sound_node a → sound_node b → compatible a b → can_sync fuel cfg o w b →
  ∃ w', handle_event fuel (TipSync o (tip_summary b)) w = (w', Ok (true, NoReply))
    ∧ let a' := state (server w') in
      sound_node a' ∧ entries (chain a) ⊆ entries (chain a') ∧ db_holds w'
      ∧ best_work a' = Z.max (best_work a) (best_work b)
      ∧ (best_work b ≤ best_work a →
           best_tip (chain a') = best_tip (chain a) ∧ active_utxos a' = active_utxos a)
      ∧ (best_work a < best_work b →
           best_tip (chain a') = best_tip (chain b) ∧ active_utxos a' = active_utxos b).
Proof using L BL.
  intros a Ha Hb Hco Hcan. destruct (tip_sync_run fuel cfg o w b Ha Hb Hco Hcan) as (w' & Hrun & [Hs _ He Hw Hbest] & Hdb).
  exists w'. split; [done|]. cbn zeta. fold a in He, Hw, Hbest. split_and!; [done..| |]; intros Hle; revert Hbest;
    case_bool_decide; [done|lia|lia|done].
Qed.

(** C4: Two nodes agree once each has synced from the other.  Under the conditions of a single sync for each of the two
    (every block applied, a common block, a database in step and no miner, none of the other's coinbases pending,
    a live session, a tip not pushed before), and if their best chains differ in work: after the
    first has handled the tip of the second and the second the new tip of the first, both have
    the same best tip, the same coins and a database in step, whatever the two networks did besides (their calls
    fail with errors, not panics). *)
Theorem nodes_converge (N1 : Environment) (NR1 : EnvironmentReturns N1) (fuel : nat) (cfg1 cfg2 : NodeConfig)
    (o1 o2 : PeerAddr) (w1 w2 : World) :
  let a := state (server w1) in
  let b := state (server w2) in
  sound_node a → sound_node b → compatible a b → best_work a ≠ best_work b →
  can_sync (N:=N1) fuel cfg2 o1 w1 b →
  ∃ w1', handle_event (N:=N1) fuel (TipSync o1 (tip_summary b)) w1 = (w1', Ok (true, NoReply))
    ∧ let a' := state (server w1') in
      ∀ (N2 : Environment) (NR2 : EnvironmentReturns N2), can_sync (N:=N2) fuel cfg1 o2 w2 a' →
      ∃ w2', handle_event (N:=N2) fuel (TipSync o2 (tip_summary a')) w2 = (w2', Ok (true, NoReply))
        ∧ best_tip (chain (state (server w2'))) = best_tip (chain a')
        ∧ active_utxos (state (server w2')) = active_utxos a'
        ∧ db_holds w1' ∧ db_holds w2'.
Proof using L BL.
  intros a b Ha Hb Hco Hne Hcan1.
  destruct (tip_sync_run fuel cfg2 o1 w1 b Ha Hb Hco Hcan1) as (w1' & Hrun1 & Hcv1 & Hdb1).
  exists w1'. split; [done|]. intros a' N2 NR2 Hcan2.
  destruct (tip_sync_run fuel cfg1 o2 w2 a' Hb (cv_sound _ _ _ Hcv1) (compatible_sym _ _ (cv_compatible _ _ _ Hcv1)) Hcan2)
    as (w2' & Hrun2 & Hcv2 & Hdb2).
  exists w2'. destruct (converged_both _ _ _ _ Hcv1 Hcv2 Hne) as [Ht Hu]. by split_and!.
Qed.

End claims.
