(* ===== verification/Shell.v ===== *)
(** * server.rs: the threads around the event loop

    [Server::start] runs three threads: the asynchronous shell ([serve_inner]), the
    event loop, which owns the server, and the miner.  They share a bounded
    channel of events, a stop flag and the miner's own channel.  [shell_step] is
    their interleaving, together with whoever holds a [ServerHandle] (peer and admin
    tasks, the caller).  Each send into the channel is numbered, in order: the
    number stands for the one-shot reply channel of the request.

    The receiver lives as long as [run_event_loop], which ends after
    [Server::disconnect] has joined the miner.  The server holds a sender
    itself, so the channel is never closed from the sending side. *)

From S2P Require Import Prelude Bytes Crypto Types State Consensus Chain Mempool Wire.
From S2P Require Import Admin Mining NodeState Home Peers Client Peer TxIndex Store.
From S2P Require Import Runtime Server ServerLogic.

Inductive ServerHandleError := SubmitClosed | ResponseDropped.

Definition handle_error_text (e : ServerHandleError) : string :=
  match e with SubmitClosed => "SubmitClosed" | ResponseDropped => "ResponseDropped" end.

Section shell.
Context `{C : Crypto} `{B : Bincode} `{N : !Environment}.
Context (fuel : nat).

(** ** Options *)

Definition with_peers (o : ServerOptions) (ps : list PeerEndpoint) : ServerOptions := {|
  opt_config := opt_config o; opt_state := opt_state o; opt_peers := ps; opt_store := opt_store o;
  opt_bootstrap_sync := opt_bootstrap_sync o; opt_mining := opt_mining o;
  opt_channel_capacity := opt_channel_capacity o
|}.
(** The path is given as the database behind it. *)
Definition with_sqlite_path (o : ServerOptions) (db : SqliteStore) : ServerOptions := {|
  opt_config := opt_config o; opt_state := opt_state o; opt_peers := opt_peers o;
  opt_store := Some db; opt_bootstrap_sync := opt_bootstrap_sync o; opt_mining := opt_mining o;
  opt_channel_capacity := opt_channel_capacity o
|}.
Definition with_bootstrap_sync (o : ServerOptions) (enabled : bool) : ServerOptions := {|
  opt_config := opt_config o; opt_state := opt_state o; opt_peers := opt_peers o;
  opt_store := opt_store o; opt_bootstrap_sync := enabled; opt_mining := opt_mining o;
  opt_channel_capacity := opt_channel_capacity o
|}.
Definition with_mining (o : ServerOptions) (m : MiningConfig) : ServerOptions := {|
  opt_config := opt_config o; opt_state := opt_state o; opt_peers := opt_peers o;
  opt_store := opt_store o; opt_bootstrap_sync := opt_bootstrap_sync o; opt_mining := Some m;
  opt_channel_capacity := opt_channel_capacity o
|}.
Definition with_channel_capacity (o : ServerOptions) (n : Z) : ServerOptions := {|
  opt_config := opt_config o; opt_state := opt_state o; opt_peers := opt_peers o;
  opt_store := opt_store o; opt_bootstrap_sync := opt_bootstrap_sync o; opt_mining := opt_mining o;
  opt_channel_capacity := n
|}.

(** ** State of the threads *)

(** Where [serve_inner] is. *)
Inductive MainPc :=
| BootstrapSend
| Bootstrapping (id : nat)
| Serving
| Leaving
| Joining
| Returned (r : result io_Error NodeState).

(** Where [run_event_loop] is; [Deciding go] is between [handle_event] and the
    load of the stop flag. *)
Inductive LoopPc :=
| Receiving
| Handling (id : nat) (ev : ServerEvent)
| Deciding (ev : ServerEvent) (go : bool)
| Closing
| StoppingMiner
| JoiningMiner
| LoopDone
| LoopPanicked (ev : ServerEvent).

Record Shell := {
  sh_world : World;
  sh_queue : list (nat * ServerEvent);
  (** The capacity given to [mpsc::channel]. *)
  sh_capacity : Z;
  (** The number of the next send. *)
  sh_next : nat;
  sh_stop : bool;
  sh_main : MainPc;
  sh_loop : LoopPc;
  sh_miner : option MinerSys;
  (** The replies sent so far, each with its request. *)
  sh_answers : list (nat * ServerReply);
  (** The inbound peer tasks, and the counter that names them. *)
  sh_tasks : gset string;
  sh_next_peer : Z;
  (** The events handled so far, each with the flag loaded after it (history). *)
  sh_trace : list (ServerEvent * bool)
}.

Definition set_main (s : Shell) (m : MainPc) : Shell := {|
  sh_world := sh_world s; sh_queue := sh_queue s; sh_capacity := sh_capacity s;
  sh_next := sh_next s; sh_stop := sh_stop s;
  sh_main := m; sh_loop := sh_loop s; sh_miner := sh_miner s; sh_answers := sh_answers s;
  sh_tasks := sh_tasks s; sh_next_peer := sh_next_peer s; sh_trace := sh_trace s
|}.
Definition set_loop (s : Shell) (l : LoopPc) : Shell := {|
  sh_world := sh_world s; sh_queue := sh_queue s; sh_capacity := sh_capacity s;
  sh_next := sh_next s; sh_stop := sh_stop s;
  sh_main := sh_main s; sh_loop := l; sh_miner := sh_miner s; sh_answers := sh_answers s;
  sh_tasks := sh_tasks s; sh_next_peer := sh_next_peer s; sh_trace := sh_trace s
|}.
Definition set_shell_miner (s : Shell) (m : option MinerSys) : Shell := {|
  sh_world := sh_world s; sh_queue := sh_queue s; sh_capacity := sh_capacity s;
  sh_next := sh_next s; sh_stop := sh_stop s;
  sh_main := sh_main s; sh_loop := sh_loop s; sh_miner := m; sh_answers := sh_answers s;
  sh_tasks := sh_tasks s; sh_next_peer := sh_next_peer s; sh_trace := sh_trace s
|}.
Definition set_shell_world (s : Shell) (w : World) : Shell := {|
  sh_world := w; sh_queue := sh_queue s; sh_capacity := sh_capacity s;
  sh_next := sh_next s; sh_stop := sh_stop s;
  sh_main := sh_main s; sh_loop := sh_loop s; sh_miner := sh_miner s; sh_answers := sh_answers s;
  sh_tasks := sh_tasks s; sh_next_peer := sh_next_peer s; sh_trace := sh_trace s
|}.
Definition set_tasks (s : Shell) (ts : gset string) (n : Z) : Shell := {|
  sh_world := sh_world s; sh_queue := sh_queue s; sh_capacity := sh_capacity s;
  sh_next := sh_next s; sh_stop := sh_stop s;
  sh_main := sh_main s; sh_loop := sh_loop s; sh_miner := sh_miner s; sh_answers := sh_answers s;
  sh_tasks := ts; sh_next_peer := n; sh_trace := sh_trace s
|}.
Definition answer (s : Shell) (id : nat) (r : ServerReply) : Shell := {|
  sh_world := sh_world s; sh_queue := sh_queue s; sh_capacity := sh_capacity s;
  sh_next := sh_next s; sh_stop := sh_stop s;
  sh_main := sh_main s; sh_loop := sh_loop s; sh_miner := sh_miner s;
  sh_answers := sh_answers s ++ [(id, r)];
  sh_tasks := sh_tasks s; sh_next_peer := sh_next_peer s; sh_trace := sh_trace s
|}.
Definition loaded_flag (s : Shell) (ev : ServerEvent) : Shell := {|
  sh_world := sh_world s; sh_queue := sh_queue s; sh_capacity := sh_capacity s;
  sh_next := sh_next s; sh_stop := sh_stop s;
  sh_main := sh_main s; sh_loop := sh_loop s; sh_miner := sh_miner s; sh_answers := sh_answers s;
  sh_tasks := sh_tasks s; sh_next_peer := sh_next_peer s;
  sh_trace := sh_trace s ++ [(ev, sh_stop s)]
|}.
Definition dequeued (s : Shell) (q : list (nat * ServerEvent)) : Shell := {|
  sh_world := sh_world s; sh_queue := q; sh_capacity := sh_capacity s; sh_next := sh_next s; sh_stop := sh_stop s;
  sh_main := sh_main s; sh_loop := sh_loop s; sh_miner := sh_miner s; sh_answers := sh_answers s;
  sh_tasks := sh_tasks s; sh_next_peer := sh_next_peer s; sh_trace := sh_trace s
|}.

(** [ServerHandle::stop]. *)
Definition ServerHandle_stop (s : Shell) : Shell := {|
  sh_world := sh_world s; sh_queue := sh_queue s; sh_capacity := sh_capacity s;
  sh_next := sh_next s; sh_stop := true;
  sh_main := sh_main s; sh_loop := sh_loop s; sh_miner := sh_miner s; sh_answers := sh_answers s;
  sh_tasks := sh_tasks s; sh_next_peer := sh_next_peer s; sh_trace := sh_trace s
|}.

Definition ServerHandle_is_stopped (s : Shell) : bool := sh_stop s.

(** ** The channel *)

(** The receiver is dropped when [run_event_loop] returns or unwinds. *)
Definition channel_open (s : Shell) : bool :=
  match sh_loop s with LoopDone | LoopPanicked _ => false | _ => true end.

Definition has_room (s : Shell) : bool :=
  bool_decide (Z.of_nat (length (sh_queue s)) < sh_capacity s).

Definition enqueue (s : Shell) (ev : ServerEvent) : Shell := {|
  sh_world := sh_world s; sh_queue := sh_queue s ++ [(sh_next s, ev)]; sh_capacity := sh_capacity s; sh_next := S (sh_next s);
  sh_stop := sh_stop s; sh_main := sh_main s; sh_loop := sh_loop s; sh_miner := sh_miner s;
  sh_answers := sh_answers s; sh_tasks := sh_tasks s; sh_next_peer := sh_next_peer s;
  sh_trace := sh_trace s
|}.

(** [Sender::send] (and [blocking_send]): [None] while it waits for room. *)
Definition channel_send (s : Shell) (ev : ServerEvent) : option (result ServerHandleError Shell) :=
  if negb (channel_open s) then Some (Err SubmitClosed)
  else if has_room s then Some (Ok (enqueue s ev))
  else None.

(** [let _ = command_tx.try_send(event)]. *)
Definition try_send (s : Shell) (ev : ServerEvent) : Shell :=
  if channel_open s && has_room s then enqueue s ev else s.

Definition lookup_answer (l : list (nat * ServerReply)) (id : nat) : option ServerReply :=
  (list_to_map l : gmap nat ServerReply) !! id.

(** What [reply_rx.await] gives: [None] while it waits.  An unanswered request
    is dropped with the receiver (or with the handler that panicked). *)
Definition response (s : Shell) (id : nat) : option (result ServerHandleError ServerReply) :=
  match lookup_answer (sh_answers s) id with
  | Some r => Some (Ok r)
  | None => if channel_open s then None else Some (Err ResponseDropped)
  end.

(** ** The event loop and the miner *)

(** The commands a handler gave to the miner, in order. *)
Definition miner_command (m : MinerSys) (e : Effect) : MinerSys :=
  match e with
  | SubmitCandidate c => Miner_send (Miner_submit m c)
  | CancelCandidate => Miner_send (Miner_cancel m)
  | _ => m
  end.

Definition command_miner (m : option MinerSys) (w w' : World) : option MinerSys :=
  (λ m, foldl miner_command m (drop (length (log w)) (log w'))) <$> m.

(** [Server::disconnect] once the miner is joined. *)
Definition disconnected (s : Shell) : Shell :=
  set_loop (set_shell_world s (Server_disconnect (E:=Empty_set) (sh_world s)).1) LoopDone.

(** The events a peer or admin task, or the caller, sends through a handle. *)
Definition client_event (ev : ServerEvent) : bool :=
  match ev with
  | PeerConnected _ | PeerMessage _ _ | PeerDisconnected _ | AdminEvent _ | TipSync _ _ => true
  | _ => false
  end.

Definition peer_id (n : Z) : string := "peer-" +:+ decimal n.

(** [Server::serve_inner] up to the spawned threads: the listeners are bound, the
    runtime and the handle are installed, the miner is started. *)
Definition serve_start (sv : Server) : Shell := {|
  sh_world := {|
    server := {|
      config := config sv; state := state sv; peers := peers sv;
      connected_peers := connected_peers sv; sqlite_store := sqlite_store sv;
      runtime_handle := true; server_handle := true; channel_capacity := channel_capacity sv;
      bootstrap_sync := bootstrap_sync sv; mining := mining sv;
      miner := bool_decide (is_Some (mining sv))
    |};
    log := []
  |};
  sh_queue := []; sh_capacity := channel_capacity sv; sh_next := 0; sh_stop := false;
  sh_main := if bootstrap_sync sv then BootstrapSend else Serving;
  sh_loop := Receiving;
  sh_miner := match mining sv with Some _ => Some miner_start | None => None end;
  sh_answers := []; sh_tasks := ∅; sh_next_peer := 0; sh_trace := []
|}.

(** ** Steps *)

(** The event loop thread. *)
Inductive loop_step : Shell → Shell → Prop :=
| loop_receive s id ev q :
    sh_loop s = Receiving → sh_queue s = (id, ev) :: q →
    loop_step s (set_loop (dequeued s q) (Handling id ev))
| loop_handled s id ev w' go reply :
    sh_loop s = Handling id ev → handle_event fuel ev (sh_world s) = (w', Ok (go, reply)) →
    loop_step s
      (set_loop (set_shell_miner (set_shell_world (answer s id reply) w')
                   (command_miner (sh_miner s) (sh_world s) w')) (Deciding ev go))
| loop_panics s id ev w' :
    sh_loop s = Handling id ev → handle_event fuel ev (sh_world s) = (w', Panic) →
    loop_step s (set_loop (set_shell_world s w') (LoopPanicked ev))
| loop_goes_on s ev :
    sh_loop s = Deciding ev true → sh_stop s = false →
    loop_step s (set_loop (loaded_flag s ev) Receiving)
| loop_breaks s ev go :
    sh_loop s = Deciding ev go → go = false ∨ sh_stop s = true →
    loop_step s (set_loop (loaded_flag s ev) Closing)
| loop_disconnects s :
    sh_loop s = Closing → sh_miner s = None → loop_step s (disconnected s)
| loop_bumps_generation s m :
    sh_loop s = Closing → sh_miner s = Some m →
    loop_step s (set_loop (set_shell_miner s (Some (Miner_stop m))) StoppingMiner)
| loop_sends_stop s m :
    sh_loop s = StoppingMiner → sh_miner s = Some m →
    loop_step s (set_loop (set_shell_miner s (Some (Miner_send m))) JoiningMiner)
| loop_joined_miner s m :
    sh_loop s = JoiningMiner → sh_miner s = Some m → pc m = Stopped →
    loop_step s (disconnected s).

(** The miner thread; a solved block waits for room in the channel. *)
Inductive worker_thread_step : Shell → Shell → Prop :=
| miner_works s m m' :
    sh_miner s = Some m → worker_step m = Some m' → mined m' = mined m →
    worker_thread_step s (set_shell_miner s (Some m'))
| miner_sends s m m' b s' :
    sh_miner s = Some m → worker_step m = Some m' → mined m' = mined m ++ [b] →
    channel_send s (MinedCandidate b) = Some (Ok s') →
    worker_thread_step s (set_shell_miner s' (Some m'))
| miner_too_late s m m' b e :
    sh_miner s = Some m → worker_step m = Some m' → mined m' = mined m ++ [b] →
    channel_send s (MinedCandidate b) = Some (Err e) →
    worker_thread_step s (set_shell_miner s (Some m')).

(** [serve_inner]. *)
Inductive main_step : Shell → Shell → Prop :=
| main_bootstraps s s' :
    sh_main s = BootstrapSend → channel_send s BootstrapEvent = Some (Ok s') →
    main_step s (set_main s' (Bootstrapping (sh_next s)))
| main_bootstrap_closed s e :
    sh_main s = BootstrapSend → channel_send s BootstrapEvent = Some (Err e) →
    main_step s (set_main s (Returned (Err (io_error Other (handle_error_text e)))))
| main_bootstrapped s id r :
    sh_main s = Bootstrapping id → response s id = Some (Ok r) →
    main_step s (set_main s Serving)
| main_bootstrap_lost s id e :
    sh_main s = Bootstrapping id → response s id = Some (Err e) →
    main_step s (set_main s (Returned (Err (io_error Other (handle_error_text e)))))
| main_accepts_peer s :
    sh_main s = Serving → ServerHandle_is_stopped s = false →
    let n := wrapping_add 64 (sh_next_peer s) 1 in
    main_step s (set_tasks s ({[ peer_id n ]} ∪ sh_tasks s) n)
| main_accept_fails s e :
    sh_main s = Serving → ServerHandle_is_stopped s = false →
    main_step s (set_main s (Returned (Err e)))
| main_ticks s :
    sh_main s = Serving → ServerHandle_is_stopped s = false →
    main_step s (try_send s SyncTick)
| main_retains s live :
    sh_main s = Serving → live ⊆ sh_tasks s →
    main_step s (set_tasks s live (sh_next_peer s))
| main_sees_stop s :
    sh_main s = Serving → ServerHandle_is_stopped s = true →
    main_step s (set_main s Leaving)
| main_leaves s :
    sh_main s = Leaving →
    main_step s (set_main (set_tasks (try_send s StopEvent) ∅ (sh_next_peer s)) Joining)
| main_joins s :
    sh_main s = Joining → sh_loop s = LoopDone →
    main_step s (set_main s (Returned (Ok (state (server (sh_world s))))))
| main_join_panics s ev :
    sh_main s = Joining → sh_loop s = LoopPanicked ev →
    main_step s (set_main s (Returned Panic)).

(** The holders of a handle. *)
Inductive client_step : Shell → Shell → Prop :=
| client_sends s ev s' :
    client_event ev = true → channel_send s ev = Some (Ok s') → client_step s s'
| client_stops s : client_step s (ServerHandle_stop s).

Definition shell_step (s s' : Shell) : Prop :=
  loop_step s s' ∨ worker_thread_step s s' ∨ main_step s s' ∨ client_step s s'.

Inductive shell_reach (sv : Server) : Shell → Prop :=
| shell_reach_start : shell_reach sv (serve_start sv)
| shell_reach_step s s' : shell_reach sv s → shell_step s s' → shell_reach sv s'.

End shell.
