(* ===== verification/ShellProofs.v ===== *)
(** * The threads implement the event loop

    Every interleaving of the shell's threads runs the events through
    [run_event_loop] in the order in which they entered the channel; and what
    happens after a stop request. *)

From S2P Require Import Prelude Bytes Crypto Types State Consensus Chain Mempool Wire.
From S2P Require Import Admin Mining NodeState Home Peers Client Peer TxIndex Store.
From S2P Require Import Runtime Server ServerLogic Shell.

Section refinement.
Context `{C : Crypto} `{B : Bincode} `{N : !Environment}.
Context (fuel : nat).

(** The events [evs], each handled and followed by the next. *)
Inductive ran (w0 : World) : list ServerEvent → World → list ServerReply → Prop :=
| ran_nil : ran w0 [] w0 []
| ran_snoc evs w rs ev w' r :
    ran w0 evs w rs → handle_event fuel ev w = (w', Ok (true, r)) →
    ran w0 (evs ++ [ev]) w' (rs ++ [r]).

(** An operation that returns. *)
Definition returns {E A} (m : server_op E A) : Prop := ∀ w, ∃ w' a, m w = (w', Ok a).

Lemma returns_bind {E A D} (m : server_op E A) (f : A → server_op E D) :
  returns m → (∀ a, returns (f a)) → returns (m ≫= f).
Proof using.
  intros Hm Hf w. destruct (Hm w) as (w1 & a & H1). destruct (Hf a w1) as (w2 & d & H2).
  exists w2, d. unfold mbind, server_op_bind. by rewrite H1.
Qed.

Lemma returns_for_all {E A} (f : A → server_op E unit) l :
  (∀ a, returns (f a)) → returns (for_all_do f l).
Proof using.
  intros Hf. induction l as [|a l IH]; [by intros w; eexists _, _|].
  by apply returns_bind.
Qed.

Lemma disconnect_returns {E} : returns (Server_disconnect (E:=E)).
Proof using.
  unfold Server_disconnect. apply returns_bind; [by intros w; eexists _, _|]. intros s.
  apply returns_bind.
  { destruct (miner s); [|by intros w; eexists _, _].
    apply returns_bind; intros; by intros w; eexists _, _. }
  intros _. apply returns_for_all. intros p. unfold disconnect_peer.
  apply returns_bind; [by intros w; eexists _, _|]. intros s'.
  destruct (peers s' !! p.1 ≫= session); [|by intros w; eexists _, _].
  apply returns_bind; intros; by intros w; eexists _, _.
Qed.

Lemma disconnect_Ok w :
  Server_disconnect (E:=Empty_set) w = ((Server_disconnect (E:=Empty_set) w).1, Ok ()).
Proof using. destruct (disconnect_returns (E:=Empty_set) w) as (w' & [] & ->). done. Qed.

(** ** The loop as a run of [handle_event] *)

Lemma run_event_loop_app w0 evs w rs tail w' rs' :
  ran w0 evs w rs → run_event_loop fuel tail w = (w', Ok rs') →
  run_event_loop fuel (((λ ev, (ev, false)) <$> evs) ++ tail) w0 = (w', Ok (rs ++ rs')).
Proof using.
  intros Hr. revert tail rs'. induction Hr as [|evs w rs ev w1 r Hr IH Hev]; intros tail rs' Ht.
  - done.
  - rewrite fmap_app, <-app_assoc, <-app_assoc. apply IH. cbn [fmap list_fmap app run_event_loop].
    unfold mbind, server_op_bind. rewrite Hev. cbn. by rewrite Ht.
Qed.

(** The handled events, seen from where the loop is. *)
Definition loop_history (w0 : World) (s : Shell) : Prop :=
  let rs := (sh_answers s).*2 in
  match sh_loop s with
  | Receiving | Handling _ _ =>
      ∃ evs, sh_trace s = (λ ev, (ev, false)) <$> evs ∧ ran w0 evs (sh_world s) rs
  | Deciding ev go =>
      ∃ evs w1 rs1 r, sh_trace s = (λ ev, (ev, false)) <$> evs ∧ ran w0 evs w1 rs1
        ∧ handle_event fuel ev w1 = (sh_world s, Ok (go, r)) ∧ rs = rs1 ++ [r]
  | Closing | StoppingMiner | JoiningMiner =>
      ∃ evs w1 rs1 r ev go flag, sh_trace s = ((λ ev, (ev, false)) <$> evs) ++ [(ev, flag)]
        ∧ ran w0 evs w1 rs1 ∧ handle_event fuel ev w1 = (sh_world s, Ok (go, r))
        ∧ (go = false ∨ flag = true) ∧ rs = rs1 ++ [r]
  | LoopDone => run_event_loop fuel (sh_trace s) w0 = (sh_world s, Ok rs)
  | LoopPanicked ev =>
      ∃ evs w1, sh_trace s = (λ ev, (ev, false)) <$> evs ∧ ran w0 evs w1 rs
        ∧ handle_event fuel ev w1 = (sh_world s, Panic)
  end.

(** The numbers of the sends, in the order in which their events are handled. *)
Definition in_progress (l : LoopPc) (ids : list nat) : Prop :=
  match l with
  | Handling id _ => ids = [id]
  | LoopPanicked _ => length ids = 1%nat
  | _ => ids = []
  end.

(** What [serve_inner] knows once the stop flag is set, and what it returns. *)
Definition main_ok (s : Shell) : Prop :=
  match sh_main s with
  | Leaving => sh_stop s = true
  | Joining => sh_stop s = true ∧ (sh_loop s = Receiving → sh_queue s ≠ [])
  | Returned (Ok st) => sh_loop s = LoopDone ∧ st = state (server (sh_world s))
  | _ => True
  end.

Record shell_inv (w0 : World) (s : Shell) : Prop := {
  si_history : loop_history w0 s;
  si_fifo : ∃ ids, in_progress (sh_loop s) ids
    ∧ (sh_answers s).*1 ++ ids ++ (sh_queue s).*1 = seq 0 (sh_next s);
  si_main : main_ok s
}.

(** The event loop cannot go back to waiting once the flag is set. *)
Lemma main_ok_loop s s' :
  main_ok s → sh_main s' = sh_main s → sh_stop s' = sh_stop s → sh_loop s ≠ LoopDone →
  (sh_loop s' = Receiving → sh_stop s = false) → main_ok s'.
Proof using.
  unfold main_ok. intros Hm -> -> Hd Hr. destruct (sh_main s) as [| | | | |[]]; try done.
  - destruct Hm as [Hm _]. split; [done|]. intros ?%Hr. congruence.
  - by destruct Hm.
Qed.

Lemma closing_done w0 s :
  sh_loop s = Closing ∨ sh_loop s = JoiningMiner →
  loop_history w0 s → loop_history w0 (disconnected s).
Proof using.
  intros Hl Hh. assert (∃ evs w1 rs1 r ev go flag,
    sh_trace s = ((λ ev, (ev, false)) <$> evs) ++ [(ev, flag)]
    ∧ ran w0 evs w1 rs1 ∧ handle_event fuel ev w1 = (sh_world s, Ok (go, r))
    ∧ (go = false ∨ flag = true) ∧ (sh_answers s).*2 = rs1 ++ [r])
    as (evs & w1 & rs1 & r & ev & go & flag & Ht & Hr & Hev & Hgo & Hrs)
    by (unfold loop_history in Hh; destruct Hl as [Hl|Hl]; rewrite Hl in Hh; done).
  unfold loop_history, disconnected. cbn [sh_loop set_loop set_shell_world sh_trace sh_world sh_answers].
  rewrite Ht, Hrs. eapply run_event_loop_app; [done|]. cbn [run_event_loop].
  unfold mbind, server_op_bind. rewrite Hev. cbn [fst snd].
  assert (negb go || flag = true) as -> by (destruct Hgo as [->| ->]; [done|by destruct go]).
  by rewrite disconnect_Ok.
Qed.

Lemma enqueue_inv w0 s ev : shell_inv w0 s → shell_inv w0 (enqueue s ev).
Proof using.
  intros [Hh (ids & Hp & Hf) Hl]. split; [done| |].
  - exists ids. split; [done|]. cbn [enqueue sh_answers sh_queue sh_next].
    rewrite fmap_app, app_assoc, app_assoc, <-(app_assoc _ ids), Hf, seq_S. done.
  - unfold main_ok in *. cbn [enqueue sh_main sh_stop sh_loop sh_queue sh_world].
    destruct (sh_main s) as [| | | | |[]]; try done.
    destruct Hl as [? _]. split; [done|]. intros _ ?%app_nil. naive_solver.
Qed.

Lemma channel_send_Ok s ev s' :
  channel_send s ev = Some (Ok s') → channel_open s = true ∧ has_room s = true ∧ s' = enqueue s ev.
Proof using. unfold channel_send. destruct (channel_open s), (has_room s); naive_solver. Qed.

(** A step of the loop that changes only where it is. *)
Lemma shell_inv_loop w0 s s' :
  shell_inv w0 s → sh_loop s ≠ LoopDone →
  sh_main s' = sh_main s → sh_stop s' = sh_stop s → (sh_loop s' = Receiving → sh_stop s = false) →
  loop_history w0 s' →
  (∃ ids, in_progress (sh_loop s') ids
    ∧ (sh_answers s').*1 ++ ids ++ (sh_queue s').*1 = seq 0 (sh_next s')) →
  shell_inv w0 s'.
Proof using. intros [_ _ Hm] Hd H1 H2 Hr Hh Hf. split; [done|done|]. by eapply main_ok_loop. Qed.

Lemma loop_step_inv w0 s s' : shell_inv w0 s → loop_step fuel s s' → shell_inv w0 s'.
Proof using.
  intros Hi Hs. pose proof Hi as [Hh (ids & Hp & Hf) Hl].
  eapply shell_inv_loop; [exact Hi|destruct Hs; congruence|by destruct Hs|by destruct Hs
    |by destruct Hs| |]; destruct Hs as
    [s id ev q Hpc Hq|s id ev w' go reply Hpc Hev|s id ev w' Hpc Hev|s ev Hpc Hst|s ev go Hpc Hst
    |s Hpc Hm|s m Hpc Hm|s m Hpc Hm|s m Hpc Hm Hstop];
    rewrite Hpc in Hp; cbn [in_progress] in Hp; subst ids;
    try (apply closing_done; auto); unfold loop_history in *; rewrite Hpc in Hh; cbn.
  - done.
  - destruct Hh as (evs & Ht & Hr). exists evs, (sh_world s), (sh_answers s).*2, reply.
    by rewrite fmap_app.
  - destruct Hh as (evs & Ht & Hr). by exists evs, (sh_world s).
  - destruct Hh as (evs & w1 & rs1 & r & Ht & Hr & Hev & Hrs). exists (evs ++ [ev]).
    rewrite Hst, Ht, fmap_app. split; [done|]. rewrite Hrs. by eapply ran_snoc.
  - destruct Hh as (evs & w1 & rs1 & r & Ht & Hr & Hev & Hrs).
    exists evs, w1, rs1, r, ev, go, (sh_stop s). by rewrite Ht.
  - done.
  - done.
  - exists [id]. split; [done|]. by rewrite Hq in Hf.
  - exists []. split; [done|]. rewrite fmap_app, <-app_assoc. done.
  - by exists [id].
  - by exists [].
  - by exists [].
  - by exists [].
  - by exists [].
  - by exists [].
  - by exists [].
Qed.

Lemma worker_step_inv w0 s s' : shell_inv w0 s → worker_thread_step s s' → shell_inv w0 s'.
Proof using.
  intros Hi Hs. destruct Hs as [s m m' Hm Hw Hmd|s m m' b s' Hm Hw Hmd Hsend|s m m' b e Hm Hw Hmd Hsend].
  - by destruct Hi.
  - apply channel_send_Ok in Hsend as (_ & _ & ->). apply (enqueue_inv _ _ (MinedCandidate b)) in Hi.
    by destruct Hi.
  - by destruct Hi.
Qed.

Lemma try_send_inv w0 s ev : shell_inv w0 s → shell_inv w0 (try_send s ev).
Proof using. intros Hi. unfold try_send. destruct (_ && _); [by apply enqueue_inv|done]. Qed.

(** After [try_send] an open channel of positive capacity is not empty. *)
Lemma try_send_nonempty s ev :
  1 ≤ sh_capacity s → channel_open s = true → sh_queue (try_send s ev) ≠ [].
Proof using.
  intros Hc Ho. unfold try_send, has_room. rewrite Ho. cbn. case_bool_decide as Hlt; cbn.
  - intros ?%app_nil. naive_solver.
  - intros Hq. apply Hlt. rewrite Hq. cbn. lia.
Qed.

Lemma main_step_inv w0 s s' :
  1 ≤ sh_capacity s → shell_inv w0 s → main_step s s' → shell_inv w0 s'.
Proof using.
  intros Hcap Hi Hs. destruct Hs as [s s' Hm Hsend|s e Hm Hsend|s id r Hm Hr|s id e Hm Hr|s Hm Hst n
    |s e Hm Hst|s Hm Hst|s live Hm Hlive|s Hm Hst|s Hm|s Hm Hd|s ev Hm Hd].
  - apply channel_send_Ok in Hsend as (_ & _ & ->). apply (enqueue_inv _ _ BootstrapEvent) in Hi.
    destruct Hi as [Hh Hf _]. by split.
  - destruct Hi as [Hh Hf _]. by split.
  - destruct Hi as [Hh Hf _]. by split.
  - destruct Hi as [Hh Hf _]. by split.
  - destruct Hi as [Hh Hf Hl]. split; [done|done|]. unfold main_ok in *. cbn. by rewrite Hm in *.
  - destruct Hi as [Hh Hf _]. by split.
  - by apply try_send_inv.
  - destruct Hi as [Hh Hf Hl]. split; [done|done|]. unfold main_ok in *. cbn. by rewrite Hm in *.
  - destruct Hi as [Hh Hf _]. by split.
  - pose proof (try_send_inv _ _ StopEvent Hi) as [Hh Hf _]. destruct Hi as [_ _ Hl].
    split; [done|done|]. unfold main_ok in *. rewrite Hm in Hl. cbn.
    assert (sh_stop (try_send s StopEvent) = sh_stop s ∧ sh_loop (try_send s StopEvent) = sh_loop s)
      as [-> ->] by (unfold try_send; by destruct (_ && _)).
    split; [done|]. intros Hr. apply try_send_nonempty; [done|]. unfold channel_open. by rewrite Hr.
  - destruct Hi as [Hh Hf _]. by split.
  - destruct Hi as [Hh Hf _]. by split.
Qed.

Lemma client_step_inv w0 s s' : shell_inv w0 s → client_step s s' → shell_inv w0 s'.
Proof using.
  intros Hi Hs. destruct Hs as [s ev s' Hev Hsend|s].
  - apply channel_send_Ok in Hsend as (_ & _ & ->). by apply enqueue_inv.
  - destruct Hi as [Hh Hf Hl]. split; [done|done|]. unfold main_ok in *. cbn.
    destruct (sh_main s) as [| | | | |[]]; try done. split; [done|]. apply Hl.
Qed.

Lemma try_send_capacity s ev : sh_capacity (try_send s ev) = sh_capacity s.
Proof using. unfold try_send. by destruct (_ && _). Qed.

Lemma step_capacity s s' : shell_step fuel s s' → sh_capacity s' = sh_capacity s.
Proof using.
  intros [Hs|[Hs|[Hs|Hs]]]; destruct Hs; try done;
    repeat match goal with H : channel_send _ _ = Some (Ok _) |- _ =>
      apply channel_send_Ok in H as (_ & _ & ->) end; try done; cbn; apply try_send_capacity.
Qed.

Lemma shell_reach_inv sv s :
  1 ≤ channel_capacity sv → shell_reach fuel sv s →
  shell_inv (sh_world (serve_start sv)) s ∧ sh_capacity s = channel_capacity sv.
Proof using.
  intros Hcap. induction 1 as [|s s' _ [IH Hc] Hs].
  - split; [|done]. split.
    + exists []. split; [done|]. constructor.
    + by exists [].
    + unfold main_ok. cbn. by destruct (bootstrap_sync sv).
  - split; [|by rewrite (step_capacity _ _ Hs)].
    destruct Hs as [Hs|[Hs|[Hs|Hs]]].
    + by eapply loop_step_inv.
    + by eapply worker_step_inv.
    + eapply main_step_inv; [by rewrite Hc|done|done].
    + by eapply client_step_inv.
Qed.

(** The events given to [handle_event] so far, whether it returned or panicked. *)
Definition handled (s : Shell) : list ServerEvent :=
  (sh_trace s).*1 ++ match sh_loop s with Deciding ev _ | LoopPanicked ev => [ev] | _ => [] end.

(** ** An executable scheduler *)

(** Who moves next; the miner and the event loop have one next step each. *)
Inductive Move := MoveLoop | MoveMiner | MoveMain | MoveTick | MoveSend (ev : ServerEvent) | MoveStop.

Definition loop_move (s : Shell) : option Shell :=
  match sh_loop s with
  | Receiving =>
      match sh_queue s with
      | (id, ev) :: q => Some (set_loop (dequeued s q) (Handling id ev))
      | [] => None
      end
  | Handling id ev =>
      match handle_event fuel ev (sh_world s) with
      | (w', Ok (go, reply)) =>
          Some (set_loop (set_shell_miner (set_shell_world (answer s id reply) w')
                  (command_miner (sh_miner s) (sh_world s) w')) (Deciding ev go))
      | (w', Panic) => Some (set_loop (set_shell_world s w') (LoopPanicked ev))
      | (_, Err _) => None
      end
  | Deciding ev go =>
      Some (set_loop (loaded_flag s ev) (if negb go || sh_stop s then Closing else Receiving))
  | Closing =>
      Some match sh_miner s with
           | None => disconnected s
           | Some m => set_loop (set_shell_miner s (Some (Miner_stop m))) StoppingMiner
           end
  | StoppingMiner =>
      m ← sh_miner s; Some (set_loop (set_shell_miner s (Some (Miner_send m))) JoiningMiner)
  | JoiningMiner =>
      m ← sh_miner s; match pc m with Stopped => Some (disconnected s) | _ => None end
  | LoopDone | LoopPanicked _ => None
  end.

Definition miner_move (s : Shell) : option Shell :=
  m ← sh_miner s;
  m' ← worker_step m;
  match drop (length (mined m)) (mined m') with
  | [] => Some (set_shell_miner s (Some m'))
  | b :: _ =>
      r ← channel_send s (MinedCandidate b);
      Some (set_shell_miner (match r with Ok s' => s' | _ => s end) (Some m'))
  end.

Definition main_move (s : Shell) : option Shell :=
  match sh_main s with
  | BootstrapSend =>
      match channel_send s BootstrapEvent with
      | Some (Ok s') => Some (set_main s' (Bootstrapping (sh_next s)))
      | _ => None
      end
  | Bootstrapping id =>
      match response s id with Some (Ok _) => Some (set_main s Serving) | _ => None end
  | Serving => if ServerHandle_is_stopped s then Some (set_main s Leaving) else None
  | Leaving => Some (set_main (set_tasks (try_send s StopEvent) ∅ (sh_next_peer s)) Joining)
  | Joining =>
      match sh_loop s with
      | LoopDone => Some (set_main s (Returned (Ok (state (server (sh_world s))))))
      | _ => None
      end
  | Returned _ => None
  end.

Definition move (s : Shell) (m : Move) : option Shell :=
  match m with
  | MoveLoop => loop_move s
  | MoveMiner => miner_move s
  | MoveMain => main_move s
  | MoveTick =>
      match sh_main s with
      | Serving => if ServerHandle_is_stopped s then None else Some (try_send s SyncTick)
      | _ => None
      end
  | MoveSend ev =>
      if client_event ev then
        match channel_send s ev with Some (Ok s') => Some s' | _ => None end
      else None
  | MoveStop => Some (ServerHandle_stop s)
  end.

Fixpoint play (s : Shell) (ms : list Move) : option Shell :=
  match ms with
  | [] => Some s
  | m :: ms => s' ← move s m; play s' ms
  end.

Lemma loop_move_sound s s' : loop_move s = Some s' → loop_step fuel s s'.
Proof using.
  unfold loop_move. intros H. destruct (sh_loop s) as [|id ev|ev go| | | | |ev] eqn:Hl; [..|done|done].
  - destruct (sh_queue s) as [|[id ev] q] eqn:Hq; simplify_eq. by apply loop_receive.
  - destruct (handle_event fuel ev (sh_world s)) as [w' [[go r]|e|]] eqn:Hev; simplify_eq.
    + by apply loop_handled.
    + by eapply loop_panics.
  - simplify_eq. destruct (negb go || sh_stop s) eqn:Hb.
    + eapply loop_breaks; [done|]. destruct go; [by right|by left].
    + apply orb_false_elim in Hb as [Hg Hs]. apply negb_false_iff in Hg as ->. by apply loop_goes_on.
  - simplify_eq. destruct (sh_miner s) eqn:Hm; [by apply loop_bumps_generation|by apply loop_disconnects].
  - destruct (sh_miner s) eqn:Hm; simplify_eq/=. by apply loop_sends_stop.
  - destruct (sh_miner s) as [m|] eqn:Hm; simplify_eq/=. destruct (pc m) eqn:Hp; simplify_eq.
    by eapply loop_joined_miner.
Qed.

Lemma worker_step_mined m m' :
  worker_step m = Some m' → mined m' = mined m ∨ ∃ b, mined m' = mined m ++ [b].
Proof using. unfold worker_step. intros H. repeat case_match; simplify_eq; cbn; eauto. Qed.

Lemma miner_move_sound s s' : miner_move s = Some s' → worker_thread_step s s'.
Proof using.
  unfold miner_move. destruct (sh_miner s) as [m|] eqn:Hm; [|done]. cbn.
  destruct (worker_step m) as [m'|] eqn:Hw; [|done]. cbn.
  destruct (worker_step_mined _ _ Hw) as [Hmd|[b Hmd]]; rewrite Hmd.
  - rewrite drop_all. intros [= <-]. by eapply miner_works.
  - rewrite drop_app_length. cbn. destruct (channel_send s _) as [[s1|e|]|] eqn:Hs; cbn; intros [= <-].
    + by eapply miner_sends.
    + by eapply miner_too_late.
    + unfold channel_send in Hs. by destruct (channel_open s), (has_room s).
Qed.

Lemma main_move_sound s s' : main_move s = Some s' → main_step s s'.
Proof using.
  unfold main_move. destruct (sh_main s) as [|id| | | |r] eqn:Hm; [..|done].
  - destruct (channel_send s _) as [[s1|e|]|] eqn:Hs; [|done..]. intros [= <-]. by apply main_bootstraps.
  - destruct (response s id) as [[r|e|]|] eqn:Hr; [|done..]. intros [= <-]. by eapply main_bootstrapped.
  - destruct (ServerHandle_is_stopped s) eqn:Hs; intros [= <-]. by apply main_sees_stop.
  - intros [= <-]. by apply main_leaves.
  - destruct (sh_loop s) eqn:Hl; [done..| |done]. intros [= <-]. by apply main_joins.
Qed.

Lemma move_sound s m s' : move s m = Some s' → shell_step fuel s s'.
Proof using.
  unfold shell_step. destruct m as [| | | |ev|]; cbn.
  - intros ?%loop_move_sound. by left.
  - intros ?%miner_move_sound. by right; left.
  - intros ?%main_move_sound. by right; right; left.
  - intros H. right; right; left. destruct (sh_main s) eqn:Hm; [done|done| |done..].
    destruct (ServerHandle_is_stopped s) eqn:Hs; simplify_eq. by apply main_ticks.
  - intros H. right; right; right. destruct (client_event ev) eqn:Hc; [|done].
    destruct (channel_send s ev) as [[s1|e|]|] eqn:Hs; simplify_eq. by eapply client_sends.
  - intros [= <-]. right; right; right. apply client_stops.
Qed.

Lemma play_reach sv s ms s' :
  shell_reach fuel sv s → play s ms = Some s' → shell_reach fuel sv s'.
Proof using.
  revert s. induction ms as [|m ms IH]; intros s Hr; cbn; [by intros [= <-]|].
  destruct (move s m) as [s1|] eqn:Hm; [|done]. cbn. apply IH.
  eapply shell_reach_step; [done|by eapply move_sound].
Qed.

(** ** The miner thread *)

(** What the shell knows of its miner. *)
Record miner_side (l : LoopPc) (m : MinerSys) : Prop := {
  ms_reach : miner_reach m;
  ms_current : pc m = Check ∨ pc m = Work → is_Some (current m);
  ms_sending : sending m = match l with StoppingMiner => Some Stop | _ => None end;
  ms_last : l = StoppingMiner ∨ l = JoiningMiner → last (Mining.log m) = Some Stop;
  ms_stop : l = JoiningMiner → pc m = Stopped ∨ Stop ∈ queue m
}.

Definition shell_miner_ok (s : Shell) : Prop :=
  match sh_miner s with
  | Some m => miner_side (sh_loop s) m
  | None => match sh_loop s with StoppingMiner | JoiningMiner => False | _ => True end
  end.

Lemma worker_step_frame m m' :
  worker_step m = Some m' → sending m' = sending m ∧ Mining.log m' = Mining.log m
    ∧ generation m' = generation m.
Proof using. unfold worker_step. intros H. by repeat case_match; simplify_eq. Qed.

Lemma miner_side_worker l m m' :
  miner_side l m → worker_step m = Some m' → miner_side l m'.
Proof using.
  intros [Hr Hc Hs Hl Hst] Hw. pose proof (worker_step_frame _ _ Hw) as (Hsd & Hlg & _). split.
  - by eapply miner_reach_step, step_worker.
  - clear -Hw. unfold worker_step in Hw. repeat case_match; simplify_eq; cbn; intros [?|?]; try done;
      by eexists.
  - congruence.
  - by rewrite Hlg.
  - intros Hj. specialize (Hst Hj) as [Hst|Hst]; [unfold worker_step in Hw; by rewrite Hst in Hw|].
    unfold worker_step in Hw. repeat case_match; simplify_eq; cbn; set_solver.
Qed.

(** Between its commands the miner is quiet. *)
Definition quiet (l : LoopPc) : Prop :=
  match l with StoppingMiner | JoiningMiner => False | _ => True end.

Lemma miner_side_quiet l l' m : quiet l → quiet l' → miner_side l m → miner_side l' m.
Proof using.
  intros Hl Hl' [Hr Hc Hs _ _]. split; [done|done| |..].
  - rewrite Hs. by destruct l, l'.
  - by destruct l'; intros [?|?].
  - by destruct l'.
Qed.

Lemma miner_side_command l m e : quiet l → miner_side l m → miner_side l (miner_command m e).
Proof using.
  intros Hl Hm. destruct e; try done; cbn [miner_command];
    (assert (sending m = None) as Hs by (rewrite (ms_sending l m Hm); by destruct l);
     destruct Hm as [Hr Hc _ _ _]; split;
     [eapply miner_reach_step; [eapply miner_reach_step; [done|by constructor]|apply step_send]
     |done|by destruct l|by destruct l; intros [?|?]|by destruct l]).
Qed.

Lemma miner_side_commands l m es :
  quiet l → miner_side l m → miner_side l (foldl miner_command m es).
Proof using.
  intros Hl. revert m. induction es as [|e es IH]; intros m Hm; [done|].
  by apply IH, miner_side_command.
Qed.

Lemma miner_side_stop l m : quiet l → miner_side l m → miner_side StoppingMiner (Miner_stop m).
Proof using.
  intros Hl [Hr Hc Hs _ _]. assert (sending m = None) by (rewrite Hs; by destruct l). split.
  - by eapply miner_reach_step, step_stop.
  - done.
  - done.
  - intros _. cbn. by rewrite last_snoc.
  - done.
Qed.

Lemma miner_side_send m : miner_side StoppingMiner m → miner_side JoiningMiner (Miner_send m).
Proof using.
  intros [Hr Hc Hs Hl _]. split.
  - eapply miner_reach_step, step_send. done.
  - unfold Miner_send. by rewrite Hs.
  - unfold Miner_send. by rewrite Hs.
  - intros _. unfold Miner_send. rewrite Hs. by apply Hl; left.
  - intros _. unfold Miner_send. rewrite Hs. cbn. destruct (pc m); [right; set_solver..|by left].
Qed.

Lemma step_miner_ok s s' : shell_step fuel s s' → shell_miner_ok s → shell_miner_ok s'.
Proof using.
  unfold shell_miner_ok. intros [Hs|[Hs|[Hs|Hs]]] Hm.
  - destruct Hs as [s id ev q Hpc Hq|s id ev w' go reply Hpc Hev|s id ev w' Hpc Hev|s ev Hpc Hst
      |s ev go Hpc Hst|s Hpc Hmi|s m Hpc Hmi|s m Hpc Hmi|s m Hpc Hmi Hstop]; rewrite Hpc in Hm; cbn.
    all: try (rewrite Hmi in * ).
    1-6: try destruct (sh_miner s) as [m|]; cbn; try done.
    all: try (by eapply miner_side_quiet; [| |exact Hm]).
    + apply (miner_side_commands (Deciding ev go)); [done|]. by eapply miner_side_quiet; [| |exact Hm].
    + by apply (miner_side_stop Closing).
    + by apply miner_side_send.
    + destruct Hm as [Hr Hc Hsd _ _]. split; [done..|by intros [?|?]|done].
  - destruct Hs as [s m m' Hmi Hw Hmd|s m m' b s' Hmi Hw Hmd Hsend|s m m' b e Hmi Hw Hmd Hsend];
      rewrite Hmi in Hm; cbn.
    + by eapply miner_side_worker.
    + apply channel_send_Ok in Hsend as (_ & _ & ->). by eapply miner_side_worker.
    + by eapply miner_side_worker.
  - destruct Hs; try done; repeat match goal with H : channel_send _ _ = Some (Ok _) |- _ =>
      apply channel_send_Ok in H as (_ & _ & ->) end; try done; cbn; unfold try_send;
      by destruct (_ && _).
  - destruct Hs; [|done]. match goal with H : channel_send _ _ = _ |- _ =>
      apply channel_send_Ok in H as (_ & _ & ->) end. done.
Qed.

Lemma shell_reach_miner sv s : shell_reach fuel sv s → shell_miner_ok s.
Proof using.
  induction 1 as [|s s' _ IH Hs]; [|by eapply step_miner_ok].
  unfold shell_miner_ok. cbn. destruct (mining sv); [|done].
  split; [constructor|by intros [?|?]|done|by intros [?|?]|done].
Qed.

(** ** Shutting down *)

(** The steps of the two threads [serve_inner] waits for. *)
Definition thread_step (s s' : Shell) : Prop := loop_step fuel s s' ∨ worker_thread_step s s'.

(** How far the miner is from having read the stop command. *)
Definition miner_rank (m : MinerSys) : nat :=
  5 * length (queue m)
  + match pc m with Top | Work => 4 | Check => 3 | Drain _ => 1 | Stopped => 0 end.

Definition loop_rank (l : LoopPc) : nat :=
  match l with
  | Receiving => 6 | Handling _ _ => 5 | Deciding _ _ => 4 | Closing => 3 | StoppingMiner => 2
  | JoiningMiner => 1 | LoopDone | LoopPanicked _ => 0
  end.

(** A candidate submitted before the stop command is out of date. *)
Lemma stale_submission m g c :
  miner_inv m → last (Mining.log m) = Some Stop → Submit g c ∈ Mining.log m → generation m ≠ g.
Proof using.
  intros Hi Hl [i Hi']%list_elem_of_lookup. rewrite (mi_generation m Hi).
  rewrite (mi_numbered m Hi _ _ _ Hi'). pose proof (lookup_lt_Some _ _ _ Hi') as Hlt.
  rewrite last_lookup in Hl. intros Heq. assert (i = pred (length (Mining.log m))) as -> by lia.
  by rewrite Hl in Hi'.
Qed.

(** A miner that has been told to stop steps towards its end; it may have
    a solved block to hand over first. *)
Lemma stopping_miner_steps m :
  miner_side JoiningMiner m → Z.of_nat (length (Mining.log m)) < 2 ^ 64 → pc m ≠ Stopped →
  ∃ m', worker_step m = Some m' ∧ (miner_rank m' < miner_rank m)%nat
    ∧ (mined m' = mined m
       ∨ ∃ b, mined m' = mined m ++ [b] ∧ pc m = Work ∧ validate_block b = Ok ()).
Proof using.
  intros [Hr Hc Hsd Hl Hst] Hlen Hpc. pose proof (miner_reach_inv m Hr Hlen) as Hi.
  specialize (Hl (or_intror eq_refl)). destruct (Hst eq_refl) as [?|Hq]; [done|].
  unfold worker_step, miner_rank. destruct (pc m) as [| | |r|] eqn:Hp; [| | | |done].
  - destruct (current m) as [[g c]|]; [eexists; split; [done|]; cbn; split; [lia|by left]|].
    destruct (queue m) as [|[g c|g|] q]; [by apply elem_of_nil in Hq|..];
      (eexists; split; [done|]; cbn; split; [lia|by left]).
  - destruct (Hc (or_introl eq_refl)) as [[g c] Hcur]. rewrite Hcur.
    destruct (mi_current m Hi _ _ Hcur) as (c0 & n & Hsub & _).
    rewrite bool_decide_eq_true_2 by by eapply stale_submission.
    eexists. split; [done|]. cbn. split; [lia|by left].
  - destruct (Hc (or_intror eq_refl)) as [[g c] Hcur]. rewrite Hcur.
    destruct (validate_block c) as [[]|e|] eqn:Hv; (eexists; split; [done|]; cbn).
    + split; [lia|]. right. by exists c.
    + split; [case_bool_decide; lia|by left].
    + split; [lia|by left].
  - destruct (queue m) as [|[g c|g|] q]; [by apply elem_of_nil in Hq|..];
      (eexists; split; [done|]; cbn; split; [lia|by left]).
Qed.

(** The event loop waits for the miner, and the miner for room in the channel that only the event
    loop empties. *)
Definition deadlocked (s : Shell) : Prop :=
  sh_loop s = JoiningMiner ∧ has_room s = false
  ∧ ∃ m m' b, sh_miner s = Some m ∧ worker_step m = Some m' ∧ mined m' = mined m ++ [b].

(** A handler that does not return. *)
Definition still_handling (s : Shell) : Prop :=
  ∃ id ev w', sh_loop s = Handling id ev ∧ handle_event fuel ev (sh_world s) = (w', Err None).

Definition loop_ended (s : Shell) : Prop := sh_loop s = LoopDone ∨ ∃ ev, sh_loop s = LoopPanicked ev.

Definition short_log (s : Shell) : Prop :=
  ∀ m, sh_miner s = Some m → Z.of_nat (length (Mining.log m)) < 2 ^ 64.

(** Waiting for a miner that has the stop command ends, or hangs on the full channel. *)
Lemma joining_miner_ends n s m :
  sh_loop s = JoiningMiner → sh_miner s = Some m → miner_side JoiningMiner m →
  Z.of_nat (length (Mining.log m)) < 2 ^ 64 → (miner_rank m ≤ n)%nat →
  ∃ s', rtc thread_step s s' ∧ (loop_ended s' ∨ deadlocked s').
Proof using.
  revert s m. induction n as [n IH] using lt_wf_ind. intros s m Hl Hm Hside Hlen Hn.
  assert (pc m = Stopped ∨ pc m ≠ Stopped) as [Hp|Hp] by (destruct (pc m); (by left) || (by right)).
  { exists (disconnected s). split; [|by left; left]. apply rtc_once. left. by eapply loop_joined_miner. }
  destruct (stopping_miner_steps m Hside Hlen Hp) as (m' & Hw & Hlt & Hmined).
  pose proof (miner_side_worker _ _ _ Hside Hw) as Hside'.
  pose proof (worker_step_frame _ _ Hw) as (_ & Hlog & _). rewrite <-Hlog in Hlen.
  destruct Hmined as [Hmined|(b & Hmined & _)].
  - destruct (IH (miner_rank m') ltac:(lia) (set_shell_miner s (Some m')) m')
      as (s' & Hrtc & Hend); [done..|].
    exists s'. split; [|done]. eapply rtc_l; [|done]. right. by eapply miner_works.
  - destruct (has_room s) eqn:Hroom; [|exists s; split; [done|right; split_and!; [done|done|by exists m, m', b]]].
    assert (channel_send s (MinedCandidate b) = Some (Ok (enqueue s (MinedCandidate b)))) as Hsend.
    { unfold channel_send, channel_open. by rewrite Hl, Hroom. }
    destruct (IH (miner_rank m') ltac:(lia)
      (set_shell_miner (enqueue s (MinedCandidate b)) (Some m')) m') as (s' & Hrtc & Hend); [done..|].
    exists s'. split; [|done]. eapply rtc_l; [|done]. right. by eapply miner_sends.
Qed.


#[global] Instance short_log_dec s : Decision (short_log s).
Proof using.
  unfold short_log. destruct (sh_miner s) as [m|].
  - destruct (decide (Z.of_nat (length (Mining.log m)) < 2 ^ 64)) as [H|H];
      [left; by intros ? [= <-]|right; intros Hs; by apply H, Hs].
  - by left.
Defined.

Definition shutdown_outcome (s : Shell) : Prop :=
  loop_ended s ∨ still_handling s ∨ deadlocked s ∨ ¬ short_log s.

Lemma stopped_loop_ends n s :
  (loop_rank (sh_loop s) ≤ n)%nat → sh_stop s = true → shell_miner_ok s →
  (sh_loop s = Receiving → sh_queue s ≠ []) →
  ∃ s', rtc thread_step s s' ∧ shutdown_outcome s'.
Proof using.
  revert s. induction n as [n IH] using lt_wf_ind. intros s Hn Hst Hm Hq.
  assert (∀ s', loop_step fuel s s' → sh_stop s' = true → sh_loop s' ≠ Receiving →
    (loop_rank (sh_loop s') < loop_rank (sh_loop s))%nat →
    ∃ s'', rtc thread_step s s'' ∧ shutdown_outcome s'') as Hstep.
  { intros s' Hs' Hst' Hr Hlt. destruct (IH (loop_rank (sh_loop s')) ltac:(lia) s') as (s'' & ? & ?);
      [done|done|eapply step_miner_ok; [by left|done]|done|].
    exists s''. split; [|done]. eapply rtc_l; [by left|done]. }
  destruct (sh_loop s) as [|id ev|ev go| | | | |ev] eqn:Hl.
  - destruct (sh_queue s) as [|[id ev] q] eqn:Hqs; [by destruct Hq|].
    eapply Hstep; [by eapply loop_receive|done|done|cbn; lia].
  - destruct (handle_event fuel ev (sh_world s)) as [w' [[go r]|[[]|]|]] eqn:Hev.
    + eapply Hstep; [by eapply loop_handled|done|done|cbn; lia].
    + exists s. split; [done|]. right. left. by exists id, ev, w'.
    + eapply Hstep; [by eapply loop_panics|done|done|cbn; lia].
  - eapply Hstep; [eapply (loop_breaks _ s ev go); auto|done|done|cbn; lia].
  - unfold shell_miner_ok in Hm. destruct (sh_miner s) as [m|] eqn:Hmi.
    + eapply Hstep; [by eapply loop_bumps_generation|done|done|cbn; lia].
    + eapply Hstep; [by eapply loop_disconnects|done|done|cbn; lia].
  - unfold shell_miner_ok in Hm. rewrite Hl in Hm. destruct (sh_miner s) as [m|] eqn:Hmi; [|done].
    eapply Hstep; [by eapply loop_sends_stop|done|done|cbn; lia].
  - unfold shell_miner_ok in Hm. rewrite Hl in Hm. destruct (sh_miner s) as [m|] eqn:Hmi; [|done].
    destruct (decide (short_log s)) as [Hlog|Hlog]; [|by exists s; split; [|right; right; right]].
    destruct (joining_miner_ends (miner_rank m) s m) as (s' & ? & Hend); [done|done|done|by apply Hlog|done|].
    exists s'. split; [done|]. unfold shutdown_outcome. tauto.
  - exists s. split; [done|]. by left; left.
  - exists s. split; [done|]. left. right. by eexists.
Qed.

(** Nothing moves any more once the shell waits for a deadlocked loop. *)
Lemma deadlocked_stuck s s' :
  deadlocked s → sh_main s = Joining → sh_stop s = true → shell_step fuel s s' → s' = s.
Proof using.
  intros (Hl & Hroom & m & m' & b & Hm & Hw & Hmined) Hmain Hst Hs.
  assert (channel_send s (MinedCandidate b) = None ∧ ∀ ev s1, channel_send s ev ≠ Some (Ok s1)) as [Hnone Hno].
  { unfold channel_send, channel_open. rewrite Hl, Hroom. done. }
  assert (pc m ≠ Stopped) as Hp by (intros Hp; unfold worker_step in Hw; by rewrite Hp in Hw).
  destruct Hs as [Hs|[Hs|[Hs|Hs]]]; destruct Hs; try congruence.
  - rewrite Hm in *. simplify_eq.
    match goal with H : mined ?x = mined ?y, H' : mined ?x = mined ?y ++ _ |- _ =>
      rewrite H in H'; apply (f_equal length) in H'; rewrite length_app in H'; cbn in H'; lia end.
  - exfalso. by eapply Hno.
  - match goal with H : channel_send _ _ = Some (Err _) |- _ =>
      unfold channel_send, channel_open in H; rewrite Hl, Hroom in H; done end.
  - exfalso. by eapply Hno.
  - unfold ServerHandle_stop. destruct s. cbn in *. by subst.
Qed.

(** The threads leave [serve_inner] alone. *)
Lemma thread_step_main s s' : thread_step s s' → sh_main s' = sh_main s ∧ sh_stop s' = sh_stop s.
Proof using.
  intros [Hs|Hs]; destruct Hs; try done.
  match goal with H : channel_send _ _ = Some (Ok _) |- _ => apply channel_send_Ok in H as (_ & _ & ->) end.
  done.
Qed.

Lemma thread_steps_main s s' : rtc thread_step s s' → sh_main s' = sh_main s ∧ sh_stop s' = sh_stop s.
Proof using.
  induction 1 as [|s s1 s' Hs _ [IH1 IH2]]; [done|]. apply thread_step_main in Hs as [<- <-]. done.
Qed.

(** Once the flag is set, how many more events the loop can finish. *)
Definition budget (s : Shell) : nat :=
  length (sh_answers s) + match sh_loop s with Receiving | Handling _ _ => 1 | _ => 0 end.

Lemma thread_step_budget s s' : sh_stop s = true → thread_step s s' → (budget s' ≤ budget s)%nat.
Proof using.
  unfold budget. intros Hst [Hs|Hs].
  - destruct Hs as [s id ev q Hpc Hq|s id ev w' go reply Hpc Hev|s id ev w' Hpc Hev|s ev Hpc Hst'
      |s ev go Hpc Hst'|s Hpc Hm|s m Hpc Hm|s m Hpc Hm|s m Hpc Hm Hstop]; rewrite Hpc; cbn;
      rewrite ?length_app; cbn; try lia. congruence.
  - destruct Hs as [s m m' Hmi Hw Hmd|s m m' b s' Hmi Hw Hmd Hsend|s m m' b e Hmi Hw Hmd Hsend];
      cbn; [done| |done].
    apply channel_send_Ok in Hsend as (_ & _ & ->). done.
Qed.

Lemma thread_steps_budget s s' :
  sh_stop s = true → rtc thread_step s s' → (budget s' ≤ budget s)%nat.
Proof using.
  intros Hst. induction 1 as [|s s1 s' Hs _ IH]; [done|].
  pose proof (thread_step_budget _ _ Hst Hs). apply thread_step_main in Hs as [_ Hs].
  rewrite Hst in Hs. specialize (IH Hs). lia.
Qed.

(** C14: A stop request ends the server, with one exception.  When the shell has seen the flag and
    waits for the event loop, the loop and the miner can always run on to the end of the loop (the
    loop starts at most one more event), after which [start] returns; unless a handler
    does not return, or the miner has solved a block while the channel is full: then
    the loop waits for the miner and the miner for the loop, and no thread moves again. *)
Theorem shutdown_completes (sv : Server) (s : Shell) :
  1 ≤ channel_capacity sv → shell_reach fuel sv s → sh_main s = Joining →
  ∃ s', rtc thread_step s s' ∧ sh_main s' = Joining
    ∧ (length (sh_answers s') ≤ length (sh_answers s) + 1)%nat
    ∧ ((∃ s'', main_step s' s'' ∧ (sh_main s'' = Returned (Ok (state (server (sh_world s'))))
                                   ∨ sh_main s'' = Returned Panic))
       ∨ still_handling s'
       ∨ (deadlocked s' ∧ ∀ s'', shell_step fuel s' s'' → s'' = s')
       ∨ ¬ short_log s').
Proof using.
  intros Hcap Hr Hmain. destruct (shell_reach_inv sv s Hcap Hr) as [[_ _ Hm] _].
  unfold main_ok in Hm. rewrite Hmain in Hm. destruct Hm as [Hst Hq].
  destruct (stopped_loop_ends (loop_rank (sh_loop s)) s) as (s' & Hrun & Hend);
    [done|done|by eapply shell_reach_miner|done|].
  destruct (thread_steps_main s s' Hrun) as [Hmain' Hst'].
  exists s'. split; [done|]. split; [congruence|]. split.
  { pose proof (thread_steps_budget s s' Hst Hrun) as Hb. unfold budget in Hb.
    destruct (sh_loop s), (sh_loop s'); lia. }
  destruct Hend as [[Hd|[ev Hd]]|[Hh|[Hd|Hlog]]]; [left..| | |].
  - eexists. split; [apply main_joins; congruence|by left].
  - eexists. split; [eapply main_join_panics; [congruence|done]|by right].
  - by right; left.
  - right; right; left. split; [done|]. intros s'' Hs. eapply deadlocked_stuck; [done|congruence..|done].
  - by right; right; right.
Qed.

(** *** How shutdown hangs *)

(** The miner has a block that validates and has not yet handed it over. *)
Definition solved_block (m : MinerSys) (b : Block) : Prop :=
  pc m = Work ∧ (∃ g, current m = Some (g, b)) ∧ validate_block b = Ok ().

Lemma solved_block_reports m b :
  solved_block m b → ∃ m', worker_step m = Some m' ∧ mined m' = mined m ++ [b].
Proof using.
  intros (Hp & (g & Hc) & Hv). unfold worker_step. rewrite Hp, Hc, Hv. by eexists.
Qed.

(** The loop has taken its last event and is about to join the miner. *)
Definition winding_down (l : LoopPc) : Prop :=
  match l with Deciding _ _ | Closing | StoppingMiner | JoiningMiner => True | _ => False end.

(** The loop tells the miner to stop and waits for it, whatever the miner is doing. *)
Lemma loop_joins_miner s m b :
  winding_down (sh_loop s) → sh_stop s = true → sh_miner s = Some m → solved_block m b →
  ∃ s' m', rtc thread_step s s' ∧ sh_loop s' = JoiningMiner ∧ sh_miner s' = Some m' ∧ solved_block m' b.
Proof using.
  intros Hl Hst Hm Hb.
  assert (∀ s m, sh_loop s = StoppingMiner → sh_miner s = Some m → solved_block m b →
    ∃ s' m', rtc thread_step s s' ∧ sh_loop s' = JoiningMiner ∧ sh_miner s' = Some m' ∧ solved_block m' b)
    as Hsend.
  { intros s1 m1 Hl1 Hm1 Hb1. eexists _, (Miner_send m1). split; [apply rtc_once; left; by eapply loop_sends_stop|].
    split_and!; [done..|]. unfold Miner_send. by destruct (sending m1). }
  assert (∀ s, sh_loop s = Closing → sh_miner s = Some m →
    ∃ s' m', rtc thread_step s s' ∧ sh_loop s' = JoiningMiner ∧ sh_miner s' = Some m' ∧ solved_block m' b)
    as Hclose.
  { intros s1 Hl1 Hm1.
    destruct (Hsend (set_loop (set_shell_miner s1 (Some (Miner_stop m))) StoppingMiner) (Miner_stop m))
      as (s' & m' & Hr & Hs'); [done|done|exact Hb|].
    exists s', m'. split; [|done]. eapply rtc_l; [left; by eapply loop_bumps_generation|done]. }
  destruct (sh_loop s) as [| |ev go| | | | |] eqn:Hpc; try done; [|by eauto|by eauto|by exists s, m].
  destruct (Hclose (set_loop (loaded_flag s ev) Closing)) as (s' & m' & Hr & Hs'); [done|done|].
  exists s', m'. split; [|done]. eapply rtc_l; [left; eapply loop_breaks; [done|by right]|done].
Qed.

(** As long as the receiver lives, the holders of handles can fill the channel. *)
Lemma clients_fill n s :
  channel_open s = true → (Z.to_nat (sh_capacity s) - length (sh_queue s) ≤ n)%nat →
  ∃ s', rtc client_step s s' ∧ has_room s' = false ∧ sh_main s' = sh_main s ∧ sh_stop s' = sh_stop s
    ∧ sh_loop s' = sh_loop s ∧ sh_miner s' = sh_miner s.
Proof using.
  revert s. induction n as [|n IH]; intros s Ho Hn;
    (destruct (has_room s) eqn:Hroom; [|by exists s]).
  - unfold has_room in Hroom. apply bool_decide_eq_true in Hroom. lia.
  - destruct (IH (enqueue s (PeerConnected (peer_id 1)))) as (s' & Hr & Hs'); [done| |].
    + unfold has_room in Hroom. apply bool_decide_eq_true in Hroom. cbn. rewrite length_app. cbn. lia.
    + exists s'. split; [|exact Hs']. eapply rtc_l; [|exact Hr].
      apply (client_sends s (PeerConnected (peer_id 1))); [done|]. unfold channel_send. by rewrite Ho, Hroom.
Qed.

Lemma deadlocked_forever s s' :
  deadlocked s → sh_main s = Joining → sh_stop s = true → rtc (shell_step fuel) s s' → s' = s.
Proof using.
  intros Hd Hm Hst Hr. induction Hr as [|s s1 s2 Hs _ IH]; [done|].
  rewrite (deadlocked_stuck s s1 Hd Hm Hst Hs) in IH. by apply IH.
Qed.

(** C15: A stop request can hang a mining server.  Let the shell have seen the stop flag and wait for
    the event loop, let the loop have taken its last event, and let the miner hold a block that
    validates and that it has not yet sent.  Then, however the server was
    set up, the threads can run on to a state in which the loop waits for the miner to end, the miner
    waits for room in the full event channel, which only the loop empties, the shell waits
    for the loop, and no thread ever moves again: [start] does not return. *)
Theorem shutdown_can_hang (sv : Server) (s : Shell) (m : MinerSys) (b : Block) :
  1 ≤ channel_capacity sv → shell_reach fuel sv s → sh_main s = Joining → winding_down (sh_loop s) →
  sh_miner s = Some m → solved_block m b →
  ∃ s' m', rtc (shell_step fuel) s s'
    ∧ sh_main s' = Joining
    ∧ sh_loop s' = JoiningMiner
    ∧ sh_miner s' = Some m' ∧ pc m' ≠ Stopped ∧ solved_block m' b
    ∧ channel_open s' = true ∧ channel_send s' (MinedCandidate b) = None
    ∧ ∀ s'', rtc (shell_step fuel) s' s'' → s'' = s'.
Proof using.
  intros Hcap Hr Hmain Hl Hm Hb. destruct (shell_reach_inv sv s Hcap Hr) as [[_ _ Hok] _].
  unfold main_ok in Hok. rewrite Hmain in Hok. destruct Hok as [Hst _].
  destruct (loop_joins_miner s m b Hl Hst Hm Hb) as (s1 & m1 & Hr1 & Hl1 & Hm1 & Hb1).
  destruct (thread_steps_main s s1 Hr1) as [Hmain1 Hst1].
  assert (channel_open s1 = true) as Ho1 by (unfold channel_open; by rewrite Hl1).
  destruct (clients_fill _ s1 Ho1 (le_n _)) as (s2 & Hr2 & Hroom & Hmain2 & Hst2 & Hl2 & Hm2).
  assert (channel_open s2 = true) as Ho2 by (unfold channel_open; by rewrite Hl2, Hl1).
  exists s2, m1. split.
  { transitivity s1; [eapply rtc_subrel; [|exact Hr1]|eapply rtc_subrel; [|exact Hr2]].
    - intros ?? [Hs|Hs]; [by left|by right; left].
    - intros ?? Hs. by right; right; right. }
  rewrite Hmain2, Hmain1, Hl2, Hm2. split_and!; [done..| |done|done| |].
  - destruct Hb1 as [-> _]. done.
  - unfold channel_send. by rewrite Ho2, Hroom.
  - intros s3. apply deadlocked_forever; [|congruence..]. split; [congruence|]. split; [done|].
    destruct (solved_block_reports m1 b Hb1) as (m2 & Hw & Hmd). exists m1, m2, b.
    by rewrite Hm2.
Qed.

Section safety.
Context `{L : !CryptoLaws C} `{NL : !EnvironmentLaws N}.

Lemma event_keeps ev w w' r :
  event_ok ev → server_inv None (server w) → handle_event fuel ev w = (w', r) →
  node_inv (state (server w')) ∧ (is_ok r = true → server_inv None (server w')).
Proof using L NL.
  intros Hev Hw Hr. pose proof (kept_event fuel ev Hev w w' r Hw Hr) as Hk.
  destruct r as [a|[[]|]|]; [|by split..]. split; [apply Hk|]. intros _. apply Hk.
Qed.

Lemma ran_keeps w0 evs w rs :
  server_inv None (server w0) → Forall event_ok evs → ran w0 evs w rs → server_inv None (server w).
Proof using L NL.
  intros Hw Hevs Hr. induction Hr as [|evs w rs ev w' r Hr IH Hev]; [done|].
  apply Forall_app in Hevs as [Hevs [Hok _]%Forall_cons].
  by apply (event_keeps _ _ _ _ Hok (IH Hevs) Hev).
Qed.

Lemma history_fst (evs : list ServerEvent) : ((λ ev, (ev, false)) <$> evs).*1 = evs.
Proof using. rewrite <-list_fmap_compose. apply list_fmap_id. Qed.

Lemma history_keeps w0 s :
  server_inv None (server w0) → Forall event_ok (handled s) → loop_history w0 s →
  node_inv (state (server (sh_world s))).
Proof using L NL.
  intros Hw Hok. unfold handled, loop_history in *.
  assert (∀ evs ev w1 rs1 r, sh_trace s = ((λ ev, (ev, false)) <$> evs) →
    Forall event_ok ((sh_trace s).*1 ++ [ev]) → ran w0 evs w1 rs1 →
    handle_event fuel ev w1 = (sh_world s, r) → node_inv (state (server (sh_world s)))) as Hlast.
  { intros evs ev w1 rs1 r Ht [Hevs [Hev _]%Forall_cons]%Forall_app Hr Hrun.
    rewrite Ht, history_fst in Hevs. apply (proj1 (event_keeps ev w1 _ r Hev ltac:(by eapply ran_keeps) Hrun)). }
  assert (∀ evs w1 rs1 r ev go flag, sh_trace s = ((λ ev, (ev, false)) <$> evs) ++ [(ev, flag)]
    ∧ ran w0 evs w1 rs1 ∧ handle_event fuel ev w1 = (sh_world s, Ok (go, r))
    ∧ (go = false ∨ flag = true) ∧ (sh_answers s).*2 = rs1 ++ [r] →
    Forall event_ok ((sh_trace s).*1 ++ []) → node_inv (state (server (sh_world s)))) as Hclosing.
  { intros evs w1 rs1 r ev go flag (Ht & Hr & Hev & _) Hoks.
    rewrite app_nil_r, Ht, fmap_app, history_fst in Hoks.
    apply Forall_app in Hoks as [Hevs [Hok1 _]%Forall_cons].
    apply (proj1 (event_keeps ev w1 _ (Ok (go, r)) Hok1 ltac:(by eapply ran_keeps) Hev)). }
  destruct (sh_loop s) as [|id ev|ev go| | | | |ev].
  - intros (evs & Ht & Hr). rewrite app_nil_r, Ht, history_fst in Hok. by eapply ran_keeps in Hr as [].
  - intros (evs & Ht & Hr). rewrite app_nil_r, Ht, history_fst in Hok. by eapply ran_keeps in Hr as [].
  - intros (evs & w1 & rs1 & r & Ht & Hr & Hev & _). by eapply Hlast.
  - intros (evs & w1 & rs1 & r & ev & go & flag & H). by eapply Hclosing.
  - intros (evs & w1 & rs1 & r & ev & go & flag & H). by eapply Hclosing.
  - intros (evs & w1 & rs1 & r & ev & go & flag & H). by eapply Hclosing.
  - intros Hrun. rewrite app_nil_r, Forall_fmap in Hok.
    pose proof (kept_loop fuel (sh_trace s) Hok w0 _ _ Hw Hrun) as Hk. apply Hk.
  - intros (evs & w1 & Ht & Hr & Hev). by eapply Hlast.
Qed.

(** C13: The threads implement the sequential event loop.  In every interleaving of the
    asynchronous shell, the event loop, the miner and any number of clients, the replies and the
    server are those of [run_event_loop] on the handled events; events are handled once each, in
    the order in which they entered the channel, none is skipped, and a request is answered in its turn (at
    most one, in a handler that is running or panicked, is out); [start] returns the node state
    of that run; and as long as the handled events are well formed the node invariant holds at every moment. *)
Theorem shell_refines_event_loop (sv : Server) (s : Shell) :
  1 ≤ channel_capacity sv → shell_reach fuel sv s →
  let w0 := sh_world (serve_start sv) in
  (∃ busy, (length busy ≤ 1)%nat
     ∧ (sh_answers s).*1 ++ busy ++ (sh_queue s).*1 = seq 0 (sh_next s))
  ∧ (sh_loop s = LoopDone →
     run_event_loop fuel (sh_trace s) w0 = (sh_world s, Ok (sh_answers s).*2))
  ∧ (∀ st, sh_main s = Returned (Ok st) → ∃ w',
     run_event_loop fuel (sh_trace s) w0 = (w', Ok (sh_answers s).*2) ∧ st = state (server w'))
  ∧ (server_inv None sv → Forall event_ok (handled s) → node_inv (state (server (sh_world s)))).
Proof using L NL.
  intros Hcap Hr w0. destruct (shell_reach_inv sv s Hcap Hr) as [[Hh (ids & Hp & Hf) Hm] _].
  fold w0 in Hh. split_and!.
  - exists ids. split; [|done]. destruct (sh_loop s); cbn in Hp; subst; cbn; lia.
  - intros Hl. unfold loop_history in Hh. by rewrite Hl in Hh.
  - intros st Hst. unfold main_ok in Hm. rewrite Hst in Hm. destruct Hm as [Hl ->].
    exists (sh_world s). split; [|done]. unfold loop_history in Hh. by rewrite Hl in Hh.
  - intros [Hn Hps] Hok. eapply history_keeps; [|done|done]. by split.
Qed.

End safety.
End refinement.
