(* ===== verification/AdminTask.v ===== *)
(** * server.rs: the server side of an admin connection

    [run_admin] reads a request line, hands the request to the event loop,
    writes the response line, until the client closes.  Its input is what each
    [read_line] gives, its output what is written; [writes] are the outcomes of the
    [write_all] and [flush] pairs, success where the list has ended. *)

From S2P Require Import Prelude Bytes Crypto Types State Consensus Chain Mempool Wire.
From S2P Require Import Admin Mining NodeState Home Peers Client Peer TxIndex Store.
From S2P Require Import Runtime Server Shell.

Section task.
Context {W : Type} `{JQ : SerdeJson AdminRequest} `{JR : SerdeJson AdminResponse}.
Context (request_text : json_error AdminRequest → string).
Context (response_text : json_error AdminResponse → string).
(** [ServerHandle::request_admin]. *)
Context (request_admin : AdminRequest → W → W * result ServerHandleError AdminResponse).

Definition admin_reply (line : list Ascii.ascii) (w : W) : W * result io_Error (list Ascii.ascii) :=
  match map_err (λ e, io_error InvalidData (request_text e)) (from_str (trim_end_newlines line)) with
  | Ok request =>
      let '(w, answer) := request_admin request w in
      (w, response ← map_err (λ e, io_error BrokenPipe (handle_error_text e)) answer;
          response_line ← map_err (λ e, io_error InvalidData (response_text e)) (to_string response);
          Ok (response_line ++ [nl]))
  | Err e => (w, Err e)
  | Panic => (w, Panic)
  end.

Fixpoint run_admin (lines : list (result io_Error (list Ascii.ascii))) (writes : list (option io_Error))
    (w : W) : W * list Ascii.ascii * result io_Error unit :=
  match lines with
  | [] | Ok [] :: _ => (w, [], Ok ())
  | Err e :: _ => (w, [], Err e)
  | Panic :: _ => (w, [], Panic)
  | Ok line :: lines =>
      match admin_reply line w with
      | (w, Ok out) =>
          match writes with
          | Some e :: _ => (w, [], Err e)
          | _ =>
              let '(w, rest, r) := run_admin lines (tail writes) w in (w, out ++ rest, r)
          end
      | (w, Err e) => (w, [], Err e)
      | (w, Panic) => (w, [], Panic)
      end
  end.

Context `{LQ : !SerdeJsonLaws AdminRequest JQ} `{LR : !SerdeJsonLaws AdminResponse JR}.

(** The answers of a server to a sequence of requests. *)
Fixpoint serve_requests (rs : list AdminRequest) (w : W) : W * list AdminResponse :=
  match rs with
  | [] => (w, [])
  | r :: rs =>
      match request_admin r w with
      | (w, Ok a) => let '(w, l) := serve_requests rs w in (w, a :: l)
      | (w, _) => (w, [])
      end
  end.

Definition request_line (r : AdminRequest) : list Ascii.ascii :=
  match to_string r with Ok s => s ++ [nl] | _ => [] end.
Definition response_line (a : AdminResponse) : list Ascii.ascii :=
  match to_string a with Ok s => s ++ [nl] | _ => [] end.

Lemma admin_reply_request r w w' a :
  request_admin r w = (w', Ok a) → admin_reply (request_line r) w = (w', Ok (response_line a)).
Proof using LQ LR.
  intros Hr. unfold admin_reply, request_line, response_line.
  destruct (to_string_Ok r) as [s Hs]. destruct (to_string_Ok a) as [t Ht]. rewrite Hs.
  rewrite trim_end_newlines_snoc by exact (to_string_no_newline r s Hs).
  rewrite (from_to_string r s Hs). cbn. rewrite Hr. cbn. by rewrite Ht.
Qed.

(** As long as the event loop answers, the connection carries one response per
    request, in order. *)
Lemma run_admin_serves rs w :
  (∀ r w, r ∈ rs → ∃ w' a, request_admin r w = (w', Ok a)) →
  run_admin (Ok ∘ request_line <$> rs) [] w
  = ((serve_requests rs w).1, mjoin (response_line <$> (serve_requests rs w).2), Ok ()).
Proof using LQ LR.
  revert w. induction rs as [|r rs IH]; intros w Hs; [done|].
  destruct (Hs r w ltac:(by left)) as (w1 & a & Hr).
  cbn [fmap list_fmap run_admin serve_requests]. cbn [compose]. rewrite Hr.
  pose proof (admin_reply_request r w w1 a Hr) as Hrep.
  destruct (request_line r) as [|c l] eqn:Hline.
  { unfold request_line in Hline. destruct (to_string_Ok r) as [s Hs']. rewrite Hs' in Hline.
    by apply app_nil in Hline as [_ ?]. }
  rewrite Hrep. cbn [tail]. rewrite IH by (intros; apply Hs; by right).
  destruct (serve_requests rs w1). done.
Qed.

End task.

(** ** The client of admin.rs against this server *)

Section end_to_end.
Context `{C : Crypto} `{B : Bincode} `{N : !Environment}.
Context `{JQ : SerdeJson AdminRequest} `{JR : SerdeJson AdminResponse}.
Context `{LQ : !SerdeJsonLaws AdminRequest JQ} `{LR : !SerdeJsonLaws AdminResponse JR}.
Context (request_text : json_error AdminRequest → string).
Context (response_text : json_error AdminResponse → string).
Context (fuel : nat) (w : World).

(** The event loop answers with [handle_admin_request]; one that is still running or
    panicked drops the reply channel. *)
Definition loop_answer (r : AdminRequest) (w : World)
    : World * result ServerHandleError AdminResponse :=
  match handle_admin_request (E:=Empty_set) fuel r w with
  | (w, Ok a) => (w, Ok a)
  | (w, _) => (w, Err ResponseDropped)
  end.

(** A socket to [run_admin] in the world [w]: what the client wrote so far. *)
Definition to_server (_ : string) : result io_Error (list Ascii.ascii) := Ok [].
Definition client_write (sent line : list Ascii.ascii) : result io_Error (list Ascii.ascii) :=
  Ok (sent ++ line).
Definition client_read (sent : list Ascii.ascii) : result io_Error (list Ascii.ascii) :=
  let '(_, out, _) := run_admin request_text response_text loop_answer [Ok sent] [] w in
  Ok (read_line out).1.

Definition bad_request (e : json_error AdminRequest) : io_Error :=
  io_error InvalidData (request_text e).
Definition bad_response (e : json_error AdminResponse) : io_Error :=
  io_error InvalidData (response_text e).
Definition closed_early : io_Error := io_error UnexpectedEof "admin connection closed".

Lemma exchange r w' a :
  handle_admin_request (E:=Empty_set) fuel r w = (w', Ok a) →
  ∃ sent, send_request client_write bad_request [] r = Ok sent
  ∧ receive_response client_read bad_response closed_early sent = Ok a.
Proof using LQ LR.
  intros Hr. destruct (to_string_Ok r) as [s Hs]. destruct (to_string_Ok a) as [t Ht].
  exists (s ++ [nl]). split; [unfold send_request; by rewrite Hs|].
  unfold receive_response, client_read.
  assert (loop_answer r w = (w', Ok a)) as Hl by (unfold loop_answer; by rewrite Hr).
  pose proof (admin_reply_request request_text response_text loop_answer r w w' a Hl) as Hrep.
  unfold request_line, response_line in Hrep. rewrite Hs, Ht in Hrep.
  cbn [run_admin]. destruct (s ++ [nl]) as [|c l] eqn:Hline; [by apply app_nil in Hline as [_ ?]|].
  rewrite Hrep. cbn [tail run_admin]. rewrite app_nil_r.
  assert (read_line (t ++ [nl]) = (t ++ [nl], [])) as -> by (apply (read_line_app t []), (to_string_no_newline a t Ht)).
  cbn [fst mbind result_bind]. destruct (t ++ [nl]) as [|c' l'] eqn:Hout; [by apply app_nil in Hout as [_ ?]|].
  rewrite <-Hout. rewrite trim_end_newlines_snoc by exact (to_string_no_newline a t Ht).
  by rewrite (from_to_string a t Ht).
Qed.

Definition node_status (s : Server) : StatusSummary := {|
  status_tip := best_tip (chain (state s));
  status_height := t ← best_tip (chain (state s)); height <$> entries (chain (state s)) !! t;
  status_branch_count := branch_count (chain (state s));
  mempool_size := size (mempool (state s));
  peer_count := size (connected_peers s);
  mining_enabled := bool_decide (is_Some (mining s))
|}.

(** The first coinbase number of a bootstrap: the height of the next block, if it fits a [u32]. *)
Definition bootstrap_start (s : Server) : Z :=
  match status_height (node_status s) with
  | Some h => if bool_decide (h + 1 < 2 ^ 32) then h + 1 else 0
  | None => 0
  end.

(** [k] blocks mined one after the other to [key], each numbered after the one before; the last one's hash. *)
Inductive bootstrap_run (key : bytes) : nat → World → option BlockHash → Prop :=
| bootstrap_none : bootstrap_run key 0 w None
| bootstrap_one k w1 last w2 replies :
    bootstrap_run key k w1 last →
    Server_handle_message fuel
      (bootstrap_request key (saturating_add 32 (bootstrap_start (server w)) (Z.of_nat k))) w1
    = (w2, Ok replies) →
    bootstrap_run key (S k) w2 (mined_block_hash replies).

Lemma bootstrap_start_correct :
  default 0 (h ← tip_height (tip_summary (state (server w))); try_from 32 (saturating_add 64 h 1))
  = bootstrap_start (server w).
Proof using.
  unfold bootstrap_start, node_status, tip_summary. cbn [status_height].
  destruct (best_tip (chain (state (server w)))) as [t|]; [|done]. cbn.
  destruct (entries (chain (state (server w))) !! t) as [e|] eqn:He; [|done]. cbn.
  unfold try_from, saturating_add, max_uint. repeat case_bool_decide; cbn; lia.
Qed.

Lemma bootstrap_blocks_from key blocks k n w1 last :
  bootstrap_run key k w1 last →
  bootstrap_blocks fuel (E:=Empty_set) key (bootstrap_start (server w)) blocks 0 (k + n) None w
  = bootstrap_blocks fuel key (bootstrap_start (server w)) blocks (Z.of_nat k) n last w1.
Proof using.
  intros Hr. revert n. induction Hr as [|k w1 last w2 replies _ IH Hm]; intros n; [done|].
  replace (S k + n)%nat with (k + S n)%nat by lia. rewrite IH. cbn [bootstrap_blocks].
  unfold attempt. rewrite Hm. f_equal. lia.
Qed.

#[local] Ltac run_client sent Hsend Hrecv :=
  unfold request_status, request_balance, Admin.submit_transaction, bootstrap_funds;
  cbn [map_err mbind result_bind to_server];
  rewrite Hsend; cbn [map_err mbind result_bind]; rewrite Hrecv.

(** C38: The local admin protocol end to end: the one-shot client of admin.rs, talking through JSON
    lines to [run_admin] in front of the event loop, gets what the server's handler computed, for each of
    the four requests: the status of the node, whose peer count is that of the inbound sessions now
    connected; the balance of the key; for a submitted transaction its id when the
    announcement is accepted and the server's error text when it is not; for a bootstrap of [n]
    blocks, [n] and the hash of the last one when all are mined, with coinbases numbered from the height of the next
    block, and the error text of the first that is not.  A malformed key is refused. *)
Theorem admin_end_to_end (addr : string) :
  request_status to_server client_write client_read bad_request bad_response closed_early addr
    = Ok (node_status (server w))
  ∧ (∀ key, parse_verifying_key key = None →
     request_balance to_server client_write client_read bad_request bad_response closed_early addr key
       = Err (Admin.Server "invalid public key")
     ∧ ∀ n, bootstrap_funds to_server client_write client_read bad_request bad_response closed_early
              addr key n = Err (Admin.Server "invalid public key"))
  ∧ (∀ key owner a, parse_verifying_key key = Some owner →
     balance_for_key (state (server w)) owner = Some a →
     request_balance to_server client_write client_read bad_request bad_response closed_early addr key
       = Ok {| amount := a |})
  ∧ (∀ tx id w' r, Transaction_txid tx = Some id →
     Server_handle_message fuel (WAnnounceTx tx) w = (w', r) →
     (∀ rs, r = Ok rs →
        Admin.submit_transaction to_server client_write client_read bad_request bad_response closed_early
          addr tx = Ok id)
     ∧ ∀ e, r = Err (Some e) →
        Admin.submit_transaction to_server client_write client_read bad_request bad_response closed_early
          addr tx = Err (Admin.Server (server_error_text e)))
  ∧ (∀ key owner k w1 last, parse_verifying_key key = Some owner →
     bootstrap_run key k w1 last →
     bootstrap_funds to_server client_write client_read bad_request bad_response closed_early
       addr key (Z.of_nat k) = Ok {| blocks_mined := Z.of_nat k; last_block_hash := last |}
     ∧ ∀ n w2 e, Z.of_nat k < n →
       Server_handle_message fuel
         (bootstrap_request key (saturating_add 32 (bootstrap_start (server w)) (Z.of_nat k))) w1
       = (w2, Err (Some e)) →
       bootstrap_funds to_server client_write client_read bad_request bad_response closed_early
         addr key n = Err (Admin.Server (server_error_text e))).
Proof using LQ LR.
  split_and!.
  - destruct (exchange GetStatus w (Status (node_status (server w)))) as (sent & Hsend & Hrecv).
    { unfold handle_admin_request, node_status, tip_summary, mbind, server_op_bind, gets. cbn.
      by destruct (best_tip (chain (state (server w)))). }
    by run_client sent Hsend Hrecv.
  - intros key Hk. split; [|intros n].
    + destruct (exchange (GetBalance key) w (Error "invalid public key")) as (sent & Hsend & Hrecv);
        [cbn; by rewrite Hk|by run_client sent Hsend Hrecv].
    + destruct (exchange (Bootstrap key n) w (Error "invalid public key")) as (sent & Hsend & Hrecv);
        [cbn; by rewrite Hk|by run_client sent Hsend Hrecv].
  - intros key owner a Hk Ha.
    destruct (exchange (GetBalance key) w (Balance {| amount := a |})) as (sent & Hsend & Hrecv).
    { cbn. rewrite Hk. unfold mbind, server_op_bind, gets, expecting. cbn. by rewrite Ha. }
    by run_client sent Hsend Hrecv.
  - intros tx id w' r Hid Hr.
    split; intros x ->.
    + destruct (exchange (SubmitTransaction tx) w' (Submitted id)) as (sent & Hsend & Hrecv).
      { unfold handle_admin_request, mbind, server_op_bind, expecting, attempt. rewrite Hid. cbn [expect].
        by rewrite Hr. }
      by run_client sent Hsend Hrecv.
    + destruct (exchange (SubmitTransaction tx) w' (Error (server_error_text x))) as (sent & Hsend & Hrecv).
      { unfold handle_admin_request, mbind, server_op_bind, expecting, attempt. rewrite Hid. cbn [expect].
        by rewrite Hr. }
      by run_client sent Hsend Hrecv.
  - intros key owner k w1 last Hk Hrun.
    assert (∀ n, Z.of_nat k ≤ n → handle_admin_request (E:=Empty_set) fuel (Bootstrap key n) w
      = bootstrap_blocks fuel key (bootstrap_start (server w)) n (Z.of_nat k) (Z.to_nat n - k) last w1) as Hboot.
    { intros n Hn. cbn [handle_admin_request]. rewrite Hk. unfold mbind at 1, server_op_bind, gets at 1.
      cbn zeta. rewrite bootstrap_start_correct.
      rewrite <-(bootstrap_blocks_from key n k (Z.to_nat n - k) w1 last Hrun). do 2 f_equal. lia. }
    split; [|intros n w2 e Hn He].
    + destruct (exchange (Bootstrap key (Z.of_nat k)) w1
        (Bootstrapped {| blocks_mined := Z.of_nat k; last_block_hash := last |})) as (sent & Hsend & Hrecv).
      { rewrite Hboot by done. by replace (Z.to_nat (Z.of_nat k) - k)%nat with 0%nat by lia. }
      by run_client sent Hsend Hrecv.
    + destruct (exchange (Bootstrap key n) w2 (Error (server_error_text e))) as (sent & Hsend & Hrecv).
      { rewrite Hboot by lia. destruct (Z.to_nat n - k)%nat eqn:Hd; [lia|]. cbn [bootstrap_blocks].
        unfold attempt. by rewrite He. }
      by run_client sent Hsend Hrecv.
Qed.

End end_to_end.
