(* ===== verification/Inbound.v ===== *)
(** * An accepted peer connection, from socket to socket

    [serve_peer_stream] decodes a line, hands the message to the event loop, writes the
    replies.  Here the session of [Session] and the event loop of [Server] run against each
    other, and the one-shot client of client.rs against both. *)

From S2P Require Import Prelude Bytes Crypto Types State Consensus Chain Mempool Wire.
From S2P Require Import Admin Mining NodeState Home Peers Client Peer Session TxIndex Store.
From S2P Require Import Runtime Server ServerLogic ServerRelay ServerStore Shell.

Section inbound.
Context `{C : Crypto} `{B : Bincode} `{N : !Environment} `{J : SerdeJson WireMessage}.
Context (json_error_text : json_error WireMessage → string).
Context (fuel : nat).

(** [ServerHandle::request_peer_message]; a loop that panicked or is still running drops the reply
    channel. *)
Definition request_peer_message (o : PeerAddr) (m : WireMessage) (w : World) : World * server_answer :=
  match handle_event fuel (PeerMessage (Some o) m) w with
  | (w, Ok (_, MessageReply (Ok rs))) => (w, Ok (Ok rs))
  | (w, Ok (_, MessageReply (Err e))) => (w, Ok (Err (server_error_text e)))
  | (w, _) => (w, Err (handle_error_text ResponseDropped))
  end.

(** The origin a session sends with a message. *)
Definition message_origin (s : Session) (m : WireMessage) : PeerAddr :=
  match m with
  | WHello h => {| origin_addr := advertised_addr h; origin_node_name := hello_node_name h |}
  | _ => origin s
  end.

(** [ServerHandle::notify_tip_sync], for the notices a line added. *)
Definition follow_up (notices : list Notice) (w : World) : World :=
  foldl (λ w n, match n with
                | NoticeTipSync o t => (handle_event fuel (TipSync o t) w).1
                | _ => w
                end) w notices.

(** One line of an accepted connection; the flag says whether the session goes on. *)
Definition inbound_line (read : result io_Error (list Ascii.ascii)) (s : Session) (w : World)
    : Session * World * bool :=
  let '(w, answer) :=
    match receive_async_message json_error_text read with
    | Ok m => request_peer_message (message_origin s m) m w
    | _ => (w, Err EmptyString)
    end in
  let '(s', go) := session_step json_error_text true s (EvRead read answer) in
  (s', follow_up (drop (length (notified s)) (notified s')) w, go).

Fixpoint inbound_lines (reads : list (result io_Error (list Ascii.ascii))) (s : Session) (w : World)
    : Session * World * bool :=
  match reads with
  | [] => (s, w, true)
  | read :: reads =>
      match inbound_line read s w with
      | (s, w, true) => inbound_lines reads s w
      | (s, w, false) => (session_end true s, w, false)
      end
  end.

(** The session an accepted stream starts with. *)
Definition accepted : Session := session_start true false PeerAddr_default [].

Definition wire_line (m : WireMessage) : list Ascii.ascii :=
  match to_json_line m with Ok line => line | _ => [] end.

(** The whole connection, named [id] by the listener: the loop is told of its start and of its end. *)
Definition serve_connection (id : string) (reads : list (result io_Error (list Ascii.ascii))) (w : World)
    : Session * World * bool :=
  let w := (handle_event fuel (PeerConnected id) w).1 in
  match inbound_lines reads accepted w with
  | (s, w, true) => (s, w, true)
  | (s, w, false) => (s, (handle_event fuel (PeerDisconnected id) w).1, false)
  end.

(** A socket to the server in [w] for a client that writes [ms]: each reply arrives in a read
    of its own. *)
Definition served_stream (id : string) (w : World) (ms : list WireMessage) : TcpStream :=
  let '(s, _, _) := serve_connection id (Ok ∘ wire_line <$> ms) w in
  {| incoming := Ok ∘ wire_line <$> sent s; written := []; write_outcomes := [] |}.

End inbound.

(** ** Lines *)

Section lines.
Context `{J : SerdeJson WireMessage} `{LJ : !SerdeJsonLaws WireMessage J}.
Context (json_error_text : json_error WireMessage → string).

Lemma wire_line_json m : ∃ json, to_string m = Ok json ∧ wire_line m = json ++ [nl].
Proof using LJ.
  destruct (to_string_Ok m) as [json Hj]. exists json. split; [done|].
  unfold wire_line, to_json_line. by rewrite Hj.
Qed.

Lemma receive_wire_line m : receive_async_message json_error_text (Ok (wire_line m)) = Ok m.
Proof using LJ.
  destruct (wire_line_json m) as (json & Hj & Hl). unfold receive_async_message. cbn [mbind result_bind].
  assert (from_json_line (wire_line m) = Ok m) as Hf.
  { apply from_to_json_line. unfold wire_line, to_json_line. by rewrite Hj. }
  rewrite Hf. rewrite Hl. by destruct (json ++ [nl]) eqn:E; [apply app_nil in E as [_ ?]|].
Qed.

(** What the client reads. *)
Lemma client_reads m reads wr os :
  receive_message json_error_text {| incoming := Ok (wire_line m) :: reads; written := wr; write_outcomes := os |}
  = ({| incoming := reads; written := wr; write_outcomes := os |}, Ok m).
Proof using LJ.
  destruct (wire_line_json m) as (json & Hj & Hl).
  apply (receive_message_drops_read_ahead json_error_text m json json [] [] reads); [done|done|].
  cbn. by rewrite Hl.
Qed.

Lemma client_sends m reads wr :
  send_message json_error_text {| incoming := reads; written := wr; write_outcomes := [] |} m
  = ({| incoming := reads; written := wr ++ wire_line m; write_outcomes := [] |}, Ok ()).
Proof using LJ.
  destruct (to_string_Ok m) as [json Hj]. unfold send_message, wire_line, to_json_line. by rewrite Hj.
Qed.

Lemma session_sends s m :
  outcomes s = [] →
  send_async_message json_error_text s m
  = ({| pending_request := pending_request s; pending_deadline := pending_deadline s;
        commands_open := commands_open s; origin := origin s; outcomes := []; sent := sent s ++ [m];
        replies := replies s; notified := notified s |}, Ok ()).
Proof using LJ.
  intros Ho. destruct (to_string_Ok m) as [json Hj]. unfold send_async_message, to_json_line. by rewrite Hj, Ho.
Qed.

End lines.

Section exchange.
Context `{C : Crypto} `{B : Bincode} `{N : !Environment} `{J : SerdeJson WireMessage}.
Context `{LJ : !SerdeJsonLaws WireMessage J}.
Context (json_error_text : json_error WireMessage → string).
Context (fuel : nat).

(** An inbound session between two lines: nothing is pending, and no write has failed. *)
Definition ready (s : Session) : Prop := pending_request s = None ∧ outcomes s = [].

Lemma send_all_ready s rs :
  ready s → ∃ s', send_all json_error_text s rs = (s', Ok ()) ∧ ready s' ∧ sent s' = sent s ++ rs
    ∧ notified s' = notified s.
Proof using LJ.
  revert s. induction rs as [|m rs IH]; intros s [Hp Ho]; cbn [send_all].
  - exists s. by rewrite app_nil_r.
  - rewrite (session_sends _ _ _ Ho). set (s1 := {| pending_request := _ |}).
    destruct (IH s1) as (s' & Hrun & Hr & Hs & Hn); [done|]. exists s'.
    split_and!; [done|done|rewrite Hs; cbn; by rewrite <-app_assoc|done].
Qed.

(** A message that is no tip announcement, and what the event loop makes of it. *)
Lemma inbound_step s w m w' a :
  ready s → (∀ t, m ≠ WAnnounceTip t) →
  request_peer_message fuel (message_origin s m) m w = (w', a) →
  ∃ s', inbound_line json_error_text fuel (Ok (wire_line m)) s w
        = (s', w', match a with Ok (Ok _) => true | _ => false end)
    ∧ ready s' ∧ sent s' = sent s ++ match a with Ok (Ok rs) => rs | _ => [] end.
Proof using LJ.
  intros Hs Hm Hreq. unfold inbound_line. rewrite receive_wire_line, Hreq.
  unfold session_step. rewrite receive_wire_line. unfold handle_inbound_message.
  assert (try_complete_pending_request s m = (s, false)) as -> by (unfold try_complete_pending_request; by rewrite (proj1 Hs)).
  cbn [negb]. set (s1 := match m with WHello h => _ | _ => s end).
  assert (ready s1 ∧ sent s1 = sent s ∧ notified s1 = notified s) as (Hr1 & Hsent1 & Hn1) by (unfold s1; by destruct m).
  assert (match m with WAnnounceTip t => Some t | _ => None end = None) as -> by (destruct m; try done; by destruct (Hm t)).
  set (s2 := notify s1 _). assert (ready s2 ∧ sent s2 = sent s) as [Hr2 Hsent2] by done.
  assert (∀ s3, notified s3 = notified s2 → follow_up fuel (drop (length (notified s)) (notified s3)) w' = w') as Hfu.
  { intros s3 ->. unfold s2. cbn [notify notified]. rewrite Hn1, drop_app_length. done. }
  destruct a as [[rs|e|]|e|].
  - destruct (send_all_ready s2 rs Hr2) as (s3 & -> & Hr3 & Hsent3 & Hn3). exists s3. cbn [is_ok].
    rewrite Hfu by done. split_and!; [done|done|congruence].
  - exists s2. cbn [is_ok]. rewrite Hfu by done. rewrite app_nil_r. done.
  - exists s2. cbn [is_ok]. rewrite Hfu by done. rewrite app_nil_r. done.
  - exists s2. cbn [is_ok]. rewrite Hfu by done. rewrite app_nil_r. done.
  - exists s2. cbn [is_ok]. rewrite Hfu by done. rewrite app_nil_r. done.
Qed.

(** The database, if there is one, has no malformed row for the peer. *)
Definition recordable (s : Server) (addr : string) : Prop :=
  match sqlite_store s with
  | Some db => is_ok (load_peer db addr) = true
  | None => True
  end.

Lemma load_peer_addr db a p : load_peer db a = Ok (Some p) → peer_addr p = a.
Proof using.
  unfold load_peer. destruct (t_peers db !! a) as [r|]; [|done]. intros H. inv_result.
  unfold stored_peer_from_row in *. inv_result. done.
Qed.

(** A hello is recorded under the advertised address, or under "unknown". *)
Lemma hello_recorded remote w :
  let a := default "unknown" (advertised_addr remote) in
  recordable (server w) a →
  ∃ w', record_inbound_hello remote w = (w', Ok ()) ∧ state (server w') = state (server w)
    ∧ config (server w') = config (server w) ∧ is_Some (peers (server w') !! a).
Proof using.
  intros a Hrec. unfold record_inbound_hello. fold a.
  erewrite bind_returns by done. set (w1 := logged w ReadClock). erewrite bind_returns by done.
  set (now := format_timestamp_string _). clearbody now.
  unfold recordable in Hrec. destruct (sqlite_store (server w)) as [db|] eqn:Hdb.
  - rewrite bool_decide_eq_true_2 by (exists db; exact Hdb).
    unfold update_persisted_peer. cbn [endpoint_addr endpoint_node_name].
    destruct (load_peer db a) as [loaded|e|] eqn:Hload; [|done..].
    erewrite bind_returns by (eapply (store_do_run _ w1 db); [exact Hdb|unfold query; cbn [endpoint_addr]; rewrite Hload; reflexivity]).
    set (p0 := default _ loaded). cbn zeta. erewrite bind_returns by done. erewrite bind_returns by done.
    set (p := saw_hello _ _ _). assert (peer_addr p = a) as Ha.
    { unfold p. destruct (hello_node_name remote); cbn; unfold p0;
        (destruct loaded as [q|]; [by apply (load_peer_addr db)|done]). }
    clearbody p. eexists. split; [by eapply (store_do_run _ _ db)|]. split_and!; [done|done|].
    cbn. rewrite Ha, lookup_insert_eq. by eexists.
  - rewrite bool_decide_eq_false_2 by (intros [db Hdb']; change (sqlite_store (server w) = Some db) in Hdb'; congruence).
    unfold ensure_runtime_peer, modify. cbn [endpoint_addr].
    destruct (peers (server w) !! a) as [q|] eqn:Hq;
      (erewrite bind_returns by (cbn; rewrite Hq; reflexivity)); eexists; (split; [reflexivity|]);
      (split_and!; [done|done|]); cbn; rewrite lookup_alter_eq; [rewrite Hq|rewrite lookup_insert_eq];
      by eexists.
Qed.

(** What the event loop answers to the first two messages of a one-shot client. *)
Lemma hello_answered ccfg w :
  let remote := client_hello ccfg in
  recordable (server w) "unknown" →
  ∃ w', state (server w') = state (server w) ∧ is_Some (peers (server w') !! "unknown")
    ∧ ∀ o, request_peer_message fuel o (WHello remote) w
      = (w', if bool_decide (config_network ccfg = config_network (config (server w)))
             then Ok (Ok [WHello (local_hello (config (server w)) (state (server w)))])
             else Ok (Err (server_error_text (ServerPeer
               (NetworkMismatch (config_network (config (server w))) (config_network ccfg)))))).
Proof using.
  intros remote Hrec. destruct (hello_recorded remote w Hrec) as (w' & Hrun & Hs & Hc & Hp).
  exists w'. split_and!; [done|done|]. intros o. unfold request_peer_message. cbn [handle_event handle_peer_message].
  unfold attempt, handle_peer_hello.
  erewrite bind_returns by (unfold map_error, attempt; by rewrite Hrun). erewrite bind_returns by done.
  unfold id. rewrite Hs, Hc. cbn [network remote client_hello hello_version].
  repeat case_bool_decide; done.
Qed.

Lemma query_answered o w m r :
  match m with
  | WGetTip => r = WTip (tip_summary (state (server w)))
  | WGetBlock h => r = WBlock (get_block (state (server w)) h)
  | _ => False
  end → request_peer_message fuel o m w = (w, Ok (Ok [r])).
Proof using. destruct m; try done; by intros ->. Qed.

(** The connection of a one-shot client: what it is sent back for its hello and its query. *)
Lemma one_shot_stream id ccfg w m r :
  recordable (server w) "unknown" →
  match m with
  | WGetTip => r = WTip (tip_summary (state (server w)))
  | WGetBlock h => r = WBlock (get_block (state (server w)) h)
  | _ => False
  end →
  ∃ s w', serve_connection json_error_text fuel id (Ok ∘ wire_line <$> [WHello (client_hello ccfg); m]) w
          = (s, w', bool_decide (config_network ccfg = config_network (config (server w))))
    ∧ state (server w') = state (server w) ∧ is_Some (peers (server w') !! "unknown")
    ∧ sent s = if bool_decide (config_network ccfg = config_network (config (server w)))
               then [WHello (local_hello (config (server w)) (state (server w))); r] else [].
Proof using LJ.
  intros Hrec Hm. unfold serve_connection. set (w0 := (handle_event fuel (PeerConnected id) w).1).
  destruct (hello_answered ccfg w0 Hrec) as (w' & Hs & Hp & Hans).
  cbn [fmap list_fmap compose inbound_lines].
  destruct (inbound_step accepted w0 (WHello (client_hello ccfg)) w' _ ltac:(done) ltac:(done) (Hans _))
    as (s1 & Hline & Hr1 & Hsent1).
  rewrite Hline. change (config (server w0)) with (config (server w)) in *.
  change (state (server w0)) with (state (server w)) in *. case_bool_decide.
  - assert (request_peer_message fuel (message_origin s1 m) m w' = (w', Ok (Ok [r]))) as Hq.
    { apply query_answered. by rewrite Hs. }
    destruct (inbound_step s1 w' m w' _ Hr1 ltac:(by destruct m) Hq) as (s2 & Hline2 & _ & Hsent2).
    rewrite Hline2. exists s2, w'. split_and!; [done..|]. by rewrite Hsent2, Hsent1.
  - exists (session_end true s1). eexists. split; [done|]. split_and!; [exact Hs|exact Hp|].
    unfold session_end, fail_pending_request, fail_pending_request_with_error. by rewrite (proj1 Hr1).
Qed.

(** The client's side of such a connection. *)
Lemma one_shot_client ccfg addr h rs m :
  one_shot json_error_text
    (λ _, Ok {| incoming := Ok ∘ wire_line <$> WHello h :: rs; written := []; write_outcomes := [] |})
    (λ _, Ok ()) addr ccfg m
  = Ok {| incoming := Ok ∘ wire_line <$> rs;
          written := wire_line (WHello (client_hello ccfg)) ++ wire_line m; write_outcomes := [] |}.
Proof using LJ.
  unfold one_shot, connect_and_handshake. cbn [map_err mbind result_bind].
  rewrite client_sends. cbn [fmap list_fmap compose]. rewrite client_reads. cbn [map_err mbind result_bind fst].
  by rewrite client_sends.
Qed.

(** C37: The peer protocol from socket to socket: a one-shot client of client.rs, talking JSON lines to an accepted
    connection in front of the event loop, gets the node's tip and the blocks it asks for, exactly as
    they are in the node's state, which the exchange leaves alone; a client of another network finds the connection closed
    before any reply.  Either way the node now has a peer at the address "unknown", since the client's hello
    carries none. *)
Theorem one_shot_served (id : string) (ccfg : NodeConfig) (addr : string) (w : World) (hash : BlockHash) :
  let ask m := served_stream json_error_text fuel id w [WHello (client_hello ccfg); m] in
  recordable (server w) "unknown" →
  (if bool_decide (config_network ccfg = config_network (config (server w))) then
     request_tip json_error_text (λ _, Ok (ask WGetTip)) (λ _, Ok ()) addr ccfg
       = Ok (tip_summary (state (server w)))
     ∧ request_block json_error_text (λ _, Ok (ask (WGetBlock hash))) (λ _, Ok ()) addr ccfg hash
       = Ok (get_block (state (server w)) hash)
   else
     request_tip json_error_text (λ _, Ok (ask WGetTip)) (λ _, Ok ()) addr ccfg
       = Err (Handshake (ReceiveHello (io_error UnexpectedEof "peer closed connection"))))
  ∧ ∃ s w' go, serve_connection json_error_text fuel id
      (Ok ∘ wire_line <$> [WHello (client_hello ccfg); WGetTip]) w = (s, w', go)
    ∧ state (server w') = state (server w) ∧ is_Some (peers (server w') !! "unknown").
Proof using LJ.
  intros ask Hrec.
  destruct (one_shot_stream id ccfg w WGetTip _ Hrec eq_refl) as (s1 & w1 & Hrun1 & Hs1 & Hp1 & Hsent1).
  destruct (one_shot_stream id ccfg w (WGetBlock hash) _ Hrec eq_refl) as (s2 & w2 & Hrun2 & _ & _ & Hsent2).
  split; [|eauto 6]. unfold ask, served_stream. rewrite Hrun1, Hrun2, Hsent1, Hsent2. case_bool_decide.
  - unfold request_tip, request_block.
    rewrite !one_shot_client. cbn [mbind result_bind fmap list_fmap compose]. by rewrite !client_reads.
  - unfold request_tip, one_shot, connect_and_handshake.
    cbn [map_err mbind result_bind fmap list_fmap]. by rewrite client_sends.
Qed.

End exchange.
