(* ===== verification/CliText.v ===== *)
(** * main.rs: the texts of the command line

    Numbers, keys and hashes as the user writes them, and the lines printed for
    them.  [{:?}] renderings of errors are parameters where they are used. *)

From S2P Require Import Prelude Bytes Crypto Types Wire Admin Client Peers TxIndex Aliases Runtime.

(** ** Numbers *)

Definition decimal_value (c : Ascii.ascii) : option Z :=
  let n := Z.of_N (Ascii.N_of_ascii c) in
  if bool_decide (48 ≤ n ≤ 57) then Some (n - 48) else None.

Fixpoint digits_value (radix : Z) (digit : Ascii.ascii → option Z) (acc : Z) (s : string) : option Z :=
  match s with
  | EmptyString => Some acc
  | String c s => v ← digit c; digits_value radix digit (acc * radix + v) s
  end.

(** [uN::from_str_radix]: a plus sign is allowed, at least one digit is not
    optional, and the value must fit. *)
Definition uint_from_str_radix (w radix : Z) (digit : Ascii.ascii → option Z) (s : string) : option Z :=
  let digits := match s with
                | String c (String _ _ as rest) =>
                    if bool_decide (c = Ascii.ascii_of_nat 43) then rest else s
                | _ => s
                end in
  match digits with
  | EmptyString => None
  | _ => z ← digits_value radix digit 0 digits; try_from w z
  end.

Definition parse_bits (value : string) : option Z :=
  match (match strip_prefix "0x" value with
         | Some hex => Some hex
         | None => strip_prefix "0X" value
         end) with
  | Some hex => uint_from_str_radix 32 16 hex_value hex
  | None => uint_from_str_radix 32 10 decimal_value value
  end.

(** The hexadecimal digits of [z], [n] of them at least. *)
Fixpoint hex_digits (n : nat) (z : Z) (acc : string) : string :=
  match n with
  | O => acc
  | S n => hex_digits n (z / 16) (String (hex_digit (z mod 16)) acc)
  end.

(** ["{:#010x}"] of a [u32]. *)
Definition format_bits (bits : Z) : string := "0x" +:+ hex_digits 8 bits EmptyString.

(** ["{:+}"] of an [i128]. *)
Definition signed_decimal (z : Z) : string :=
  if bool_decide (z < 0) then "-" +:+ decimal (- z) else "+" +:+ decimal z.

(** ** Hashes and keys *)

Definition encode_hex (bs : bytes) : string := to_hex bs.

(** The loop of [parse_hex_vec] over an even number of characters is that of the
    alias file. *)
Definition parse_hex_vec (value : string) : option bytes :=
  if bool_decide (String.length value mod 2 ≠ 0)%nat then None else parse_chunks value.

Definition parse_hex_array (n : nat) (value : string) : option bytes :=
  bs ← parse_hex_vec value;
  if bool_decide (length bs = n) then Some bs else None.

Definition parse_txid (value : string) : option Txid := Txid_new <$> parse_hex_array 32 value.

Definition format_hash (h : option BlockHash) : string :=
  match h with Some h => BlockHash_to_string h | None => "<none>" end.

Definition format_height (h : option Z) : string :=
  match h with Some h => decimal h | None => "<none>" end.

(** [str::split_once(':')]. *)
Fixpoint split_once (sep : Ascii.ascii) (s : string) : option (string * string) :=
  match s with
  | EmptyString => None
  | String c rest =>
      if bool_decide (c = sep) then Some (EmptyString, rest)
      else '(a, b) ← split_once sep rest; Some (String c a, b)
  end.

Section keys.
Context `{C : Crypto}.

Definition parse_public_key (value : string) : option VerifyingKey :=
  bs ← parse_hex_vec value; parse_verifying_key bs.

End keys.

(** ** Wallet history *)

(** What the edges of a transaction move out of and into the keys of a wallet. *)
Definition add_edge (keys : list bytes) (flow : Z * Z) (e : TransactionKeyEdge) : Z * Z :=
  if negb (existsb (λ k, bool_decide (k = key_data e)) keys) then flow
  else
    match key_role e with
    | Input => (saturating_add 64 flow.1 (default 0 (edge_value e)), flow.2)
    | Output => (flow.1, saturating_add 64 flow.2 (default 0 (edge_value e)))
    end.

Definition wallet_flow (keys : list bytes) (edges : list TransactionKeyEdge) : Z * Z :=
  foldl (add_edge keys) (0, 0) edges.

Definition format_wallet_transaction_line (tx : IndexedTransaction) (keys : list bytes)
    (edges : list TransactionKeyEdge) : string :=
  let '(sent, received) := wallet_flow keys edges in
  let net := received - sent in
  let position :=
    match status tx with
    | Confirmed => "confirmed height=" +:+ decimal (default 0 (indexed_block_height tx))
                   +:+ " pos=" +:+ decimal (default 0 (position_in_block tx))
    | Mempool => "mempool"
    end in
  position +:+ " txid=" +:+ Txid_to_string (indexed_txid tx) +:+ " sent=" +:+ decimal sent
  +:+ " received=" +:+ decimal received +:+ " net=" +:+ signed_decimal net.

(** ** Admin errors *)

Section admin_errors.
(** [{response:?}]. *)
Context (response_debug : AdminResponse → string).

Definition not_running (e : io_Error) : bool :=
  match error_kind e with ConnectionRefused | NotFound => true | _ => false end.

Definition format_admin_error (action admin_addr : string) (err : AdminError (io_error:=io_Error))
    : string :=
  match err with
  | Admin.Connect source =>
      if not_running source then
        action +:+ " failed: local admin server is not running at " +:+ admin_addr
        +:+ "; start `wobble serve` first (" +:+ error_text source +:+ ")"
      else
        action +:+ " failed: could not reach local admin server at " +:+ admin_addr
        +:+ " (" +:+ error_text source +:+ ")"
  | Admin.Send source =>
      action +:+ " failed: could not send admin request to " +:+ admin_addr
      +:+ " (" +:+ error_text source +:+ ")"
  | Admin.Receive source =>
      action +:+ " failed: did not receive a valid admin response from " +:+ admin_addr
      +:+ " (" +:+ error_text source +:+ ")"
  | Admin.Server message => action +:+ " failed: server rejected request: " +:+ message
  | Admin.UnexpectedResponse response =>
      action +:+ " failed: unexpected admin response: " +:+ response_debug response
  end.

End admin_errors.

(** ** Round trips *)

Lemma strip_prefix_other p q s :
  String.length p = String.length q → p ≠ q → strip_prefix p (q +:+ s) = None.
Proof.
  intros Hl Hne. unfold strip_prefix.
  assert (String.prefix p (q +:+ s) = false) as ->; [|done].
  revert q Hl Hne. induction p as [|c p IH]; intros [|c' q] Hl Hne; try done.
  change (String c' q +:+ s) with (String c' (q +:+ s)). cbn.
  destruct (Ascii.ascii_dec c c') as [->|]; [|done]. apply IH; [by injection Hl|congruence].
Qed.

Lemma hex_digits_value n z acc tail :
  0 ≤ z → digits_value 16 hex_value acc (hex_digits n z tail)
          = digits_value 16 hex_value (acc * 16 ^ Z.of_nat n + z mod 16 ^ Z.of_nat n) tail.
Proof.
  revert z tail. induction n as [|n IH]; intros z tail Hz.
  - cbn [hex_digits]. change (16 ^ Z.of_nat 0) with 1. rewrite Z.mod_1_r. f_equal. lia.
  - cbn [hex_digits]. rewrite IH by (apply Z.div_pos; lia). cbn [digits_value].
    rewrite hex_value_digit by (apply Z.mod_pos_bound; lia). cbn. f_equal.
    rewrite Nat2Z.inj_succ, Z.pow_succ_r by lia.
    rewrite (Z.rem_mul_r z 16 (16 ^ Z.of_nat n)) by lia. lia.
Qed.

(** The printed form of a target is read back. *)
Lemma parse_format_bits b : u32 b → parse_bits (format_bits b) = Some b.
Proof.
  intros Hb. unfold parse_bits, format_bits. rewrite strip_prefix_app.
  unfold uint_from_str_radix. set (s := hex_digits 8 b EmptyString).
  assert (digits_value 16 hex_value 0 s = Some b) as Hs.
  { unfold s. rewrite hex_digits_value by apply Hb. cbn [digits_value].
    rewrite Z.mod_small; [done|]. exact Hb. }
  assert (∃ c1 c2 rest, s = String c1 (String c2 rest) ∧ c1 ≠ Ascii.ascii_of_nat 43)
    as (c1 & c2 & rest & Heq & Hc).
  { unfold s. cbn [hex_digits]. eexists _, _, _. split; [done|].
    apply hex_digit_not_plus. apply Z.mod_pos_bound. lia. }
  rewrite Heq in *. rewrite bool_decide_eq_false_2 by done. rewrite Hs. cbn.
  apply try_from_Some. split; [apply Hb|done].
Qed.

Lemma parse_hex_encode bs : parse_hex_vec (encode_hex bs) = Some bs.
Proof.
  unfold parse_hex_vec, encode_hex. rewrite bool_decide_eq_false_2; [apply parse_chunks_to_hex|].
  rewrite to_hex_length, Nat.mul_comm, Nat.Div0.mod_mul. by intros [].
Qed.

Lemma parse_txid_display t : length (Txid_as_bytes t) = 32%nat → parse_txid (Txid_to_string t) = Some t.
Proof.
  intros Hl. unfold parse_txid, parse_hex_array, Txid_to_string. fold (encode_hex (Txid_as_bytes t)).
  rewrite parse_hex_encode. cbn. rewrite bool_decide_eq_true_2 by done. by destruct t.
Qed.

Lemma parse_public_key_display `{C : Crypto} `{!CryptoLaws C} vk :
  parse_public_key (encode_hex (verifying_key_bytes vk)) = Some vk.
Proof. unfold parse_public_key. rewrite parse_hex_encode. cbn. apply parse_verifying_key_bytes. Qed.

(** ** The flow of a transaction *)

Definition edge_amount (keys : list bytes) (role : TransactionKeyRole) (e : TransactionKeyEdge) : Z :=
  if bool_decide (key_data e ∈ keys) && bool_decide (key_role e = role)
  then default 0 (edge_value e) else 0.

Lemma existsb_key (keys : list bytes) k :
  existsb (λ x, bool_decide (x = k)) keys = bool_decide (k ∈ keys).
Proof.
  induction keys as [|x keys IH]; cbn; [done|]. rewrite IH. destruct (decide (x = k)) as [->|Hne].
  - rewrite (bool_decide_eq_true_2 (k = k)) by done. symmetry. apply bool_decide_eq_true_2. by left.
  - rewrite (bool_decide_eq_false_2 (x = k)) by done. cbn. apply bool_decide_ext.
    rewrite elem_of_cons. naive_solver.
Qed.

Lemma saturating_add_0 a : a < 2 ^ 64 → saturating_add 64 a 0 = a.
Proof. unfold saturating_add, max_uint. lia. Qed.

Lemma add_edge_amount keys a b e :
  a < 2 ^ 64 → b < 2 ^ 64 →
  add_edge keys (a, b) e
  = (saturating_add 64 a (edge_amount keys Input e), saturating_add 64 b (edge_amount keys Output e)).
Proof.
  intros Ha Hb. unfold add_edge, edge_amount. rewrite existsb_key.
  case_bool_decide; cbn [negb andb fst snd]; [|by rewrite !saturating_add_0].
  by destruct (key_role e); cbn; rewrite saturating_add_0.
Qed.

Lemma wallet_flow_sums keys edges :
  Forall (λ e, 0 ≤ default 0 (edge_value e)) edges →
  Zsum (edge_amount keys Input <$> edges) < 2 ^ 64 →
  Zsum (edge_amount keys Output <$> edges) < 2 ^ 64 →
  wallet_flow keys edges
  = (Zsum (edge_amount keys Input <$> edges), Zsum (edge_amount keys Output <$> edges)).
Proof.
  intros Hnn. assert (∀ role, Forall (λ z, 0 ≤ z) (edge_amount keys role <$> edges)) as Hpos.
  { intros role. apply Forall_fmap. eapply Forall_impl; [exact Hnn|]. intros e He.
    unfold compose, edge_amount. destruct (_ && _); [exact He|done]. }
  unfold wallet_flow.
  assert (∀ a b, 0 ≤ a → 0 ≤ b →
    a + Zsum (edge_amount keys Input <$> edges) < 2 ^ 64 →
    b + Zsum (edge_amount keys Output <$> edges) < 2 ^ 64 →
    foldl (add_edge keys) (a, b) edges
    = (a + Zsum (edge_amount keys Input <$> edges), b + Zsum (edge_amount keys Output <$> edges))) as H;
    [|intros; rewrite H; [f_equal; lia|lia..]].
  induction edges as [|e edges IH]; intros a b Ha Hb; cbn [foldl fmap list_fmap].
  { cbn. intros. f_equal; lia. }
  rewrite !Zsum_cons. apply Forall_cons in Hnn as [He Hnn].
  assert (∀ role, Forall (λ z, 0 ≤ z) (edge_amount keys role <$> edges)) as Hpos'.
  { intros role. specialize (Hpos role). by apply Forall_cons in Hpos as [_ ?]. }
  pose proof (Zsum_nonneg _ (Hpos' Input)). pose proof (Zsum_nonneg _ (Hpos' Output)).
  assert (0 ≤ edge_amount keys Input e ∧ 0 ≤ edge_amount keys Output e) as [? ?].
  { unfold edge_amount. split; destruct (_ && _); done || exact He. }
  intros Hin Hout. rewrite add_edge_amount by lia. unfold saturating_add, max_uint.
  rewrite !Z.min_l by lia. rewrite IH; [f_equal; lia|done|done|lia..].
Qed.
