(* ===== verification/Cli.v ===== *)
(** * main.rs: the commands

    A command runs on a [Cli]: the disk, the lines printed so far and the peer
    connections it wrote to.  What surrounds the program is the class
    [Surroundings]: the two environment variables, the nanoseconds of the clock, one
    fresh key, the admin socket of admin.rs and the peer socket of net.rs.
    Errors are values of [CliError]; [message] is the text the program prints for
    one ([{:?}] renderings are a parameter).  [Err None] is a nonce search that is
    still running when [fuel] is used up.  Arguments are parsed by clap, whose records are the
    records below; the process around a command is in [Process]. *)

From S2P Require Import Prelude Bytes Crypto Types State Consensus Chain Mempool Wire.
From S2P Require Import Admin Mining NodeState Home Peers Client Files Wallet Aliases TxIndex Store.
From S2P Require Import HomeDir Runtime Server Shell CliText.

(** ** Arguments *)

Record BootstrapCommand := { bc_blocks : Z; bc_home : option string }.

Record ServeCommand := {
  sc_home : option string;
  log_stderr : bool;
  sc_listen_addr : option string;
  sc_network : option string;
  sc_node_name : option string;
  sc_peers_path : option string;
  sc_mining : bool;
  no_mining : bool;
  miner_wallet : option string;
  mining_interval_ms : option Z;
  mining_max_transactions : option Z;
  mining_bits : option string
}.

Record PayCommand := {
  from_key : option string;
  pay_to : string;
  pay_amount : Z;
  pay_uniqueness : option Z;
  pay_home : option string
}.

Record NewKeyCommand := { nk_name : string; nk_home : option string }.

Inductive WalletCommand :=
| WalletInfo (home : option string)
| WalletBalance (home : option string)
| NewKey (c : NewKeyCommand).

Record InfoCommand := { ic_sqlite_path : option string; ic_home : option string }.
Record BalanceCommand := {
  ba_public_key : string; ba_sqlite_path : option string; ba_home : option string
}.
Record UtxosCommand := { uc_sqlite_path : option string; uc_home : option string }.
Record PeersCommand := { pc_peers_path : option string; pc_home : option string }.
Record GetTipCommand := {
  gt_peer_addr : string; gt_network : string; gt_node_name : option string
}.

Inductive InspectCommand :=
| InspectChain (c : InfoCommand)
| InspectBalance (c : BalanceCommand)
| InspectUtxos (c : UtxosCommand)
| InspectPeers (c : PeersCommand)
| InspectTip (c : GetTipCommand).

Record AliasAddCommand := {
  aa_alias_book : string; aa_name : string; aa_public_key : string
}.

Inductive AdminCommand :=
| GenerateKey
| CreateWallet (path : string)
| CreateAliasBook (path : string)
| AliasAdd (c : AliasAddCommand)
| AliasList (path : string).

Record MineCoinbaseCommand := {
  mc_state_path : option string; mc_wallet_path : option string; mc_home : option string;
  mc_reward : Z; mc_uniqueness : Z; mc_bits : string
}.
Record MinePendingCommand := {
  mp_state_path : option string; mp_wallet_path : option string; mp_home : option string;
  mp_reward : Z; mp_uniqueness : Z; mp_max_transactions : Z; mp_bits : string
}.
Record LocalSubmitPaymentCommand := {
  lp_state_path : option string; lp_wallet_path : option string; lp_home : option string;
  lp_recipient : string; lp_amount : Z; lp_uniqueness : option Z
}.
Record SubmitPaymentRemoteCommand := {
  rp_sqlite_path : option string; rp_sender_wallet : option string; rp_home : option string;
  rp_recipient : string; rp_amount : Z; rp_peer_addr : string; rp_network : string;
  rp_uniqueness : option Z; rp_node_name : option string
}.
Record MinePendingRemoteCommand := {
  mr_reward : Z; mr_miner_wallet : option string; mr_home : option string; mr_uniqueness : Z;
  mr_max_transactions : Z; mr_peer_addr : string; mr_network : string; mr_bits : string;
  mr_node_name : option string
}.
Record SubmitTransferCommand := {
  st_state_path : option string; st_home : option string; st_txid : string; st_vout : Z;
  st_amount : Z; st_sender_wallet : option string; st_recipient_public_key : string
}.

Inductive DebugCommand :=
| MineCoinbase (c : MineCoinbaseCommand)
| MinePending (c : MinePendingCommand)
| SubmitPayment (c : LocalSubmitPaymentCommand)
| SubmitPaymentRemote (c : SubmitPaymentRemoteCommand)
| MinePendingRemote (c : MinePendingRemoteCommand)
| SubmitTransfer (c : SubmitTransferCommand).

Inductive Command :=
| Init (home : option string)
| BootstrapFunds (c : BootstrapCommand)
| Serve (c : ServeCommand)
| BalanceAlias (home : option string)
| WalletCmd (c : WalletCommand)
| Transactions (home : option string)
| StatusCmd (home : option string)
| Pay (c : PayCommand)
| Inspect (c : InspectCommand)
| AdminCmd (c : AdminCommand)
| DebugCmd (c : DebugCommand).

(** Effective mining settings. *)
Record MiningRuntime := {
  rt_wallet_path : string; rt_interval_ms : Z; rt_max_transactions : Z; rt_bits : Z
}.

(** [cli_sent] has the peer connections after each message sent on one. *)
Record Cli := { cli_disk : Disk; cli_out : list string; cli_sent : list TcpStream }.

(** ** The surroundings *)

Class Surroundings `{C : Crypto} `{JQ : SerdeJson AdminRequest} `{JR : SerdeJson AdminResponse}
    `{JW : SerdeJson WireMessage} := {
  env_home : option string;
  env_userprofile : option string;
  nanos : Z;
  fresh : SigningKey;
  stream : Type;
  admin_connect : string → result io_Error stream;
  admin_write : stream → list Ascii.ascii → result io_Error stream;
  admin_read : stream → result io_Error (list Ascii.ascii);
  bad_request : json_error AdminRequest → io_Error;
  bad_response : json_error AdminResponse → io_Error;
  admin_eof : io_Error;
  json_error_text : json_error WireMessage → string;
  tcp_connect : string → result io_Error TcpStream;
  tcp_configure : TcpStream → result io_Error unit;
  (** [{:?}] of a response. *)
  response_debug : AdminResponse → string
}.

Section cli.
Context `{C : Crypto} `{B : Bincode} `{F : !FileFormats}.
Context `{JQ : SerdeJson AdminRequest} `{JR : SerdeJson AdminResponse} `{JW : SerdeJson WireMessage}.
Context `{W : !Surroundings}.
Context (fuel : nat).

#[local] Notation WalletError := (WalletError (EncodeError:=EncodeError) (DecodeError:=DecodeError)).
#[local] Notation AliasError := (AliasError (JsonError:=JsonError)).
#[local] Notation PeerConfigError := (PeerConfigError (JsonError:=JsonError)).

(** ** Errors *)

Inductive Cause :=
| CauseHome (e : NodeHomeError)
| CauseWallet (e : WalletError)
| CauseSqlite (e : SqliteStoreError)
| CauseAlias (e : AliasError)
| CausePeers (e : PeerConfigError)
| CauseNode (e : NodeStateError)
| CauseClient (e : ClientError)
| CauseIo (e : io_Error)
| CauseMessage (m : WireMessage)
(** The error of [wallet_transaction_lines] is text already: it is rendered twice. *)
| CauseQuoted (e : SqliteStoreError).

Inductive CliError :=
| Failed (what : string) (cause : Cause)
| Invalid (name value : string)
| AdminFailed (action addr : string) (e : AdminError (io_error:=io_Error))
| MissingBuilt (id : Txid).

(** The text of an error. *)
Definition message (debug : Cause → string) (e : CliError)
    : string :=
  match e with
  | Failed what cause => what +:+ ": " +:+ debug cause
  | Invalid name value => "invalid " +:+ name +:+ ": " +:+ value
  | AdminFailed action addr e => format_admin_error response_debug action addr e
  | MissingBuilt id =>
      "built transaction " +:+ Txid_to_string id +:+ " missing from local mempool"
  end.

(** ** The monad *)

Definition cli_op (A : Type) : Type := Cli → Cli * result (option CliError) A.

#[global] Instance cli_ret : MRet cli_op := λ A a c, (c, Ok a).
#[global] Instance cli_bind : MBind cli_op := λ A D f m c,
  match m c with
  | (c, Ok a) => f a c
  | (c, Err e) => (c, Err e)
  | (c, Panic) => (c, Panic)
  end.

Definition println (line : string) : cli_op unit := λ c,
  ({| cli_disk := cli_disk c; cli_out := cli_out c ++ [line]; cli_sent := cli_sent c |}, Ok ()).

Fixpoint print_all (lines : list string) : cli_op unit :=
  match lines with
  | [] => mret ()
  | l :: ls => _ ← println l; print_all ls
  end.

Definition fail {A} (e : CliError) : cli_op A := λ c, (c, Err (Some e)).
(** A computation without effects; its error is a value of the command. *)
Definition pure_or {E A} (what : string) (f : E → Cause) (r : result E A) : cli_op A := λ c,
  (c, map_err (λ e, Some (Failed what (f e))) r).
Definition cli_result {A} (r : result CliError A) : cli_op A := λ c, (c, map_err Some r).
Definition some_or {A} (e : CliError) (o : option A) : cli_op A := λ c, (c, ok_or o (Some e)).
Definition cli_expect {A} (o : may_panic A) : cli_op A := λ c, (c, expect o).

(** [op.map_err(|err| format!("{what}: {err:?}"))?]. *)
Definition on_disk {E A} (what : string) (f : E → Cause) (m : disk_op E A) : cli_op A := λ c,
  let '(d, r) := m (cli_disk c) in
  ({| cli_disk := d; cli_out := cli_out c; cli_sent := cli_sent c |}, map_err (λ e, Some (Failed what (f e))) r).

Definition on_admin {A} (action addr : string) (r : result (AdminError (io_error:=io_Error)) A)
    : cli_op A := λ c, (c, map_err (λ e, Some (AdminFailed action addr e)) r).

(** [default_uniqueness]. *)
Definition default_uniqueness : Z := nanos.

(** ** Paths *)

Definition resolve_node_home (path : option string) : cli_op NodeHome :=
  match path with
  | Some path => mret {| root := path |}
  | None => pure_or "home resolve failed" CauseHome (from_default_dir env_home env_userprofile)
  end.

Definition resolve_state_path (home path : option string) : cli_op string :=
  match path with
  | Some path => mret path
  | None => h ← resolve_node_home home; mret (state_path h)
  end.

Definition resolve_wallet_path (home path : option string) : cli_op string :=
  match path with
  | Some path => mret path
  | None => h ← resolve_node_home home; mret (wallet_path h)
  end.

Definition resolve_peers_path (home path : option string) : cli_op string :=
  match path with
  | Some path => mret path
  | None => h ← resolve_node_home home; mret (peers_path h)
  end.

Definition resolve_state_and_wallet_paths (home state wallet : option string)
    : cli_op (string * string) :=
  s ← resolve_state_path home state;
  w ← resolve_wallet_path home wallet;
  mret (s, w).

(** ** Loading and saving *)

Definition cli_load_config (h : NodeHome) : cli_op NodeConfig :=
  on_disk "config load failed" CauseHome (load_config h).
Definition cli_load_wallet (path : string) : cli_op Wallet :=
  on_disk "wallet load failed" CauseWallet (load_wallet path).
Definition cli_save_wallet (path : string) (w : Wallet) : cli_op unit :=
  on_disk "wallet save failed" CauseWallet (save_wallet path w).

Definition load_sqlite_state (path : string) : cli_op NodeState :=
  on_disk "sqlite load failed" CauseSqlite
    (_ ← SqliteStore_open path; query_store path load_node_state).

Definition load_sqlite_state_read_only (path : string) : cli_op NodeState :=
  on_disk "sqlite load failed" CauseSqlite
    (_ ← SqliteStore_open_read_only path; query_store path load_node_state).

Definition save_sqlite_state (path : string) (s : NodeState) : cli_op unit :=
  _ ← on_disk "sqlite open failed" CauseSqlite (SqliteStore_open path);
  on_disk "sqlite save failed" CauseSqlite (on_store path (save_node_state s)).

Definition cli_open_read_only (path : string) : cli_op unit :=
  on_disk "sqlite open failed" CauseSqlite (SqliteStore_open_read_only path).
Definition cli_query {A} (path : string) (q : SqliteStore → result SqliteStoreError A) : cli_op A :=
  on_disk "sqlite load failed" CauseSqlite (query_store path q).

Definition load_wallet_context (home : option string) : cli_op (NodeHome * NodeConfig * Wallet) :=
  h ← resolve_node_home home;
  c ← cli_load_config h;
  w ← cli_load_wallet (wallet_path h);
  mret (h, c, w).

(** [wallet.verifying_key()]. *)
Definition wallet_public (w : Wallet) : cli_op VerifyingKey := cli_expect (Wallet_verifying_key w).

Definition wallet_signing_keys (w : Wallet) : list SigningKey := key_signing_key <$> wallet_keys w.

Definition parse_public_key_or_fail (value : string) : cli_op VerifyingKey :=
  some_or (Invalid "public key" value) (parse_public_key value).

Definition parse_public_key_or_alias (value : string) : cli_op VerifyingKey :=
  match strip_prefix "@" value with
  | Some spec =>
      p ← some_or (Invalid "alias reference" value) (split_once (Ascii.ascii_of_nat 58) spec);
      let '(book_path, alias) := p in
      book ← on_disk "alias load failed" CauseAlias (load_alias_book book_path);
      pure_or "alias resolve failed" CauseAlias (resolve (JsonError:=JsonError) book alias)
  | None => parse_public_key_or_fail value
  end.

Definition parse_bits_or_fail (value : string) : cli_op Z :=
  some_or (Invalid "bits" value) (parse_bits value).

Definition public_line (vk : VerifyingKey) : string :=
  "public: " +:+ encode_hex (verifying_key_bytes vk).

(** ** init, bootstrap, status *)

Definition run_init (home : option string) : cli_op unit :=
  h ← resolve_node_home home;
  _ ← on_disk "home init failed" CauseHome (initialize h fresh);
  c ← cli_load_config h;
  w ← cli_load_wallet (wallet_path h);
  _ ← print_all (
    ["initialized node home at " +:+ root h;
     "state: " +:+ state_path h;
     "wallet: " +:+ wallet_path h;
     "aliases: " +:+ aliases_path h;
     "peers: " +:+ peers_path h;
     "config: " +:+ config_path h;
     "listen addr: " +:+ listen_addr c;
     "admin addr: " +:+ admin_addr c;
     "network: " +:+ config_network c]
    ++ (match config_node_name c with Some n => ["node name: " +:+ n] | None => [] end)
    ++ ["mining enabled: " +:+ (if enabled (config_mining c) then "true" else "false");
        "mining reward wallet: " +:+ default "wallet.bin" (reward_wallet (config_mining c))]);
  vk ← wallet_public w;
  println (public_line vk).

Definition run_bootstrap (cmd : BootstrapCommand) : cli_op unit :=
  h ← resolve_node_home (bc_home cmd);
  c ← cli_load_config h;
  w ← cli_load_wallet (wallet_path h);
  vk ← wallet_public w;
  summary ← on_admin "bootstrap" (admin_addr c)
    (bootstrap_funds admin_connect admin_write admin_read bad_request bad_response admin_eof
       (admin_addr c) (verifying_key_bytes vk) (bc_blocks cmd));
  print_all ["blocks mined: " +:+ decimal (blocks_mined summary);
             "last block: " +:+ format_hash (last_block_hash summary);
             "local admin: " +:+ admin_addr c].

Definition run_status (home : option string) : cli_op unit :=
  h ← resolve_node_home home;
  c ← cli_load_config h;
  s ← load_sqlite_state_read_only (state_path h);
  let t := tip_summary s in
  _ ← print_all [
    "listen addr: " +:+ listen_addr c;
    "admin addr: " +:+ admin_addr c;
    "state: " +:+ state_path h;
    "best tip: " +:+ format_hash (tip t);
    "height: " +:+ format_height (tip_height t);
    "branches: " +:+ decimal (Z.of_nat (branch_count (chain s)))];
  match request_status admin_connect admin_write admin_read bad_request bad_response admin_eof
          (admin_addr c) with
  | Ok st => print_all [
      "server: running";
      "live best tip: " +:+ format_hash (status_tip st);
      "live height: " +:+ format_height (status_height st);
      "live branches: " +:+ decimal (Z.of_nat (status_branch_count st));
      "mempool txs: " +:+ decimal (Z.of_nat (mempool_size st));
      "connected peers: " +:+ decimal (Z.of_nat (peer_count st));
      "integrated mining: " +:+ (if mining_enabled st then "true" else "false")]
  | Err (Admin.Connect _) => println "server: not running"
  | Err err =>
      println ("server: unavailable ("
               +:+ format_admin_error response_debug "status query" (admin_addr c) err +:+ ")")
  | Panic => cli_result Panic
  end.

(** ** The wallet commands *)

Definition run_wallet_info (home : option string) : cli_op unit :=
  ctx ← load_wallet_context home;
  let '(h, c, w) := ctx in
  _ ← print_all [
    "node home: " +:+ root h;
    "wallet: " +:+ wallet_path h;
    "state: " +:+ state_path h;
    "admin addr: " +:+ admin_addr c;
    "default key: " +:+ default_key w;
    "key count: " +:+ decimal (Z.of_nat (key_count w))];
  vk ← wallet_public w;
  _ ← println ("public key: " +:+ encode_hex (verifying_key_bytes vk));
  print_all ((λ k, "key " +:+ key_name k +:+ ": "
                   +:+ encode_hex (verifying_key_bytes (key_verifying_key k))) <$> wallet_keys w).

(** [.filter(owner).map(value).sum()]: the sum panics on overflow. *)
Definition owned_sum (U : UtxoSet) (owner : bytes) : may_panic Z :=
  sum_u64 ((λ p, value (output p.2)) <$>
    filter (λ p : OutPoint * Utxo, locking_data (output p.2) = owner) (map_to_list U)).

Fixpoint print_balances (U : UtxoSet) (ks : list WalletKey) (total : Z) : cli_op Z :=
  match ks with
  | [] => mret total
  | k :: ks =>
      balance ← cli_expect (owned_sum U (verifying_key_bytes (key_verifying_key k)));
      _ ← println (key_name k +:+ ": " +:+ decimal balance);
      print_balances U ks (saturating_add 64 total balance)
  end.

Definition run_balance (home : option string) : cli_op unit :=
  ctx ← load_wallet_context home;
  let '(h, _, w) := ctx in
  _ ← cli_open_read_only (state_path h);
  U ← cli_query (state_path h) load_active_utxos;
  _ ← print_all ["wallet: " +:+ wallet_path h; "state: " +:+ state_path h;
                 "default key: " +:+ default_key w];
  total ← print_balances U (wallet_keys w) 0;
  println ("total: " +:+ decimal total).

Definition run_wallet_new_key (cmd : NewKeyCommand) : cli_op unit :=
  h ← resolve_node_home (nk_home cmd);
  w ← cli_load_wallet (wallet_path h);
  let '(w, r) := generate_key w (nk_name cmd) fresh in
  vk ← pure_or "wallet new-key failed" CauseWallet r;
  _ ← cli_save_wallet (wallet_path h) w;
  print_all ["wallet: " +:+ wallet_path h; "added key: " +:+ nk_name cmd; public_line vk].

Definition run_wallet (cmd : WalletCommand) : cli_op unit :=
  match cmd with
  | WalletInfo home => run_wallet_info home
  | WalletBalance home => run_balance home
  | NewKey cmd => run_wallet_new_key cmd
  end.

(** The loop of [wallet_transaction_lines]. *)
Definition transaction_line (db : SqliteStore) (keys : list bytes) (lines : list string)
    (tx : IndexedTransaction) : result SqliteStoreError (list string) :=
  edges ← load_transaction_key_edges db (indexed_txid tx);
  Ok (lines ++ [format_wallet_transaction_line tx keys edges]).

Definition wallet_transaction_lines (db : SqliteStore) (w : Wallet)
    : result SqliteStoreError (list string) :=
  let keys := verifying_key_bytes <$> verifying_keys w in
  txs ← load_transactions_for_keys db keys;
  try_fold (transaction_line db keys) [] txs.

Definition run_transactions (home : option string) : cli_op unit :=
  ctx ← load_wallet_context home;
  let '(h, _, w) := ctx in
  _ ← cli_open_read_only (state_path h);
  lines ← on_disk "sqlite query failed" CauseQuoted
            (query_store (state_path h) (λ db, wallet_transaction_lines db w));
  _ ← print_all ["wallet: " +:+ wallet_path h; "state: " +:+ state_path h;
                 "default key: " +:+ default_key w;
                 "transactions: " +:+ decimal (Z.of_nat (length lines))];
  print_all lines.

(** ** pay *)

Definition payment_signing_key (w : Wallet) (name : option string) : cli_op SigningKey :=
  match name with
  | Some name =>
      k ← pure_or "wallet key lookup failed" CauseWallet (Wallet_key w name);
      mret (key_signing_key k)
  | None => cli_expect (Wallet_signing_key w)
  end.

Definition run_pay (cmd : PayCommand) : cli_op unit :=
  h ← resolve_node_home (pay_home cmd);
  c ← cli_load_config h;
  recipient ← parse_public_key_or_alias (pay_to cmd);
  w ← cli_load_wallet (wallet_path h);
  sender ← payment_signing_key w (from_key cmd);
  _ ← cli_open_read_only (state_path h);
  U ← cli_query (state_path h) load_active_utxos;
  change ← wallet_public w;
  tx ← pure_or "build failed" CauseNode
         (build_payment_transaction U [sender] change recipient (pay_amount cmd)
            (default default_uniqueness (pay_uniqueness cmd)));
  submitted ← cli_expect (Transaction_txid tx);
  _ ← on_admin "submit to local server" (admin_addr c)
        (Admin.submit_transaction admin_connect admin_write admin_read bad_request bad_response admin_eof
           (admin_addr c) tx);
  print_all ["submitted payment " +:+ Txid_to_string submitted; "local admin: " +:+ admin_addr c].

(** ** inspect *)

Definition utxo_line (o : OutPoint) (u : Utxo) : string :=
  Txid_to_string (txid o) +:+ ":" +:+ decimal (vout o) +:+ " value=" +:+ decimal (value (output u))
  +:+ " coinbase=" +:+ (if utxo_is_coinbase u then "true" else "false")
  +:+ " owner=" +:+ encode_hex (locking_data (output u)).

(** [sort_by_key(|outpoint| (outpoint.txid.to_string(), outpoint.vout))] is the order of
    [active_outpoints]. *)
Fixpoint print_utxos (U : UtxoSet) (os : list OutPoint) : cli_op unit :=
  match os with
  | [] => mret ()
  | o :: os =>
      u ← cli_expect (U !! o);
      _ ← println (utxo_line o u);
      print_utxos U os
  end.

Definition peer_line (e : PeerEndpoint) : string :=
  match endpoint_node_name e with
  | Some name => endpoint_addr e +:+ " (" +:+ name +:+ ")"
  | None => endpoint_addr e
  end.

(** The configuration of a one-shot client. *)
Definition client_config (network : string) (node_name : option string) : NodeConfig :=
  NodeConfig_new network node_name "0.0.0.0:0".

Definition cli_connect (peer_addr : string) (config : NodeConfig)
    : cli_op (TcpStream * HelloMessage) :=
  pure_or "handshake failed" CauseClient
    (connect_and_handshake json_error_text tcp_connect tcp_configure peer_addr config).

Definition send_on (what : string) (s : TcpStream) (m : WireMessage) : cli_op TcpStream := λ c,
  let '(s', r) := send_message json_error_text s m in
  ({| cli_disk := cli_disk c; cli_out := cli_out c; cli_sent := cli_sent c ++ [s'] |},
   match r with
   | Ok _ => Ok s'
   | Err e => Err (Some (Failed what (CauseIo e)))
   | Panic => Panic
   end).

Definition receive_on (what : string) (s : TcpStream) : cli_op WireMessage :=
  pure_or what CauseIo (receive_message json_error_text s).2.

Definition cli_load_peers (path : string) : cli_op (list PeerEndpoint) :=
  on_disk "peer config load failed" CausePeers (load_peer_endpoints path).

Definition inspect_tip (cmd : GetTipCommand) : cli_op unit :=
  p ← cli_connect (gt_peer_addr cmd) (client_config (gt_network cmd) (gt_node_name cmd));
  let '(s, remote_hello) := p in
  s ← send_on "send get_tip failed" s WGetTip;
  remote_tip ← receive_on "receive tip failed" s;
  _ ← print_all (
    ["peer network: " +:+ network remote_hello;
     "peer version: " +:+ decimal (hello_version remote_hello)]
    ++ match hello_node_name remote_hello with Some n => ["peer node name: " +:+ n] | None => [] end);
  match remote_tip with
  | WTip summary => print_all ["peer tip: " +:+ format_hash (tip summary);
                               "peer height: " +:+ format_height (tip_height summary)]
  | other => fail (Failed "unexpected second response" (CauseMessage other))
  end.

Definition run_inspect (cmd : InspectCommand) : cli_op unit :=
  match cmd with
  | InspectChain cmd =>
      path ← resolve_state_path (ic_home cmd) (ic_sqlite_path cmd);
      _ ← cli_open_read_only path;
      indexed_blocks ← cli_query path (λ db, Ok (count_chain_entries db));
      best ← cli_query path load_best_tip;
      U ← cli_query path load_active_utxos;
      mp ← cli_query path load_mempool;
      print_all ["sqlite: " +:+ path;
                 "indexed blocks: " +:+ decimal (Z.of_nat indexed_blocks);
                 "best tip: " +:+ format_hash best;
                 "active utxos: " +:+ decimal (Z.of_nat (size U));
                 "mempool txs: " +:+ decimal (Z.of_nat (size mp))]
  | InspectBalance cmd =>
      owner ← parse_public_key_or_fail (ba_public_key cmd);
      path ← resolve_state_path (ba_home cmd) (ba_sqlite_path cmd);
      _ ← cli_open_read_only path;
      U ← cli_query path load_active_utxos;
      balance ← cli_expect (owned_sum U (verifying_key_bytes owner));
      println (decimal balance)
  | InspectUtxos cmd =>
      path ← resolve_state_path (uc_home cmd) (uc_sqlite_path cmd);
      _ ← cli_open_read_only path;
      U ← cli_query path load_active_utxos;
      print_utxos U (sorted_outpoints U)
  | InspectPeers cmd =>
      path ← resolve_peers_path (pc_home cmd) (pc_peers_path cmd);
      ps ← cli_load_peers path;
      _ ← print_all ["peers file: " +:+ path;
                     "configured peers: " +:+ decimal (Z.of_nat (length ps))];
      print_all (peer_line <$> ps)
  | InspectTip cmd => inspect_tip cmd
  end.

(** ** admin *)

Definition alias_line (p : string * VerifyingKey) : string :=
  p.1 +:+ " " +:+ encode_hex (verifying_key_bytes p.2).

Definition cli_save_alias_book (path : string) (book : AliasBook) : cli_op unit :=
  on_disk "alias save failed" CauseAlias (save_alias_book path book).

Definition cli_load_alias_book (path : string) : cli_op AliasBook :=
  on_disk "alias load failed" CauseAlias (load_alias_book path).

Definition run_admin (cmd : AdminCommand) : cli_op unit :=
  match cmd with
  | GenerateKey =>
      print_all ["secret: " +:+ encode_hex (SigningKey_to_bytes fresh);
                 public_line (SigningKey_verifying_key fresh)]
  | CreateWallet path =>
      let w := Wallet_generate fresh in
      _ ← cli_save_wallet path w;
      _ ← println ("created wallet at " +:+ path);
      vk ← wallet_public w;
      println (public_line vk)
  | CreateAliasBook path =>
      _ ← cli_save_alias_book path AliasBook_new;
      println ("created alias book at " +:+ path)
  | AliasAdd cmd =>
      public_key ← parse_public_key_or_fail (aa_public_key cmd);
      present ← on_disk EmptyString CauseIo (path_exists (aa_alias_book cmd));
      book ← (if (present : bool) then cli_load_alias_book (aa_alias_book cmd)
              else mret AliasBook_new);
      _ ← cli_save_alias_book (aa_alias_book cmd) (AliasBook_insert book (aa_name cmd) public_key);
      println ("saved alias " +:+ aa_name cmd +:+ " in " +:+ aa_alias_book cmd)
  | AliasList path =>
      book ← cli_load_alias_book path;
      print_all (alias_line <$> AliasBook_entries book)
  end.

(** ** debug *)

(** An operation of the node whose nonce search may still be running. *)
Definition mined_or {A} (what : string) (r : result (option NodeStateError) A) : cli_op A := λ c,
  (c, map_err (option_map (λ e, Failed what (CauseNode e))) r).

(** The common part of the two local mining commands. *)
Definition debug_mine (home state wallet : option string) (reward uniq : Z) (bits : string) (max : Z)
    : cli_op (NodeState * BlockHash) :=
  paths ← resolve_state_and_wallet_paths home state wallet;
  let '(state_path, wallet_path) := paths in
  w ← cli_load_wallet wallet_path;
  s ← load_sqlite_state state_path;
  vk ← wallet_public w;
  bits ← parse_bits_or_fail bits;
  let '(s, r) := NodeState_mine_block fuel s reward vk uniq bits max in
  block_hash ← mined_or "block rejected" r;
  _ ← save_sqlite_state state_path s;
  mret (s, block_hash).

(** The common part of the two payment commands: the state with the payment in its mempool. *)
Definition local_payment (what : string) (s : NodeState) (w : Wallet) (recipient : VerifyingKey)
    (amount : Z) (uniq : option Z) : cli_op (NodeState * Txid) :=
  change ← wallet_public w;
  let '(s, r) := submit_payment s (wallet_signing_keys w) change recipient amount
                   (default default_uniqueness uniq) in
  id ← pure_or what CauseNode r;
  mret (s, id).

(** The transaction of [submit-transfer], and its signature. *)
Definition unsigned_transfer (id : Txid) (vout amount : Z) (recipient : VerifyingKey)
    (signature : bytes) : Transaction := {|
  version := 1;
  inputs := [{| previous_output := {| txid := id; vout := vout |}; unlocking_data := signature |}];
  outputs := [{| value := amount; locking_data := verifying_key_bytes recipient |}];
  lock_time := 0
|}.

Definition debug_mined_lines (s : NodeState) (h : BlockHash) : list string :=
  ["mined block " +:+ BlockHash_to_string h;
   "new best tip: " +:+ format_hash (best_tip (chain s));
   "active utxos: " +:+ decimal (Z.of_nat (size (active_utxos s)))].

Definition mempool_line (s : NodeState) : string :=
  "mempool txs: " +:+ decimal (Z.of_nat (size (mempool s))).

Definition submit_payment_remote (cmd : SubmitPaymentRemoteCommand) : cli_op unit :=
  paths ← resolve_state_and_wallet_paths (rp_home cmd) (rp_sqlite_path cmd) (rp_sender_wallet cmd);
  let '(sqlite_path, wallet_path) := paths in
  recipient ← parse_public_key_or_alias (rp_recipient cmd);
  let config := client_config (rp_network cmd) (rp_node_name cmd) in
  w ← cli_load_wallet wallet_path;
  s ← load_sqlite_state sqlite_path;
  built ← local_payment "build failed" s w recipient (rp_amount cmd) (rp_uniqueness cmd);
  let '(s, id) := built in
  tx ← some_or (MissingBuilt id) (mempool s !! id);
  p ← cli_connect (rp_peer_addr cmd) config;
  _ ← send_on "send transaction failed" p.1 (WAnnounceTx tx);
  println ("submitted payment " +:+ Txid_to_string id +:+ " to " +:+ rp_peer_addr cmd).

Definition mine_pending_remote (cmd : MinePendingRemoteCommand) : cli_op unit :=
  path ← resolve_wallet_path (mr_home cmd) (mr_miner_wallet cmd);
  let config := client_config (mr_network cmd) (mr_node_name cmd) in
  w ← cli_load_wallet path;
  p ← cli_connect (mr_peer_addr cmd) config;
  vk ← wallet_public w;
  bits ← parse_bits_or_fail (mr_bits cmd);
  s ← send_on "send mine_pending failed" p.1 (WMinePending {|
        reward := mr_reward cmd;
        miner_public_key := verifying_key_bytes vk;
        uniqueness := mr_uniqueness cmd;
        request_bits := bits;
        max_transactions := mr_max_transactions cmd
      |});
  response ← receive_on "receive mined block failed" s;
  match response with
  | WMinedBlock r => println ("mined block " +:+ BlockHash_to_string (mined_hash r))
  | other => fail (Failed "unexpected mine response" (CauseMessage other))
  end.

Definition submit_transfer (cmd : SubmitTransferCommand) : cli_op unit :=
  paths ← resolve_state_and_wallet_paths (st_home cmd) (st_state_path cmd) (st_sender_wallet cmd);
  let '(state_path, wallet_path) := paths in
  id ← some_or (Invalid "txid" (st_txid cmd)) (parse_txid (st_txid cmd));
  w ← cli_load_wallet wallet_path;
  recipient ← parse_public_key_or_fail (st_recipient_public_key cmd);
  s ← load_sqlite_state state_path;
  let tx := unsigned_transfer id (st_vout cmd) (st_amount cmd) recipient in
  key ← cli_expect (Wallet_signing_key w);
  digest ← cli_expect (signing_digest (tx []));
  let '(s, r) := NodeState.submit_transaction s (tx (sign_message key digest)) in
  submitted ← pure_or "submit failed" CauseNode r;
  _ ← save_sqlite_state state_path s;
  print_all ["queued transaction " +:+ Txid_to_string submitted; mempool_line s].

Definition run_debug (cmd : DebugCommand) : cli_op unit :=
  match cmd with
  | MineCoinbase cmd =>
      r ← debug_mine (mc_home cmd) (mc_state_path cmd) (mc_wallet_path cmd) (mc_reward cmd)
            (mc_uniqueness cmd) (mc_bits cmd) 0;
      let '(s, h) := r in
      _ ← print_all (debug_mined_lines s h);
      print_all match last (active_outpoints s) with
                | Some o => ["latest outpoint: " +:+ Txid_to_string (txid o) +:+ ":"
                             +:+ decimal (vout o)]
                | None => []
                end
  | MinePending cmd =>
      r ← debug_mine (mp_home cmd) (mp_state_path cmd) (mp_wallet_path cmd) (mp_reward cmd)
            (mp_uniqueness cmd) (mp_bits cmd) (mp_max_transactions cmd);
      let '(s, h) := r in
      _ ← print_all (debug_mined_lines s h);
      println (mempool_line s)
  | SubmitPayment cmd =>
      paths ← resolve_state_and_wallet_paths (lp_home cmd) (lp_state_path cmd) (lp_wallet_path cmd);
      let '(state_path, wallet_path) := paths in
      recipient ← parse_public_key_or_alias (lp_recipient cmd);
      w ← cli_load_wallet wallet_path;
      s ← load_sqlite_state state_path;
      r ← local_payment "submit failed" s w recipient (lp_amount cmd) (lp_uniqueness cmd);
      let '(s, submitted) := r in
      _ ← save_sqlite_state state_path s;
      print_all ["queued payment " +:+ Txid_to_string submitted; mempool_line s]
  | SubmitPaymentRemote cmd => submit_payment_remote cmd
  | MinePendingRemote cmd => mine_pending_remote cmd
  | SubmitTransfer cmd => submit_transfer cmd
  end.

(** ** serve *)

Definition resolve_serve_config (c : NodeConfig) (cmd : ServeCommand) : NodeConfig :=
  let listen := default (listen_addr c) (sc_listen_addr cmd) in
  {| listen_addr := listen;
     admin_addr := admin_addr c;
     config_network := default (config_network c) (sc_network cmd);
     config_node_name := match sc_node_name cmd with
                         | Some n => Some n
                         | None => config_node_name c
                         end;
     config_advertised_addr := match config_advertised_addr c with
                               | Some a => Some a
                               | None => Some listen
                               end;
     config_mining := config_mining c |}.

Definition resolve_mining_runtime (h : NodeHome) (c : MiningSection) (cmd : ServeCommand)
    : result CliError (option MiningRuntime) :=
  let on := if no_mining cmd then false
            else if sc_mining cmd || bool_decide (is_Some (miner_wallet cmd)) then true
            else enabled c in
  if negb on then Ok None
  else
    let path :=
      match miner_wallet cmd with
      | Some p => p
      | None =>
          match reward_wallet c with
          | Some p => if is_absolute p then p else join (root h) p
          | None => wallet_path h
          end
      end in
    bits ← (match mining_bits cmd with
            | Some v => Some <$> ok_or (parse_bits v) (Invalid "bits" v)
            | None => Ok None
            end);
    config_bits ← ok_or (parse_bits (section_bits c)) (Invalid "bits" (section_bits c));
    Ok (Some {|
      rt_wallet_path := path;
      rt_interval_ms := default (interval_ms c) (mining_interval_ms cmd);
      rt_max_transactions := default (section_max_transactions c) (mining_max_transactions cmd);
      rt_bits := default config_bits bits
    |}).

Definition build_mining_config (runtime : option MiningRuntime) : cli_op (option MiningConfig) :=
  match runtime with
  | None => mret None
  | Some runtime =>
      w ← cli_load_wallet (rt_wallet_path runtime);
      vk ← wallet_public w;
      mret (Some (with_bits (with_max_transactions (with_interval (MiningConfig_new vk)
              (rt_interval_ms runtime)) (rt_max_transactions runtime)) (rt_bits runtime)))
  end.

(** [Server::new]: the database at [sqlite_path] is opened, or the program panics. *)
Definition open_server (path : string) (o : ServerOptions) : cli_op Server := λ c,
  let '(d, r) := (_ ← SqliteStore_open path; query_store path (λ db, Ok db)) (cli_disk c) in
  ({| cli_disk := d; cli_out := cli_out c; cli_sent := cli_sent c |},
   match r with
   | Ok db => Ok (Server_new (with_sqlite_path o db))
   | _ => Panic
   end).

Definition serve_lines (h : NodeHome) (c served : NodeConfig) (sv : Server) (peer_path : string)
    (runtime : option MiningRuntime) (ps : list PeerEndpoint) : list string :=
  ["serving sqlite " +:+ state_path h;
   "node home: " +:+ root h;
   "bootstrap source: sqlite";
   "config: " +:+ config_path h;
   "logs dir: " +:+ logs_dir h;
   "listen addr: " +:+ listen_addr served;
   "admin addr: " +:+ admin_addr c;
   "network: " +:+ config_network served]
  ++ match config_node_name (config sv) with Some n => ["node name: " +:+ n] | None => [] end
  ++ ["best tip: " +:+ format_hash (best_tip (chain (state sv)));
      "peers file: " +:+ peer_path]
  ++ match runtime with
     | Some r => ["integrated mining: enabled";
                  "miner wallet: " +:+ rt_wallet_path r;
                  "mining reward: " +:+ decimal BLOCK_SUBSIDY;
                  "mining interval ms: " +:+ decimal (rt_interval_ms r);
                  "mining max transactions: " +:+ decimal (rt_max_transactions r);
                  "mining bits: " +:+ format_bits (rt_bits r)]
     | None => []
     end
  ++ ["configured peers: " +:+ decimal (Z.of_nat (length ps))]
  ++ ((λ p, "peer: " +:+ peer_line p) <$> ps)
  ++ ["serve mode: async"].

(** [run_serve] up to [server.start(None)], which is [serve_start] of [Shell]: the server it
    is called on. *)
Definition run_serve (cmd : ServeCommand) : cli_op Server :=
  h ← resolve_node_home (sc_home cmd);
  c ← cli_load_config h;
  let served := resolve_serve_config c cmd in
  s ← on_disk "sqlite bootstrap failed" CauseSqlite
        (_ ← SqliteStore_open (state_path h); query_store (state_path h) load_node_state);
  let peer_path := default (peers_path h) (sc_peers_path cmd) in
  ps ← cli_load_peers peer_path;
  runtime ← cli_result (resolve_mining_runtime h (config_mining c) cmd);
  mining ← build_mining_config runtime;
  let o := with_channel_capacity (with_bootstrap_sync (with_peers (ServerOptions_new served s) ps)
             true) 64 in
  let o := match mining with Some m => with_mining o m | None => o end in
  sv ← open_server (state_path h) o;
  _ ← print_all (serve_lines h c served sv peer_path runtime ps);
  mret sv.

(** ** Dispatch *)

(** The match of [main] on the parsed command; for [Serve], the server that [run_serve] builds is then
    started, and its life is that of [Shell]. *)
Definition run (cmd : Command) : cli_op unit :=
  match cmd with
  | Init home => run_init home
  | BootstrapFunds cmd => run_bootstrap cmd
  | Serve cmd => _ ← run_serve cmd; mret ()
  | BalanceAlias home => run_balance home
  | WalletCmd cmd => run_wallet cmd
  | Transactions home => run_transactions home
  | StatusCmd home => run_status home
  | Pay cmd => run_pay cmd
  | Inspect cmd => run_inspect cmd
  | AdminCmd cmd => run_admin cmd
  | DebugCmd cmd => run_debug cmd
  end.

End cli.
