(* ===== verification/CliFrame.v ===== *)
(** * main.rs: which files a command may write

    [disk_touches] and [touches] say that an operation changes no file outside a
    set.  They are closed under the combinators of the disk and of the command
    line, so that the claim about [run] is proved by following the code. *)

From S2P Require Import Prelude Bytes Crypto Types State Consensus Chain Mempool Wire.
From S2P Require Import Admin Mining NodeState Home Peers Client Files Wallet Aliases TxIndex Store.
From S2P Require Import HomeDir HomeProofs Runtime Server Shell CliText Cli.

Definition disk_touches {E A} (ps : gset string) (m : disk_op E A) : Prop :=
  ∀ d p, p ∉ ps → disk_files (m d).1 !! p = disk_files d !! p.

(** A database is its file and its rollback journal. *)
Definition database (path : string) : gset string := {[ path; journal_path path ]}.

Create HintDb frame.

Section disk.
Context {E : Type} (ps : gset string).

Lemma disk_touches_ret {A} (a : A) : disk_touches ps (mret a : disk_op E A).
Proof. done. Qed.

Lemma disk_touches_lift {A} (r : result E A) : disk_touches ps (Files.lift r).
Proof. done. Qed.

Lemma disk_touches_bind {A B} (m : disk_op E A) (k : A → disk_op E B) :
  disk_touches ps m → (∀ a, disk_touches ps (k a)) → disk_touches ps (m ≫= k).
Proof.
  intros Hm Hk d p Hp. unfold mbind, disk_bind. specialize (Hm d p Hp).
  destruct (m d) as [d' [a|e|]]; cbn in *; [|done..]. by rewrite (Hk a d' p Hp).
Qed.

Lemma disk_touches_map_io {A} (f : io_Error → E) (m : disk_op io_Error A) :
  disk_touches ps m → disk_touches ps (map_io f m).
Proof. intros Hm d p Hp. unfold map_io. specialize (Hm d p Hp). by destruct (m d). Qed.

Lemma disk_touches_map_disk {E' A} (f : E' → E) (m : disk_op E' A) :
  disk_touches ps m → disk_touches ps (map_disk f m).
Proof. intros Hm d p Hp. unfold map_disk. specialize (Hm d p Hp). by destruct (m d). Qed.

Lemma disk_touches_exists path : disk_touches ps (path_exists path : disk_op E bool).
Proof. done. Qed.

Lemma disk_touches_unless path (m : disk_op E unit) :
  disk_touches ps m → disk_touches ps (unless_exists path m).
Proof. intros Hm. apply disk_touches_bind; [done|]. by intros []. Qed.

End disk.

Lemma disk_touches_read ps path : disk_touches ps (fs_read path).
Proof. intros d p _. by rewrite fs_read_files. Qed.

Lemma disk_touches_write ps path bs : path ∈ ps → disk_touches ps (fs_write path bs).
Proof.
  intros Hin d p Hp. assert (p ≠ path) by congruence. unfold fs_write.
  destruct (next_fault d) as [[? [rest|]]|]; cbn; by rewrite ?lookup_insert_ne.
Qed.

Lemma disk_touches_create_dir ps path : disk_touches ps (create_dir_all path).
Proof. intros d p _. unfold create_dir_all. repeat case_match; done. Qed.

#[export] Hint Resolve disk_touches_ret disk_touches_lift disk_touches_bind disk_touches_map_io
  disk_touches_map_disk disk_touches_exists disk_touches_unless disk_touches_read disk_touches_write
  disk_touches_create_dir : frame.

Lemma disk_touches_read_string ps path : disk_touches ps (fs_read_to_string path).
Proof. unfold fs_read_to_string. eauto with frame. Qed.

#[export] Hint Resolve disk_touches_read_string : frame.

Section formats.
Context `{C : Crypto} `{B : Bincode} `{F : !FileFormats}.

Lemma interrupted_other path f files p : p ∉ database path → interrupted path f files !! p = files !! p.
Proof.
  intros Hp. unfold interrupted. destruct (fault_left f); [|done].
  by rewrite !lookup_insert_ne by set_solver.
Qed.

Lemma disk_touches_open ps path : database path ⊆ ps → disk_touches ps (SqliteStore_open path).
Proof.
  intros Hin d p Hp. assert (p ∉ database path) by set_solver. assert (p ≠ path) by set_solver.
  unfold SqliteStore_open. repeat case_match; cbn; by rewrite ?lookup_insert_ne, ?interrupted_other.
Qed.

Lemma disk_touches_open_read_only ps path : disk_touches ps (SqliteStore_open_read_only path).
Proof. done. Qed.

Lemma disk_touches_store {A} ps path (op : store_op A) :
  database path ⊆ ps → disk_touches ps (on_store path op).
Proof.
  intros Hin d p Hp. assert (p ∉ database path) by set_solver. assert (p ≠ path) by set_solver.
  unfold on_store. repeat case_match; cbn; by rewrite ?lookup_insert_ne, ?interrupted_other.
Qed.

Lemma disk_touches_query {A} ps path (q : SqliteStore → result SqliteStoreError A) :
  disk_touches ps (query_store path q).
Proof. done. Qed.

Lemma disk_touches_load_config ps h : disk_touches ps (load_config h).
Proof. unfold load_config. eauto 8 with frame. Qed.

Lemma disk_touches_load_wallet ps path : disk_touches ps (load_wallet path).
Proof.
  unfold load_wallet. apply disk_touches_bind; [eauto with frame|]. intros bs.
  repeat first [case_match | apply disk_touches_bind; intros]; eauto with frame.
Qed.

Lemma disk_touches_save_wallet ps path w : path ∈ ps → disk_touches ps (save_wallet path w).
Proof. intros. unfold save_wallet. eauto 10 with frame. Qed.

Lemma disk_touches_load_aliases ps path :
  disk_touches ps (load_alias_book (JsonError:=JsonError) path).
Proof. unfold load_alias_book. eauto 10 with frame. Qed.

Lemma disk_touches_save_aliases ps path b :
  path ∈ ps → disk_touches ps (save_alias_book (JsonError:=JsonError) path b).
Proof. intros. unfold save_alias_book. eauto 10 with frame. Qed.

Lemma disk_touches_load_peers ps path :
  disk_touches ps (load_peer_endpoints (JsonError:=JsonError) path).
Proof. unfold load_peer_endpoints. eauto 10 with frame. Qed.

Lemma disk_touches_save_peers ps path l :
  path ∈ ps → disk_touches ps (save_peer_endpoints (JsonError:=JsonError) path l).
Proof. intros. unfold save_peer_endpoints. eauto 10 with frame. Qed.

Lemma disk_touches_save_config ps h c : config_path h ∈ ps → disk_touches ps (save_config h c).
Proof. intros. unfold save_config. eauto 10 with frame. Qed.

End formats.

#[export] Hint Resolve disk_touches_open disk_touches_open_read_only disk_touches_store
  disk_touches_query disk_touches_load_config disk_touches_load_wallet disk_touches_save_wallet
  disk_touches_load_aliases disk_touches_save_aliases disk_touches_load_peers disk_touches_save_peers
  disk_touches_save_config : frame.

(** ** Commands *)

Section commands.
Context `{C : Crypto} `{B : Bincode} `{F : !FileFormats}.
Context `{JQ : SerdeJson AdminRequest} `{JR : SerdeJson AdminResponse} `{JW : SerdeJson WireMessage}.
Context `{W : !Surroundings}.

Definition touches {A} (ps : gset string) (m : cli_op A) : Prop :=
  ∀ c p, p ∉ ps → disk_files (cli_disk (m c).1) !! p = disk_files (cli_disk c) !! p.

(** The home a command works on, when there is one. *)
Definition command_home (home : option string) : option NodeHome :=
  match home with
  | Some path => Some {| root := path |}
  | None =>
      match from_default_dir env_home env_userprofile with
      | Ok h => Some h
      | _ => None
      end
  end.

Definition at_home (home : option string) (f : NodeHome → gset string) : gset string :=
  match command_home home with Some h => f h | None => ∅ end.

Definition database_or_home (path home : option string) (f : NodeHome → string) : gset string :=
  match path with Some p => database p | None => at_home home (λ h, database (f h)) end.

Definition home_writes (h : NodeHome) : gset string :=
  list_to_set (home_files h) ∪ database (state_path h).

(** The files [cmd] may create or change, up to [server.start] for [serve]. *)
Definition writes (cmd : Command) : gset string :=
  match cmd with
  | Init home => at_home home home_writes
  | Serve cmd => at_home (sc_home cmd) (λ h, database (state_path h))
  | WalletCmd (NewKey cmd) => at_home (nk_home cmd) (λ h, {[ wallet_path h ]})
  | AdminCmd (CreateWallet path) => {[ path ]}
  | AdminCmd (CreateAliasBook path) => {[ path ]}
  | AdminCmd (AliasAdd cmd) => {[ aa_alias_book cmd ]}
  | DebugCmd (MineCoinbase cmd) => database_or_home (mc_state_path cmd) (mc_home cmd) state_path
  | DebugCmd (MinePending cmd) => database_or_home (mp_state_path cmd) (mp_home cmd) state_path
  | DebugCmd (SubmitPayment cmd) => database_or_home (lp_state_path cmd) (lp_home cmd) state_path
  | DebugCmd (SubmitPaymentRemote cmd) => database_or_home (rp_sqlite_path cmd) (rp_home cmd) state_path
  | DebugCmd (SubmitTransfer cmd) => database_or_home (st_state_path cmd) (st_home cmd) state_path
  | _ => ∅
  end.

Section touches.
Context (ps : gset string).

Lemma touches_ret {A} (a : A) : touches ps (mret a).
Proof. done. Qed.
Lemma touches_println l : touches ps (println l).
Proof. done. Qed.
Lemma touches_fail {A} e : touches ps (fail e : cli_op A).
Proof. done. Qed.
Lemma touches_pure {E A} what (f : E → Cause) (r : result E A) : touches ps (pure_or what f r).
Proof. done. Qed.
Lemma touches_result {A} (r : result CliError A) : touches ps (cli_result r).
Proof. done. Qed.
Lemma touches_some {A} e (o : option A) : touches ps (some_or e o).
Proof. done. Qed.
Lemma touches_expect {A} (o : may_panic A) : touches ps (cli_expect o).
Proof. done. Qed.
Lemma touches_admin {A} action addr (r : result _ A) : touches ps (on_admin action addr r).
Proof. done. Qed.
Lemma touches_mined {A} what (r : result _ A) : touches ps (mined_or what r).
Proof. done. Qed.

Lemma touches_bind {A D} (m : cli_op A) (k : A → cli_op D) :
  touches ps m → (∀ a, touches ps (k a)) → touches ps (m ≫= k).
Proof.
  intros Hm Hk c p Hp. unfold mbind, cli_bind. specialize (Hm c p Hp).
  destruct (m c) as [c' [a|e|]]; cbn in *; [|done..]. by rewrite (Hk a c' p Hp).
Qed.

Lemma touches_disk {E A} what (f : E → Cause) (m : disk_op E A) :
  disk_touches ps m → touches ps (on_disk what f m).
Proof. intros Hm c p Hp. unfold on_disk. specialize (Hm (cli_disk c) p Hp). by destruct (m _). Qed.

Lemma touches_print_all ls : touches ps (print_all ls).
Proof. induction ls; [done|]. by apply touches_bind. Qed.

Lemma touches_send what s m : touches ps (send_on what s m).
Proof. intros c p _. unfold send_on. by destruct (send_message _ _ _). Qed.

(** A command that resolves its home first. *)
Lemma touches_home {A} home (k : NodeHome → cli_op A) :
  (∀ h, command_home home = Some h → touches ps (k h)) → touches ps (resolve_node_home home ≫= k).
Proof.
  intros Hk c p Hp. unfold mbind, cli_bind, resolve_node_home, pure_or, command_home in *.
  destruct home as [r|]; cbn; [by apply Hk|].
  destruct (from_default_dir _ _) as [h|e|]; cbn; [by apply Hk|done..].
Qed.

Lemma touches_path {A} (f : NodeHome → string) (home path : option string) (k : string → cli_op A) :
  (∀ p, database p ⊆ database_or_home path home f → touches ps (k p)) →
  touches ps ((match path with
               | Some p => mret p
               | None => h ← resolve_node_home home; mret (f h)
               end) ≫= k).
Proof.
  unfold database_or_home, at_home. intros Hk. destruct path as [q|]; [apply Hk; set_solver|].
  intros c p Hp. unfold mbind, cli_bind, resolve_node_home, pure_or, command_home in *.
  destruct home as [r|]; cbn; [apply Hk; set_solver|].
  destruct (from_default_dir _ _) as [h|e|]; cbn; [apply Hk; set_solver|done..].
Qed.

End touches.

Context (fuel : nat) (ps : gset string).

Lemma touches_balances U ks total : touches ps (print_balances U ks total).
Proof.
  revert total. induction ks; intros total; cbn [print_balances]; [done|].
  repeat (apply touches_bind; [done|intros]). apply IHks.
Qed.

Lemma touches_utxos U os : touches ps (print_utxos U os).
Proof.
  induction os; cbn [print_utxos]; [done|]. by repeat (apply touches_bind; [done|intros]).
Qed.

Lemma disk_touches_initialize h :
  home_writes h ⊆ ps → disk_touches ps (initialize h fresh).
Proof.
  unfold home_writes. intros Hps. assert (database (state_path h) ⊆ ps) by set_solver.
  assert (∀ p, p ∈ home_files h → p ∈ ps) as Hin by set_solver. unfold initialize.
  assert (wallet_path h ∈ ps ∧ aliases_path h ∈ ps ∧ peers_path h ∈ ps
    ∧ config_path h ∈ ps) as (? & ? & ? & ?) by (split_and!; apply Hin; home_file).
  repeat first [apply disk_touches_unless | apply disk_touches_bind; [|intros]]; eauto 8 with frame.
Qed.

Lemma touches_open_server path o : database path ⊆ ps → touches ps (open_server path o).
Proof.
  intros Hin c p Hp. unfold open_server.
  set (m := SqliteStore_open path ≫= _). assert (disk_touches ps m) as Hd by (unfold m; eauto with frame).
  specialize (Hd (cli_disk c) p Hp). by destruct (m (cli_disk c)) as [d []].
Qed.

(** Walks down a command. *)
Ltac head_of t := lazymatch t with ?f _ => head_of f | _ => t end.
Ltac walk_step :=
  lazymatch goal with
  | |- touches _ (mbind _ _) => apply touches_bind; [|intros]
  | |- touches _ (mret _) => apply touches_ret
  | |- touches _ (print_all _) => apply touches_print_all
  | |- touches _ (println _) => apply touches_println
  | |- touches _ (fail _) => apply touches_fail
  | |- touches _ (pure_or _ _ _) => apply touches_pure
  | |- touches _ (cli_result _) => apply touches_result
  | |- touches _ (some_or _ _) => apply touches_some
  | |- touches _ (cli_expect _) => apply touches_expect
  | |- touches _ (on_admin _ _ _) => apply touches_admin
  | |- touches _ (mined_or _ _) => apply touches_mined
  | |- touches _ (send_on _ _ _) => apply touches_send
  | |- touches _ (on_disk _ _ _) => apply touches_disk; solve [eauto 8 with frame]
  | |- touches _ (open_server _ _) => apply touches_open_server; assumption
  | |- touches _ (print_balances _ _ _) => apply touches_balances
  | |- touches _ (print_utxos _ _) => apply touches_utxos
  | |- touches _ (match ?x with _ => _ end) => destruct x
  | |- touches _ (let _ := _ in _) => cbv zeta
  | |- touches _ ?m => let f := head_of m in unfold f
  end.
Ltac walk := repeat (assumption || walk_step).

Lemma touches_init home :
  at_home home home_writes ⊆ ps → touches ps (run_init home).
Proof.
  unfold at_home. intros Hps. apply touches_home. intros h Hh. rewrite Hh in Hps.
  apply touches_bind; [by apply touches_disk, disk_touches_initialize|]. intros _. walk.
Qed.

Lemma touches_serve cmd :
  at_home (sc_home cmd) (λ h, database (state_path h)) ⊆ ps → touches ps (run_serve cmd).
Proof.
  unfold at_home. intros Hps. apply touches_home. intros h Hh. rewrite Hh in Hps.
  clear Hh.
  walk.
Qed.

Lemma touches_new_key cmd :
  at_home (nk_home cmd) (λ h, {[ wallet_path h ]}) ⊆ ps → touches ps (run_wallet_new_key cmd).
Proof.
  unfold at_home. intros Hps. apply touches_home. intros h Hh. rewrite Hh in Hps.
  assert (wallet_path h ∈ ps) by set_solver. clear Hps Hh. walk.
Qed.

Lemma touches_state_path {A} home state wallet (k : string * string → cli_op A) :
  (∀ s w, database s ⊆ database_or_home state home state_path → touches ps (k (s, w))) →
  touches ps (resolve_state_and_wallet_paths home state wallet ≫= k).
Proof.
  intros Hk c p Hp.
  set (k' := λ s, resolve_wallet_path home wallet ≫= λ w, k (s, w)).
  assert (touches ps (resolve_state_path home state ≫= k')) as Ht.
  { apply (touches_path ps state_path). intros s Hs. unfold k'. walk; by apply Hk. }
  specialize (Ht c p Hp). unfold k', resolve_state_and_wallet_paths, mbind, cli_bind in *.
  destruct (resolve_state_path home state c) as [c1 [s|e|]]; cbn in *; [|done..].
  destruct (resolve_wallet_path home wallet c1) as [c2 [w|e|]]; cbn in *; done.
Qed.

(** The local debug commands, which open the state database for writing. *)
Ltac walk_debug Hps :=
  apply touches_state_path; intros s w Hs; assert (database s ⊆ ps) by (by etrans); clear Hs Hps; walk.

Lemma touches_mine home state wallet reward uniq bits max :
  database_or_home state home state_path ⊆ ps →
  touches ps (debug_mine fuel home state wallet reward uniq bits max).
Proof. intros Hps. walk_debug Hps. Qed.

Lemma touches_debug cmd : writes (DebugCmd cmd) ⊆ ps → touches ps (run_debug fuel cmd).
Proof.
  destruct cmd as [cmd|cmd|cmd|cmd|cmd|cmd]; cbn [writes run_debug]; intros Hps.
  - apply touches_bind; [by apply touches_mine|]. intros. walk.
  - apply touches_bind; [by apply touches_mine|]. intros. walk.
  - walk_debug Hps.
  - walk_debug Hps.
  - walk.
  - walk_debug Hps.
Qed.

Lemma touches_run cmd : writes cmd ⊆ ps → touches ps (run fuel cmd).
Proof.
  destruct cmd as [home|cmd|cmd|home|cmd|home|home|cmd|cmd|cmd|cmd]; intros Hps; cbn [run].
  - by apply touches_init.
  - walk.
  - apply touches_bind; [by apply touches_serve|]. done.
  - walk.
  - destruct cmd; cbn [run_wallet]; [walk|walk|by apply touches_new_key].
  - walk.
  - walk.
  - walk.
  - destruct cmd; cbn [run_inspect]; walk.
  - destruct cmd; cbn [run_admin writes] in *;
      try (apply singleton_subseteq_l in Hps); walk.
  - by apply touches_debug.
Qed.

End commands.

(** A command writes only the files it names: whatever the disk does to its operations and
    whether it succeeds, fails or panics, [run] leaves every file outside [writes] as it was.  In particular
    [pay], [status], [balance], [transactions], [bootstrap], [wallet info], every [inspect] and
    [alias list] write none; [wallet new-key] changes the wallet only, and the local debug commands the
    state database and its journal only. *)
Theorem command_writes_only `{C : Crypto} `{B : Bincode} `{F : !FileFormats}
    `{JQ : SerdeJson AdminRequest} `{JR : SerdeJson AdminResponse} `{JW : SerdeJson WireMessage}
    `{W : !Surroundings} (fuel : nat) (cmd : Command) (c : Cli) (p : string) :
  p ∉ writes cmd → disk_files (cli_disk (run fuel cmd c).1) !! p = disk_files (cli_disk c) !! p.
Proof. by apply touches_run. Qed.
