(* ===== verification/CliProofs.v ===== *)
(** * main.rs: what the commands do

    On a disk that lets operations through, a command is the composition of the
    operations it names: [pay] builds and submits a valid payment, the local mining
    commands persist the node they computed, [serve] starts the server its
    files and flags describe. *)

From S2P Require Import Prelude Bytes Crypto Types State Consensus Chain Mempool Wire.
From S2P Require Import Admin Mining NodeState Home Peers Client Files Wallet Aliases TxIndex Store.
From S2P Require Import StoreProofs StoreSave HomeDir HomeProofs Runtime Server Shell.
From S2P Require Import CliText Cli CliFrame.

Definition printed (c : Cli) (ls : list string) : Cli :=
  {| cli_disk := cli_disk c; cli_out := cli_out c ++ ls; cli_sent := cli_sent c |}.
Definition on_new_disk (c : Cli) (d : Disk) : Cli :=
  {| cli_disk := d; cli_out := cli_out c; cli_sent := cli_sent c |}.

Section runs.
Context `{C : Crypto} `{B : Bincode} `{F : !FileFormats}.
Context `{JQ : SerdeJson AdminRequest} `{JR : SerdeJson AdminResponse} `{JW : SerdeJson WireMessage}.
Context `{W : !Surroundings}.

Lemma cli_bind_run {A D} (m : cli_op A) (k : A → cli_op D) c c' a :
  m c = (c', Ok a) → (m ≫= k) c = k a c'.
Proof using. unfold mbind, cli_bind. by intros ->. Qed.

Lemma cli_bind_Err {A D} (m : cli_op A) (k : A → cli_op D) c c' e :
  m c = (c', Err e) → (m ≫= k) c = (c', Err e).
Proof using. unfold mbind, cli_bind. by intros ->. Qed.

Lemma cli_bind_Panic {A D} (m : cli_op A) (k : A → cli_op D) c c' :
  m c = (c', Panic) → (m ≫= k) c = (c', Panic).
Proof using. unfold mbind, cli_bind. by intros ->. Qed.

(** A read: the disk is as before. *)
Lemma on_disk_run {E A} what (f : E → Cause) (m : disk_op E A) c a :
  m (cli_disk c) = (cli_disk c, Ok a) → on_disk what f m c = (c, Ok a).
Proof using. unfold on_disk. intros ->. by destruct c. Qed.

Lemma on_disk_new {E A} what (f : E → Cause) (m : disk_op E A) c d a :
  m (cli_disk c) = (d, Ok a) → on_disk what f m c = (on_new_disk c d, Ok a).
Proof using. unfold on_disk. by intros ->. Qed.

Lemma on_disk_Err {E A} what (f : E → Cause) (m : disk_op E A) c e :
  m (cli_disk c) = (cli_disk c, Err e) → on_disk what f m c = (c, Err (Some (Failed what (f e)))).
Proof using. unfold on_disk. intros ->. by destruct c. Qed.

Lemma on_disk_Panic {E A} what (f : E → Cause) (m : disk_op E A) c :
  m (cli_disk c) = (cli_disk c, Panic) → on_disk what f m c = (c, Panic).
Proof using. unfold on_disk. intros ->. by destruct c. Qed.

Lemma print_all_run ls c : print_all ls c = (printed c ls, Ok ()).
Proof using.
  revert c. induction ls as [|l ls IH]; intros c.
  - unfold printed. rewrite app_nil_r. by destruct c.
  - cbn [print_all]. erewrite cli_bind_run by done. rewrite IH. unfold printed; cbn.
    by rewrite <-app_assoc.
Qed.

Lemma home_run home h c : command_home home = Some h → resolve_node_home home c = (c, Ok h).
Proof using.
  unfold command_home, resolve_node_home, pure_or. destruct home; [by intros [= <-]|].
  destruct (from_default_dir _ _); [|done..]. by intros [= <-].
Qed.

(** The database at [path] is [db]. *)
Definition has_db (d : Disk) (path : string) (db : SqliteStore) : Prop :=
  disk_files d !! path ≫= sqlite_parse = Some db ∧ path ∉ disk_dirs d.

Lemma query_run {A} d path db (q : SqliteStore → result SqliteStoreError A) :
  healthy d → has_db d path db → query_store path q d = (d, q db).
Proof using.
  intros Hd [Hdb _]. unfold query_store. by rewrite healthy_fault, healthy_same, Hdb by done.
Qed.

Lemma open_run d path db : healthy d → has_db d path db → SqliteStore_open path d = (d, Ok ()).
Proof using.
  intros Hd [Hdb Hdir]. unfold SqliteStore_open.
  rewrite bool_decide_eq_false_2, healthy_fault by done.
  destruct (disk_files d !! path) as [bs|]; [|done]. cbn in Hdb.
  by rewrite Hdb, healthy_same by done.
Qed.

Lemma open_read_only_run d path db :
  healthy d → has_db d path db → SqliteStore_open_read_only path d = (d, Ok ()).
Proof using.
  intros Hd [Hdb Hdir]. unfold SqliteStore_open_read_only. rewrite healthy_fault, healthy_same by done.
  by rewrite bool_decide_eq_true_2 by (destruct (disk_files d !! path); [by eexists|done]).
Qed.

Lemma load_disk_run d path db s :
  healthy d → has_db d path db → load_node_state db = Ok s →
  (SqliteStore_open path ≫= λ _, query_store path load_node_state) d = (d, Ok s).
Proof using.
  intros Hd Hdb Hs. erewrite disk_bind_run by by eapply open_run. by rewrite (query_run _ _ db), Hs.
Qed.

Lemma load_sqlite_run c path db s :
  healthy (cli_disk c) → has_db (cli_disk c) path db → load_node_state db = Ok s →
  load_sqlite_state path c = (c, Ok s).
Proof using. intros Hd Hdb Hs. by eapply on_disk_run, load_disk_run. Qed.

Lemma wallet_public_run w c :
  wallet_inv w → ∃ vk, Wallet_verifying_key w = Some vk ∧ wallet_public w c = (c, Ok vk).
Proof using.
  intros (k & Hk & _)%default_wallet_key_total. exists (key_verifying_key k).
  unfold wallet_public, cli_expect, Wallet_verifying_key. by rewrite Hk.
Qed.

Context `{L : !CryptoLaws C} `{BL : !BincodeLaws B} `{FL : !FileFormatsLaws F}.

Lemma save_sqlite_run c path db s :
  healthy (cli_disk c) → has_db (cli_disk c) path db → node_inv s →
  ∃ db', stores db' s ∧ index_ok db'
    ∧ save_sqlite_state path s c
      = (on_new_disk c (with_file (cli_disk c) path (sqlite_image db')), Ok ()).
Proof using L BL.
  intros Hd Hdb Hi. destruct (save_node_state_run s db Hi) as (db' & Hrun & Hst & Hidx).
  exists db'. split_and!; [done..|]. unfold save_sqlite_state.
  erewrite cli_bind_run by by eapply on_disk_run, open_run. apply on_disk_new.
  unfold on_store. destruct Hdb as [-> _]. rewrite healthy_fault, Hrun by done.
  by rewrite healthy_after by done.
Qed.

End runs.

(** What a home's files hold. *)
Record home_holds `{C : Crypto} `{B : Bincode} `{F : !FileFormats} (d : Disk) (h : NodeHome)
    (cfg : NodeConfig) (w : Wallet) (db : SqliteStore) : Prop := {
  hh_healthy : healthy d;
  hh_config : load_config h d = (d, Ok cfg);
  hh_wallet : load_wallet (wallet_path h) d = (d, Ok w);
  hh_db : has_db d (state_path h) db
}.

(** Runs the next command of a sequence. *)
Ltac cli_run t := etransitivity; [eapply cli_bind_run; t|].

Section payments.
Context `{C : Crypto} `{B : Bincode} `{F : !FileFormats}.
Context `{JQ : SerdeJson AdminRequest} `{JR : SerdeJson AdminResponse} `{JW : SerdeJson WireMessage}.
Context `{W : !Surroundings}.
Context `{L : !CryptoLaws C} `{BL : !BincodeLaws B} `{FL : !FileFormatsLaws F}.

(** The answer of the running server to a payment. *)
Definition submit_answer (cfg : NodeConfig) (tx : Transaction) :=
  Admin.submit_transaction admin_connect admin_write admin_read bad_request bad_response admin_eof
    (admin_addr cfg) tx.

(** The two ways of [run_pay]. *)
Lemma pay_cases (cmd : PayCommand) (c : Cli) (h : NodeHome) (cfg : NodeConfig) (w : Wallet)
    (db : SqliteStore) (s : NodeState) (recipient : VerifyingKey) (key : SigningKey) :
  command_home (pay_home cmd) = Some h → home_holds (cli_disk c) h cfg w db →
  stores db s → node_inv s → coins_in_range (active_utxos s) →
  total_value (active_utxos s) < 2 ^ 64 → fits_u32 (size (active_utxos s)) →
  parse_public_key_or_alias (pay_to cmd) c = (c, Ok recipient) →
  payment_signing_key w (from_key cmd) c = (c, Ok key) →
  0 < pay_amount cmd → u32 (default nanos (pay_uniqueness cmd)) →
  let U := active_utxos s in
  (owned_value U [key] < pay_amount cmd
   ∧ run_pay cmd c = (c, Err (Some (Failed "build failed"
       (CauseNode (InsufficientFunds (pay_amount cmd) (owned_value U [key])))))))
  ∨ ∃ tx id change, Transaction_txid tx = Some id ∧ Wallet_verifying_key w = Some change
    ∧ Transaction_wf tx ∧ encodable true tx
    ∧ tx_valid U tx 0 ∧ Forall (λ i, owned U [key] (previous_output i)) (inputs tx)
    ∧ outputs tx = {| value := pay_amount cmd; locking_data := verifying_key_bytes recipient |} ::
        (if bool_decide (0 < in_value U tx - pay_amount cmd)
         then [{| value := in_value U tx - pay_amount cmd;
                  locking_data := verifying_key_bytes change |}] else [])
    ∧ run_pay cmd c = match submit_answer cfg tx with
                      | Ok _ => (printed c ["submitted payment " +:+ Txid_to_string id;
                                            "local admin: " +:+ admin_addr cfg], Ok ())
                      | Err e => (c, Err (Some (AdminFailed "submit to local server"
                                                  (admin_addr cfg) e)))
                      | Panic => (c, Panic)
                      end.
Proof using L FL.
  intros Hh [Hd Hcfg Hw Hdb] Hst Hi Hr Htot Hsz Hrec Hkey Hamt Hu U.
  assert (load_active_utxos db = Ok U) as Hload
    by (apply load_active_utxos_table; [apply Hst|by apply active_wf|done]).
  assert (wallet_inv w) as Hwi by (eapply (load_wallet_inv (wallet_path h) (cli_disk c)); by rewrite Hw).
  destruct (wallet_public_run w c Hwi) as (change & Hch & Hpub).
  assert (run_pay cmd c = (tx ← pure_or "build failed" CauseNode
      (build_payment_transaction U [key] change recipient (pay_amount cmd)
         (default default_uniqueness (pay_uniqueness cmd)));
    submitted ← cli_expect (Transaction_txid tx);
    _ ← on_admin "submit to local server" (admin_addr cfg) (submit_answer cfg tx);
    print_all ["submitted payment " +:+ Txid_to_string submitted;
               "local admin: " +:+ admin_addr cfg]) c) as ->.
  { unfold run_pay.
    cli_run ltac:(by apply home_run). cli_run ltac:(by apply on_disk_run).
    cli_run ltac:(exact Hrec). cli_run ltac:(by apply on_disk_run). cli_run ltac:(exact Hkey).
    cli_run ltac:(by eapply on_disk_run, open_read_only_run).
    cli_run ltac:(by eapply on_disk_run; erewrite query_run, Hload by done).
    by cli_run ltac:(exact Hpub). }
  assert (map_Forall (λ o _, OutPoint_wf o) U) as Hout by (intros o u Ho; by apply Hr in Ho as [? _]).
  pose proof (build_payment_cases U [key] change recipient (pay_amount cmd)
    (default default_uniqueness (pay_uniqueness cmd)) (active_wf s Hi) Hout Htot Hsz Hamt Hu) as Hb.
  destruct (build_payment_transaction _ _ _ _ _ _) as [tx|e|] eqn:Htx; [|..|done].
  - destruct Hb as (Hv & Hwf & He & Hown & Hos). destruct (Transaction_txid_is_Some tx He) as [id Hid].
    right. exists tx, id, change. split_and!; [done..|].
    cli_run ltac:(done). cli_run ltac:(by unfold cli_expect; rewrite Hid).
    unfold submit_answer, on_admin, mbind, cli_bind.
    destruct (Admin.submit_transaction _ _ _ _ _ _ _ _) as [x|e|]; cbn [map_err]; [|done..].
    apply print_all_run.
  - destruct Hb as [-> Hlt]. left. split; [done|]. by erewrite cli_bind_Err by done.
Qed.

(** C11: [wobble pay], from the files of a home to the message on the admin socket.  For a
    database that stores a node whose coins are in range, the command leaves every file alone and either reports the
    whole balance of the paying key, which is then less than the amount, without contacting the
    server; or sends one transaction, valid for the stored coins with fee 0, that spends only coins of the paying
    key, pays the amount to the recipient and returns the exact change to the wallet's default key, and
    succeeds if and only if the server answers with a submission. *)
Theorem pay_correct (cmd : PayCommand) (c : Cli) (h : NodeHome) (cfg : NodeConfig) (w : Wallet)
    (db : SqliteStore) (s : NodeState) (recipient : VerifyingKey) (key : SigningKey) :
  command_home (pay_home cmd) = Some h → home_holds (cli_disk c) h cfg w db →
  stores db s → node_inv s → coins_in_range (active_utxos s) →
  total_value (active_utxos s) < 2 ^ 64 → fits_u32 (size (active_utxos s)) →
  parse_public_key_or_alias (pay_to cmd) c = (c, Ok recipient) →
  payment_signing_key w (from_key cmd) c = (c, Ok key) →
  0 < pay_amount cmd → u32 (default nanos (pay_uniqueness cmd)) →
  let U := active_utxos s in
  (owned_value U [key] < pay_amount cmd
   ∧ run_pay cmd c = (c, Err (Some (Failed "build failed"
       (CauseNode (InsufficientFunds (pay_amount cmd) (owned_value U [key])))))))
  ∨ ∃ tx id change, Transaction_txid tx = Some id ∧ Wallet_verifying_key w = Some change
    ∧ tx_valid U tx 0 ∧ Forall (λ i, owned U [key] (previous_output i)) (inputs tx)
    ∧ outputs tx = {| value := pay_amount cmd; locking_data := verifying_key_bytes recipient |} ::
        (if bool_decide (0 < in_value U tx - pay_amount cmd)
         then [{| value := in_value U tx - pay_amount cmd;
                  locking_data := verifying_key_bytes change |}] else [])
    ∧ run_pay cmd c = match submit_answer cfg tx with
                      | Ok _ => (printed c ["submitted payment " +:+ Txid_to_string id;
                                            "local admin: " +:+ admin_addr cfg], Ok ())
                      | Err e => (c, Err (Some (AdminFailed "submit to local server"
                                                  (admin_addr cfg) e)))
                      | Panic => (c, Panic)
                      end.
Proof using L FL.
  intros Hh Hhh Hst Hi Hr Htot Hsz Hrec Hkey Hamt Hu U.
  destruct (pay_cases cmd c h cfg w db s recipient key Hh Hhh Hst Hi Hr Htot Hsz Hrec Hkey Hamt Hu)
    as [Hpoor|(tx & id & change & ? & ? & _ & _ & ?)]; [by left|right]. by exists tx, id, change.
Qed.

End payments.

Section debugging.
Context `{C : Crypto} `{B : Bincode} `{F : !FileFormats}.
Context `{JQ : SerdeJson AdminRequest} `{JR : SerdeJson AdminResponse} `{JW : SerdeJson WireMessage}.
Context `{W : !Surroundings} (fuel : nat).
Context `{L : !CryptoLaws C} `{BL : !BincodeLaws B} `{FL : !FileFormatsLaws F}.

(** What a local debug command needs of the disk. *)
Record debug_files (c : Cli) (home state wallet : option string) (path : string) (w : Wallet)
    (db : SqliteStore) (s : NodeState) : Prop := {
  df_healthy : healthy (cli_disk c);
  df_paths : ∃ wallet_path, resolve_state_and_wallet_paths home state wallet c = (c, Ok (path, wallet_path))
               ∧ load_wallet wallet_path (cli_disk c) = (cli_disk c, Ok w);
  df_db : has_db (cli_disk c) path db;
  df_load : load_node_state db = Ok s;
  df_inv : node_inv s
}.

(** The disk after the database at [path] was rewritten. *)
Definition saved (c : Cli) (path : string) (db : SqliteStore) : Cli :=
  on_new_disk c (with_file (cli_disk c) path (sqlite_image db)).

Lemma loaded_wallet_inv path d w : load_wallet path d = (d, Ok w) → wallet_inv w.
Proof using. intros Hw. eapply (load_wallet_inv path d). by rewrite Hw. Qed.

Lemma load_wallet_healthy path d : healthy d → (load_wallet path d).1 = d.
Proof using.
  intros Hd. unfold load_wallet, mbind, disk_bind, map_io, fs_read. rewrite healthy_fault, healthy_same by done.
  by repeat first [done | case_match; simplify_eq/=].
Qed.

Lemma debug_mine_run c home state wallet path w db s reward uniq bits max z :
  debug_files c home state wallet path w db s → parse_bits bits = Some z →
  u64 reward → u32 uniq → u32 z → 0 ≤ max →
  ∃ vk, Wallet_verifying_key w = Some vk ∧
  match NodeState_mine_block fuel s reward vk uniq z max with
  | (s', Ok hash) => ∃ db', stores db' s' ∧ index_ok db'
      ∧ debug_mine fuel home state wallet reward uniq bits max c = (saved c path db', Ok (s', hash))
  | (_, Err e) => debug_mine fuel home state wallet reward uniq bits max c
      = (c, Err ((λ e, Failed "block rejected" (CauseNode e)) <$> e))
  | (_, Panic) => debug_mine fuel home state wallet reward uniq bits max c = (c, Panic)
  end.
Proof using L BL.
  intros [Hd (wp & Hp & Hw) Hdb Hs Hi] Hz Hrw Hu Hzu Hmax.
  destruct (wallet_public_run w c (loaded_wallet_inv _ _ _ Hw)) as (vk & Hvk & Hpub).
  exists vk. split; [done|].
  destruct (NodeState_mine_block fuel s reward vk uniq z max) as [s' r] eqn:Hm.
  assert (debug_mine fuel home state wallet reward uniq bits max c
    = (hash ← mined_or "block rejected" r; _ ← save_sqlite_state path s'; mret (s', hash)) c) as ->.
  { unfold debug_mine.
    cli_run ltac:(exact Hp). cli_run ltac:(by apply on_disk_run).
    cli_run ltac:(by eapply load_sqlite_run). cli_run ltac:(exact Hpub).
    cli_run ltac:(by unfold parse_bits_or_fail, some_or; rewrite Hz). by rewrite Hm. }
  assert (node_inv s') as Hi' by (by eapply NodeState_mine_block_keeps; [..|exact Hm]).
  destruct r as [hash|e|].
  - destruct (save_sqlite_run c path db s' Hd Hdb Hi') as (db' & Hst & Hidx & Hrun).
    exists db'. split_and!; [done..|]. cli_run ltac:(done). by cli_run ltac:(exact Hrun).
  - by erewrite cli_bind_Err by done.
  - by erewrite cli_bind_Panic by done.
Qed.

(** [wobble debug mine-pending] is the node's [mine_block] on the stored state: on success the
    database at the state path holds the node afterwards (its chain, coins, mempool and a
    consistent transaction index), the mined block is its best tip unless it was known, every
    other file is as before and the lines name the block and the new counts; when mining fails, the
    disk and the output are untouched, also where the failed block left the
    in-memory node changed. *)
Theorem debug_mine_pending_correct (cmd : MinePendingCommand) (c : Cli) (path : string) (w : Wallet)
    (db : SqliteStore) (s : NodeState) (z : Z) :
  debug_files c (mp_home cmd) (mp_state_path cmd) (mp_wallet_path cmd) path w db s →
  tip_synced s → Z.of_nat (size (entries (chain s))) < 2 ^ 64 →
  parse_bits (mp_bits cmd) = Some z → u64 (mp_reward cmd) → u32 (mp_uniqueness cmd) → u32 z →
  0 ≤ mp_max_transactions cmd →
  ∃ vk, Wallet_verifying_key w = Some vk ∧
  match NodeState_mine_block fuel s (mp_reward cmd) vk (mp_uniqueness cmd) z (mp_max_transactions cmd) with
  | (s', Ok hash) => ∃ db', stores db' s' ∧ index_ok db' ∧ node_inv s' ∧ tip_synced s'
      ∧ (entries (chain s) !! hash = None → best_tip (chain s') = Some hash)
      ∧ run_debug fuel (MinePending cmd) c
        = (printed (saved c path db')
             ["mined block " +:+ BlockHash_to_string hash;
              "new best tip: " +:+ format_hash (best_tip (chain s'));
              "active utxos: " +:+ decimal (Z.of_nat (size (active_utxos s')));
              "mempool txs: " +:+ decimal (Z.of_nat (size (mempool s')))], Ok ())
  | (_, Err e) => run_debug fuel (MinePending cmd) c
      = (c, Err ((λ e, Failed "block rejected" (CauseNode e)) <$> e))
  | (_, Panic) => run_debug fuel (MinePending cmd) c = (c, Panic)
  end.
Proof using L BL.
  intros Hf Hsync Hsz Hz Hrw Hu Hzu Hmax.
  destruct (debug_mine_run c _ _ _ path w db s (mp_reward cmd) (mp_uniqueness cmd) (mp_bits cmd)
    (mp_max_transactions cmd) z Hf Hz Hrw Hu Hzu Hmax) as (vk & Hvk & Hrun).
  exists vk. split; [done|]. cbn [run_debug].
  destruct (NodeState_mine_block _ _ _ _ _ _ _) as [s' [hash|e|]] eqn:Hm.
  - destruct Hrun as (db' & Hst & Hidx & Hrun). exists db'.
    destruct (NodeState_mine_block_inv _ _ _ _ _ _ _ _ _ (df_inv _ _ _ _ _ _ _ _ Hf) Hrw Hu Hzu Hmax Hsz Hm)
      as (Hi' & _ & Hs').
    apply NodeState_mine_block_spec in Hm as (b & ids & s1 & Ha & Hw & He & -> & Hprev & _ & ->);
      [|apply Hf|done..].
    destruct (accept_block_spec s b s1 _ (df_inv _ _ _ _ _ _ _ _ Hf) Hw He Hsz Ha) as (_ & [e Hins] & _ & _).
    split_and!; [done..|by apply Hs'| |].
    + intros Hnew. by eapply (child_of_tip_is_best (chain s) b); [apply Hf|..].
    + cli_run ltac:(exact Hrun). cli_run ltac:(apply print_all_run).
      unfold println, printed. cbn. by rewrite <-app_assoc.
  - by erewrite cli_bind_Err by exact Hrun.
  - by erewrite cli_bind_Panic by exact Hrun.
Qed.

End debugging.

(** ** serve *)

Section serving.
Context `{C : Crypto} `{B : Bincode} `{F : !FileFormats}.
Context `{JQ : SerdeJson AdminRequest} `{JR : SerdeJson AdminResponse} `{JW : SerdeJson WireMessage}.
Context `{W : !Surroundings}.

(** Whether integrated mining is on: [--no-mining] wins, then the flags, then the file. *)
Definition mining_wanted (c : MiningSection) (cmd : ServeCommand) : bool :=
  negb (no_mining cmd) && (sc_mining cmd || bool_decide (is_Some (miner_wallet cmd)) || enabled c).

(** The difficulty texts that are parsed, in order. *)
Definition bits_texts (c : MiningSection) (cmd : ServeCommand) : list string :=
  match mining_bits cmd with Some v => [v; section_bits c] | None => [section_bits c] end.

Definition malformed (v : string) : bool := bool_decide (parse_bits v = None).

Lemma ok_or_parse v :
  ok_or (parse_bits v) (Invalid "bits" v)
  = if malformed v then Err (Invalid "bits" v) else Ok (default 0 (parse_bits v)).
Proof using. unfold malformed. by destruct (parse_bits v). Qed.

(** The wallet that is paid. *)
Definition reward_path (h : NodeHome) (c : MiningSection) (cmd : ServeCommand) : string :=
  match miner_wallet cmd, reward_wallet c with
  | Some p, _ => p
  | None, Some p => if is_absolute p then p else join (root h) p
  | None, None => wallet_path h
  end.

Lemma resolve_mining_runtime_cases h c cmd :
  resolve_mining_runtime h c cmd
  = if negb (mining_wanted c cmd) then Ok None
    else match List.find malformed (bits_texts c cmd) with
         | Some v => Err (Invalid "bits" v)
         | None => Ok (Some {|
             rt_wallet_path := reward_path h c cmd;
             rt_interval_ms := default (interval_ms c) (mining_interval_ms cmd);
             rt_max_transactions := default (section_max_transactions c) (mining_max_transactions cmd);
             rt_bits := default 0 (parse_bits (default (section_bits c) (mining_bits cmd)))
           |})
         end.
Proof using.
  unfold resolve_mining_runtime, mining_wanted, bits_texts, reward_path. rewrite !ok_or_parse.
  destruct (no_mining cmd); [done|]. cbn [negb andb].
  assert (∀ (b e : bool), (if b then true else e) = b || e) as Hor by by intros [] [].
  rewrite Hor. destruct (negb _); [done|].
  destruct (mining_bits cmd) as [v|]; cbn [List.find].
  - rewrite ok_or_parse. destruct (malformed v); [done|]. cbn.
    destruct (malformed (section_bits c)); [done|]. cbn. by destruct (miner_wallet cmd).
  - destruct (malformed (section_bits c)); [done|]. cbn. by destruct (miner_wallet cmd).
Qed.

(** The configuration to serve with: a flag that is given overrides the file, and what is advertised is the
    file's address or else the address listened at. *)
Definition overridden {A} (flag : option A) (file : A) : A :=
  match flag with Some v => v | None => file end.

Definition served_config (cfg : NodeConfig) (cmd : ServeCommand) : NodeConfig := {|
  listen_addr := overridden (sc_listen_addr cmd) (listen_addr cfg);
  admin_addr := admin_addr cfg;
  config_network := overridden (sc_network cmd) (config_network cfg);
  config_node_name := overridden (Some <$> sc_node_name cmd) (config_node_name cfg);
  config_advertised_addr :=
    Some (overridden (config_advertised_addr cfg) (overridden (sc_listen_addr cmd) (listen_addr cfg)));
  config_mining := config_mining cfg
|}.

Lemma resolve_serve_config_served cfg cmd : resolve_serve_config cfg cmd = served_config cfg cmd.
Proof using.
  unfold resolve_serve_config, served_config.
  by destruct (sc_listen_addr cmd), (sc_network cmd), (sc_node_name cmd), (config_advertised_addr cfg).
Qed.

(** The server of a home. *)
Definition served (cfg : NodeConfig) (cmd : ServeCommand) (s : NodeState) (ps : list PeerEndpoint)
    (db : SqliteStore) (m : option MiningConfig) : Server :=
  Server_new {|
    opt_config := served_config cfg cmd; opt_state := s; opt_peers := ps; opt_store := Some db;
    opt_bootstrap_sync := true; opt_mining := m; opt_channel_capacity := 64
  |}.

(** The mining configuration of the runtime settings and a wallet's default key. *)
Definition mining_of (rt : MiningRuntime) (vk : VerifyingKey) : MiningConfig := {|
  miner_verifying_key := vk; interval := rt_interval_ms rt;
  config_max_transactions := rt_max_transactions rt; config_bits := rt_bits rt; next_uniqueness := 0
|}.

Lemma open_server_run c path db o :
  healthy (cli_disk c) → has_db (cli_disk c) path db →
  open_server path o c = (c, Ok (Server_new (with_sqlite_path o db))).
Proof using.
  intros Hd Hdb. unfold open_server. erewrite disk_bind_run by by eapply open_run.
  erewrite query_run by done. by destruct c.
Qed.

Lemma build_mining_run rt w c :
  load_wallet (rt_wallet_path rt) (cli_disk c) = (cli_disk c, Ok w) →
  ∃ vk, Wallet_verifying_key w = Some vk
    ∧ build_mining_config (Some rt) c = (c, Ok (Some (mining_of rt vk))).
Proof using.
  intros Hw. destruct (wallet_public_run w c (loaded_wallet_inv _ _ _ Hw)) as (vk & Hvk & Hpub).
  exists vk. split; [done|]. cbn [build_mining_config].
  cli_run ltac:(by apply on_disk_run). by cli_run ltac:(exact Hpub).
Qed.

(** [run_serve] from the mining settings on. *)
Definition serve_with (h : NodeHome) (cfg : NodeConfig) (cmd : ServeCommand) (s : NodeState)
    (ps : list PeerEndpoint) (runtime : option MiningRuntime) : cli_op Server :=
  mining ← build_mining_config runtime;
  let o := with_channel_capacity (with_bootstrap_sync
             (with_peers (ServerOptions_new (resolve_serve_config cfg cmd) s) ps) true) 64 in
  let o := match mining with Some m => with_mining o m | None => o end in
  sv ← open_server (state_path h) o;
  _ ← print_all (serve_lines h cfg (resolve_serve_config cfg cmd) sv
                   (default (peers_path h) (sc_peers_path cmd)) runtime ps);
  mret sv.

Lemma run_serve_prefix cmd c h cfg w db s ps :
  command_home (sc_home cmd) = Some h → home_holds (cli_disk c) h cfg w db →
  load_node_state db = Ok s →
  load_peer_endpoints (default (peers_path h) (sc_peers_path cmd)) (cli_disk c) = (cli_disk c, Ok ps) →
  run_serve cmd c
  = (cli_result (resolve_mining_runtime h (config_mining cfg) cmd) ≫= serve_with h cfg cmd s ps) c.
Proof using.
  intros Hh [Hd Hcfg Hw Hdb] Hs Hps. unfold run_serve.
  cli_run ltac:(by apply home_run). cli_run ltac:(by apply on_disk_run).
  cli_run ltac:(by eapply on_disk_run, load_disk_run). by cli_run ltac:(by apply on_disk_run).
Qed.

Lemma serve_with_run c h cfg cmd s ps db runtime mining :
  healthy (cli_disk c) → has_db (cli_disk c) (state_path h) db →
  build_mining_config runtime c = (c, Ok mining) →
  let sv := served cfg cmd s ps db mining in
  serve_with h cfg cmd s ps runtime c
  = (printed c (serve_lines h cfg (resolve_serve_config cfg cmd) sv
       (default (peers_path h) (sc_peers_path cmd)) runtime ps), Ok sv).
Proof using.
  intros Hd Hdb Hm sv. unfold serve_with. cli_run ltac:(exact Hm). cbv zeta.
  cli_run ltac:(by apply open_server_run). cli_run ltac:(apply print_all_run). subst sv.
  unfold served. rewrite <-resolve_serve_config_served. by destruct mining.
Qed.

(** C21: [wobble serve] on every branch of its mining settings, for a home whose files load.  Without
    mining, it starts the server of the stored state, the configured peers and the configuration of the file, in which the
    flags for the listen address, the network and the node name take precedence, and which advertises the address listened at unless the file has another.  With mining,
    every difficulty text that is present, that of the flag and that of the
    file, must parse: the first one that does not is the error, and nothing is printed or written; then a
    reward wallet that does not load is the error; otherwise the miner is paid at that wallet's default
    key, with each flag taking precedence over the file. *)
Theorem run_serve_correct (cmd : ServeCommand) (c : Cli) (h : NodeHome) (cfg : NodeConfig) (w : Wallet)
    (db : SqliteStore) (s : NodeState) (ps : list PeerEndpoint) :
  command_home (sc_home cmd) = Some h → home_holds (cli_disk c) h cfg w db →
  load_node_state db = Ok s →
  load_peer_endpoints (default (peers_path h) (sc_peers_path cmd)) (cli_disk c) = (cli_disk c, Ok ps) →
  let m := config_mining cfg in
  if negb (mining_wanted m cmd) then
    ∃ lines, run_serve cmd c = (printed c lines, Ok (served cfg cmd s ps db None))
  else
    match List.find malformed (bits_texts m cmd) with
    | Some v => run_serve cmd c = (c, Err (Some (Invalid "bits" v)))
    | None =>
        match load_wallet (reward_path h m cmd) (cli_disk c) with
        | (_, Ok rw) =>
            ∃ vk z lines, Wallet_verifying_key rw = Some vk
              ∧ parse_bits (default (section_bits m) (mining_bits cmd)) = Some z
              ∧ run_serve cmd c = (printed c lines, Ok (served cfg cmd s ps db (Some {|
                  miner_verifying_key := vk;
                  interval := default (interval_ms m) (mining_interval_ms cmd);
                  config_max_transactions :=
                    default (section_max_transactions m) (mining_max_transactions cmd);
                  config_bits := z;
                  next_uniqueness := 0 |})))
        | (_, Err e) =>
            run_serve cmd c = (c, Err (Some (Failed "wallet load failed" (CauseWallet e))))
        | (_, Panic) => run_serve cmd c = (c, Panic)
        end
    end.
Proof using.
  intros Hh Hhh Hs Hps m. pose proof Hhh as [Hd _ _ Hdb].
  rewrite (run_serve_prefix cmd c h cfg w db s ps) by done.
  unfold mbind at 1 2 3 4 5. unfold cli_bind, cli_result. rewrite resolve_mining_runtime_cases. fold m.
  destruct (negb (mining_wanted m cmd)); cbn [map_err].
  { eexists. by apply serve_with_run. }
  destruct (List.find malformed (bits_texts m cmd)) as [v|] eqn:Hfind; cbn [map_err]; [done|].
  set (rt := {| rt_wallet_path := _ |}).
  destruct (load_wallet (reward_path h m cmd) (cli_disk c)) as [d r] eqn:Hw.
  assert (d = cli_disk c) as -> by (rewrite <-(load_wallet_healthy (reward_path h m cmd)), Hw; done).
  assert (∃ z, parse_bits (default (section_bits m) (mining_bits cmd)) = Some z) as [z Hz].
  { unfold bits_texts in Hfind. destruct (mining_bits cmd) as [v|]; cbn in Hfind |- *.
    - destruct (malformed v) eqn:Hv; [done|]. unfold malformed in Hv.
      destruct (parse_bits v); [by eexists|done].
    - destruct (malformed (section_bits m)) eqn:Hv; [done|]. unfold malformed in Hv.
      destruct (parse_bits (section_bits m)); [by eexists|done]. }
  destruct r as [rw|e|].
  - destruct (build_mining_run rt rw c Hw) as (vk & Hvk & Hbuild). exists vk, z. eexists.
    split_and!; [done..|]. etransitivity; [by apply serve_with_run|].
    unfold mining_of, rt. cbn. by rewrite Hz.
  - unfold serve_with. etransitivity; [eapply cli_bind_Err|done]. cbn [build_mining_config].
    etransitivity; [eapply cli_bind_Err|done]. by apply on_disk_Err.
  - unfold serve_with. etransitivity; [eapply cli_bind_Panic|done]. cbn [build_mining_config].
    etransitivity; [eapply cli_bind_Panic|done]. by apply on_disk_Panic.
Qed.

End serving.

(** ** A new home, a new key *)

Section homes.
Context `{C : Crypto} `{B : Bincode} `{F : !FileFormats}.
Context `{JQ : SerdeJson AdminRequest} `{JR : SerdeJson AdminResponse} `{JW : SerdeJson WireMessage}.
Context `{W : !Surroundings}.
Context `{L : !CryptoLaws C} `{BL : !BincodeLaws B} `{FL : !FileFormatsLaws F}.

(** [wobble serve --home home]. *)
Definition plain_serve (home : option string) : ServeCommand := {|
  sc_home := home; log_stderr := false; sc_listen_addr := None; sc_network := None;
  sc_node_name := None; sc_peers_path := None; sc_mining := false; no_mining := false;
  miner_wallet := None; mining_interval_ms := None; mining_max_transactions := None;
  mining_bits := None
|}.

(** A home as [init] leaves it. *)
Record fresh_home (d : Disk) (h : NodeHome) : Prop := {
  fh_holds : home_holds d h NodeConfig_default (Wallet_generate fresh) empty_store;
  fh_peers : load_peer_endpoints (peers_path h) d = (d, Ok []);
  fh_logs : disk_files d !! logs_dir h = None
}.

Lemma init_run home h c :
  command_home home = Some h → healthy (cli_disk c) →
  disk_files (cli_disk c) !! root h = None → disk_files (cli_disk c) !! logs_dir h = None →
  (∀ p, p ∈ home_files h → occupied (cli_disk c) p = false) →
  ∃ d' ls, run_init home c = (printed (on_new_disk c d') ls, Ok ()) ∧ fresh_home d' h.
Proof using L FL.
  intros Hh Hd Hr Hl Hfree.
  destruct (initialize_fresh h fresh (cli_disk c) Hd Hr Hl Hfree)
    as (d' & Hinit & Hd' & Hdb & Hdir & Hw & Hp & Hc & Hlogs).
  destruct (wallet_public_run (Wallet_generate fresh) (on_new_disk c d') (wallet_inv_generate _))
    as (vk & Hvk & _).
  exists d'. eexists. split.
  - unfold run_init. cli_run ltac:(by apply home_run). cli_run ltac:(by apply on_disk_new).
    cli_run ltac:(by apply on_disk_run). cli_run ltac:(by apply on_disk_run).
    cli_run ltac:(apply print_all_run).
    cli_run ltac:(by unfold wallet_public, cli_expect; rewrite Hvk).
    unfold println, printed. cbn [cli_disk cli_out cli_sent]. by rewrite <-app_assoc.
  - split; [|done|done]. split; [done..|]. split; [|done]. rewrite Hdb. apply sqlite_parse_image.
Qed.

Lemma serve_fresh_run home h c :
  command_home home = Some h → fresh_home (cli_disk c) h →
  ∃ lines, run_serve (plain_serve home) c
    = (printed c lines,
       Ok (served NodeConfig_default (plain_serve home) NodeState_new [] empty_store None)).
Proof using L.
  intros Hh [[Hd Hc Hw Hdb] Hp Hlogs]. eexists.
  etransitivity; [apply (run_serve_prefix _ _ h NodeConfig_default (Wallet_generate fresh) empty_store NodeState_new []);
    [done|by split|apply load_new_state|done]|].
  cli_run ltac:(done). by apply serve_with_run.
Qed.

(** The first run: on a disk that lets operations through, where no file of the home exists,
    [wobble init] succeeds, and [wobble serve] on what it left starts the server of the empty node,
    with the default configuration, no peers, no mining and an empty database. *)
Theorem init_then_serve (home : option string) (h : NodeHome) (c : Cli) :
  command_home home = Some h → healthy (cli_disk c) →
  disk_files (cli_disk c) !! root h = None → disk_files (cli_disk c) !! logs_dir h = None →
  (∀ p, p ∈ home_files h → occupied (cli_disk c) p = false) →
  ∃ c1 lines, run_init home c = (c1, Ok ())
    ∧ load_wallet (wallet_path h) (cli_disk c1) = (cli_disk c1, Ok (Wallet_generate fresh))
    ∧ run_serve (plain_serve home) c1
      = (printed c1 lines,
         Ok (served NodeConfig_default (plain_serve home) NodeState_new [] empty_store None)).
Proof using L FL.
  intros Hh Hd Hr Hl Hfree. destruct (init_run home h c Hh Hd Hr Hl Hfree) as (d' & ls & Hrun & Hf).
  destruct (serve_fresh_run home h (printed (on_new_disk c d') ls) Hh Hf) as (lines & Hserve).
  exists (printed (on_new_disk c d') ls), lines. split_and!; [done|apply Hf|done].
Qed.

(** [wobble wallet new-key]: a name that is taken is refused and nothing changes; otherwise
    the wallet file afterwards loads as the old wallet with the fresh key appended under that name, the
    default key is still the same one, and no other file has changed. *)
Theorem new_key_correct (cmd : NewKeyCommand) (c : Cli) (h : NodeHome) (w : Wallet) :
  command_home (nk_home cmd) = Some h → healthy (cli_disk c) →
  load_wallet (wallet_path h) (cli_disk c) = (cli_disk c, Ok w) →
  if bool_decide (nk_name cmd ∈ names w) then
    run_wallet_new_key cmd c
    = (c, Err (Some (Failed "wallet new-key failed" (CauseWallet (DuplicateKeyName (nk_name cmd))))))
  else
    let w' := {| default_key := default_key w;
                 wallet_keys := wallet_keys w ++ [{| key_name := nk_name cmd; key_signing_key := fresh |}] |} in
    ∃ bs, let d' := with_file (cli_disk c) (wallet_path h) bs in
      load_wallet (wallet_path h) d' = (d', Ok w')
      ∧ Wallet_verifying_key w' = Wallet_verifying_key w
      ∧ run_wallet_new_key cmd c
        = (printed (on_new_disk c d')
             ["wallet: " +:+ wallet_path h; "added key: " +:+ nk_name cmd;
              "public: " +:+ encode_hex (verifying_key_bytes (SigningKey_verifying_key fresh))], Ok ()).
Proof using L FL.
  intros Hh Hd Hw. pose proof (loaded_wallet_inv _ _ _ Hw) as Hwi.
  assert (has_name (nk_name cmd) (wallet_keys w) = bool_decide (nk_name cmd ∈ names w)) as Hn
    by apply has_name_spec.
  case_bool_decide as Hin.
  - unfold run_wallet_new_key. cli_run ltac:(by apply home_run). cli_run ltac:(by apply on_disk_run).
    unfold generate_key. rewrite Hn. by eapply cli_bind_Err.
  - intros w'. pose proof (wallet_inv_generate_key (EncodeError:=EncodeError) (DecodeError:=DecodeError)
      w (nk_name cmd) fresh Hwi) as Hwi'.
    unfold generate_key in Hwi'. rewrite Hn in Hwi'. cbn in Hwi'. fold w' in Hwi'.
    destruct (save_load_wallet (wallet_path h) (cli_disk c) w' Hd Hwi') as (bs & Hs & Hl).
    exists bs. split_and!; [done| |].
    + destruct (default_wallet_key_total w Hwi) as (k & Hk & _). unfold Wallet_verifying_key.
      unfold default_wallet_key in *. cbn. by rewrite (find_key_app _ _ _ k), Hk.
    + unfold run_wallet_new_key. cli_run ltac:(by apply home_run). cli_run ltac:(by apply on_disk_run).
      unfold generate_key. rewrite Hn. cli_run ltac:(done).
      cli_run ltac:(by apply on_disk_new). apply print_all_run.
Qed.

End homes.
