(* ===== verification/Process.v ===== *)
(** * main.rs and logging.rs: the process

    [main] installs the tracing subscriber, runs the command, and turns its error into a line on
    the standard error and the exit code.  For [serve] the subscriber writes to a file below the node home, and
    its directory is made before anything is read from the home.  tracing_appender is
    third party: the class [Tracing], whose appender creates its file when it is built. *)

From S2P Require Import Prelude Bytes Crypto Types State Consensus Chain Mempool Wire.
From S2P Require Import Admin Mining NodeState Home Peers Client Files Wallet Aliases TxIndex Store.
From S2P Require Import HomeDir HomeProofs Runtime Server Shell CliText Cli CliFrame.

(** [rolling::daily(dir, prefix)], which fails by a panic, and the [Display] of an [io::Error]. *)
Class Tracing := {
  rolling_daily : string → string → disk_op Empty_set unit;
  io_display : io_Error → string
}.

(** The appender only writes files of its own directory. *)
Class TracingLaws (T : Tracing) : Prop := {
  daily_in_directory dir prefix d p :
    (∀ name, is_absolute name = false → name ≠ EmptyString → p ≠ join dir name) →
    disk_files (rolling_daily dir prefix d).1 !! p = disk_files d !! p;
  daily_keeps_directories dir prefix d :
    disk_dirs (rolling_daily dir prefix d).1 = disk_dirs d;
  daily_keeps_faults dir prefix d :
    healthy d → healthy (rolling_daily dir prefix d).1
}.

(** Where events go: the standard error, or the home log with an optional mirror. *)
Inductive Subscriber := StderrSubscriber | FileSubscriber (mirror : bool).

(** [proc_subscriber] is what [INIT_LOGGING] has installed. *)
Record Process := {
  proc_cli : Cli;
  proc_stderr : list string;
  proc_subscriber : option Subscriber
}.

Inductive Outcome `{C : Crypto} `{B : Bincode} :=
| Exited (code : Z)
| Panicked
| Searching
| Started (sv : Server).

Section process.
Context `{C : Crypto} `{B : Bincode} `{F : !FileFormats}.
Context `{JQ : SerdeJson AdminRequest} `{JR : SerdeJson AdminResponse} `{JW : SerdeJson WireMessage}.
Context `{W : !Surroundings} `{T : !Tracing}.
Context (fuel : nat) (debug : Cause → string).

Definition set_proc_disk (p : Process) (d : Disk) : Process := {|
  proc_cli := {| cli_disk := d; cli_out := cli_out (proc_cli p); cli_sent := cli_sent (proc_cli p) |};
  proc_stderr := proc_stderr p; proc_subscriber := proc_subscriber p
|}.
Definition set_proc_cli (p : Process) (c : Cli) : Process := {|
  proc_cli := c; proc_stderr := proc_stderr p; proc_subscriber := proc_subscriber p
|}.
Definition eprintln (p : Process) (line : string) : Process := {|
  proc_cli := proc_cli p; proc_stderr := proc_stderr p ++ [line]; proc_subscriber := proc_subscriber p
|}.
Definition install (p : Process) (s : Subscriber) : Process := {|
  proc_cli := proc_cli p; proc_stderr := proc_stderr p; proc_subscriber := Some s
|}.

(** [INIT_LOGGING.call_once]. *)
Definition call_once (f : Process → Process * may_panic unit) (p : Process) : Process * may_panic unit :=
  match proc_subscriber p with
  | Some _ => (p, Some ())
  | None => f p
  end.

Definition init_cli_tracing : Process → Process * may_panic unit :=
  call_once (λ p, (install p StderrSubscriber, Some ())).

Definition init_server_tracing (log_dir : string) (log_stderr : bool)
    : Process → Process * may_panic unit :=
  call_once (λ p,
    let '(d, made) := create_dir_all log_dir (cli_disk (proc_cli p)) in
    let p := set_proc_disk p d in
    let p := match made with
             | Err err =>
                 eprintln p ("log directory create failed for " +:+ log_dir +:+ ": " +:+ io_display err)
             | _ => p
             end in
    let '(d, file_appender) := rolling_daily log_dir "server.log" (cli_disk (proc_cli p)) in
    let p := set_proc_disk p d in
    match file_appender with
    | Ok _ => (install p (FileSubscriber log_stderr), Some ())
    | _ => (p, None)
    end).

Definition init_logging_for_cli (cmd : Command) (p : Process) : Process * may_panic unit :=
  match cmd with
  | Serve c =>
      match (resolve_node_home (sc_home c) (proc_cli p)).2 with
      | Ok home => init_server_tracing (logs_dir home) (log_stderr c) p
      | _ => init_cli_tracing p
      end
  | _ => init_cli_tracing p
  end.

(** What [main] does with the result of a command. *)
Definition finish (p : Process) (r : result (option CliError) Outcome) : Process * Outcome :=
  match r with
  | Ok o => (p, o)
  | Err (Some e) => (eprintln p (message debug e), Exited 1)
  | Err None => (p, Searching)
  | Panic => (p, Panicked)
  end.

(** [main], up to [server.start(None)] for [serve]. *)
Definition main (cmd : Command) (p : Process) : Process * Outcome :=
  match init_logging_for_cli cmd p with
  | (p, None) => (p, Panicked)
  | (p, Some _) =>
      match cmd with
      | Serve c =>
          let '(c', r) := run_serve c (proc_cli p) in
          finish (set_proc_cli p c') (sv ← r; Ok (Started sv))
      | _ =>
          let '(c', r) := run fuel cmd (proc_cli p) in
          finish (set_proc_cli p c') (_ ← r; Ok (Exited 0))
      end
  end.

(** ... and after it. *)
Definition serve_returned (p : Process) (r : result io_Error NodeState) : Process * Outcome :=
  match r with
  | Ok _ => (p, Exited 0)
  | Err err => (eprintln p ("server failed: " +:+ io_display err), Exited 1)
  | Panic => (p, Panicked)
  end.

(** ** What the set-up of the log changes *)

(** The files below the log directory of [serve]. *)
Definition log_file (cmd : Command) (path : string) : Prop :=
  match cmd with
  | Serve c => ∃ h name, command_home (sc_home c) = Some h ∧ is_absolute name = false
      ∧ name ≠ EmptyString ∧ path = join (logs_dir h) name
  | _ => False
  end.

Definition proc_disk (p : Process) : Disk := cli_disk (proc_cli p).

Lemma call_once_disk f p p' r path :
  call_once f p = (p', r) →
  (∀ q q' r', f q = (q', r') → disk_files (proc_disk q') !! path = disk_files (proc_disk q) !! path) →
  disk_files (proc_disk p') !! path = disk_files (proc_disk p) !! path.
Proof using. unfold call_once. destruct (proc_subscriber p); [by intros [= <- <-]|]. eauto. Qed.

Lemma init_server_files `{TL : !TracingLaws T} dir mirror p p' r path :
  init_server_tracing dir mirror p = (p', r) →
  (∀ name, is_absolute name = false → name ≠ EmptyString → path ≠ join dir name) →
  disk_files (proc_disk p') !! path = disk_files (proc_disk p) !! path.
Proof using.
  intros Hrun Hout. eapply call_once_disk; [exact Hrun|]. clear p p' r Hrun. intros p p' r. cbv beta.
  pose proof (disk_touches_create_dir ∅ dir (cli_disk (proc_cli p)) path ltac:(set_solver)) as Hdir.
  destruct (create_dir_all dir (cli_disk (proc_cli p))) as [d made]. cbn [fst] in Hdir.
  pose proof (daily_in_directory dir "server.log" d path Hout) as Hdaily. unfold proc_disk in *.
  destruct made; cbn [set_proc_disk eprintln proc_cli cli_disk]; destruct (rolling_daily dir "server.log" d) as [d' [[]|[]|]]; cbn in Hdaily;
    intros Heq; injection Heq as Hp Hr; subst p'; cbn; congruence.
Qed.

Lemma init_logging_files `{TL : !TracingLaws T} cmd p p' r path :
  init_logging_for_cli cmd p = (p', r) → ¬ log_file cmd path →
  disk_files (proc_disk p') !! path = disk_files (proc_disk p) !! path.
Proof using.
  assert (init_cli_tracing p = (p', r) →
    disk_files (proc_disk p') !! path = disk_files (proc_disk p) !! path) as Hcli.
  { intros Hrun. eapply call_once_disk; [exact Hrun|]. by intros q q' r' [= <- <-]. }
  destruct cmd; cbn [init_logging_for_cli log_file]; try (intros; by apply Hcli).
  intros Hrun Hlog.
  destruct (resolve_node_home (sc_home c) (proc_cli p)).2 as [h| |] eqn:Hh; [|by apply Hcli..].
  eapply init_server_files; [exact Hrun|]. intros name Hname Hne ->. apply Hlog. exists h, name.
  split; [|done]. unfold command_home, resolve_node_home, pure_or in *. destruct (sc_home c); cbn in Hh.
  - by injection Hh as <-.
  - destruct (from_default_dir env_home env_userprofile); cbn in Hh; congruence.
Qed.

Lemma finish_disk p r : proc_disk (finish p r).1 = proc_disk p.
Proof using. by destruct r as [|[]|]. Qed.

(** C20: A process writes only what its command names: whatever the disk does to its operations and
    whether the command succeeds, fails or panics, [main] leaves every file as it was, except those in
    [writes] of the command (for a database, its file and SQLite's journal beside it) and, for [serve],
    those of the log directory of the home.  For [serve] this is [main] up to [server.start]: what the
    running server saves is not part of it. *)
Theorem process_writes_only `{TL : !TracingLaws T} (cmd : Command) (p : Process) (path : string) :
  path ∉ writes cmd → ¬ log_file cmd path →
  disk_files (proc_disk (main cmd p).1) !! path = disk_files (proc_disk p) !! path.
Proof using.
  intros Hw Hlog. unfold main. destruct (init_logging_for_cli cmd p) as [p1 r1] eqn:Hinit.
  apply (init_logging_files cmd p p1 r1 path) in Hinit; [|done]. rewrite <-Hinit.
  destruct r1; [|done].
  pose proof (touches_run fuel (writes cmd) cmd ltac:(done) (proc_cli p1) path Hw) as Hrun.
  destruct cmd; try (destruct (run fuel _ (proc_cli p1)) as [c' r]; rewrite finish_disk; exact Hrun).
  cbn [run] in Hrun. unfold mbind, cli_bind in Hrun.
  destruct (run_serve c (proc_cli p1)) as [c' [sv|e|]]; rewrite finish_disk; exact Hrun.
Qed.

(** The exit code tells whether the command succeeded, and a failure is one line on the standard
    error. *)
Lemma main_exit cmd p p1 c' r :
  init_logging_for_cli cmd p = (p1, Some ()) → (∀ c, cmd ≠ Serve c) →
  run fuel cmd (proc_cli p1) = (c', r) →
  main cmd p = match r with
               | Ok _ => (set_proc_cli p1 c', Exited 0)
               | Err (Some e) => (eprintln (set_proc_cli p1 c') (message debug e), Exited 1)
               | Err None => (set_proc_cli p1 c', Searching)
               | Panic => (set_proc_cli p1 c', Panicked)
               end.
Proof using.
  intros Hinit Hns Hrun. unfold main. rewrite Hinit.
  destruct cmd; try (rewrite Hrun; by destruct r as [|[]|]). by destruct (Hns c).
Qed.

End process.
