(* ===== verification/ProcessProofs.v ===== *)
(** * The first run of a node

    What three processes do on a disk without a node home: [wobble serve], which fails
    but leaves the log directory behind, [wobble init], and [wobble serve] again. *)

From S2P Require Import Prelude Bytes Crypto Types State Consensus Chain Mempool Wire.
From S2P Require Import Admin Mining NodeState Home Peers Client Files Wallet Aliases TxIndex Store.
From S2P Require Import HomeDir HomeProofs Runtime Server Shell CliText Cli CliFrame CliProofs Process.

(** ** Log files are none of the home's files *)

Lemma string_app_assoc (a b c : string) : (a +:+ b) +:+ c = a +:+ (b +:+ c).
Proof.
  induction a as [|x a IH]; [done|].
  change (String x ((a +:+ b) +:+ c) = String x (a +:+ (b +:+ c))). by rewrite IH.
Qed.

Lemma join_prefix r : ∃ pre, (String.length r ≤ String.length pre)%nat
  ∧ ∀ q, is_absolute q = false → join r q = pre +:+ q.
Proof.
  destruct (bool_decide (r = EmptyString) || ends_with_slash r) eqn:Hr.
  - exists r. split; [done|]. intros q Hq. unfold join. by rewrite Hq, Hr.
  - exists (r +:+ "/"). split; [rewrite string_length_app; lia|]. intros q Hq. unfold join. rewrite Hq, Hr.
    by rewrite string_app_assoc.
Qed.

(** A file of the log directory starts like the directory. *)
Lemma log_file_prefix h name :
  is_absolute name = false →
  ∃ pre rest, (String.length (root h) ≤ String.length pre)%nat ∧ join (logs_dir h) name = pre +:+ ("logs" +:+ rest)
    ∧ ∀ q, is_absolute q = false → join (root h) q = pre +:+ q.
Proof.
  intros Hn. destruct (join_prefix (root h)) as (pre & Hlen & Hpre).
  destruct (join_prefix (logs_dir h)) as (pre' & _ & Hpre').
  unfold join at 1. rewrite Hn. unfold logs_dir, LOGS_DIRNAME. rewrite !(Hpre "logs") by done.
  destruct (_ || _).
  - exists pre, name. by rewrite string_app_assoc.
  - exists pre, ("/" +:+ name). by rewrite string_app_assoc.
Qed.

Lemma not_log_file h p name :
  is_absolute name = false → name ≠ EmptyString →
  p = root h ∨ p ∈ logs_dir h :: home_files h → p ≠ join (logs_dir h) name.
Proof.
  intros Hn Hne Hp. destruct (log_file_prefix h name Hn) as (pre & rest & Hlen & Hlog & Hhome).
  destruct Hp as [->|[->|Hp]%elem_of_cons].
  - rewrite Hlog. intros Heq%(f_equal String.length). rewrite !string_length_app in Heq. cbn in Heq. lia.
  - intros Heq. by apply (join_longer (logs_dir h) name Hn Hne).
  - rewrite Hlog. revert p Hp. apply Forall_forall. unfold home_files.
    unfold state_path, wallet_path, aliases_path, peers_path, config_path.
    repeat constructor; rewrite Hhome by done; intros Heq%string_app_inj; by cbn in Heq.
Qed.

(** ** Loading depends on one file *)

Definition reads {E A} (path : string) (m : disk_op E A) : Prop :=
  ∀ d d', healthy d → healthy d' → disk_files d' !! path = disk_files d !! path →
    m d = (d, (m d').2).

Lemma reads_pure {E A} path (r : result E A) : reads path (Files.lift r).
Proof. done. Qed.

Lemma reads_bind {E A D} path (m : disk_op E A) (k : A → disk_op E D) :
  reads path m → (∀ a, reads path (k a)) → reads path (m ≫= k).
Proof.
  intros Hm Hk d d' Hd Hd' Hf. unfold mbind, disk_bind.
  rewrite (Hm d d' Hd Hd' Hf). pose proof (Hm d' d Hd' Hd (eq_sym Hf)) as Hm'.
  destruct (m d') as [d1 r] eqn:E1. injection Hm' as -> Hr. destruct r as [a|e|]; cbn; [|done..].
  by apply Hk.
Qed.

Lemma reads_map_io {E A} path (f : io_Error → E) (m : disk_op io_Error A) :
  reads path m → reads path (map_io f m).
Proof. intros Hm d d' Hd Hd' Hf. unfold map_io. rewrite (Hm d d' Hd Hd' Hf). by destruct (m d'). Qed.

Lemma reads_file path : reads path (fs_read path).
Proof.
  intros d d' Hd Hd' Hf. unfold fs_read. rewrite !healthy_fault, !healthy_same by done. by rewrite Hf.
Qed.

Section loads.
Context `{C : Crypto} `{B : Bincode} `{F : !FileFormats}.

Lemma reads_text path : reads path (fs_read_to_string path).
Proof. apply reads_bind; [apply reads_file|]. intros bs. apply reads_pure. Qed.

Lemma reads_config h : reads (config_path h) (load_config h).
Proof. apply reads_bind; [apply reads_map_io, reads_text|]. intros bs. apply reads_pure. Qed.

Lemma reads_peers path : reads path (load_peer_endpoints (JsonError:=JsonError) path).
Proof. apply reads_bind; [apply reads_map_io, reads_text|]. intros bs. apply reads_pure. Qed.

Lemma reads_wallet path : reads path (load_wallet (EncodeError:=EncodeError) (DecodeError:=DecodeError) path).
Proof.
  apply reads_bind; [apply reads_map_io, reads_file|]. intros bs.
  destruct (file_decode bs) as [[file ?]|e|]; [| |apply reads_pure];
    (apply reads_bind; [apply reads_pure|]; intros ?; apply (reads_pure path (Ok _))).
Qed.

End loads.

(** ** Three processes *)

(** A process that has just been started. *)
Definition boot (d : Disk) : Process := {|
  proc_cli := {| cli_disk := d; cli_out := []; cli_sent := [] |}; proc_stderr := []; proc_subscriber := None
|}.

Section first_run.
Context `{C : Crypto} `{L : !CryptoLaws C} `{B : Bincode} `{F : !FileFormats} `{FL : !FileFormatsLaws F}.
Context `{JQ : SerdeJson AdminRequest} `{JR : SerdeJson AdminResponse} `{JW : SerdeJson WireMessage}.
Context `{W : !Surroundings} `{T : !Tracing} `{TL : !TracingLaws T}.
Context (fuel : nat) (debug : Cause → string).

(** The appender can be built in a directory that exists. *)
Definition appends : Prop :=
  ∀ dir prefix d, healthy d → dir ∈ disk_dirs d → (rolling_daily dir prefix d).2 = Ok ().

(** [d'] is [d] with a log directory. *)
Record with_logs (h : NodeHome) (d d' : Disk) : Prop := {
  wl_healthy : healthy d';
  wl_files p : p = root h ∨ p ∈ logs_dir h :: home_files h → disk_files d' !! p = disk_files d !! p;
  wl_dirs : disk_dirs d' = {[ logs_dir h ]} ∪ disk_dirs d
}.

Lemma logging_run h home d cmd :
  appends → command_home home = Some h → sc_home cmd = home → healthy d →
  disk_files d !! logs_dir h = None →
  ∃ d', init_logging_for_cli (Serve cmd) (boot d)
        = (install (boot d') (FileSubscriber (log_stderr cmd)), Some ())
    ∧ with_logs h d d'.
Proof using L FL TL.
  intros Happ Hh Hc Hd Hl. cbn [init_logging_for_cli]. rewrite Hc, (home_run home h) by done. cbn [snd].
  unfold init_server_tracing, call_once. cbn [boot proc_subscriber proc_cli cli_disk]. cbv beta.
  set (d1 := with_dir d (logs_dir h)).
  assert (create_dir_all (logs_dir h) d = (d1, Ok ())) as ->.
  { unfold create_dir_all. rewrite healthy_fault, Hl by done. unfold d1, with_dir. by rewrite Hd. }
  cbn [set_proc_disk proc_cli cli_disk cli_out cli_sent].
  pose proof (Happ (logs_dir h) "server.log" d1 eq_refl ltac:(unfold d1; set_solver)) as Hok.
  pose proof (λ p, daily_in_directory (logs_dir h) "server.log" d1 p) as Hfiles.
  pose proof (daily_keeps_directories (logs_dir h) "server.log" d1) as Hdirs.
  pose proof (daily_keeps_faults (logs_dir h) "server.log" d1 eq_refl) as Hd'.
  destruct (rolling_daily (logs_dir h) "server.log" d1) as [d' r]. cbn [fst snd] in *. subst r.
  exists d'. split; [done|]. split; [done| |done].
  intros p Hp. apply Hfiles. intros name Hn Hne. by apply not_log_file.
Qed.

(** Loading does not see the log directory. *)
Lemma logs_fresh_home h d d' : with_logs h d d' → fresh_home d h → fresh_home d' h.
Proof using.
  intros [Hd' Hfiles Hdirs] [[Hd Hc Hw Hdb] Hp Hl].
  assert (∀ p, p ∈ home_files h → disk_files d !! p = disk_files d' !! p) as Hsame.
  { intros p Hin. symmetry. apply Hfiles. right. by right. }
  split; [split|..].
  - done.
  - rewrite (reads_config h d' d Hd' Hd) by (apply Hsame; home_file). by rewrite Hc.
  - rewrite (reads_wallet _ d' d Hd' Hd) by (apply Hsame; home_file). by rewrite Hw.
  - destruct Hdb as [Hdb Hdir]. split; [by rewrite <-Hsame by home_file|]. rewrite Hdirs.
    pose proof (home_files_NoDup h) as [Hnl _]%NoDup_cons.
    intros [Heq%elem_of_singleton|?]%elem_of_union; [|done]. apply Hnl. rewrite <-Heq. home_file.
  - rewrite (reads_peers _ d' d Hd' Hd) by (apply Hsame; home_file). by rewrite Hp.
  - rewrite Hfiles by (right; left). done.
Qed.

(** A command other than [serve] that succeeds. *)
Lemma main_ok cmd d c :
  (∀ s, cmd ≠ Serve s) → run fuel cmd (proc_cli (boot d)) = (c, Ok ()) →
  main fuel debug cmd (boot d) = (set_proc_cli (install (boot d) StderrSubscriber) c, Exited 0).
Proof using.
  intros Hns Hrun. unfold main.
  assert (init_logging_for_cli cmd (boot d) = (install (boot d) StderrSubscriber, Some ())) as ->.
  { destruct cmd; try done. by destruct (Hns c0). }
  destruct cmd; try (cbn [install proc_cli]; by rewrite Hrun). by destruct (Hns c0).
Qed.

(** C40: The first run of a node, as processes.  On a disk that lets operations through and has no file of the home,
    [wobble serve] exits with code 1 and the missing configuration on the standard error, and leaves no file of a home but the
    log directory; that does not hinder [wobble init], which exits with code 0, after
    which [wobble serve] starts the server of the empty node with the default configuration, no
    peers, no mining and an empty database, and prints nothing on the standard error. *)
Theorem first_run (home : option string) (h : NodeHome) (d : Disk) :
  command_home home = Some h → appends → healthy d →
  disk_files d !! root h = None → disk_files d !! logs_dir h = None →
  (∀ p, p ∈ home_files h → occupied d p = false) →
  ∃ p1 p2 p3,
    main fuel debug (Serve (plain_serve home)) (boot d) = (p1, Exited 1)
    ∧ proc_stderr p1 = [message debug (Failed "config load failed"
        (CauseHome (HomeIo (io_error NotFound "No such file or directory"))))]
    ∧ logs_dir h ∈ disk_dirs (proc_disk p1)
    ∧ (∀ p, p ∈ home_files h → occupied (proc_disk p1) p = false)
    ∧ main fuel debug (Init home) (boot (proc_disk p1)) = (p2, Exited 0)
    ∧ main fuel debug (Serve (plain_serve home)) (boot (proc_disk p2))
      = (p3, Started (served NodeConfig_default (plain_serve home) NodeState_new [] empty_store None))
    ∧ proc_stderr p3 = [].
Proof using L FL TL.
  intros Hh Happ Hd Hr Hl Hfree.
  destruct (logging_run h home d (plain_serve home) Happ Hh eq_refl Hd Hl) as (d1 & Hlog1 & [Hd1 Hf1 Hdirs1]).
  assert (run_serve (plain_serve home) (proc_cli (boot d1)) = (proc_cli (boot d1), Err (Some (Failed
    "config load failed" (CauseHome (HomeIo (io_error NotFound "No such file or directory"))))))) as Hserve1.
  { unfold run_serve. cli_run ltac:(by apply home_run). eapply cli_bind_Err. unfold cli_load_config, on_disk.
    assert (disk_files d1 !! config_path h = None) as Hn.
    { rewrite Hf1 by (right; right; home_file). pose proof (Hfree (config_path h) ltac:(home_file)) as Ho.
      unfold occupied in Ho. apply orb_false_elim in Ho as [Ho _]. apply bool_decide_eq_false_1 in Ho.
      by apply eq_None_not_Some. }
    cbn [boot proc_cli cli_disk]. unfold load_config, fs_read_to_string, fs_read, mbind, disk_bind, map_io.
    by rewrite healthy_fault, healthy_same, Hn by done. }
  assert (∀ p, p ∈ home_files h → occupied d1 p = false) as Hfree1.
  { intros p Hp. specialize (Hfree p Hp). unfold occupied in *. rewrite Hf1 by (right; by right).
    apply orb_false_elim in Hfree as [-> Hdir]. apply bool_decide_eq_false_1 in Hdir. cbn.
    apply bool_decide_eq_false_2. rewrite Hdirs1. pose proof (home_files_NoDup h) as [Hnl _]%NoDup_cons.
    intros [->%elem_of_singleton|?]%elem_of_union; done. }
  destruct (init_run home h (proc_cli (boot d1)) Hh Hd1) as (d2 & ls & Hinit & Hf2); [by rewrite Hf1; auto|
    rewrite Hf1; [done|right; left]|done|].
  destruct (logging_run h home d2 (plain_serve home) Happ Hh eq_refl) as (d3 & Hlog3 & Hwl3); [apply Hf2..|].
  pose proof (logs_fresh_home h d2 d3 Hwl3 Hf2) as Hf3.
  destruct (serve_fresh_run home h (proc_cli (boot d3)) Hh Hf3) as (lines & Hserve3).
  eexists _, _, _. split_and!.
  - unfold main. rewrite Hlog1. cbn [install proc_cli]. rewrite Hserve1. reflexivity.
  - reflexivity.
  - cbn. rewrite Hdirs1. set_solver.
  - exact Hfree1.
  - apply main_ok; [done|]. exact Hinit.
  - unfold main. cbn [set_proc_cli proc_disk proc_cli printed on_new_disk cli_disk].
    rewrite Hlog3. cbn [install proc_cli]. rewrite Hserve3. reflexivity.
  - reflexivity.
Qed.

End first_run.
