(* ===== verification/EndToEnd.v ===== *)
(** * A payment, from the command line to the node

    [wobble pay] writes to the admin socket, [run_admin] hands the request to
    the event loop, whose handler admits the transaction, saves it, relays it and
    answers. *)

From S2P Require Import Prelude Bytes Crypto Types State Consensus Chain Mempool Wire.
From S2P Require Import Admin Mining NodeState Home Peers Client Files Peer Wallet Aliases TxIndex Store.
From S2P Require Import StoreProofs StoreSave HomeDir HomeProofs Runtime Server ServerLogic ServerRelay.
From S2P Require Import ServerStore ServerReturns Shell AdminTask CliText Cli CliFrame CliProofs.

(** ** The announced transaction is pending and stored *)

Section landing.
Context `{C : Crypto} `{L : !CryptoLaws C} `{B : Bincode} `{BL : !BincodeLaws B}.
Context `{N : !Environment} `{NR : !EnvironmentReturns N}.

Lemma up_same w s :
  runtime_handle s = runtime_handle (server w) → is_Some (sqlite_store s) →
  mining s = mining (server w) → up [] w → up [] (with_server w s).
Proof using. intros Hr Hs Hm (? & _ & ? & _). split_and!; cbn; [congruence|done|congruence|done]. Qed.

(** What follows the save, for a transaction. *)
Lemma relay_and_refresh_returns relay bt ids w :
  up [] w →
  ∃ w', (s ← gets state;
         _ ← (match (match relay with Some r => Some r | None => relay_message_from_replies s [] end) with
              | Some r => relay_best_effort r None
              | None => mret ()
              end);
         _ ← relay_new_best_tip_if_advanced bt None;
         maybe_refresh_mining (E:=ServerError) bt ids) w = (w', Ok ())
    ∧ keeps_db w w'.
Proof using NR.
  intros Hw. erewrite bind_returns by done.
  assert (∃ w1, (match (match relay with
      | Some r => Some r | None => relay_message_from_replies (state (server w)) [] end) with
    | Some r => relay_best_effort (E:=ServerError) r None | None => mret () end) w = (w1, Ok ())
    ∧ up [] w1 ∧ keeps_db w w1) as (w1 & H1 & Hw1 & [Hs1 Hh1]).
  { destruct relay as [m|]; [by apply relay_quiet|by exists w; split_and!; [..|by split]]. }
  erewrite bind_returns by exact H1.
  destruct (relay_tip_quiet (E:=ServerError) bt None w1 Hw1) as (w2 & H2 & Hw2 & [Hs2 Hh2]).
  erewrite bind_returns by exact H2. exists w2. split; [by apply refresh_quiet|split; [congruence|auto]].
Qed.

Lemma announce_tx_lands fuel tx id w s' :
  up [] w → node_inv (state (server w)) → db_holds w →
  Transaction_wf tx → encodable true tx → Transaction_txid tx = Some id →
  submit_transaction (state (server w)) tx = (s', Ok id) →
  mempool s' = <[id := tx]> (mempool (state (server w))) →
  ∃ w', Server_handle_message fuel (WAnnounceTx tx) w = (w', Ok [])
    ∧ state (server w') = s' ∧ db_holds w'.
Proof using L BL NR.
  intros Hw Hi (db & Hdb & Hst & Hidx) Htw He Hid Hsub Hmp.
  destruct (save_mempool_transaction_correct db _ tx s' id Hi Htw He Hst Hidx Hsub)
    as (db' & Hsave & Hidx' & _ & Hst').
  set (w1 := with_server w (set_state (server w) s')).
  set (w2 := with_server w1 (set_store (server w1) db')).
  assert (up [] w2) as Hw2.
  { apply up_same; [done|by eexists|done|]. apply up_same; [done|cbn; rewrite Hdb; by eexists|done|done]. }
  assert (db_holds w2) as Hh2 by (exists db'; split_and!; [done|by apply Hst'|done]).
  unfold Server_handle_message, handle_peer_message, handle_peer_announce_tx,
    handle_state_mutating_peer_message.
  erewrite bind_returns by done. cbn zeta.
  erewrite (bind_returns (expecting _)) by (unfold relay_message_before_handle; by rewrite Hid).
  erewrite (bind_returns (apply_announcement _) _ w w1 []).
  2: { unfold apply_announcement, attempt, node_do. by rewrite Hsub. }
  destruct (relay_and_refresh_returns (if mempool (state (server w)) !! id then None else Some (WAnnounceTx tx))
    (best_tip (chain (state (server w)))) (mempool_txids (mempool (state (server w)))) w2 Hw2) as (w' & Hrun & Hs & Hh).
  exists w'. split; [|split; [by rewrite Hs|by apply Hh]].
  erewrite bind_returns; [done|]. unfold save_and_relay.
  erewrite bind_returns.
  2: { unfold map_error, attempt, save_sqlite, has_store. erewrite bind_returns by done. cbn [server w1].
       unfold w1 at 1. cbn. rewrite Hdb. cbn. erewrite (store_do_run _ w1 db); [done|done|exact Hsave]. }
  exact Hrun.
Qed.

End landing.

(** ** The command next to a running server *)

(** [base] with the admin socket of the server in the world [w]. *)
Definition beside `{C : Crypto} `{B : Bincode} `{N : !Environment} `{JQ : SerdeJson AdminRequest}
    `{JR : SerdeJson AdminResponse} `{JW : SerdeJson WireMessage} (base : Surroundings)
    (request_text : json_error AdminRequest → string) (response_text : json_error AdminResponse → string)
    (fuel : nat) (w : World) : Surroundings := {|
  env_home := env_home (Surroundings:=base);
  env_userprofile := env_userprofile (Surroundings:=base);
  nanos := nanos (Surroundings:=base);
  fresh := fresh (Surroundings:=base);
  stream := list Ascii.ascii;
  admin_connect := to_server;
  admin_write := client_write;
  admin_read := client_read request_text response_text fuel w;
  Cli.bad_request := AdminTask.bad_request request_text;
  Cli.bad_response := AdminTask.bad_response response_text;
  admin_eof := closed_early;
  json_error_text := json_error_text (Surroundings:=base);
  tcp_connect := tcp_connect (Surroundings:=base);
  tcp_configure := tcp_configure (Surroundings:=base);
  response_debug := response_debug (Surroundings:=base)
|}.

Section payment.
Context `{C : Crypto} `{L : !CryptoLaws C} `{B : Bincode} `{BL : !BincodeLaws B}.
Context `{F : !FileFormats} `{FL : !FileFormatsLaws F}.
Context `{N : !Environment} `{NR : !EnvironmentReturns N}.
Context `{JQ : SerdeJson AdminRequest} `{JR : SerdeJson AdminResponse} `{JW : SerdeJson WireMessage}.
Context `{LQ : !SerdeJsonLaws AdminRequest JQ} `{LR : !SerdeJsonLaws AdminResponse JR}.
Context (base : Surroundings) (request_text : json_error AdminRequest → string).
Context (response_text : json_error AdminResponse → string) (fuel : nat) (w : World).

#[local] Instance here : Surroundings := beside base request_text response_text fuel w.

(** A valid transaction enters an empty pool. *)
Lemma submit_into_empty s tx id f :
  node_inv s → mempool s = ∅ → Transaction_wf tx → encodable true tx → Transaction_txid tx = Some id →
  tx_valid (active_utxos s) tx f →
  submit_transaction s tx = (set_mempool s {[ id := tx ]}, Ok id).
Proof using.
  intros Hi Hemp Hw He Hid Hv. unfold submit_transaction. rewrite Hemp.
  pose proof (submit_cases _ (active_wf s Hi) ∅ tx id (mempool_ok_empty _) Hw He Hid) as Hc.
  destruct (submit ∅ (active_utxos s) tx) as [[mp i]|e|]; [|exfalso|done].
  - destruct Hc as (-> & _ & f' & _ & [(_ & _ & ->)|(v & p & f2 & Hp & _)]); [done|].
    by rewrite lookup_empty in Hp.
  - apply transaction_fee_Ok in Hv; [|by apply active_wf|done].
    destruct e as [i|o|existing fee|lowest fee|ve]; cbn in Hc; [..|congruence].
    + destruct Hc as [_ [x Hx]]. by rewrite lookup_empty in Hx.
    + destruct Hc as (_ & (i & p & Hp & _) & _). by rewrite lookup_empty in Hp.
    + destruct Hc as (_ & _ & v & p & Hp & _). by rewrite lookup_empty in Hp.
    + destruct Hc as (_ & _ & Hsz & _). rewrite map_size_empty in Hsz. done.
Qed.

(** C12: A payment from the command line to the node.  Let the home's database be that of a running
    server without integrated mining, which holds the server's state, with no transaction pending.  For
    an amount within the balance of the paying key, [wobble pay] succeeds and prints the id of a
    transaction that pays the recipient; the handler of the event loop answered its request with that id,
    and left a node where exactly this transaction is pending and a database that holds this
    node's state, whatever the peers it was relayed to did. *)
Theorem payment_reaches_node (cmd : PayCommand) (c : Cli) (h : NodeHome) (cfg : NodeConfig)
    (wallet : Wallet) (db : SqliteStore) (recipient : VerifyingKey) (key : SigningKey) :
  let s := state (server w) in
  let U := active_utxos s in
  command_home (pay_home cmd) = Some h → home_holds (cli_disk c) h cfg wallet db →
  up [] w → sqlite_store (server w) = Some db → stores db s → index_ok db →
  node_inv s → mempool s = ∅ → coins_in_range U → total_value U < 2 ^ 64 → fits_u32 (size U) →
  parse_public_key_or_alias (pay_to cmd) c = (c, Ok recipient) →
  payment_signing_key wallet (from_key cmd) c = (c, Ok key) →
  0 < pay_amount cmd ≤ owned_value U [key] → u32 (default nanos (pay_uniqueness cmd)) →
  ∃ tx id w', Transaction_txid tx = Some id
    ∧ head (outputs tx)
      = Some {| value := pay_amount cmd; locking_data := verifying_key_bytes recipient |}
    ∧ run_pay cmd c
      = (printed c ["submitted payment " +:+ Txid_to_string id; "local admin: " +:+ admin_addr cfg],
         Ok ())
    ∧ handle_admin_request (E:=Empty_set) fuel (SubmitTransaction tx) w = (w', Ok (Submitted id))
    ∧ state (server w') = set_mempool s {[ id := tx ]} ∧ db_holds w'.
Proof using L BL FL NR LQ LR.
  intros s U Hh Hhh Hup Hdb Hst Hidx Hi Hemp Hr Htot Hsz Hrec Hkey [Hamt Hle] Hu.
  destruct (pay_cases cmd c h cfg wallet db s recipient key Hh Hhh Hst Hi Hr Htot Hsz Hrec Hkey Hamt Hu)
    as [[Hlt _]|(tx & id & change & Hid & _ & Hw & He & Hv & _ & Hout & Hrun)]; [fold U in Hlt; lia|].
  pose proof (submit_into_empty s tx id 0 Hi Hemp Hw He Hid Hv) as Hsub.
  destruct (announce_tx_lands fuel tx id w _ Hup Hi ltac:(by exists db) Hw He Hid Hsub)
    as (w' & Hmsg & Hs' & Hdb').
  { cbn. change (mempool (state (server w))) with (mempool s). by rewrite Hemp. }
  assert (handle_admin_request (E:=Empty_set) fuel (SubmitTransaction tx) w = (w', Ok (Submitted id))) as Hreq.
  { unfold handle_admin_request. erewrite bind_returns by (unfold expecting; by rewrite Hid).
    unfold attempt. by rewrite Hmsg. }
  exists tx, id, w'. split_and!; [done|by rewrite Hout| |done..].
  destruct (exchange request_text response_text fuel w (SubmitTransaction tx) w' (Submitted id) Hreq)
    as (sent & Hsend & Hrecv).
  rewrite Hrun. assert (submit_answer cfg tx = Ok id) as ->; [|done].
  change (submit_answer cfg tx) with
    (Admin.submit_transaction to_server client_write (client_read request_text response_text fuel w)
       (AdminTask.bad_request request_text) (AdminTask.bad_response response_text) closed_early
       (admin_addr cfg) tx).
  unfold Admin.submit_transaction. cbn [map_err mbind result_bind to_server].
  rewrite Hsend. cbn [map_err mbind result_bind].
  by rewrite Hrecv.
Qed.

End payment.
