(* ===== verification/ServerDemo.v ===== *)
(** * A concrete network, and the server theorems applied in it *)

From S2P Require Import Prelude Bytes Crypto Types State Consensus Chain Mempool Wire.
From S2P Require Import Admin Mining NodeState Home Peers Client Peer Restart TxIndex Store.
From S2P Require Import StoreProofs StoreSave Runtime Server ServerLogic ServerRelay ServerStore.
From S2P Require Import ServerReturns ServerSync Convergence.

#[local] Existing Instance Toy.crypto.
#[local] Existing Instance Toy.laws.
#[local] Existing Instance DemoStore.bincode.
#[local] Existing Instance DemoStore.bincode_laws.

Module DemoServer.

Definition genesis_hash : BlockHash := header_hash (header DemoBlocks.genesis).
Definition block1_hash : BlockHash := header_hash (header DemoBlocks.block1).

(** The chain every peer serves. *)
Definition remote (x : BlockHash) : option Block :=
  if bool_decide (x = genesis_hash) then Some DemoBlocks.genesis
  else if bool_decide (x = block1_hash) then Some DemoBlocks.block1
  else None.

Definition hello : HelloMessage := {|
  network := default_network; hello_version := 1; hello_node_name := None; advertised_addr := None;
  hello_tip := Some block1_hash; hello_height := Some 1
|}.
Definition advertised : TipSummary := {| tip := Some block1_hash; tip_height := Some 1 |}.

(** Every call succeeds; blocks are answered by [serve]. *)
Definition environment (serve : BlockHash → option Block) : Environment := {|
  on_dial := λ _ _ _, Ok hello;
  on_tip := λ _ _, Ok advertised;
  on_block := λ _ _ x, Ok (serve x);
  on_tell := λ _ _ _, Ok ();
  on_clock := λ l, Z.of_nat (length l) mod 2 ^ 64;
  sync_error_text := λ _, EmptyString;
  server_error_text := λ _, EmptyString
|}.

Lemma remote_in_range x b : remote x = Some b → block_ok b.
Proof. unfold remote. repeat case_bool_decide; intros [= <-]; split; vm_decide. Qed.

Lemma remote_honest : honest remote.
Proof. unfold remote. intros x b. repeat case_bool_decide; intros [= <-]; by subst x. Qed.

Lemma environment_laws : EnvironmentLaws (environment remote).
Proof.
  split; cbn.
  - intros _ _ _ r [= <-]. split; vm_decide.
  - intros _ _ t [= <-]. split; vm_decide.
  - intros _ _ x b [= Hb]. by apply remote_in_range in Hb.
Qed.

(** A node with two peers, one of them connected. *)
Definition peer_a : PeerEndpoint := {| endpoint_addr := "a:9001"; endpoint_node_name := None |}.
Definition peer_b : PeerEndpoint := {| endpoint_addr := "b:9001"; endpoint_node_name := None |}.
Definition peer_table : gmap string RuntimePeer :=
  <[ "a:9001" := attach_session (new_peer peer_a (from_endpoint peer_a Seed)) 0%nat ]>
  (<[ "b:9001" := new_peer peer_b (from_endpoint peer_b Seed) ]> ∅).

Definition world (s : NodeState) (db : option SqliteStore) : World := {|
  server := {| config := NodeConfig_default; state := s; peers := peer_table; connected_peers := ∅;
               sqlite_store := db; runtime_handle := true; server_handle := true;
               channel_capacity := 64; bootstrap_sync := false; mining := None; miner := false |};
  log := []
|}.

Lemma world_inv s db : node_inv s → server_inv None (server (world s db)).
Proof.
  intros Hs. split; [done|]. cbn. unfold peer_table.
  apply map_Forall_insert_2; [|apply map_Forall_insert_2; [|apply map_Forall_empty]];
    (split_and!; [done|done|vm_decide|by left]).
Qed.

Lemma world_live s db : live (server (world s db)) peer_a 0%nat.
Proof. reflexivity. Qed.

Lemma empty_holds : db_holds (world NodeState_new (Some empty_store)).
Proof. exists empty_store. split; [done|]. split; [by split|]. apply map_Forall_empty. Qed.

Lemma s1_holds : db_holds (world DemoNode.s1 (Some DemoStore.db1)).
Proof. exists DemoStore.db1. split; [done|exact DemoStore.db1_stores]. Qed.

Lemma s2_covers : save_covers DemoStore.s2 block1_hash.
Proof.
  unfold save_covers, coinbase_not_pending. case_bool_decide; [|intros _; exact DemoStore.s2_not_pending].
  intros b tx txs id Hb Ht Hid. apply DemoStore.s2_not_pending in Hb. rewrite Ht in Hb.
  apply Forall_cons in Hb as [Hb _]. by apply Hb.
Qed.

(** The two missing blocks, tip first. *)
Definition missing : list Block := [DemoBlocks.block1; DemoBlocks.genesis].

Lemma missing_segment : segment NodeState_new remote block1_hash missing.
Proof.
  assert (prev_blockhash (header DemoBlocks.block1) = genesis_hash) as Hp by vm_decide.
  apply segment_child; [apply lookup_empty|vm_decide|vm_decide|rewrite Hp].
  apply segment_genesis; [apply lookup_empty|vm_decide|vm_decide].
Qed.

Lemma missing_accepted : accept_blocks NodeState_new (reverse missing) = (DemoStore.s2, Ok ()).
Proof.
  change (reverse missing) with [DemoBlocks.genesis; DemoBlocks.block1]. cbn [accept_blocks].
  rewrite DemoNode.accept1, DemoStore.accept2. done.
Qed.

(** A block that hangs below one nobody has. *)
Definition orphan : Block := {|
  header := {| header_version := 1; prev_blockhash := BlockHash_new (replicate 32 x01);
               header_merkle_root := []; time := 0; bits := 0; nonce := 0 |};
  transactions := []
|}.

Definition events : list (ServerEvent * bool) :=
  [(PeerMessage (Some {| origin_addr := Some "a:9001"; origin_node_name := None |})
      (WAnnounceTx Demo.payment), false);
   (SyncTick, false);
   (StopEvent, false)].

End DemoServer.

Lemma server_loop_safe_witness :
  node_inv (state (server (run_event_loop (N:=DemoServer.environment DemoServer.remote) 8
    DemoServer.events (DemoServer.world DemoNode.s1 None)).1)).
Proof.
  refine (proj1 (server_loop_safe (N:=DemoServer.environment DemoServer.remote)
    (NL:=DemoServer.environment_laws) 8 DemoServer.events (DemoServer.world DemoNode.s1 None) _ _
    (DemoServer.world_inv _ _ (proj1 DemoNode.inv1)) _ (surjective_pairing _))).
  repeat constructor; vm_decide.
Defined.

(** Two named peers, as in the unit test of the relay. *)
Definition named (a n : string) : PeerEndpoint := {| endpoint_addr := a; endpoint_node_name := Some n |}.
Definition named_peers : gmap string RuntimePeer :=
  <[ "b:9001" := new_peer (named "b:9001" "beta") (from_endpoint (named "b:9001" "beta") Seed) ]>
  (<[ "c:9001" := new_peer (named "c:9001" "gamma") (from_endpoint (named "c:9001" "gamma") Seed) ]> ∅).
Definition gossip : World :=
  let w := DemoServer.world DemoNode.s1 None in
  {| server := set_runtime_peers (server w) named_peers; log := log w |}.

Definition from_beta : PeerAddr := {| origin_addr := None; origin_node_name := Some "beta" |}.
Definition gossiped : World :=
  (handle_peer_message (N:=DemoServer.environment DemoServer.remote) 8 (Some from_beta)
     (WAnnounceTx Demo.payment) gossip).1.

(** The payment goes to the other peer, and not to the sender, known by its name. *)
Lemma relay_only_news_witness :
  existsb is_tell (log gossiped) = true ∧ ∀ a h m, Tell a h m ∈ log gossiped → a ≠ "b:9001".
Proof.
  split; [vm_compute; reflexivity|].
  destruct (relay_only_news (N:=DemoServer.environment DemoServer.remote) 8 (Some from_beta)
    (WAnnounceTx Demo.payment) gossip gossiped _ I (surjective_pairing _)) as [(new & Hl & _ & Hn & _) _].
  assert (filed (server gossip)) as Hf.
  { apply map_Forall_insert_2; [reflexivity|]. apply map_Forall_insert_2; [reflexivity|].
    apply map_Forall_empty. }
  intros a h m Hin ->. rewrite Hl in Hin.
  destruct (Hn Demo.payment eq_refl Hf _ _ _ Hin) as (p & Hp & Hno).
  injection Hp as <-. apply (Hno from_beta eq_refl). right. split; reflexivity.
Defined.

Lemma announced_block_persisted_witness :
  state (server (handle_peer_message (N:=DemoServer.environment DemoServer.remote) 8 None
    (WAnnounceBlock DemoBlocks.block1) (DemoServer.world DemoNode.s1 (Some DemoStore.db1))).1)
  = DemoStore.s2.
Proof.
  refine (proj1 (announced_block_persisted (N:=DemoServer.environment DemoServer.remote) 8 None
    DemoBlocks.block1 (DemoServer.world DemoNode.s1 (Some DemoStore.db1)) _ DemoStore.s2 _
    (proj1 DemoNode.inv1) (DemoServer.remote_in_range DemoServer.block1_hash _ _) _ DemoServer.s1_holds
    DemoStore.accept2 DemoServer.s2_covers (surjective_pairing _))); vm_decide.
Defined.

Lemma sync_catches_up_witness :
  ∃ w', sync_to_advertised_tip (N:=DemoServer.environment DemoServer.remote) 2 DemoServer.peer_a
          DemoServer.advertised (DemoServer.world NodeState_new (Some empty_store))
        = (w', Ok [DemoBlocks.genesis; DemoBlocks.block1])
    ∧ state (server w') = DemoStore.s2 ∧ db_holds w'.
Proof.
  destruct (sync_catches_up (N:=DemoServer.environment DemoServer.remote) 2 DemoServer.peer_a
    DemoServer.advertised DemoServer.block1_hash (DemoServer.world NodeState_new (Some empty_store)) 0%nat
    DemoServer.remote DemoServer.missing DemoStore.s2 (DemoServer.world_live _ _) (λ _ _, eq_refl)
    DemoServer.remote_honest eq_refl DemoServer.missing_segment
    ltac:(repeat constructor; vm_decide) ltac:(cbn; lia) (proj1 node_inv_new) ltac:(vm_decide)
    (or_intror (conj DemoServer.empty_holds (empty_not_pending _ _ eq_refl))) DemoServer.missing_accepted)
    as (w' & Hrun & Hs & _ & Hh & _).
  exists w'. split; [exact Hrun|]. split; [exact Hs|exact (Hh DemoServer.empty_holds)].
Defined.

Lemma sync_walk_diverges_witness :
  ∃ asked, sync_to_advertised_tip
      (N:=DemoServer.environment (λ _, Some DemoServer.orphan)) 1000 DemoServer.peer_a
      DemoServer.advertised (DemoServer.world NodeState_new None)
    = ({| server := server (DemoServer.world NodeState_new None); log := AskBlock 0%nat <$> asked |}, Err None)
    ∧ length asked = 1000%nat.
Proof.
  apply (sync_walk_diverges (N:=DemoServer.environment (λ _, Some DemoServer.orphan)) 1000
    DemoServer.peer_a DemoServer.advertised DemoServer.block1_hash (DemoServer.world NodeState_new None) 0%nat
    (DemoServer.world_live _ _) eq_refl (lookup_empty _)).
  intros l y. exists DemoServer.orphan. split; [reflexivity|]. split; [vm_decide|apply lookup_empty].
Defined.

(** ** Convergence *)

Module DemoConverge.
#[export] Existing Instances Toy.crypto Toy.laws DemoStore.bincode DemoStore.bincode_laws.

(** A network whose sessions are answered by a node that has a block more. *)
Definition network : Environment := DemoServer.environment (get_block DemoStore.s2).
#[export] Existing Instance network.

Lemma serving_returns serve : EnvironmentReturns (DemoServer.environment serve).
Proof. split; discriminate. Qed.
Lemma network_returns : EnvironmentReturns network.
Proof. apply serving_returns. Qed.

Definition behind : World := DemoServer.world DemoNode.s1 (Some DemoStore.db1).
Definition from_a : PeerAddr := {| origin_addr := Some "a:9001"; origin_node_name := None |}.

Lemma sound1 : sound_node DemoNode.s1.
Proof. exact (Build_sound_node _ (proj1 DemoNode.inv1) (proj2 DemoNode.inv1) (proj1 DemoStore.s1_complete)). Qed.

Lemma sound2 : sound_node DemoStore.s2.
Proof.
  split; [|exact DemoStore.s2_synced|exact DemoStore.s2_complete].
  refine (proj1 (accept_block_spec DemoNode.s1 DemoBlocks.block1 DemoStore.s2 (Ok ()) (proj1 DemoNode.inv1)
    _ _ _ DemoStore.accept2)); vm_decide.
Qed.

Lemma extends : map_Forall (λ h x, get_block DemoStore.s2 h = Some x) (blocks DemoNode.s1).
Proof. vm_decide. Qed.

Lemma compatible12 : compatible DemoNode.s1 DemoStore.s2.
Proof.
  split.
  - intros h x y Hx Hy. pose proof (extends h x Hx) as Hx'. rewrite Hx' in Hy. injection Hy as Hy. exact Hy.
  - vm_decide.
  - vm_decide.
  - right. right. exists DemoServer.genesis_hash. split; apply not_eq_None_Some; vm_decide.
Qed.

Lemma can_sync1 : can_sync 8 NodeConfig_default from_a behind DemoStore.s2.
Proof.
  split; [split_and!; [reflexivity|by eexists|reflexivity|constructor]|exact DemoServer.s1_holds
    |intros x blk _; apply empty_not_pending; vm_decide| |vm_decide|vm_decide].
  exists DemoServer.peer_a, 0%nat. split_and!; [reflexivity|reflexivity| |reflexivity|reflexivity].
  intros l x. exists (get_block DemoStore.s2 x). split; reflexivity.
Qed.

(** The same peer while its block requests time out. *)
Definition timing_out : Environment := {|
  on_dial := λ _ _ _, Ok DemoServer.hello;
  on_tip := λ _ _, Ok DemoServer.advertised;
  on_block := λ _ _ _, Err (Receive (io_error TimedOut "peer request timed out"));
  on_tell := λ _ _ _, Ok ();
  on_clock := λ _, 0;
  sync_error_text := λ _, EmptyString;
  server_error_text := λ _, EmptyString
|}.

Definition after_timeout : World :=
  (handle_event (N:=timing_out) 8 (TipSync from_a (tip_summary DemoStore.s2))
     (DemoServer.world DemoNode.s1 None)).1.

End DemoConverge.

(** A tip whose sync failed counts as acted on: the walk asked for a block, got none and changed
    nothing, and when the peer announces the same tip again, now able to serve it, the node
    does not even ask. *)
Example failed_tip_sync_not_retried :
  best_tip (chain (state (server DemoConverge.after_timeout))) = best_tip (chain DemoNode.s1)
  ∧ get_block (state (server DemoConverge.after_timeout)) DemoServer.block1_hash = None
  ∧ AskBlock 0%nat DemoServer.block1_hash ∈ log DemoConverge.after_timeout
  ∧ handle_event (N:=DemoConverge.network) 8
      (TipSync DemoConverge.from_a (tip_summary DemoStore.s2)) DemoConverge.after_timeout
    = (DemoConverge.after_timeout, Ok (true, NoReply)).
Proof.
  split; [vm_decide|]. split; [vm_decide|]. split; [vm_decide|].
  apply (tip_sync_duplicate (N:=DemoConverge.network) 8 DemoConverge.from_a DemoServer.peer_a); vm_decide.
Qed.

Lemma tip_sync_converges_witness :
  ∃ w', handle_event (N:=DemoConverge.network) 8
          (TipSync DemoConverge.from_a (tip_summary DemoStore.s2)) DemoConverge.behind
        = (w', Ok (true, NoReply))
    ∧ best_tip (chain (state (server w'))) = Some DemoServer.block1_hash
    ∧ active_utxos (state (server w')) = active_utxos DemoStore.s2.
Proof.
  destruct (tip_sync_converges (N:=DemoConverge.network) (NR:=DemoConverge.network_returns) 8 NodeConfig_default
    DemoConverge.from_a DemoConverge.behind DemoStore.s2 DemoConverge.sound1 DemoConverge.sound2
    DemoConverge.compatible12 DemoConverge.can_sync1) as (w' & Hrun & _ & _ & _ & _ & _ & Hmore).
  assert (best_work DemoNode.s1 < best_work DemoStore.s2) as Hlt by vm_decide.
  destruct (Hmore Hlt) as [Ht Hu]. exists w'. split; [exact Hrun|]. rewrite Ht. split; [vm_decide|exact Hu].
Defined.

Lemma nodes_converge_witness :
  ∃ w1 w2 w2', state (server w2) = DemoStore.s2
    ∧ handle_event (N:=DemoConverge.network) 8
        (TipSync DemoConverge.from_a (tip_summary DemoStore.s2)) DemoConverge.behind
      = (w1, Ok (true, NoReply))
    ∧ handle_event (N:=DemoServer.environment (get_block (state (server w1)))) 8
        (TipSync DemoConverge.from_a (tip_summary (state (server w1)))) w2
      = (w2', Ok (true, NoReply))
    ∧ best_tip (chain (state (server w1))) = best_tip (chain (state (server w2'))).
Proof.
  destruct sync_catches_up_witness as (w & _ & Hs & db & _ & Hst & Hidx). rewrite Hs in Hst.
  set (w2 := DemoServer.world DemoStore.s2 (Some db)).
  destruct (nodes_converge DemoConverge.network DemoConverge.network_returns 8 NodeConfig_default
    NodeConfig_default DemoConverge.from_a DemoConverge.from_a DemoConverge.behind w2
    DemoConverge.sound1 DemoConverge.sound2 DemoConverge.compatible12 ltac:(vm_decide) DemoConverge.can_sync1)
    as (w1 & Hrun & Hnext).
  assert (size (entries (chain (state (server w1)))) = 2%nat) as Hsz.
  { change w1 with ((w1, Ok (true, NoReply) : result (option Empty_set) (bool * ServerReply)).1).
    rewrite <-Hrun. vm_compute. reflexivity. }
  destruct (Hnext (DemoServer.environment (get_block (state (server w1)))) (DemoConverge.serving_returns _))
    as (w2' & Hrun' & Ht & _).
  { split; [split_and!; [reflexivity|by eexists|reflexivity|constructor]|exact (ex_intro _ db (conj eq_refl (conj Hst Hidx)))
    |intros x blk _; apply empty_not_pending; change (mempool DemoStore.s2 = ∅); vm_decide| | |].
    - exists DemoServer.peer_a, 0%nat. split_and!; [reflexivity|reflexivity| |reflexivity|reflexivity].
      intros l x. exists (get_block (state (server w1)) x). split; reflexivity.
    - rewrite Hsz. lia.
    - rewrite Hsz. change (state (server w2)) with DemoStore.s2. vm_decide. }
  exists w1, w2, w2'. split; [reflexivity|]. split; [exact Hrun|]. split; [exact Hrun'|]. symmetry. exact Ht.
Defined.
