(* ===== verification/ShellDemo.v ===== *)
(** * A concrete server run by its threads *)

From S2P Require Import Prelude Bytes Crypto Types State Consensus Chain Mempool Wire.
From S2P Require Import Admin Mining NodeState Home Peers Client Peer Restart TxIndex Store.
From S2P Require Import StoreProofs StoreSave Runtime Server ServerLogic ServerRelay ServerStore.
From S2P Require Import ServerSync Shell ShellProofs ServerDemo.

#[local] Existing Instance Toy.crypto.
#[local] Existing Instance Toy.laws.
#[local] Existing Instance DemoStore.bincode.
#[local] Existing Instance DemoStore.bincode_laws.

Module DemoShell.

#[local] Existing Instance DemoServer.environment_laws.
Definition env : Environment := DemoServer.environment DemoServer.remote.
#[local] Existing Instance env.

(** A mining node with a pending payment and a channel for one event. *)
Definition sv : Server :=
  Server_new (with_channel_capacity (with_bootstrap_sync (with_mining
    (ServerOptions_new NodeConfig_default DemoNode.s2) (MiningConfig_new x05)) true) 1).

(** The bootstrap request is answered, the miner gets its candidate; while an
    event is handled the channel fills up and a stop is requested. *)
Definition schedule (mining : nat) : list Move :=
  [MoveMain; MoveLoop; MoveLoop; MoveLoop; MoveMain]
  ++ replicate mining MoveMiner
  ++ [MoveSend (AdminEvent GetStatus); MoveLoop; MoveSend (PeerConnected "peer-1"); MoveStop;
      MoveMain; MoveMain; MoveLoop; MoveLoop; MoveLoop; MoveLoop].

Definition present {A} (o : option A) : bool := match o with Some _ => true | None => false end.

Lemma present_default {A} (d : A) (o : option A) : present o = true → o = Some (default d o).
Proof. by destruct o. Qed.

Definition final (mining : nat) : Shell :=
  default (serve_start sv) (play 8 (serve_start sv) (schedule mining)).

Lemma final_reach mining :
  present (play 8 (serve_start sv) (schedule mining)) = true → shell_reach 8 sv (final mining).
Proof.
  intros Hs%(present_default (serve_start sv)). eapply play_reach; [constructor|exact Hs].
Qed.

(** The run up to the point where the loop has handled its last event and the
    miner has solved its block but not sent it. *)
Definition winding : Shell :=
  default (serve_start sv) (play 8 (serve_start sv)
    ([MoveMain; MoveLoop; MoveLoop; MoveLoop; MoveMain] ++ replicate 3 MoveMiner
     ++ [MoveSend (AdminEvent GetStatus); MoveLoop; MoveStop; MoveLoop; MoveLoop; MoveMain; MoveMain])).
Definition winding_miner : MinerSys := default miner_start (sh_miner winding).
Definition solved : Block := default DemoBlocks.genesis (snd <$> current winding_miner).

End DemoShell.

Lemma shutdown_can_hang_witness :
  shell_reach (N:=DemoShell.env) 8 DemoShell.sv DemoShell.winding
  ∧ ∃ s', rtc (shell_step (N:=DemoShell.env) 8) DemoShell.winding s' ∧ sh_loop s' = JoiningMiner
    ∧ ∀ s'', rtc (shell_step (N:=DemoShell.env) 8) s' s'' → s'' = s'.
Proof.
  assert (shell_reach (N:=DemoShell.env) 8 DemoShell.sv DemoShell.winding) as Hr.
  { eapply play_reach; [constructor|]. apply DemoShell.present_default. vm_compute. reflexivity. }
  split; [exact Hr|].
  destruct (shutdown_can_hang (N:=DemoShell.env) 8 DemoShell.sv DemoShell.winding DemoShell.winding_miner
    DemoShell.solved ltac:(vm_decide) Hr ltac:(vm_compute; reflexivity) ltac:(vm_compute; exact I)
    ltac:(apply DemoShell.present_default; vm_compute; reflexivity)) as (s' & m' & H1 & _ & H2 & _ & _ & _ & _ & _ & H3).
  { split; [vm_compute; reflexivity|]. split; [eexists; vm_compute; reflexivity|vm_compute; reflexivity]. }
  exists s'. split; [exact H1|]. split; [exact H2|exact H3].
Defined.

(** The same run with an idle miner ends: [start] returns a node with the same tip and the
    pending payment. *)
Example shutdown_returns :
  match play (N:=DemoShell.env) 8 (DemoShell.final 0) (replicate 4 MoveMiner ++ [MoveLoop; MoveMain]) with
  | Some s =>
      match sh_main s with
      | Returned (Ok st) => Some (best_tip (chain st), bool_decide (dom (mempool st) = {[ Demo.payment_id ]}))
      | _ => None
      end
  | None => None
  end = Some (Some DemoServer.genesis_hash, true).
Proof. vm_compute. reflexivity. Qed.

Lemma shell_refines_event_loop_witness :
  ∃ busy, (length busy ≤ 1)%nat
    ∧ (sh_answers (DemoShell.final 3)).*1 ++ busy ++ (sh_queue (DemoShell.final 3)).*1
      = seq 0 (sh_next (DemoShell.final 3)).
Proof.
  destruct (shell_refines_event_loop (N:=DemoShell.env) (NL:=DemoServer.environment_laws) 8 DemoShell.sv
    (DemoShell.final 3) ltac:(vm_decide) ltac:(apply DemoShell.final_reach; vm_compute; reflexivity))
    as [(busy & Hb & Hf) _].
  exists busy. split; [exact Hb|exact Hf].
Defined.

Lemma shutdown_completes_witness :
  ∃ s', rtc (thread_step (N:=DemoShell.env) 8) (DemoShell.final 0) s'
    ∧ (length (sh_answers s') ≤ length (sh_answers (DemoShell.final 0)) + 1)%nat.
Proof.
  destruct (shutdown_completes (N:=DemoShell.env) 8 DemoShell.sv (DemoShell.final 0) ltac:(vm_decide)
    ltac:(apply DemoShell.final_reach; vm_compute; reflexivity) ltac:(vm_compute; reflexivity))
    as (s' & Hr & _ & Hn & _).
  exists s'. split; [exact Hr|]. exact Hn.
Defined.
