(* ===== verification/HomeDemo.v ===== *)
(** * Concrete file formats, and a home on a concrete disk

    Every format writes the stdpp code of the value, which is injective.  The
    laws of [FileFormats] hold, so that the theorems about homes and commands
    apply to a concrete disk. *)

From S2P Require Import Prelude Bytes Crypto Types State Consensus Chain Mempool Wire.
From S2P Require Import Admin NodeState Home Peers Client Files Wallet Aliases TxIndex Store.
From S2P Require Import StoreProofs StoreSave HomeDir HomeProofs.

Module DemoHome.

#[export] Existing Instance DemoWallet.WalletFileV2_countable.
#[export] Existing Instance DemoWallet.WalletFileV1_countable.

#[export] Instance AliasFile_eq_dec : EqDecision AliasFile.
Proof. solve_decision. Defined.
#[export] Program Instance AliasFile_countable : Countable AliasFile :=
  inj_countable' file_entries (λ m, {| file_entries := m |}) _.
Next Obligation. by intros []. Qed.

#[export] Program Instance PeerEndpoint_countable : Countable PeerEndpoint :=
  inj_countable' (λ e, (endpoint_addr e, endpoint_node_name e))
    (λ p, {| endpoint_addr := p.1; endpoint_node_name := p.2 |}) _.
Next Obligation. by intros []. Qed.

#[export] Program Instance MiningSection_countable : Countable MiningSection :=
  inj_countable' (λ m, (enabled m, reward_wallet m, interval_ms m, section_max_transactions m,
                        section_bits m))
    (λ '(a, b, c, d, e), {| enabled := a; reward_wallet := b; interval_ms := c;
                            section_max_transactions := d; section_bits := e |}) _.
Next Obligation. by intros []. Qed.

#[export] Program Instance NodeConfig_countable : Countable NodeConfig :=
  inj_countable' (λ c, (listen_addr c, admin_addr c, config_network c, config_node_name c,
                        config_advertised_addr c, config_mining c))
    (λ '(a, b, c, d, e, f), {| listen_addr := a; admin_addr := b; config_network := c;
       config_node_name := d; config_advertised_addr := e; config_mining := f |}) _.
Next Obligation. by intros []. Qed.

(** ** The tables *)

#[export] Instance ChainRow_eq_dec : EqDecision ChainRow.
Proof. solve_decision. Defined.
#[export] Program Instance ChainRow_countable : Countable ChainRow :=
  inj_countable' (λ r, (c_height r, c_cumulative_work r, c_parent_hash r))
    (λ '(a, b, c), {| c_height := a; c_cumulative_work := b; c_parent_hash := c |}) _.
Next Obligation. by intros []. Qed.

#[export] Instance UtxoRow_eq_dec : EqDecision UtxoRow.
Proof. solve_decision. Defined.
#[export] Program Instance UtxoRow_countable : Countable UtxoRow :=
  inj_countable' (λ r, (u_value r, u_locking_data r, u_created_at_height r, u_is_coinbase r))
    (λ '(a, b, c, d), {| u_value := a; u_locking_data := b; u_created_at_height := c;
                         u_is_coinbase := d |}) _.
Next Obligation. by intros []. Qed.

#[export] Instance PeerRow_eq_dec : EqDecision PeerRow.
Proof. solve_decision. Defined.
#[export] Program Instance PeerRow_countable : Countable PeerRow :=
  inj_countable' (λ r, (p_node_name r, p_source r, p_advertised_tip_hash r, p_advertised_height r,
      p_last_hello_at r, p_last_seen_at r, p_last_connect_at r, p_last_success_at r, p_last_error r,
      p_connections r, p_failed_connections r, p_behavior_score r, p_banned_until r))
    (λ '(a, b, c, d, e, f, g, h, i, j, k, l, m), {| p_node_name := a; p_source := b;
       p_advertised_tip_hash := c; p_advertised_height := d; p_last_hello_at := e;
       p_last_seen_at := f; p_last_connect_at := g; p_last_success_at := h; p_last_error := i;
       p_connections := j; p_failed_connections := k; p_behavior_score := l;
       p_banned_until := m |}) _.
Next Obligation. by intros []. Qed.

#[export] Instance TransactionRow_eq_dec : EqDecision TransactionRow.
Proof. solve_decision. Defined.
#[export] Program Instance TransactionRow_countable : Countable TransactionRow :=
  inj_countable' (λ r, (t_transaction_bytes r, t_block_hash r, t_block_height r,
      t_position_in_block r, t_status r, t_first_seen_at r, t_last_updated_at r))
    (λ '(a, b, c, d, e, f, g), {| t_transaction_bytes := a; t_block_hash := b; t_block_height := c;
       t_position_in_block := d; t_status := e; t_first_seen_at := f; t_last_updated_at := g |}) _.
Next Obligation. by intros []. Qed.

#[export] Instance KeyRow_eq_dec : EqDecision KeyRow.
Proof. solve_decision. Defined.
#[export] Program Instance KeyRow_countable : Countable KeyRow :=
  inj_countable' (λ r, (k_txid r, k_key_role r, k_key_data r, k_value r, k_vout r))
    (λ '(a, b, c, d, e), {| k_txid := a; k_key_role := b; k_key_data := c; k_value := d;
                            k_vout := e |}) _.
Next Obligation. by intros []. Qed.

#[export] Instance SqliteStore_eq_dec : EqDecision SqliteStore.
Proof. solve_decision. Defined.
#[export] Program Instance SqliteStore_countable : Countable SqliteStore :=
  inj_countable' (λ s, (t_blocks s, t_chain_entries s, t_active_utxos s, t_mempool_transactions s,
      t_peers s, t_transactions s, t_transaction_keys s, t_metadata s))
    (λ '(a, b, c, d, e, f, g, h), {| t_blocks := a; t_chain_entries := b; t_active_utxos := c;
       t_mempool_transactions := d; t_peers := e; t_transactions := f; t_transaction_keys := g;
       t_metadata := h |}) _.
Next Obligation. by intros []. Qed.

(** ** The formats *)

#[export] Existing Instance DemoStore.bincode.

Definition formats : FileFormats := {|
  wallet_v2 := DemoFiles.codec WalletFileV2;
  wallet_v1 := DemoFiles.codec WalletFileV1;
  JsonError := unit;
  alias_json := DemoFiles.pretty AliasFile;
  peers_json := DemoFiles.pretty (list PeerEndpoint);
  config_json := DemoFiles.pretty NodeConfig;
  sqlite_image := λ db, Digits.print (encode db);
  sqlite_parse := λ bs, decode (Digits.parse bs);
  sqlite_migrate := λ bs, if bs is [] then Some empty_store else None
|}.

Lemma formats_laws : FileFormatsLaws formats.
Proof.
  split; try apply DemoFiles.codec_laws; try apply DemoFiles.pretty_laws.
  intros db. cbn. by rewrite Digits.byte_parse_print, decode_encode.
Qed.

(** A disk with one unrelated file. *)
Definition disk : Disk := {|
  disk_files := {[ "/home/a/notes" := [x00] ]}; disk_dirs := {[ "/home/a" ]}; disk_faults := []
|}.
Definition key : SigningKey (Crypto:=Toy.crypto) := x07.
Definition other_key : SigningKey (Crypto:=Toy.crypto) := x2a.
Definition home : NodeHome := {| root := "/home/a/.wobble" |}.

Lemma home_free p : p ∈ home_files home → occupied disk p = false.
Proof. revert p. apply Forall_forall. repeat constructor. Qed.

End DemoHome.

#[local] Existing Instances Toy.crypto Toy.laws DemoStore.bincode DemoStore.bincode_laws DemoHome.formats DemoHome.formats_laws.

Lemma initialize_correct_witness :
  ∃ d', initialize DemoHome.home DemoHome.key DemoHome.disk = (d', Ok ())
    ∧ load_wallet (wallet_path DemoHome.home) d' = (d', Ok (Wallet_generate DemoHome.key))
    ∧ load_config DemoHome.home d' = (d', Ok NodeConfig_default)
    ∧ initialize DemoHome.home DemoHome.other_key d' = (d', Ok ()).
Proof.
  destruct (initialize_correct DemoHome.home DemoHome.key DemoHome.disk eq_refl eq_refl eq_refl)
    as (d' & Hinit & _ & _ & _ & _ & Hagain & Hfresh).
  destruct (Hfresh DemoHome.home_free) as (_ & Hw & _ & _ & Hc).
  exists d'. split_and!; [done|done|done|apply Hagain].
Defined.
