(* ===== verification/CliDemo.v ===== *)
(** * The command line on a concrete node home

    A home whose database holds the chain with the genesis block and whose
    wallet owns its coin, next to a running server whose admin socket is
    [run_admin]; the theorems about the commands and about the admin protocol applied there. *)

From S2P Require Import Prelude Bytes Crypto Types State Consensus Chain Mempool Wire.
From S2P Require Import Admin Mining NodeState Home Peers Client Files Wallet Aliases TxIndex Store.
From S2P Require Import StoreProofs StoreSave HomeDir HomeProofs Runtime Server Shell ServerDemo.
From S2P Require Import AdminTask CliText Cli CliFrame CliProofs Process ProcessProofs.
From S2P Require Import ServerReturns Inbound EndToEnd HomeDemo.

Module DemoCli.

#[export] Program Instance StatusSummary_countable : Countable StatusSummary :=
  inj_countable' (λ s, (status_tip s, status_height s, status_branch_count s, mempool_size s,
                        peer_count s, mining_enabled s))
    (λ '(a, b, c, d, e, f), {| status_tip := a; status_height := b; status_branch_count := c;
       mempool_size := d; peer_count := e; mining_enabled := f |}) _.
Next Obligation. by intros []. Qed.

Definition request_code (r : AdminRequest) : unit + bytes + (bytes * Z) + Transaction :=
  match r with
  | GetStatus => inl (inl (inl ()))
  | GetBalance k => inl (inl (inr k))
  | Bootstrap k n => inl (inr (k, n))
  | SubmitTransaction tx => inr tx
  end.
#[export] Program Instance AdminRequest_countable : Countable AdminRequest :=
  inj_countable' request_code
    (λ c, match c with
          | inl (inl (inl _)) => GetStatus
          | inl (inl (inr k)) => GetBalance k
          | inl (inr (k, n)) => Bootstrap k n
          | inr tx => SubmitTransaction tx
          end) _.
Next Obligation. by intros []. Qed.

Definition response_code (r : AdminResponse)
    : StatusSummary + Z + (Z * option BlockHash) + Txid + string :=
  match r with
  | Status s => inl (inl (inl (inl s)))
  | Balance b => inl (inl (inl (inr (amount b))))
  | Bootstrapped b => inl (inl (inr (blocks_mined b, last_block_hash b)))
  | Submitted id => inl (inr id)
  | Error m => inr m
  end.
#[export] Program Instance AdminResponse_countable : Countable AdminResponse :=
  inj_countable' response_code
    (λ c, match c with
          | inl (inl (inl (inl s))) => Status s
          | inl (inl (inl (inr b))) => Balance {| amount := b |}
          | inl (inl (inr (n, h))) => Bootstrapped {| blocks_mined := n; last_block_hash := h |}
          | inl (inr id) => Submitted id
          | inr m => Error m
          end) _.
Next Obligation. by intros [|[]|[]| |]. Qed.

#[export] Existing Instances Toy.crypto Toy.laws DemoStore.bincode DemoStore.bincode_laws
  DemoHome.formats DemoHome.formats_laws.
Definition request_json : SerdeJson AdminRequest := DemoJson.json AdminRequest.
Definition response_json : SerdeJson AdminResponse := DemoJson.json AdminResponse.
Definition wire_json : SerdeJson WireMessage := DemoJson.json WireMessage.
#[export] Existing Instances request_json response_json wire_json.
Lemma request_laws : SerdeJsonLaws AdminRequest request_json.
Proof. apply DemoJson.json_laws. Qed.
Lemma response_laws : SerdeJsonLaws AdminResponse response_json.
Proof. apply DemoJson.json_laws. Qed.
Lemma wire_laws : SerdeJsonLaws WireMessage wire_json.
Proof. apply DemoJson.json_laws. Qed.
#[export] Existing Instances request_laws response_laws wire_laws.

Definition environment : Environment := DemoServer.environment DemoServer.remote.
#[export] Existing Instance environment.

(** The running server. *)
Definition node : World := DemoServer.world DemoNode.s1 (Some DemoStore.db1).

(** Its admin socket; no peer can be reached. *)
Definition surroundings : Surroundings := {|
  env_home := Some "/home/a";
  env_userprofile := None;
  nanos := 123456789;
  fresh := DemoHome.other_key;
  stream := list Ascii.ascii;
  admin_connect := to_server;
  admin_write := client_write;
  admin_read := client_read (λ _, EmptyString) (λ _, EmptyString) 8 node;
  Cli.bad_request := AdminTask.bad_request (λ _, EmptyString);
  Cli.bad_response := AdminTask.bad_response (λ _, EmptyString);
  admin_eof := closed_early;
  json_error_text := λ _, EmptyString;
  tcp_connect := λ _, Err (io_error ConnectionRefused "refused");
  tcp_configure := λ _, Ok ();
  response_debug := λ _, EmptyString
|}.
#[export] Existing Instance surroundings.

(** The wallet of the miner of the genesis block. *)
Definition wallet : Wallet := Wallet_generate (x05 : SigningKey).

Definition bytes_of {E} (r : result E bytes) : bytes := match r with Ok bs => bs | _ => [] end.

Definition disk (db : bytes) : Disk := {|
  disk_files :=
    <[state_path DemoHome.home := db]>
    (<[wallet_path DemoHome.home := bytes_of (file_encode (FileCodec:=wallet_v2) (wallet_file wallet))]>
    (<[peers_path DemoHome.home := bytes_of (to_string_pretty (PrettyJson:=peers_json) [])]>
    (<[config_path DemoHome.home := bytes_of (to_string_pretty (PrettyJson:=config_json) NodeConfig_default)]> ∅)));
  disk_dirs := {[ root DemoHome.home ]};
  disk_faults := []
|}.

Definition cli : Cli := {|
  cli_disk := disk (sqlite_image DemoStore.db1); cli_out := []; cli_sent := []
|}.

Lemma disk_config bs :
  load_config DemoHome.home (disk bs) = (disk bs, Ok NodeConfig_default).
Proof. reflexivity. Qed.
Lemma disk_wallet bs :
  load_wallet (wallet_path DemoHome.home) (disk bs) = (disk bs, Ok wallet).
Proof. reflexivity. Qed.
Lemma disk_peers bs :
  load_peer_endpoints (JsonError:=JsonError) (peers_path DemoHome.home) (disk bs) = (disk bs, Ok []).
Proof. reflexivity. Qed.
Lemma disk_db bs : disk_files (disk bs) !! state_path DemoHome.home = Some bs.
Proof. reflexivity. Qed.

Lemma disk_not_dir bs : state_path DemoHome.home ∉ disk_dirs (disk bs).
Proof. cbn [disk disk_dirs]. vm_decide. Qed.

Lemma cli_healthy : healthy (cli_disk cli).
Proof. reflexivity. Qed.

Lemma holds : home_holds (cli_disk cli) DemoHome.home NodeConfig_default wallet DemoStore.db1.
Proof.
  split; [done|apply disk_config|apply disk_wallet|]. split; [|exact (disk_not_dir _)].
  unfold cli, cli_disk. rewrite disk_db. apply sqlite_parse_image.
Qed.

Lemma db1_loads : load_node_state DemoStore.db1 = Ok DemoNode.s1.
Proof.
  refine (load_node_state_stored (L:=Toy.laws) (BL:=DemoStore.bincode_laws) DemoStore.db1 DemoNode.s1
    (proj1 DemoStore.db1_stores) (proj1 DemoNode.inv1) (proj2 DemoNode.inv1)
    (proj1 DemoStore.s1_complete) (proj2 DemoStore.s1_complete) _ _); vm_decide.
Qed.

Definition pay : PayCommand := {|
  from_key := None;
  pay_to := encode_hex (verifying_key_bytes (DemoHome.other_key : VerifyingKey));
  pay_amount := 30; pay_uniqueness := Some 1; pay_home := Some "/home/a/.wobble"
|}.

Definition mine : MinePendingCommand := {|
  mp_state_path := None; mp_wallet_path := None; mp_home := Some "/home/a/.wobble";
  mp_reward := 50; mp_uniqueness := 7; mp_max_transactions := 10; mp_bits := "0x207fffff"
|}.

(** Mining is asked for, with the settings of the file but for the interval. *)
Definition serve : ServeCommand := {|
  sc_home := None; log_stderr := false; sc_listen_addr := None; sc_network := None;
  sc_node_name := None; sc_peers_path := None; sc_mining := true; no_mining := false;
  miner_wallet := None; mining_interval_ms := Some 10; mining_max_transactions := None;
  mining_bits := None
|}.

Definition miner_key : bytes := verifying_key_bytes (C:=Toy.crypto) x05.

End DemoCli.
Import DemoCli.

Lemma admin_end_to_end_witness :
  request_status to_server client_write (client_read (λ _, EmptyString) (λ _, EmptyString) 8 node)
    (AdminTask.bad_request (λ _, EmptyString)) (AdminTask.bad_response (λ _, EmptyString)) closed_early
    "127.0.0.1:9000" = Ok (node_status (server node))
  ∧ Admin.submit_transaction to_server client_write
      (client_read (λ _, EmptyString) (λ _, EmptyString) 8 node)
      (AdminTask.bad_request (λ _, EmptyString)) (AdminTask.bad_response (λ _, EmptyString))
      closed_early "127.0.0.1:9000" Demo.payment = Ok Demo.payment_id
  ∧ (∃ h, bootstrap_funds to_server client_write
      (client_read (λ _, EmptyString) (λ _, EmptyString) 8 node)
      (AdminTask.bad_request (λ _, EmptyString)) (AdminTask.bad_response (λ _, EmptyString))
      closed_early "127.0.0.1:9000" miner_key 1 = Ok {| blocks_mined := 1; last_block_hash := h |}).
Proof.
  destruct (admin_end_to_end (λ _, EmptyString) (λ _, EmptyString) 8 node "127.0.0.1:9000")
    as (Hs & _ & _ & Htx & Hboot).
  split; [exact Hs|]. split.
  2: { destruct (Server_handle_message 8 (bootstrap_request miner_key (saturating_add 32
         (bootstrap_start (server node)) 0)) node) as [w1 r] eqn:Hr.
       assert (is_ok r = true) as Hok by (change r with ((w1, r).2); rewrite <-Hr; vm_compute; reflexivity).
       destruct r as [rs| |]; [|discriminate Hok..].
       exists (mined_block_hash rs). eapply (Hboot miner_key _ 1%nat w1 (mined_block_hash rs)); [vm_compute; reflexivity|].
       exact (bootstrap_one 8 node _ 0 node None w1 rs (bootstrap_none 8 node _) Hr). }
  assert (Transaction_txid Demo.payment = Some Demo.payment_id) as Hid by vm_decide.
  destruct (Server_handle_message 8 (WAnnounceTx Demo.payment) node) as [w' r] eqn:Hr.
  destruct (Htx Demo.payment Demo.payment_id w' r Hid Hr) as [Hok _].
  assert (is_ok r = true) as Hok'.
  { change r with ((w', r).2). rewrite <-Hr. vm_compute. reflexivity. }
  destruct r as [rs| |]; [exact (Hok rs eq_refl)|discriminate Hok'|discriminate Hok'].
Defined.

Lemma command_writes_only_witness :
  disk_files (cli_disk (run 8 (DebugCmd (MinePending mine)) cli).1) !! wallet_path DemoHome.home
  = disk_files (cli_disk cli) !! wallet_path DemoHome.home.
Proof. apply (command_writes_only 8 (DebugCmd (MinePending mine)) cli). vm_decide. Defined.

Lemma pay_correct_witness :
  ∃ tx, tx_valid (active_utxos DemoNode.s1) tx 0
    ∧ head (outputs tx) = Some {| value := 30; locking_data := verifying_key_bytes DemoHome.other_key |}
    ∧ ((run_pay pay cli).2 = Ok () ↔ is_ok (submit_answer NodeConfig_default tx) = true).
Proof.
  destruct (pay_correct pay cli DemoHome.home NodeConfig_default wallet DemoStore.db1 DemoNode.s1
    DemoHome.other_key x05 eq_refl holds (proj1 DemoStore.db1_stores) (proj1 DemoNode.inv1)
    ltac:(vm_decide) ltac:(vm_decide) ltac:(vm_decide) eq_refl eq_refl eq_refl ltac:(vm_decide))
    as [[Hlt _]|(tx & id & change & _ & _ & Hv & _ & Ho & Hrun)].
  - apply Z.ltb_lt in Hlt. vm_compute in Hlt. done.
  - exists tx. split; [exact Hv|]. rewrite Ho, Hrun. split; [reflexivity|].
    clear Hv Ho Hrun. destruct (submit_answer NodeConfig_default tx); cbn [snd is_ok];
      split; intros Heq; first [reflexivity | discriminate Heq].
Defined.

Lemma files : debug_files cli (mp_home mine) None None (state_path DemoHome.home) wallet DemoStore.db1
  DemoNode.s1.
Proof.
  refine (Build_debug_files cli (mp_home mine) None None (state_path DemoHome.home) wallet DemoStore.db1
    DemoNode.s1 cli_healthy _ (hh_db _ _ _ _ _ holds) db1_loads (proj1 DemoNode.inv1)).
  exists (wallet_path DemoHome.home). split; [reflexivity|exact (disk_wallet _)].
Qed.

Lemma debug_mine_pending_correct_witness :
  ∃ db' lines, stores db' DemoNode.mined.1
    ∧ run_debug 64 (MinePending mine) cli
      = (printed (saved cli (state_path DemoHome.home) db') lines, Ok ()).
Proof.
  destruct (debug_mine_pending_correct 64 mine cli (state_path DemoHome.home) wallet DemoStore.db1
    DemoNode.s1 DemoBlocks.easy_bits files (proj2 DemoNode.inv1) ltac:(vm_decide) ltac:(vm_decide)
    ltac:(vm_decide) ltac:(vm_decide) ltac:(vm_decide) ltac:(vm_decide)) as (vk & Hvk & H).
  assert (vk = x05) as -> by (injection Hvk as <-; reflexivity).
  change (NodeState_mine_block _ _ _ _ _ _ _) with DemoNode.mined in H.
  assert (is_ok DemoNode.mined.2 = true) as Hok by (vm_compute; reflexivity).
  destruct DemoNode.mined as [s' [hash|e|]]; [|done..].
  destruct H as (db' & Hst & _ & _ & _ & _ & Hrun). exists db'. eexists. split; [exact Hst|exact Hrun].
Defined.

Lemma run_serve_correct_witness :
  ∃ lines m, run_serve serve cli
    = (printed cli lines, Ok (served NodeConfig_default serve DemoNode.s1 [] DemoStore.db1 (Some m)))
  ∧ config_bits m = 0x207fffff ∧ interval m = 10 ∧ miner_verifying_key m = x05.
Proof.
  pose proof (run_serve_correct serve cli DemoHome.home NodeConfig_default wallet DemoStore.db1
    DemoNode.s1 [] eq_refl holds db1_loads (disk_peers _)) as H.
  assert (load_wallet (reward_path DemoHome.home MiningSection_default serve) (cli_disk cli)
    = (cli_disk cli, Ok wallet)) as Hw by apply disk_wallet.
  cbv zeta in H. change (config_mining NodeConfig_default) with MiningSection_default in H.
  assert (mining_wanted MiningSection_default serve = true) as Hon by reflexivity.
  assert (List.find malformed (bits_texts MiningSection_default serve) = None) as Hf by reflexivity.
  rewrite Hon, Hf, Hw in H. cbn [negb] in H. destruct H as (vk & z & lines & Hvk & Hz & Hrun).
  exists lines. eexists. split; [exact Hrun|]. cbn.
  split; [|split; [reflexivity|by injection Hvk as <-]].
  assert (parse_bits default_mining_bits = Some 0x207fffff) as Hb by vm_decide.
  change (parse_bits default_mining_bits = Some z) in Hz. rewrite Hb in Hz. by injection Hz as <-.
Defined.

Lemma init_then_serve_witness :
  ∃ c1 lines, run_init None {| cli_disk := DemoHome.disk; cli_out := []; cli_sent := [] |} = (c1, Ok ())
    ∧ run_serve (plain_serve None) c1
      = (printed c1 lines,
         Ok (served NodeConfig_default (plain_serve None) NodeState_new [] empty_store None)).
Proof.
  destruct (init_then_serve (W:=surroundings) None DemoHome.home {| cli_disk := DemoHome.disk; cli_out := []; cli_sent := [] |}
    eq_refl eq_refl eq_refl eq_refl DemoHome.home_free) as (c1 & lines & Hi & _ & Hs).
  exists c1, lines. split; [exact Hi|exact Hs].
Defined.

Definition savings : NewKeyCommand := {| nk_name := "savings"; nk_home := None |}.
Definition duplicate : NewKeyCommand := {| nk_name := default_key wallet; nk_home := None |}.

Lemma new_key_correct_witness :
  (run_wallet_new_key savings cli).2 = Ok ()
  ∧ run_wallet_new_key duplicate cli
    = (cli, Err (Some (Failed "wallet new-key failed"
                         (CauseWallet (DuplicateKeyName (default_key wallet)))))).
Proof.
  split.
  - destruct (new_key_correct (W:=surroundings) savings cli DemoHome.home wallet
      eq_refl cli_healthy (disk_wallet _)) as (bs & _ & _ & Hrun). by rewrite Hrun.
  - exact (new_key_correct (W:=surroundings) duplicate cli DemoHome.home wallet
      eq_refl cli_healthy (disk_wallet _)).
Defined.

Lemma environment_returns : EnvironmentReturns environment.
Proof. split; discriminate. Qed.
#[local] Existing Instance environment_returns.

(** The command of [surroundings]: the socket of the server in [node]. *)
Lemma payment_reaches_node_witness :
  ∃ tx id w', Transaction_txid tx = Some id
    ∧ (run_pay (W:=beside surroundings (λ _, EmptyString) (λ _, EmptyString) 8 node) pay cli).2 = Ok ()
    ∧ handle_admin_request (E:=Empty_set) 8 (SubmitTransaction tx) node = (w', Ok (Submitted id))
    ∧ mempool (state (server w')) = {[ id := tx ]}.
Proof.
  destruct (payment_reaches_node surroundings (λ _, EmptyString) (λ _, EmptyString) 8 node pay cli
    DemoHome.home NodeConfig_default wallet DemoStore.db1 DemoHome.other_key x05
    eq_refl holds) as (tx & id & w' & Hid & _ & Hrun & Hreq & Hs & _);
    [split_and!; [reflexivity|by eexists|reflexivity|constructor]|reflexivity
    |exact (proj1 DemoStore.db1_stores)|exact (proj2 DemoStore.db1_stores)|exact (proj1 DemoNode.inv1)
    |vm_decide|vm_decide|vm_decide|vm_decide|reflexivity|reflexivity|split; vm_decide|vm_decide|].
  exists tx, id, w'. rewrite Hs. split_and!; [exact Hid|exact (f_equal snd Hrun)|exact Hreq|reflexivity].
Defined.

(** ** Processes *)

Module DemoProcess.

(** An appender that opens the file of one day. *)
Definition daily (dir prefix : string) : disk_op Empty_set unit := λ d,
  ({| disk_files := <[join dir "server.log.2026-01-01" := []]> (disk_files d);
      disk_dirs := disk_dirs d; disk_faults := disk_faults d |}, Ok ()).

Definition tracing : Tracing := {| rolling_daily := daily; io_display := λ _, EmptyString |}.
#[export] Existing Instance tracing.

Lemma tracing_laws : TracingLaws tracing.
Proof.
  split; [|done|done]. intros dir prefix d p Hp. cbn [rolling_daily tracing daily fst disk_files].
  rewrite lookup_insert_ne; [done|]. intros Heq. symmetry in Heq. revert Heq. by apply Hp.
Qed.
#[export] Existing Instance tracing_laws.

Lemma appending : appends.
Proof. intros dir prefix d _ _. reflexivity. Qed.

End DemoProcess.
Import DemoProcess.

Lemma process_writes_only_witness :
  disk_files (proc_disk (main 8 (λ _, EmptyString) (Serve serve) (boot (cli_disk cli))).1)
    !! wallet_path DemoHome.home
  = disk_files (cli_disk cli) !! wallet_path DemoHome.home.
Proof.
  apply (process_writes_only 8 (λ _, EmptyString) (Serve serve) (boot (cli_disk cli))); [vm_decide|].
  intros (h & name & Hh & Hn & Hne & Heq). injection Hh as <-.
  apply (not_log_file DemoHome.home (wallet_path DemoHome.home) name Hn Hne); [|exact Heq].
  right. right. home_file.
Defined.

Lemma first_run_witness :
  ∃ p1 p2 p3 sv,
    main 8 (λ _, EmptyString) (Serve (plain_serve None)) (boot DemoHome.disk) = (p1, Exited 1)
    ∧ main 8 (λ _, EmptyString) (Init None) (boot (proc_disk p1)) = (p2, Exited 0)
    ∧ main 8 (λ _, EmptyString) (Serve (plain_serve None)) (boot (proc_disk p2)) = (p3, Started sv).
Proof.
  destruct (first_run (W:=surroundings) 8 (λ _, EmptyString) None DemoHome.home DemoHome.disk eq_refl appending eq_refl eq_refl
    eq_refl DemoHome.home_free) as (p1 & p2 & p3 & H1 & _ & _ & _ & H2 & H3 & _).
  exists p1, p2, p3. eexists. split; [exact H1|]. split; [exact H2|exact H3].
Defined.

Lemma one_shot_served_witness :
  request_tip (λ _, EmptyString)
    (λ _, Ok (served_stream (λ _, EmptyString) 8 "peer-1" node [WHello (client_hello NodeConfig_default); WGetTip]))
    (λ _, Ok ()) "127.0.0.1:9000" NodeConfig_default
  = Ok (tip_summary DemoNode.s1).
Proof.
  destruct (one_shot_served (λ _, EmptyString) 8 "peer-1" NodeConfig_default "127.0.0.1:9000" node BlockHash_default)
    as [H _]; [vm_compute; reflexivity|].
  rewrite bool_decide_eq_true_2 in H by reflexivity. exact (proj1 H).
Defined.
